(** * Notion template instantiator: bounded concurrency, retry, replication

    A shallow embedding of the core helpers of [index.js] and of the
    signature check of the two backend templates:

    - [Retry]      : [withRetry]     (index.js, lines 52-68)
    - [Limiter]    : [createLimit]   (index.js, lines 28-48)
    - [Sanitize]   : [sanitizeBlocks] (index.js, lines 101-116)
    - [Replicator] : [cloneBlocksRecursive] (index.js, lines 118-141)
    - [Signing]    : [buildActionUrl] (index.js, lines 465-479) and
                     [verifySignature] of both backend templates.

    and of what surrounds them:

    - [Client]     : [ensureClient]  (index.js, lines 16-25)
    - [Pagination] : [getAllBlocks]  (index.js, lines 71-81)
    - [Js]         : the document values the installer handles
    - [Schema]     : [transformPropertiesToCreate], [buildDbProperties],
                     [getPageTitleText], the rows of [createSeeds]
    - [Api]        : asynchronous functions and the calls they make
    - [Installer]  : [exportMaster], [createFromJsonTemplate],
                     [cloneFromMaster], [createRelationPlaceholders],
                     [createSeeds]
    - [Worker]     : the handler of the Workers backend template
    - [Vercel]     : the handler of the Vercel backend template. *)

From Stdlib Require Import ZArith Lia ZifyNat Bool List String Ascii DecimalString.
From stdpp Require Import base list gmap.
Import ListNotations.

Set Warnings "-clear-no-such-hyp,-register-all".

(** A settled promise: fulfilled with a value or rejected with an error. *)
Inductive settled (V E : Type) : Type :=
| Fulfilled (v : V)
| Rejected (e : E).
Arguments Fulfilled {V E} v.
Arguments Rejected {V E} e.

(* ================================================================== *)
(** * ensureClient *)
(* ================================================================== *)

Module Client.
Local Open Scope string_scope.

(** The variable [notion] that [ensureClient] reads and assigns.
    index.js declares no such variable, so that reading it throws a
    [ReferenceError]; the earlier state of the file that follows it in
    src/index.js has [let notion = null;]. *)
Inductive binding : Type :=
| Undeclared
| Null
| Created.

(** What [ensureClient] depends on: the variable and the two
    environment variables it reads, each a string or [undefined]. *)
Record env : Type := mkEnv {
  notion : binding;
  NOTION_TOKEN : option string;
  NOTION_API_KEY : option string
}.

(** What [ensureClient] throws: the [ReferenceError] of an undeclared
    [notion], or [new Error('\nMissing Notion token. ...')]. *)
Inductive failure : Type :=
| ReferenceError
| MissingToken.

Definition truthy (v : option string) : bool :=
  match v with
  | Some s => negb (String.eqb s "")
  | None => false
  end.

(** [ensureClient()] (index.js, lines 16-25): the environment it
    leaves, in which [notion] is the client it returns, or what it
    throws. *)
Definition ensureClient (e : env) : settled env failure :=
  match notion e with
  | Undeclared => Rejected ReferenceError
  | Created => Fulfilled e
  | Null =>
      (* const token = process.env.NOTION_TOKEN
                       || process.env.NOTION_API_KEY; *)
      let token := if truthy (NOTION_TOKEN e) then NOTION_TOKEN e
                   else NOTION_API_KEY e in
      if negb (truthy token) then Rejected MissingToken
      else Fulfilled (mkEnv Created (NOTION_TOKEN e) (NOTION_API_KEY e))
  end.

(** index.js when one of its functions is called: no variable
    [notion], whatever the environment variables. *)
Definition index_js (token key : option string) : env :=
  mkEnv Undeclared token key.

(** What a call of [ensureClient] does for its caller: it returns or
    it throws, [thrown] giving the error as the caller holds it.  A
    call that returned leaves an environment in which every later call
    returns, and a call that threw leaves the environment as it was:
    the first call decides for all. *)
Definition outcome_as {E} (thrown : failure -> E) (e : env)
    : settled unit E :=
  match ensureClient e with
  | Fulfilled _ => Fulfilled tt
  | Rejected f => Rejected (thrown f)
  end.

Definition outcome (e : env) : settled unit failure :=
  outcome_as (fun f => f) e.

End Client.

(* ================================================================== *)
(** * withRetry *)
(* ================================================================== *)

Module Retry.
Local Open Scope Z_scope.

(** An error thrown by an operation.  [err_tag] identifies the error
    object; [status] and [statusCode] are the two optional numeric
    members read by [err?.status || err?.statusCode] ([None] is
    [undefined]). *)
Record error : Type := mkError {
  err_tag : nat;
  status : option Z;
  statusCode : option Z
}.

(** Truthiness of an optional number: [undefined] and [0] are falsy. *)
Definition truthy_num (o : option Z) : bool :=
  match o with
  | Some n => negb (n =? 0)
  | None => false
  end.

(** [const status = err?.status || err?.statusCode;] *)
Definition status_of (err : error) : option Z :=
  if truthy_num (status err) then status err else statusCode err.

(** [(status && status < 500 && status !== 429)] *)
Definition fatal (st : option Z) : bool :=
  match st with
  | Some n => negb (n =? 0) && (n <? 500) && negb (n =? 429)
  | None => false
  end.



Section WithValue.
Context {V : Type}.

(** The operation [fn] is a zero-argument callable; its [k]-th
    invocation (counted from 0) settles as [fn k]. *)
Definition operation : Type := nat -> settled V error.

(** What one call of [withRetry] did: how it settled, how many times it
    invoked [fn], and the delays (ms) it passed to [setTimeout], in
    order. *)
Record run : Type := mkRun {
  result : settled V error;
  invocations : nat;
  sleeps : list Z
}.

(** The [while (true)] loop.  [attempt] and [wait] are the two local
    variables; [calls] counts the invocations made so far and [slept]
    records the delays waited so far.  One unit of [fuel] is one
    iteration. *)
Fixpoint withRetry_loop (fuel : nat) (fn : operation)
    (attempt wait : Z) (calls : nat) (slept : list Z) : option run :=
  match fuel with
  | O => None
  | S fuel' =>
      match fn calls with
      | Fulfilled v => Some (mkRun (Fulfilled v) (S calls) slept)
      | Rejected err =>
          let attempt := attempt + 1 in
          let st := status_of err in
          if (attempt >=? 5) || fatal st
          then Some (mkRun (Rejected err) (S calls) slept)
          else withRetry_loop fuel' fn attempt (Z.min (wait * 2) 5000)
                 (S calls) (slept ++ [wait])
      end
  end.

(** [let attempt = 0; let wait = 500; while (true) ...] *)
Definition withRetry (fuel : nat) (fn : operation) : option run :=
  withRetry_loop fuel fn 0 500 0%nat [].

(** The value of [wait] after [k] retryable failures:
    [wait = 500] and then [wait = Math.min(wait * 2, 5000)] each time. *)
Fixpoint backoff (k : nat) : Z :=
  match k with
  | O => 500
  | S k' => Z.min (backoff k' * 2) 5000
  end.

(** A failure the executor retries: not fatal. *)
Definition retryable (err : error) : bool := negb (fatal (status_of err)).

(** The first [k] invocations of [fn] all fail with retryable errors. *)
Definition fails_retryably (fn : operation) (k : nat) : Prop :=
  forall i, (i < k)%nat -> exists e, fn i = Rejected e /\ retryable e = true.

End WithValue.
Arguments operation V : clear implicits.
Arguments run V : clear implicits.

End Retry.

(* ================================================================== *)
(** * createLimit *)
(* ================================================================== *)

Module Limiter.
Local Open Scope Z_scope.

(** A submitted task is named by its submission index: the [k]-th call
    of the limiter (from 0) pushes the item of task [k]. *)
Abbreviation task := nat (only parsing).

Section WithTypes.
Context {V E : Type}.

(** The closure of [createLimit(concurrency)]: the parameter, the two
    variables [active] and [queue], and the part of the event loop the
    closure lives in: the pending [setImmediate(next)] callbacks, the
    tasks whose promise [item.fn()] is pending ([running]), the tasks
    whose [.finally] callback is still to run ([finishing]), and the
    promises handed back to the callers ([returned]).  [started] logs
    the order of the [item.fn()] calls. *)
Record state : Type := mkState {
  concurrency : Z;
  active : Z;
  queue : list task;
  timers : nat;
  submitted : nat;
  started : list task;
  running : gset task;
  finishing : gset task;
  returned : gmap task (settled V E)
}.

(** [let active = 0; const queue = [];] *)
Definition createLimit (n : Z) : state :=
  mkState n 0 [] 0 0 [] ∅ ∅ ∅.

(** [next]: return when [active >= concurrency]; shift the queue and
    return when it was empty; otherwise [active++] and call
    [item.fn()]. *)
Definition next (s : state) : state :=
  if active s >=? concurrency s then s
  else match queue s with
       | [] => s
       | t :: q =>
           mkState (concurrency s) (active s + 1) q (timers s)
             (submitted s) (started s ++ [t]) ({[t]} ∪ running s)
             (finishing s) (returned s)
       end.

(** [(fn) => new Promise((resolve, reject) => { queue.push(...);
    setImmediate(next); })] *)
Definition submit (s : state) : state :=
  mkState (concurrency s) (active s) (queue s ++ [submitted s])
    (S (timers s)) (S (submitted s)) (started s) (running s)
    (finishing s) (returned s).

(** Settling a promise that is already settled does nothing. *)
Definition settle_once (m : gmap task (settled V E)) (t : task)
    (o : settled V E) : gmap task (settled V E) :=
  match m !! t with
  | Some _ => m
  | None => <[t := o]> m
  end.

(** [item.resolve(res)] and [item.reject(err)]. *)
Definition item_resolve (t : task) (res : V) (s : state) : state :=
  mkState (concurrency s) (active s) (queue s) (timers s) (submitted s)
    (started s) (running s) (finishing s)
    (settle_once (returned s) t (Fulfilled res)).

Definition item_reject (t : task) (err : E) (s : state) : state :=
  mkState (concurrency s) (active s) (queue s) (timers s) (submitted s)
    (started s) (running s) (finishing s)
    (settle_once (returned s) t (Rejected err)).

(** [p.then(h)]: [h] runs on fulfilment and its promise is fulfilled
    with what [h] returns ([undefined]); a rejection passes through. *)
Definition p_then {A} (p : settled A E) (h : A -> state -> state)
    (s : state) : settled unit E * state :=
  match p with
  | Fulfilled v => (Fulfilled tt, h v s)
  | Rejected e => (Rejected e, s)
  end.

(** [p.catch(h)]: [h] runs on rejection; a fulfilment passes through. *)
Definition p_catch (p : settled unit E) (h : E -> state -> state)
    (s : state) : settled unit E * state :=
  match p with
  | Fulfilled v => (Fulfilled v, s)
  | Rejected e => (Fulfilled tt, h e s)
  end.

(** [p.finally(h)]: [h] runs however [p] settled. *)
Definition p_finally (p : settled unit E) (h : state -> state)
    (s : state) : settled unit E * state :=
  (p, h s).

(** [.then((res) => item.resolve(res)).catch((err) => item.reject(err))]
    once the promise of task [t] has settled as [o]; the [.finally]
    callback is then pending. *)
Definition settle (t : task) (o : settled V E) (s : state) : state :=
  let '(p1, s1) := p_then o (item_resolve t) s in
  let '(_, s2) := p_catch p1 (item_reject t) s1 in
  mkState (concurrency s2) (active s2) (queue s2) (timers s2)
    (submitted s2) (started s2) (running s2 ∖ {[t]})
    ({[t]} ∪ finishing s2) (returned s2).

(** [.finally(() => { active--; next(); })] *)
Definition release (t : task) (s : state) : state :=
  snd (p_finally (Fulfilled tt)
         (fun s0 =>
            next (mkState (concurrency s0) (active s0 - 1) (queue s0)
                    (timers s0) (submitted s0) (started s0) (running s0)
                    (finishing s0 ∖ {[t]}) (returned s0)))
         s).

(** What can happen to the closure: a caller submits a task; a
    [setImmediate(next)] callback runs; the promise of a running task
    settles; a [.finally] callback runs. *)
Inductive event : Type :=
| Submit
| Tick
| Settle (t : task) (o : settled V E)
| Finally (t : task).

Definition step (s : state) (ev : event) : option state :=
  match ev with
  | Submit => Some (submit s)
  | Tick =>
      match timers s with
      | O => None
      | S n =>
          Some (next (mkState (concurrency s) (active s) (queue s) n
                        (submitted s) (started s) (running s)
                        (finishing s) (returned s)))
      end
  | Settle t o =>
      if decide (t ∈ running s) then Some (settle t o s) else None
  | Finally t =>
      if decide (t ∈ finishing s) then Some (release t s) else None
  end.

Fixpoint run (s : state) (evs : list event) : option state :=
  match evs with
  | [] => Some s
  | ev :: evs' =>
      match step s ev with
      | Some s' => run s' evs'
      | None => None
      end
  end.

(** The states of a limiter created with ceiling [n]. *)
Definition reachable (n : Z) (s : state) : Prop :=
  exists evs, run (createLimit n) evs = Some s.

(** Events of the event loop itself, as opposed to a caller's. *)
Definition internal (ev : event) : Prop := ev <> Submit.

(** Nothing is left for the event loop to do: no [next] callback is
    pending, no task is executing, no [.finally] callback is pending. *)
Definition idle (s : state) : Prop :=
  timers s = O /\ running s = ∅ /\ finishing s = ∅.

(** Every promise the limiter has returned is settled. *)
Definition all_settled (s : state) : Prop :=
  forall t, (t < submitted s)%nat -> is_Some (returned s !! t).

(** An upper bound on the internal events still to come. *)
Definition work (s : state) : nat :=
  3 * length (queue s) + 2 * size (running s) + size (finishing s)
  + timers s.

(** What every reachable state satisfies.  [active] counts the tasks
    between their [item.fn()] call and their [.finally] callback; the
    start log followed by the queue is the list of all submitted tasks
    in submission order; a task is running, finishing or settled only
    after it was started. *)
Record inv_core (n : Z) (s : state) : Prop := {
  core_conc : concurrency s = n;
  core_active : active s = Z.of_nat (size (running s) + size (finishing s));
  core_bound : active s <= n;
  core_fifo : started s ++ queue s = seq 0 (submitted s);
  core_disj : running s ## finishing s;
  core_running :
    forall t, t ∈ running s -> t ∈ started s /\ returned s !! t = None;
  core_finishing :
    forall t, t ∈ finishing s -> t ∈ started s /\ is_Some (returned s !! t);
  core_started :
    forall t, t ∈ started s -> t ∈ running s \/ is_Some (returned s !! t);
  core_returned :
    forall t, is_Some (returned s !! t) -> t ∈ started s
}.

(** With free capacity every queued task has a [next] callback
    pending. *)
Record inv (n : Z) (s : state) : Prop := {
  inv_core_of : inv_core n s;
  inv_timers : active s < n -> (length (queue s) <= timers s)%nat
}.

(** With a ceiling of 0 or less the guard of [next] never lets a task
    through: nothing starts, nothing settles, everything stays queued. *)
Definition starved (n : Z) (s : state) : Prop :=
  concurrency s = n /\ active s = 0 /\ started s = [] /\
  running s = ∅ /\ finishing s = ∅ /\ returned s = ∅ /\
  queue s = seq 0 (submitted s).

End WithTypes.
Arguments state V E : clear implicits.
Arguments event V E : clear implicits.

End Limiter.

(* ================================================================== *)
(** * sanitizeBlocks *)
(* ================================================================== *)

Module Sanitize.
Local Open Scope string_scope.

(** Objects and arrays have an identity: [loc] names the allocation. *)
Abbreviation loc := nat (only parsing).

(** JavaScript values as this function meets them: the values of a
    parsed JSON document, [undefined], and the built-in functions an
    object inherits ([VFun]).  Numbers are integers here.  The members
    of an object are listed in its own enumeration order. *)
Inductive value : Type :=
| VUndef
| VNull
| VBool (b : bool)
| VNum (n : Z)
| VStr (s : string)
| VFun
| VArr (l : loc) (items : list value)
| VObj (l : loc) (props : list (string * value)).

Inductive exn : Type := TypeError | SyntaxError.

(** A computation that allocates and may throw: it takes the next free
    location and returns a value with the next free location, or an
    exception; [Unmodelled] where the computation leaves what is
    described here (the text of a number that is no safe integer). *)
Inductive res (A : Type) : Type :=
| Ok (a : A) (n : loc)
| Throw (e : exn)
| Unmodelled.
Arguments Ok {A} a n.
Arguments Throw {A} e.
Arguments Unmodelled {A}.

Definition M (A : Type) : Type := loc -> res A.

Definition ret {A} (a : A) : M A := fun n => Ok a n.

Definition bind {A B} (c : M A) (k : A -> M B) : M B :=
  fun n => match c n with
           | Ok a n' => k a n'
           | Throw e => Throw e
           | Unmodelled => Unmodelled
           end.

Definition throw {A} (e : exn) : M A := fun _ => Throw e.

Definition unmodelled {A} : M A := fun _ => Unmodelled.

(** Allocating an object or array. *)
Definition alloc : M loc := fun n => Ok n (S n).

Notation "x <- c ;; k" := (bind c (fun x => k))
  (at level 100, c at next level, right associativity).

Fixpoint mapM {A B} (f : A -> M B) (xs : list A) : M (list B) :=
  match xs with
  | [] => ret []
  | x :: xs' => y <- f x ;; ys <- mapM f xs' ;; ret (y :: ys)
  end.

(** Truthiness. *)
Definition truthy (v : value) : bool :=
  match v with
  | VUndef | VNull => false
  | VBool b => b
  | VNum n => negb (n =? 0)%Z
  | VStr s => negb (String.eqb s "")
  | VFun | VArr _ _ | VObj _ _ => true
  end.

Definition nullish (v : value) : bool :=
  match v with
  | VUndef | VNull => true
  | _ => false
  end.

Fixpoint lookup (k : string) (props : list (string * value)) : option value :=
  match props with
  | [] => None
  | (k', v) :: props' => if String.eqb k k' then Some v else lookup k props'
  end.

(** [o[k] = v] on a plain object: an existing member is replaced in
    place, a new one is added last. *)
Fixpoint obj_set (props : list (string * value)) (k : string) (v : value)
    : list (string * value) :=
  match props with
  | [] => [(k, v)]
  | (k', v') :: props' =>
      if String.eqb k k' then (k', v) :: props'
      else (k', v') :: obj_set props' k v
  end.

(** The function-valued members every plain object inherits from
    [Object.prototype].  The accessor [__proto__] is not modelled. *)
Definition inherited (k : string) : bool :=
  existsb (String.eqb k)
    ["constructor"; "toString"; "toLocaleString"; "valueOf";
     "hasOwnProperty"; "isPrototypeOf"; "propertyIsEnumerable";
     "__defineGetter__"; "__defineSetter__"; "__lookupGetter__";
     "__lookupSetter__"].

(** [v[k]] for a [v] that is not [null] or [undefined].  For a plain
    object: its own member, else an inherited function, else
    [undefined].  For the other values only the keys this function asks
    for matter ([type], [has_children], [rich_text], ["undefined"]), and
    none of them is defined on a primitive, an array or a function. *)
Definition get (v : value) (k : string) : value :=
  match v with
  | VObj _ props =>
      match lookup k props with
      | Some x => x
      | None => if inherited k then VFun else VUndef
      end
  | _ => VUndef
  end.

(** [v[k]], throwing when [v] is [null] or [undefined]. *)
Definition get_strict (v : value) (k : string) : M value :=
  if nullish v then throw TypeError else ret (get v k).

(** [v?.[k]] *)
Definition get_opt (v : value) (k : string) : value :=
  if nullish v then VUndef else get v k.

Definition string_of_Z (n : Z) : string :=
  DecimalString.NilZero.string_of_int (Z.to_int n).

Definition string_of_nat (n : nat) : string :=
  DecimalString.NilZero.string_of_uint (Nat.to_uint n).

(** The outcome of [ToString] on a value used as a property key: the
    key, a [TypeError] ([NoKey]), or a text that is not described here
    ([OtherKey]). *)
Inductive key : Type :=
| Key (k : string)
| NoKey
| OtherKey.

(** [Number.MAX_SAFE_INTEGER] *)
Definition max_safe_integer : Z := 9007199254740991.

(** [ToString] of a JSON value used as a property key.  A safe integer
    is written in decimal; the digits of a larger number, and the
    exponent notation from [1e21] on, are not described.  An array
    joins its elements with commas, [null] and [undefined] elements
    giving the empty string; a plain object gives ["[object Object]"]
    unless it has a member [toString] of its own, which is not
    callable, and then the conversion throws. *)
Fixpoint to_key (v : value) : key :=
  match v with
  | VUndef => Key "undefined"
  | VNull => Key "null"
  | VBool true => Key "true"
  | VBool false => Key "false"
  | VNum n =>
      if (Z.abs n <=? max_safe_integer)%Z then Key (string_of_Z n)
      else OtherKey
  | VStr s => Key s
  | VFun => Key "function () { [native code] }"
  | VArr _ items =>
      (fix join (xs : list value) : key :=
         match xs with
         | [] => Key ""
         | x :: xs' =>
             match (if nullish x then Key "" else to_key x), join xs' with
             | Key a, Key b =>
                 Key (match xs' with [] => a | _ => a ++ "," ++ b end)
             | NoKey, _ | _, NoKey => NoKey
             | _, _ => OtherKey
             end
         end) items
  | VObj _ props =>
      match lookup "toString" props with
      | Some _ => NoKey
      | None => Key "[object Object]"
      end
  end.

(** [JSON.stringify] leaves out a member whose value is [undefined] or
    a function, and writes such an array element as [null]. *)
Definition omitted (v : value) : bool :=
  match v with
  | VUndef | VFun => true
  | _ => false
  end.

Definition clone_items (f : value -> loc -> value * loc)
    : list value -> loc -> list value * loc :=
  fix go xs n :=
    match xs with
    | [] => ([], n)
    | x :: xs' =>
        let '(x', n1) := f x n in
        let '(r, n2) := go xs' n1 in
        (x' :: r, n2)
    end.

Definition clone_props (f : value -> loc -> value * loc)
    : list (string * value) -> loc -> list (string * value) * loc :=
  fix go ps n :=
    match ps with
    | [] => ([], n)
    | (k, x) :: ps' =>
        if omitted x then go ps' n
        else
          let '(x', n1) := f x n in
          let '(r, n2) := go ps' n1 in
          ((k, x') :: r, n2)
    end.

(** What [JSON.parse(JSON.stringify(v))] builds from a [v] inside a
    document: every array and object is allocated anew. *)
Fixpoint clone (v : value) (n : loc) : value * loc :=
  match v with
  | VUndef | VFun => (VNull, n)
  | VNull | VBool _ | VNum _ | VStr _ => (v, n)
  | VArr _ items =>
      let '(items', n') := clone_items clone items (S n) in
      (VArr n items', n')
  | VObj _ props =>
      let '(props', n') := clone_props clone props (S n) in
      (VObj n props', n')
  end.

(** [JSON.parse(JSON.stringify(v))]: [JSON.stringify] of [undefined] or
    of a function is [undefined], which [JSON.parse] rejects. *)
Definition json_roundtrip (v : value) : M value :=
  if omitted v then throw SyntaxError
  else fun n => let '(v', n') := clone v n in Ok v' n'.

(** The members copied by the spread [{ ...v }]: those of an object,
    the elements of an array or the characters of a string under their
    indices, nothing otherwise. *)
Fixpoint indexed (i : nat) (xs : list value) : list (string * value) :=
  match xs with
  | [] => []
  | x :: xs' => (string_of_nat i, x) :: indexed (S i) xs'
  end.

Definition chars (s : string) : list value :=
  map (fun c => VStr (String c EmptyString)) (list_ascii_of_string s).

Definition spread (v : value) : M value :=
  l <- alloc ;;
  ret (VObj l match v with
              | VObj _ props => props
              | VArr _ items => indexed 0 items
              | VStr s => indexed 0 (chars s)
              | _ => []
              end).

(** [rt.map(f)]: only an array has a [map] that is a function. *)
Definition array_map (f : value -> M value) (v : value) : M value :=
  match v with
  | VArr _ items => l <- alloc ;; items' <- mapM f items ;; ret (VArr l items')
  | _ => throw TypeError
  end.

(** The callback of [blocks.map]. *)
Definition sanitizeBlock (b : value) : M value :=
  (* const { type } = b; *)
  type <- get_strict b "type" ;;
  (* const base = { type }; *)
  l <- alloc ;;
  let base := [("type", type)] in
  (* if (b[type]) base[type] = JSON.parse(JSON.stringify(b[type])); *)
  match to_key type with
  | NoKey => throw TypeError
  | OtherKey => unmodelled
  | Key k =>
      base <- (if truthy (get b k)
               then c <- json_roundtrip (get b k) ;; ret (obj_set base k c)
               else ret base) ;;
      (* if (base[type]?.rich_text)
           base[type].rich_text = base[type].rich_text.map(rt => ({ ...rt })); *)
      let payload := get (VObj l base) k in
      base <- (if truthy (get_opt payload "rich_text")
               then rich <- array_map spread (get payload "rich_text") ;;
                    match payload with
                    | VObj lp pp =>
                        ret (obj_set base k
                               (VObj lp (obj_set pp "rich_text" rich)))
                    | _ => ret base
                    end
               else ret base) ;;
      (* if (b.has_children) base.has_children = true; *)
      let base := if truthy (get b "has_children")
                  then obj_set base "has_children" (VBool true)
                  else base in
      ret (VObj l base)
  end.

(** [blocks.map(...).filter(Boolean)] *)
Definition sanitizeBlocks (blocks : list value) : M (list value) :=
  out <- mapM sanitizeBlock blocks ;;
  ret (filter (fun v => truthy v = true) out).

(** The content of a value, identities forgotten. *)
Fixpoint erase (v : value) : value :=
  match v with
  | VArr _ items => VArr 0 (map erase items)
  | VObj _ props => VObj 0 (map (fun kv => (fst kv, erase (snd kv))) props)
  | _ => v
  end.

(** Every object and array of [v] was allocated at [n] or later. *)
Fixpoint fresh_from (n : loc) (v : value) : Prop :=
  match v with
  | VArr l items =>
      n <= l /\ (fix all xs := match xs with
                               | [] => True
                               | x :: xs' => fresh_from n x /\ all xs'
                               end) items
  | VObj l props =>
      n <= l /\ (fix all ps := match ps with
                               | [] => True
                               | kv :: ps' => fresh_from n (snd kv) /\ all ps'
                               end) props
  | _ => True
  end.

(** A value of a JSON document: no [undefined], no function. *)
Fixpoint json (v : value) : Prop :=
  match v with
  | VUndef | VFun => False
  | VArr _ items =>
      (fix all xs := match xs with
                     | [] => True
                     | x :: xs' => json x /\ all xs'
                     end) items
  | VObj _ props =>
      (fix all ps := match ps with
                     | [] => True
                     | kv :: ps' => json (snd kv) /\ all ps'
                     end) props
  | _ => True
  end.

Definition is_object (v : value) : Prop :=
  match v with
  | VObj _ _ => True
  | _ => False
  end.

(** What the description of the function promises for a block [b] with
    key [k]: the type discriminator, the payload when there is one, the
    marker [has_children: true] when it is set on the source. *)
Definition expected (b : value) (k : string) : value :=
  let base := [("type", get b "type")] in
  let base := if truthy (get b k) then obj_set base k (get b k) else base in
  let base := if truthy (get b "has_children")
              then obj_set base "has_children" (VBool true) else base in
  VObj 0 base.

(** A payload this function copies faithfully: its [rich_text], when
    truthy, is an array of objects. *)
Definition plain_rich_text (payload : value) : Prop :=
  truthy (get_opt payload "rich_text") = true ->
  exists l items, get payload "rich_text" = VArr l items /\
    Forall is_object items.

(** A block as the listing call returns it: an object of a JSON
    document, whose [type] converts to the key [k], with nothing but a
    member of its own under [k] and a payload as above.  The keys
    [has_children] and [__proto__] are set apart: the first is taken by
    the marker, the second is the accessor this model leaves out. *)
Record block_ok (b : value) (k : string) : Prop := {
  ok_object : is_object b;
  ok_json : json b;
  ok_key : to_key (get b "type") = Key k;
  ok_own : get b k <> VFun;
  ok_marker : k <> "has_children";
  ok_proto : k <> "__proto__";
  ok_rich : plain_rich_text (get b k)
}.

(** The members of an object, identities forgotten. *)
Definition erase_props (ps : list (string * value)) : list (string * value) :=
  map (fun kv => (fst kv, erase (snd kv))) ps.

End Sanitize.

(* ================================================================== *)
(** * cloneBlocksRecursive *)
(* ================================================================== *)

Module Replicator.

(** [xs.slice(i, j)] for [i <= j]. *)
Definition slice {A} (i j : nat) (xs : list A) : list A :=
  take (j - i) (drop i xs).

(** The chunks of the loop
    [for (let i = 0; i < sanitized.length; i += 50)
       chunk = sanitized.slice(i, i + 50)],
    one unit of [fuel] per iteration. *)
Fixpoint batches_from {A} (fuel i : nat) (xs : list A) : list (list A) :=
  match fuel with
  | O => []
  | S fuel' =>
      if i <? length xs
      then slice i (i + 50) xs :: batches_from fuel' (i + 50) xs
      else []
  end.

Definition batches {A} (xs : list A) : list (list A) :=
  batches_from (length xs) 0 xs.

Section WithBlocks.

(** A block of the source as the listing returns it, a sanitized block,
    and an error.  [block_id b] is [b.id], [has_children b] the
    truthiness of [b.has_children]; [sanitizeBlocks] returns the
    sanitized list or throws. *)
Context {block sblock E : Type}.
Variable block_id : block -> nat.
Variable has_children : block -> bool.
Variable sanitizeBlocks : list block -> settled (list sblock) E.

(** What [ensureClient()] does in this process ([Client.outcome]): it
    returns, or it throws. *)
Variable ensureClient : settled unit E.

(** The remote calls of one activation: the listing of the children of
    a source block ([getAllBlocks], one request per page) and the
    appending of a chunk under a destination block.  Each goes through
    [withRetry]; its outcome below is the outcome of [withRetry]. *)
Inductive call : Type :=
| CallList (src : nat)
| CallAppend (parent : nat) (children : list sblock).

(** Where an activation of [cloneBlocksRecursive] stands: awaiting the
    listing; inside the loop, awaiting the append of the chunk at [i];
    awaiting [Promise.all] over the promises of its tasks; settled. *)
Inductive phase : Type :=
| PListing
| PCreating (blocks : list block) (sanitized : list sblock) (i : nat)
    (created : list nat)
| PWaiting (blocks : list block) (ts : list nat)
| PDone (ts : list nat) (o : settled unit E).

Record clone : Type := mkClone {
  c_src : nat;
  c_dst : nat;
  c_parent : option nat;
  c_calls : list call;
  c_phase : phase
}.

(** A task handed to [limit]: the activation that made it, the source
    block [blocks[idx]], the id of the block created for it, and the
    activation it awaits once it has started, if any. *)
Record taskinfo : Type := mkTask {
  t_owner : nat;
  t_src : option block;
  t_new : nat;
  t_child : option nat
}.

(** The program state: the one limiter [const limit = createLimit(3)],
    the activations and the tasks by number, and the chunks appended at
    the destination. *)
Record state : Type := mkState {
  lim : Limiter.state unit E;
  clones : list clone;
  tasks : list taskinfo;
  dest : list (nat * list sblock * list nat)
}.

(** An activation up to its first await:
    [ensureClient(); const blocks = await getAllBlocks(sourceBlockId);].
    The listing is issued, or the activation is rejected with what
    [ensureClient] threw. *)
Definition opening (src dst : nat) (parent : option nat) : clone :=
  match ensureClient with
  | Fulfilled _ => mkClone src dst parent [CallList src] PListing
  | Rejected e => mkClone src dst parent [] (PDone [] (Rejected e))
  end.

(** A call [cloneBlocksRecursive(src, dst)] up to its first await. *)
Definition start (src dst : nat) : state :=
  mkState (Limiter.createLimit 3) [opening src dst None] [] [].

Definition set_clone (c : nat) (f : clone -> clone) (s : state) : state :=
  mkState (lim s) (alter f c (clones s)) (tasks s) (dest s).

Definition with_phase (p : phase) (cl : clone) : clone :=
  mkClone (c_src cl) (c_dst cl) (c_parent cl) (c_calls cl) p.

(** The activation settles. *)
Definition finish (c : nat) (ts : list nat) (o : settled unit E)
    (s : state) : state :=
  set_clone c (with_phase (PDone ts o)) s.

(** [created.map((newBlock, idx) => limit(async () => ...))]: one
    submission per created block, in order. *)
Fixpoint submit_all (c : nat) (blocks : list block) (idx : nat)
    (created : list nat) (l : Limiter.state unit E) (ts : list taskinfo)
    : Limiter.state unit E * list taskinfo :=
  match created with
  | [] => (l, ts)
  | nb :: rest =>
      submit_all c blocks (S idx) rest (Limiter.submit l)
        (ts ++ [mkTask c (blocks !! idx) nb None])
  end.

(** [await Promise.all(created.map(...))] up to the await. *)
Definition promise_all (c : nat) (blocks : list block) (created : list nat)
    (s : state) : state :=
  let '(l', ts') := submit_all c blocks 0 created (lim s) (tasks s) in
  mkState l'
    (alter (with_phase
              (PWaiting blocks
                 (seq (Limiter.submitted (lim s)) (length created))))
       c (clones s))
    ts' (dest s).

(** The head of the loop with counter [i]: another chunk is appended,
    or the loop is left. *)
Definition loop (c : nat) (blocks : list block) (sanitized : list sblock)
    (i : nat) (created : list nat) (s : state) : state :=
  if i <? length sanitized
  then set_clone c
         (fun cl =>
            mkClone (c_src cl) (c_dst cl) (c_parent cl)
              (c_calls cl ++ [CallAppend (c_dst cl) (slice i (i + 50) sanitized)])
              (PCreating blocks sanitized i created)) s
  else promise_all c blocks created s.

(** The body of a task, up to its await:
    [const src = blocks[idx];
     if (src?.has_children) await cloneBlocksRecursive(src.id, newBlock.id)]. *)
Definition run_body (t : nat) (s : state) : state :=
  match tasks s !! t with
  | Some ti =>
      match t_src ti with
      | Some b =>
          if has_children b
          then mkState (lim s)
                 (clones s ++ [opening (block_id b) (t_new ti) (Some t)])
                 (<[t := mkTask (t_owner ti) (t_src ti) (t_new ti)
                           (Some (length (clones s)))]> (tasks s))
                 (dest s)
          else s
      | None => s
      end
  | None => s
  end.

(** After the limiter moved from [l] to [lim s]: the task [next] has
    started, if any, runs its body. *)
Definition after_next (l : Limiter.state unit E) (s : state) : state :=
  if length (Limiter.started l) <? length (Limiter.started (lim s))
  then match last (Limiter.started (lim s)) with
       | Some t => run_body t s
       | None => s
       end
  else s.

(** How the promise of a started task has settled, if it has: a task
    without a child activation returned at once; otherwise as the
    activation it awaits. *)
Definition task_outcome (s : state) (t : nat) : option (settled unit E) :=
  match tasks s !! t with
  | Some ti =>
      match t_child ti with
      | None => Some (Fulfilled tt)
      | Some x =>
          match clones s !! x with
          | Some cl =>
              match c_phase cl with
              | PDone _ o => Some o
              | _ => None
              end
          | None => None
          end
      end
  | None => None
  end.

Definition fulfilled (l : Limiter.state unit E) (t : nat) : bool :=
  match Limiter.returned l !! t with
  | Some (Fulfilled _) => true
  | _ => false
  end.

(** What can happen: a [next] callback of the limiter runs; a listing
    or an append comes back; the promise of a task settles and the
    limiter's [then]/[catch] run; a [finally] callback of the limiter
    runs; [Promise.all] settles, fulfilled ([None]) or rejected by the
    task [t] ([Some t]). *)
Inductive event : Type :=
| Tick
| Listed (c : nat) (r : settled (list block) E)
| Appended (c : nat) (r : settled (list nat) E)
| Settle (t : nat)
| Finally (t : nat)
| All (c : nat) (r : option nat).

Definition with_lim (l : Limiter.state unit E) (s : state) : state :=
  mkState l (clones s) (tasks s) (dest s).

Definition step (s : state) (ev : event) : option state :=
  match ev with
  | Tick =>
      match Limiter.step (lim s) Limiter.Tick with
      | Some l' => Some (after_next (lim s) (with_lim l' s))
      | None => None
      end
  | Finally t =>
      match Limiter.step (lim s) (Limiter.Finally t) with
      | Some l' => Some (after_next (lim s) (with_lim l' s))
      | None => None
      end
  | Settle t =>
      match task_outcome s t with
      | Some o =>
          match Limiter.step (lim s) (Limiter.Settle t o) with
          | Some l' => Some (with_lim l' s)
          | None => None
          end
      | None => None
      end
  | Listed c r =>
      match clones s !! c with
      | Some cl =>
          match c_phase cl with
          | PListing =>
              match r with
              | Rejected e => Some (finish c [] (Rejected e) s)
              | Fulfilled blocks =>
                  match sanitizeBlocks blocks with
                  | Rejected e => Some (finish c [] (Rejected e) s)
                  | Fulfilled sanitized => Some (loop c blocks sanitized 0 [] s)
                  end
              end
          | _ => None
          end
      | None => None
      end
  | Appended c r =>
      match clones s !! c with
      | Some cl =>
          match c_phase cl with
          | PCreating blocks sanitized i created =>
              match r with
              | Rejected e => Some (finish c [] (Rejected e) s)
              | Fulfilled ids =>
                  Some (loop c blocks sanitized (i + 50) (created ++ ids)
                          (mkState (lim s) (clones s) (tasks s)
                             (dest s ++
                                [(c_dst cl, slice i (i + 50) sanitized, ids)])))
              end
          | _ => None
          end
      | None => None
      end
  | All c r =>
      match clones s !! c with
      | Some cl =>
          match c_phase cl with
          | PWaiting blocks ts =>
              match r with
              | None =>
                  if forallb (fulfilled (lim s)) ts
                  then Some (finish c ts (Fulfilled tt) s)
                  else None
              | Some t =>
                  if bool_decide (t ∈ ts)
                  then match Limiter.returned (lim s) !! t with
                       | Some (Rejected e) => Some (finish c ts (Rejected e) s)
                       | _ => None
                       end
                  else None
              end
          | _ => None
          end
      | None => None
      end
  end.

Fixpoint run (s : state) (evs : list event) : option state :=
  match evs with
  | [] => Some s
  | ev :: evs' =>
      match step s ev with
      | Some s' => run s' evs'
      | None => None
      end
  end.

Definition reachable (s : state) : Prop :=
  exists src dst evs, run (start src dst) evs = Some s.

(** Reading a state. *)
Definition phase_of (s : state) (c : nat) : option phase :=
  c_phase <$> clones s !! c.

Definition done_as (s : state) (c : nat) (o : settled unit E) : Prop :=
  exists ts, phase_of s c = Some (PDone ts o).

Definition is_fulfilled (s : state) (c : nat) : Prop :=
  done_as s c (Fulfilled tt).

Definition is_rejected (s : state) (c : nat) : Prop :=
  exists e, done_as s c (Rejected e).

Definition is_settled (s : state) (c : nat) : Prop :=
  exists o, done_as s c o.

(** Activation [x] was called by a task that activation [c] made. *)
Definition spawned_by (s : state) (c x : nat) : Prop :=
  exists cl t ti,
    clones s !! x = Some cl /\ c_parent cl = Some t /\
    tasks s !! t = Some ti /\ t_owner ti = c.

(** ... or by a task of an activation below [c]. *)
Inductive below (s : state) (c : nat) : nat -> Prop :=
| below_child x : spawned_by s c x -> below s c x
| below_deeper x y : below s c x -> spawned_by s x y -> below s c y.

(** The tasks an activation has made. *)
Definition waiting_of (p : phase) : list nat :=
  match p with
  | PWaiting _ ts => ts
  | PDone ts _ => ts
  | _ => []
  end.

(** What every reachable state satisfies: the limiter is in a state of
    its own; the tasks are numbered as the limiter numbers its
    submissions; a task belongs to the tasks its owner awaits; a task
    and the activation it called name each other, and the task has
    started; the promise the limiter returned for a task is settled as
    the task's own promise is; a fulfilled activation has all its tasks
    fulfilled. *)
Record rinv (s : state) : Prop := {
  r_lim : Limiter.inv 3 (lim s);
  r_len : length (tasks s) = Limiter.submitted (lim s);
  r_owner : forall t ti, tasks s !! t = Some ti ->
    exists cl, clones s !! t_owner ti = Some cl /\
      t ∈ waiting_of (c_phase cl);
  r_child : forall t ti x, tasks s !! t = Some ti -> t_child ti = Some x ->
    t ∈ Limiter.started (lim s) /\
    exists cl, clones s !! x = Some cl /\ c_parent cl = Some t;
  r_parent : forall x cl t, clones s !! x = Some cl -> c_parent cl = Some t ->
    exists ti, tasks s !! t = Some ti /\ t_child ti = Some x;
  r_settled : forall t o, Limiter.returned (lim s) !! t = Some o ->
    task_outcome s t = Some o;
  r_fulfilled : forall c cl ts, clones s !! c = Some cl ->
    c_phase cl = PDone ts (Fulfilled tt) ->
    forall t, t ∈ ts -> Limiter.returned (lim s) !! t = Some (Fulfilled tt)
}.

(** Who called whom never changes, and a settled activation stays as
    it settled. *)
Definition stable (s s' : state) : Prop :=
  (forall x cl, clones s !! x = Some cl ->
     exists cl', clones s' !! x = Some cl' /\ c_parent cl' = c_parent cl /\
       (forall ts o, c_phase cl = PDone ts o -> c_phase cl' = PDone ts o)) /\
  (forall t ti, tasks s !! t = Some ti ->
     exists ti', tasks s' !! t = Some ti' /\ t_owner ti' = t_owner ti) /\
  (exists d, dest s' = dest s ++ d).

(** The remote calls an activation has made, by where it stands:
    awaiting the listing, the listing alone; awaiting the append of the
    chunk at [i = 50 k], the listing and the first [k + 1] batches;
    past the loop, the listing and all the batches, in order; rejected,
    nothing (by [ensureClient]) or the listing and some first
    batches. *)
Definition calls_ok (cl : clone) : Prop :=
  match c_phase cl with
  | PListing => c_calls cl = [CallList (c_src cl)]
  | PCreating blocks sanitized i created =>
      sanitizeBlocks blocks = Fulfilled sanitized /\
      exists k, i = 50 * k /\ i < length sanitized /\
        c_calls cl = CallList (c_src cl)
                     :: (CallAppend (c_dst cl) <$> take (S k) (batches sanitized))
  | PWaiting blocks _ =>
      exists sanitized, sanitizeBlocks blocks = Fulfilled sanitized /\
        c_calls cl = CallList (c_src cl)
                     :: (CallAppend (c_dst cl) <$> batches sanitized)
  | PDone _ (Fulfilled _) =>
      exists sanitized,
        c_calls cl = CallList (c_src cl)
                     :: (CallAppend (c_dst cl) <$> batches sanitized)
  | PDone _ (Rejected _) =>
      c_calls cl = [] \/
      exists sanitized k,
        c_calls cl = CallList (c_src cl)
                     :: (CallAppend (c_dst cl) <$> take k (batches sanitized))
  end.

(** The events that need neither the network nor a timer: promise
    reactions. *)
Definition reaction (ev : event) : Prop :=
  match ev with
  | Settle _ | All _ _ => True
  | _ => False
  end.

End WithBlocks.

Arguments call sblock : clear implicits.
Arguments phase block sblock E : clear implicits.
Arguments clone block sblock E : clear implicits.
Arguments taskinfo block : clear implicits.
Arguments state block sblock E : clear implicits.
Arguments event block E : clear implicits.

End Replicator.

(* ================================================================== *)
(** * Action links: buildActionUrl and verifySignature *)
(* ================================================================== *)

(** [crypto.createHmac('sha256', secret).update(payload).digest('hex')]
    is Node's HMAC-SHA256.  It is not code of this repository; it is
    written out after FIPS 180-4 and RFC 2104 so that the signature of
    a concrete link can be computed.  Words are numbers below [2^32],
    strings are taken as their bytes. *)
Module Sha256.
Local Open Scope Z_scope.

Definition w32 (x : Z) : Z := x mod 4294967296.
Definition add32 (x y : Z) : Z := w32 (x + y).
Definition rotr (n x : Z) : Z :=
  w32 (Z.lor (Z.shiftr x n) (Z.shiftl x (32 - n))).
Definition not32 (x : Z) : Z := Z.lxor x 4294967295.

Definition ch (x y z : Z) : Z := Z.lxor (Z.land x y) (Z.land (not32 x) z).
Definition maj (x y z : Z) : Z :=
  Z.lxor (Z.lxor (Z.land x y) (Z.land x z)) (Z.land y z).
Definition bsig0 (x : Z) : Z := Z.lxor (Z.lxor (rotr 2 x) (rotr 13 x)) (rotr 22 x).
Definition bsig1 (x : Z) : Z := Z.lxor (Z.lxor (rotr 6 x) (rotr 11 x)) (rotr 25 x).
Definition ssig0 (x : Z) : Z := Z.lxor (Z.lxor (rotr 7 x) (rotr 18 x)) (Z.shiftr x 3).
Definition ssig1 (x : Z) : Z := Z.lxor (Z.lxor (rotr 17 x) (rotr 19 x)) (Z.shiftr x 10).

Definition K : list Z :=
  [1116352408; 1899447441; 3049323471; 3921009573; 961987163; 1508970993;
   2453635748; 2870763221; 3624381080; 310598401; 607225278; 1426881987;
   1925078388; 2162078206; 2614888103; 3248222580; 3835390401; 4022224774;
   264347078; 604807628; 770255983; 1249150122; 1555081692; 1996064986;
   2554220882; 2821834349; 2952996808; 3210313671; 3336571891; 3584528711;
   113926993; 338241895; 666307205; 773529912; 1294757372; 1396182291;
   1695183700; 1986661051; 2177026350; 2456956037; 2730485921; 2820302411;
   3259730800; 3345764771; 3516065817; 3600352804; 4094571909; 275423344;
   430227734; 506948616; 659060556; 883997877; 958139571; 1322822218;
   1537002063; 1747873779; 1955562222; 2024104815; 2227730452; 2361852424;
   2428436474; 2756734187; 3204031479; 3329325298].

Definition H0 : list Z :=
  [1779033703; 3144134277; 1013904242; 2773480762; 1359893119; 2600822924;
   528734635; 1541459225].

(** Big-endian words of a byte list. *)
Fixpoint words_of (bs : list Z) : list Z :=
  match bs with
  | a :: b :: c :: d :: rest =>
      (a * 16777216 + b * 65536 + c * 256 + d) :: words_of rest
  | _ => []
  end.

Definition bytes_of_word (w : Z) : list Z :=
  [Z.shiftr w 24 mod 256; Z.shiftr w 16 mod 256; Z.shiftr w 8 mod 256;
   w mod 256].

(** The message followed by [0x80], zeros up to 56 modulo 64, and the
    bit length on eight bytes. *)
Definition pad (msg : list Z) : list Z :=
  let n := Z.of_nat (length msg) in
  let zeros := Z.to_nat ((55 - n) mod 64) in
  msg ++ [128] ++ repeat 0 zeros
      ++ bytes_of_word (Z.shiftr (8 * n) 32) ++ bytes_of_word (w32 (8 * n)).

(** The message schedule, most recent word first: [rev_w] holds
    [W(t-1), W(t-2), ...]. *)
Fixpoint schedule (k : nat) (rev_w : list Z) : list Z :=
  match k with
  | O => rev_w
  | S k' =>
      let w := add32 (add32 (ssig1 (nth 1 rev_w 0)) (nth 6 rev_w 0))
                 (add32 (ssig0 (nth 14 rev_w 0)) (nth 15 rev_w 0)) in
      schedule k' (w :: rev_w)
  end.

Definition round (st : list Z) (kw : Z * Z) : list Z :=
  match st with
  | [a; b; c; d; e; f; g; h] =>
      let t1 := add32 (add32 (add32 h (bsig1 e)) (ch e f g))
                  (add32 (fst kw) (snd kw)) in
      let t2 := add32 (bsig0 a) (maj a b c) in
      [add32 t1 t2; a; b; c; add32 d t1; e; f; g]
  | _ => st
  end.

Definition compress (st : list Z) (block : list Z) : list Z :=
  let w := rev (schedule 48 (rev block)) in
  let st' := fold_left round (combine K w) st in
  map (fun p => add32 (fst p) (snd p)) (combine st st').

Fixpoint blocks (n : nat) (ws : list Z) : list (list Z) :=
  match n with
  | O => []
  | S n' => firstn 16 ws :: blocks n' (skipn 16 ws)
  end.

Definition sha256 (msg : list Z) : list Z :=
  let ws := words_of (pad msg) in
  let st := fold_left compress (blocks (length ws / 16) ws) H0 in
  concat (map bytes_of_word st).

(** RFC 2104 with a block of 64 bytes. *)
Definition hmac (key msg : list Z) : list Z :=
  let key := if (64 <? Z.of_nat (length key)) then sha256 key else key in
  let key := key ++ repeat 0 (64 - length key) in
  let ikey := map (fun b => Z.lxor b 54) key in
  let okey := map (fun b => Z.lxor b 92) key in
  sha256 (okey ++ sha256 (ikey ++ msg)).

Definition bytes_of_string (s : string) : list Z :=
  map (fun c => Z.of_N (N_of_ascii c)) (list_ascii_of_string s).

Definition hex_digit (d : Z) : ascii :=
  ascii_of_N (Z.to_N (if d <? 10 then 48 + d else 87 + d)).

Definition hex (bs : list Z) : string :=
  string_of_list_ascii
    (concat (map (fun b => [hex_digit (b / 16); hex_digit (b mod 16)]) bs)).

Definition hmac_sha256_hex (secret payload : string) : string :=
  hex (hmac (bytes_of_string secret) (bytes_of_string payload)).

End Sha256.

Module Signing.
Local Open Scope string_scope.

Section WithHmac.

(** [hmacSign(secret, payload)], the same function in index.js and in
    both backend templates. *)
Variable hmacSign : string -> string -> string.

(** A string or [undefined]. *)
Definition js_string : Type := option string.

(** [a || b] for a string-or-undefined [a]: the empty string and
    [undefined] are falsy. *)
Definition or_else (a : js_string) (b : string) : string :=
  match a with
  | Some "" => b
  | Some s => s
  | None => b
  end.

(** [!a] *)
Definition falsy (a : js_string) : bool :=
  match a with
  | Some "" => true
  | Some _ => false
  | None => true
  end.

(** An object with string-or-undefined members, in insertion order. *)
Definition object : Type := list (string * js_string).

(** [o[k]] *)
Fixpoint get (o : object) (k : string) : js_string :=
  match o with
  | [] => None
  | (k', v) :: o' => if String.eqb k k' then v else get o' k
  end.

(** [{ ...o, k: v }]: an existing member keeps its place. *)
Fixpoint obj_set (o : object) (k : string) (v : js_string) : object :=
  match o with
  | [] => [(k, v)]
  | (k', v') :: o' =>
      if String.eqb k k' then (k', v) :: o' else (k', v') :: obj_set o' k v
  end.

(** [[...].join('|')] *)
Definition join_bar (xs : list string) : string := String.concat "|" xs.

(** The query of a URL as [URLSearchParams] holds it: a list of
    name-value pairs.  [String(undefined)] is ["undefined"]. *)
Definition search_params : Type := list (string * string).

Definition to_USVString (v : js_string) : string :=
  match v with
  | Some s => s
  | None => "undefined"
  end.

(** [new URLSearchParams(o)] *)
Definition URLSearchParams (o : object) : search_params :=
  map (fun kv => (fst kv, to_USVString (snd kv))) o.

(** [sp.set(k, v)] when [k] occurs at most once. *)
Fixpoint sp_set (sp : search_params) (k v : string) : search_params :=
  match sp with
  | [] => [(k, v)]
  | (k', v') :: sp' =>
      if String.eqb k k' then (k', v) :: sp' else (k', v') :: sp_set sp' k v
  end.

(** [sp.get(k)]: the first value, or [null]. *)
Fixpoint sp_get (sp : search_params) (k : string) : js_string :=
  match sp with
  | [] => None
  | (k', v) :: sp' => if String.eqb k k' then Some v else sp_get sp' k
  end.

(** [baseUrl.replace(/\/$/, '')] *)
Fixpoint strip_slash (s : string) : string :=
  match s with
  | EmptyString => EmptyString
  | String c EmptyString => if Ascii.eqb c "/" then EmptyString else s
  | String c s' => String c (strip_slash s')
  end.

(** A link: what stands before the [?] and the query.  The text
    [sp.toString()] and its parsing by [new URL(url).searchParams] or by
    the framework's [req.query] are taken to be inverse. *)
Record url : Type := mkUrl {
  location : string;
  query : search_params
}.

(** The payload [buildActionUrl] signs:
    [['taskId', 'action', 'ts', 'nonce', 'tasksDbId', 'calendarDbId']
       .map(k => params[k] || (k === 'action' ? action : ''))] *)
Definition ordered (action : string) (params : object) : list string :=
  map (fun k => or_else (get params k)
                  (if String.eqb k "action" then action else ""))
      ["taskId"; "action"; "ts"; "nonce"; "tasksDbId"; "calendarDbId"].

(** [buildActionUrl(baseUrl, action, params, secret)]; [ts] is
    [Date.now().toString()] and [nonce] is [crypto.randomUUID()]. *)
Definition buildActionUrl (ts nonce : string)
    (baseUrl action : string) (params : object) (secret : js_string) : url :=
  let sig := if falsy secret then None
             else Some (hmacSign (or_else secret "")
                          (join_bar (ordered action params))) in
  let sp := URLSearchParams
              (obj_set (obj_set (obj_set params "action" (Some action))
                          "ts" (Some ts)) "nonce" (Some nonce)) in
  let sp := if falsy sig then sp else sp_set sp "sig" (or_else sig "") in
  mkUrl (strip_slash baseUrl ++ "/a/" ++ action) sp.

(** The payload the backends check, from the query of the request. *)
Definition verified_payload (q : search_params) : string :=
  join_bar [or_else (sp_get q "taskId") ""; or_else (sp_get q "action") "";
            or_else (sp_get q "ts") ""; or_else (sp_get q "nonce") "";
            or_else (sp_get q "tasksDbId") "";
            or_else (sp_get q "calendarDbId") ""].

(** [verifySignature(secret, query)] of the Vercel template and
    [verifySignature(secret, url)] of the Workers template: the first
    destructures [req.query], the second reads [u.searchParams]; both
    compute the same thing from the query. *)
Definition verifySignature (secret : string) (u : url) : bool :=
  let q := query u in
  if falsy (sp_get q "sig") || falsy (sp_get q "action")
     || falsy (sp_get q "taskId") || falsy (sp_get q "ts")
     || falsy (sp_get q "nonce")
  then false
  else String.eqb (hmacSign secret (verified_payload q))
         (or_else (sp_get q "sig") "").

(** The call made for every task row:
    [buildActionUrl(baseUrl, action, { taskId, tasksDbId, calendarDbId },
       appSecret)]. *)
Definition action_params (taskId tasksDbId calendarDbId : js_string) : object :=
  [("taskId", taskId); ("tasksDbId", tasksDbId);
   ("calendarDbId", calendarDbId)].

End WithHmac.

End Signing.

(* ================================================================== *)
(** * getAllBlocks *)
(* ================================================================== *)

Module Pagination.

Section WithBlock.
Context {block : Type}.

(** A page of the listing: [{ results, has_more, next_cursor }], the
    cursor being a string or [null] ([None]). *)
Record response : Type := mkResponse {
  results : list block;
  has_more : bool;
  next_cursor : option string
}.

(** The argument of [blocks.children.list]:
    [{ block_id: blockId, start_cursor: cursor, page_size: 100 }];
    [None] is [undefined]. *)
Record request : Type := mkRequest {
  block_id : string;
  start_cursor : option string;
  page_size : Z
}.

(** [blocks.children.list(req)]: the call number [k] made to the API
    during one [getAllBlocks], counted from 0, settles as
    [list_children k req]. *)
Variable list_children : nat -> request -> settled response Retry.error.

(** What [ensureClient()] does in this process ([Client.outcome]): it
    returns, or it throws an error, which has no status. *)
Variable ensureClient : settled unit Retry.error.

(** [() => ensureClient().blocks.children.list(req)], the operation
    handed to [withRetry]. *)
Definition list_call (k : nat) (req : request)
    : settled response Retry.error :=
  match ensureClient with
  | Fulfilled _ => list_children k req
  | Rejected e => Rejected e
  end.

(** Truthiness of the variable [cursor]: [undefined], [null] and the
    empty string end the loop. *)
Definition truthy (c : option string) : bool :=
  match c with
  | Some s => negb (String.eqb s ""%string)
  | None => false
  end.

(** [resp.has_more ? resp.next_cursor : undefined], [null] and
    [undefined] being both [None]. *)
Definition next_of (resp : response) : option string :=
  if has_more resp then next_cursor resp else None.

(** What one call of [getAllBlocks] did: how it settled, the requests it
    passed to [withRetry], in order, and the number of calls the API
    received. *)
Record listing : Type := mkListing {
  outcome : settled (list block) Retry.error;
  requests : list request;
  calls : nat
}.

(** The [do ... while (cursor)] loop; one unit of [fuel] is one
    iteration.  Each iteration is one [withRetry], whose own loop needs
    five iterations at most. *)
Fixpoint getAllBlocks_loop (fuel : nat) (blockId : string)
    (results0 : list block) (cursor : option string)
    (reqs : list request) (calls0 : nat) : option listing :=
  match fuel with
  | O => None
  | S fuel' =>
      let req := mkRequest blockId cursor 100 in
      match Retry.withRetry 5 (fun k => list_call (calls0 + k) req) with
      | None => None
      | Some r =>
          let calls1 := calls0 + Retry.invocations r in
          let reqs1 := reqs ++ [req] in
          match Retry.result r with
          | Rejected err => Some (mkListing (Rejected err) reqs1 calls1)
          | Fulfilled resp =>
              (* results.push(...resp.results); *)
              let results1 := results0 ++ results resp in
              (* cursor = resp.has_more ? resp.next_cursor : undefined; *)
              let cursor1 := next_of resp in
              if truthy cursor1
              then getAllBlocks_loop fuel' blockId results1 cursor1 reqs1 calls1
              else Some (mkListing (Fulfilled results1) reqs1 calls1)
          end
      end
  end.

(** [ensureClient(); const results = []; let cursor;
     do { ... } while (cursor);] *)
Definition getAllBlocks (fuel : nat) (blockId : string) : option listing :=
  match ensureClient with
  | Fulfilled _ => getAllBlocks_loop fuel blockId [] None [] 0
  | Rejected e => Some (mkListing (Rejected e) [] 0)
  end.

(** The cursor the request number [i] carries when the pages before it
    were [resps]. *)
Definition cursor_before (resps : list response) (i : nat) : option string :=
  match i with
  | O => None
  | S j => resps !! j ≫= next_of
  end.

(** The pages listed so far: request [i] carried the cursor left by
    page [i - 1], was answered by page [i], and every page asked for a
    further one. *)
Definition answered (b : string) (reqs : list request)
    (resps : list response) (n : nat) : Prop :=
  length resps = length reqs /\
  Forall (fun resp => truthy (next_of resp) = true) resps /\
  forall i req resp, reqs !! i = Some req -> resps !! i = Some resp ->
    req = mkRequest b (cursor_before resps i) 100 /\
    exists k, k < n /\ list_call k req = Fulfilled resp.

End WithBlock.
Arguments response block : clear implicits.
Arguments listing block : clear implicits.

End Pagination.

(* ================================================================== *)
(** * Documents: the values the schema and title helpers work on *)
(* ================================================================== *)

(** The helpers below read parsed JSON (the answers of the API, a
    template file) and parsed YAML (a blueprint).  [Js] gives the
    meaning of the JavaScript operations they use on such values. *)
Module Js.
Local Open Scope string_scope.

(** The values of a document, [undefined], and the built-in functions
    an object inherits ([VFun]).  Numbers are integers; a string is the
    list of its characters, one per code unit (the text of a document
    is taken to be ASCII); the members of an object are listed in its
    own enumeration order.  Identity is not tracked here. *)
Inductive value : Type :=
| VUndef
| VNull
| VBool (b : bool)
| VNum (n : Z)
| VStr (s : string)
| VFun
| VArr (items : list value)
| VObj (props : list (string * value)).

Inductive exn : Type :=
| TypeError
| ReferenceError
| Error (message : string).

(** The outcome of an evaluation: a value, an exception, or
    [Unmodelled] where the operation leaves what is described here (the
    accessor [__proto__], a member of a primitive other than those the
    helpers read, the text of a function, a call of a built-in). *)
Inductive res (A : Type) : Type :=
| Ok (a : A)
| Throw (e : exn)
| Unmodelled.
Arguments Ok {A} a.
Arguments Throw {A} e.
Arguments Unmodelled {A}.

Definition ret {A} (a : A) : res A := Ok a.

Definition bind {A B} (c : res A) (k : A -> res B) : res B :=
  match c with
  | Ok a => k a
  | Throw e => Throw e
  | Unmodelled => Unmodelled
  end.

Definition throw {A} (e : exn) : res A := Throw e.

Notation "x <- c ;; k" := (bind c (fun x => k))
  (at level 100, c at next level, right associativity).

Fixpoint mapM {A B} (f : A -> res B) (xs : list A) : res (list B) :=
  match xs with
  | [] => ret []
  | x :: xs' => y <- f x ;; ys <- mapM f xs' ;; ret (y :: ys)
  end.

(** A [for ... of] loop over [xs] that threads the state [a]. *)
Fixpoint foldM {A B} (f : A -> B -> res A) (xs : list B) (a : A) : res A :=
  match xs with
  | [] => ret a
  | x :: xs' => a' <- f a x ;; foldM f xs' a'
  end.

Definition truthy (v : value) : bool :=
  match v with
  | VUndef | VNull => false
  | VBool b => b
  | VNum n => negb (n =? 0)%Z
  | VStr s => negb (String.eqb s "")
  | VFun | VArr _ | VObj _ => true
  end.

Definition nullish (v : value) : bool :=
  match v with
  | VUndef | VNull => true
  | _ => false
  end.

(** [a || b] *)
Definition or_else (a b : value) : value := if truthy a then a else b.

(** [v === 's'] for a string literal. *)
Definition is_str (v : value) (s : string) : bool :=
  match v with
  | VStr s' => String.eqb s' s
  | _ => false
  end.

(** [typeof v] *)
Definition typeof (v : value) : string :=
  match v with
  | VUndef => "undefined"
  | VNull | VArr _ | VObj _ => "object"
  | VBool _ => "boolean"
  | VNum _ => "number"
  | VStr _ => "string"
  | VFun => "function"
  end.

(** [Array.isArray(v)] *)
Definition is_array (v : value) : bool :=
  match v with
  | VArr _ => true
  | _ => false
  end.

(** ** Own members and their order *)

Fixpoint lookup (k : string) (props : list (string * value)) : option value :=
  match props with
  | [] => None
  | (k', v) :: props' => if String.eqb k k' then Some v else lookup k props'
  end.

(** An array index: the canonical decimal text of a number below
    [2^32 - 1].  Such keys are enumerated first, in ascending order. *)
Definition digit (c : ascii) : option N :=
  let n := N_of_ascii c in
  if ((48 <=? n) && (n <=? 57))%N then Some (n - 48)%N else None.

Fixpoint digits (s : string) (acc : N) : option N :=
  match s with
  | EmptyString => Some acc
  | String c s' =>
      match digit c with
      | Some d => digits s' (10 * acc + d)%N
      | None => None
      end
  end.

Definition array_index (k : string) : option N :=
  match k with
  | EmptyString => None
  | String c EmptyString => digit c
  | String c _ =>
      if Ascii.eqb c "0" then None
      else match digits k 0 with
           | Some n => if (n <? 4294967295)%N then Some n else None
           | None => None
           end
  end.

(** Whether a new key [k] is enumerated before the present key [k']. *)
Definition precedes (k k' : string) : bool :=
  match array_index k, array_index k' with
  | Some i, Some j => (i <? j)%N
  | Some _, None => true
  | None, _ => false
  end.

Fixpoint insert (k : string) (v : value) (props : list (string * value))
    : list (string * value) :=
  match props with
  | [] => [(k, v)]
  | (k', v') :: props' =>
      if precedes k k' then (k, v) :: props
      else (k', v') :: insert k v props'
  end.

Fixpoint replace (k : string) (v : value) (props : list (string * value))
    : list (string * value) :=
  match props with
  | [] => []
  | (k', v') :: props' =>
      if String.eqb k k' then (k', v) :: props'
      else (k', v') :: replace k v props'
  end.

(** Defining the own member [k] (an object literal, [Object.fromEntries]):
    a present member keeps its place, a new one takes the place its key
    has in the enumeration order. *)
Definition define (props : list (string * value)) (k : string) (v : value)
    : list (string * value) :=
  match lookup k props with
  | Some _ => replace k v props
  | None => insert k v props
  end.

(** [o[k] = v] on a plain object.  Without an own member of that name,
    the key [__proto__] reaches the accessor of [Object.prototype]. *)
Definition assign (props : list (string * value)) (k : string) (v : value)
    : res (list (string * value)) :=
  if String.eqb k "__proto__" && negb (bool_decide (is_Some (lookup k props)))
  then Unmodelled
  else ret (define props k v).

(** ** Reading members *)

(** The function-valued members every plain object inherits from
    [Object.prototype]. *)
Definition inherited (k : string) : bool :=
  existsb (String.eqb k)
    ["constructor"; "toString"; "toLocaleString"; "valueOf";
     "hasOwnProperty"; "isPrototypeOf"; "propertyIsEnumerable";
     "__defineGetter__"; "__defineSetter__"; "__lookupGetter__";
     "__lookupSetter__"].

(** The member names the helpers read with a literal key.  None of them
    is defined on a string, a number, a boolean or an array. *)
Definition literal_key (k : string) : bool :=
  existsb (String.eqb k)
    ["type"; "select"; "multi_select"; "status"; "options"; "name";
     "color"; "title"; "plain_text"; "text"; "content"; "relation";
     "database"; "Name"; "properties"; "alias"; "id"; "date"; "start";
     "end"; "number"; "kind"; "icon"; "cover"; "children"].

Definition chars (s : string) : list value :=
  map (fun c => VStr (String c EmptyString)) (list_ascii_of_string s).

(** [v[k]]: on a plain object its own member, else an inherited
    function, else [undefined]; on an array or a string the elements
    and [length]; [null] and [undefined] have no members. *)
Definition get (v : value) (k : string) : res value :=
  match v with
  | VUndef | VNull => throw TypeError
  | VObj props =>
      match lookup k props with
      | Some x => ret x
      | None =>
          if String.eqb k "__proto__" then Unmodelled
          else ret (if inherited k then VFun else VUndef)
      end
  | VArr items =>
      if String.eqb k "length" then ret (VNum (Z.of_nat (length items)))
      else match array_index k with
           | Some i => ret (nth (N.to_nat i) items VUndef)
           | None => if literal_key k then ret VUndef else Unmodelled
           end
  | VStr s =>
      if String.eqb k "length" then ret (VNum (Z.of_nat (String.length s)))
      else match array_index k with
           | Some i => ret (nth (N.to_nat i) (chars s) VUndef)
           | None => if literal_key k then ret VUndef else Unmodelled
           end
  | VBool _ | VNum _ => if literal_key k then ret VUndef else Unmodelled
  | VFun => Unmodelled
  end.

(** [v?.[k]] *)
Definition get_opt (v : value) (k : string) : res value :=
  if nullish v then ret VUndef else get v k.

(** ** Conversion to a string *)

Definition string_of_Z (n : Z) : string :=
  DecimalString.NilZero.string_of_int (Z.to_int n).

Definition string_of_nat (n : nat) : string :=
  DecimalString.NilZero.string_of_uint (Nat.to_uint n).

(** [String(v)], which is also what a template literal and [join] apply:
    an array joins its elements with commas, [null] and [undefined]
    elements giving the empty string; a plain object gives
    ["[object Object]"] unless it has a member [toString] of its own,
    which in a document is not callable: the inherited [valueOf] then
    returns the object itself and the conversion throws.  Numbers are
    written in decimal when they are safe integers. *)
Fixpoint to_string (v : value) : res string :=
  match v with
  | VUndef => ret "undefined"
  | VNull => ret "null"
  | VBool true => ret "true"
  | VBool false => ret "false"
  | VNum n =>
      if (Z.abs n <=? Sanitize.max_safe_integer)%Z then ret (string_of_Z n)
      else Unmodelled
  | VStr s => ret s
  | VFun => Unmodelled
  | VArr items =>
      (fix join (xs : list value) : res string :=
         match xs with
         | [] => ret ""
         | x :: xs' =>
             a <- (if nullish x then ret "" else to_string x) ;;
             b <- join xs' ;;
             ret (match xs' with [] => a | _ => a ++ "," ++ b end)
         end) items
  | VObj props =>
      match lookup "toString" props, lookup "valueOf" props with
      | None, _ => ret "[object Object]"
      | Some VFun, _ | Some _, Some VFun => Unmodelled
      | Some _, _ => throw TypeError
      end
  end.

(** [items.join('')] *)
Fixpoint join_empty (items : list value) : res string :=
  match items with
  | [] => ret ""
  | x :: xs =>
      a <- (if nullish x then ret "" else to_string x) ;;
      b <- join_empty xs ;;
      ret (a ++ b)
  end.

(** ** Enumeration *)

Fixpoint indexed (i : nat) (xs : list value) : list (string * value) :=
  match xs with
  | [] => []
  | x :: xs' => (string_of_nat i, x) :: indexed (S i) xs'
  end.

(** [Object.entries(v)] *)
Definition entries (v : value) : res (list (string * value)) :=
  match v with
  | VUndef | VNull => throw TypeError
  | VObj props => ret props
  | VArr items => ret (indexed 0 items)
  | VStr s => ret (indexed 0 (chars s))
  | VBool _ | VNum _ | VFun => ret []
  end.

(** [Object.fromEntries(pairs)] for pairs with string keys. *)
Definition from_entries (pairs : list (string * value)) : value :=
  VObj (fold_left (fun o kv => define o (fst kv) (snd kv)) pairs []).

(** The members copied by a spread [{ ...acc, ...v }]: those of an
    object, the elements of an array or the characters of a string
    under their indices, nothing otherwise. *)
Definition spread (acc : list (string * value)) (v : value)
    : list (string * value) :=
  fold_left (fun o kv => define o (fst kv) (snd kv))
    match v with
    | VObj props => props
    | VArr items => indexed 0 items
    | VStr s => indexed 0 (chars s)
    | _ => []
    end acc.

(** [v.map(f)]: an array has the built-in [map]; a document value of
    another kind has no callable [map]. *)
Definition array_map (f : value -> res value) (v : value) : res value :=
  match v with
  | VArr items => items' <- mapM f items ;; ret (VArr items')
  | VObj props =>
      match lookup "map" props with
      | Some VFun => Unmodelled
      | _ => throw TypeError
      end
  | _ => throw TypeError
  end.

End Js.

(* ================================================================== *)
(** * Schema and title helpers *)
(* ================================================================== *)

Module Schema.
Import Js.
Local Open Scope string_scope.

Abbreviation props := (list (string * value)) (only parsing).

(** [out[name][key] = v], where [out[name]] is a plain object. *)
Definition set_member (out : props) (name key : string) (v : value)
    : res props :=
  entry <- get (VObj out) name ;;
  match entry with
  | VObj e => e' <- assign e key v ;; ret (replace name (VObj e') out)
  | VUndef | VNull => throw TypeError
  | _ => Unmodelled
  end.

(** ** transformPropertiesToCreate (index.js, lines 83-99) *)

(** [o => ({ name: o.name, color: o.color })] *)
Definition option_name_color (o : value) : res value :=
  name <- get o "name" ;;
  color <- get o "color" ;;
  ret (VObj [("name", name); ("color", color)]).

(** [if (type === key && prop[key]?.options)
       out[name][key] = { options: prop[key].options.map(...) };]
    for [key] one of [select], [multi_select], [status]. *)
Definition copy_options (key : string) (type prop : value) (name : string)
    (out : props) : res props :=
  if is_str type key then
    cfg <- get prop key ;;
    options <- get_opt cfg "options" ;;
    if truthy options then
      mapped <- array_map option_name_color options ;;
      set_member out name key (VObj [("options", mapped)])
    else ret out
  else ret out.

(** The body of the loop. *)
Definition transform_property (out : props) (entry : string * value)
    : res props :=
  let '(name, prop) := entry in
  (* const { type } = prop; *)
  type <- get prop "type" ;;
  (* out[name] = { type }; *)
  out <- assign out name (VObj [("type", type)]) ;;
  out <- copy_options "select" type prop name out ;;
  out <- copy_options "multi_select" type prop name out ;;
  copy_options "status" type prop name out.

Definition transformPropertiesToCreate (properties : value) : res value :=
  es <- entries (or_else properties (VObj [])) ;;
  out <- foldM transform_property es [] ;;
  ret (VObj out).

(** What [transformPropertiesToCreate] writes for a property [prop]:
    its [type], and for a [select], [multi_select] or [status] with
    options, these options reduced to their [name] and [color]. *)
Definition created_from (prop v : value) : Prop :=
  exists type, get prop "type" = Ok type /\
    ((v = VObj [("type", type)] /\
      forall key, In key ["select"; "multi_select"; "status"] ->
        type = VStr key ->
        exists cfg o, get prop key = Ok cfg /\
          get_opt cfg "options" = Ok o /\ truthy o = false) \/
     (exists key cfg opts mapped,
        In key ["select"; "multi_select"; "status"] /\ type = VStr key /\
        get prop key = Ok cfg /\ get_opt cfg "options" = Ok (VArr opts) /\
        Forall2 (fun o m => exists n c,
                   get o "name" = Ok n /\ get o "color" = Ok c /\
                   m = VObj [("name", n); ("color", c)]) opts mapped /\
        v = VObj [("type", type);
                  (key, VObj [("options", VArr mapped)])])).

(** What the API returns for a property of a database: an object with
    a string [type]; a [select], [multi_select] or [status] holds, under
    the name of its type, an object whose [options] is an array of
    objects. *)
Definition database_property (prop : value) : Prop :=
  exists ps t, prop = VObj ps /\ lookup "type" ps = Some (VStr t) /\
    (In t ["select"; "multi_select"; "status"] ->
     exists cfg opts, lookup t ps = Some (VObj cfg) /\
       lookup "options" cfg = Some (VArr opts) /\
       Forall (fun o => exists os, o = VObj os) opts).

(** ** buildDbProperties (index.js, lines 408-463) *)

(** [o => ({ name: o.name || o, color: o.color || 'default' })] *)
Definition option_of_blueprint (o : value) : res value :=
  name <- get o "name" ;;
  color <- get o "color" ;;
  ret (VObj [("name", or_else name o);
             ("color", or_else color (VStr "default"))]).

(** [const options = def?.[key]?.options || [];
     out[name] = { [key]: { options: options.map(...) } };] *)
Definition options_property (key : string) (def : value) : res value :=
  cfg <- get_opt def key ;;
  options <- get_opt cfg "options" ;;
  mapped <- array_map option_of_blueprint (or_else options (VArr [])) ;;
  ret (VObj [(key, VObj [("options", mapped)])]).

(** A default parameter [p = {}]. *)
Definition default_object (v : value) : value :=
  match v with
  | VUndef => VObj []
  | _ => v
  end.

(** The types written as [{ [t]: {} }]. *)
Definition plain_types : list string :=
  ["title"; "checkbox"; "number"; "date"; "rich_text"; "url"].

(** The types written with their options. *)
Definition option_types : list string :=
  ["status"; "multi_select"; "select"].

(** [aliasToId[def?.relation?.database]] *)
Definition relation_target (aliasToId def : value) : res value :=
  rel <- get def "relation" ;;
  alias <- get_opt rel "database" ;;
  key <- to_string alias ;;
  get aliasToId key.

(** The body of the loop: [continue] and [break] both leave [out] as it
    is. *)
Definition build_property (aliasToId : value) (out : props)
    (entry : string * value) : res props :=
  let '(name, def) := entry in
  (* const t = def?.type; if (!t) continue; *)
  t <- get_opt def "type" ;;
  if negb (truthy t) then ret out
  else if existsb (is_str t) plain_types then
    match t with
    | VStr key => assign out name (VObj [(key, VObj [])])
    | _ => ret out
    end
  else if existsb (is_str t) option_types then
    match t with
    | VStr key => p <- options_property key def ;; assign out name p
    | _ => ret out
    end
  else if is_str t "relation" then
    (* const dbId = aliasToId[alias]; if (!dbId) continue; *)
    dbId <- relation_target aliasToId def ;;
    if negb (truthy dbId) then ret out
    else assign out name
           (VObj [("relation",
                   VObj [("database_id", dbId);
                         ("type", VStr "single_property");
                         ("single_property", VObj [])])])
  else ret out.

Definition buildDbProperties (schema aliasToId : value) : res value :=
  es <- entries (default_object schema) ;;
  out <- foldM (build_property (default_object aliasToId)) es [] ;;
  ret (VObj out).

Definition supported_types : list string :=
  (plain_types ++ option_types ++ ["relation"])%list.

(** What [buildDbProperties] writes for a definition [def] it keeps: a
    single member named by the type. *)
Definition written (aliasToId def v : value) : Prop :=
  exists key cfg,
    get_opt def "type" = Ok (VStr key) /\ v = VObj [(key, cfg)] /\
    ((In key plain_types /\ cfg = VObj []) \/
     (In key option_types /\
      exists mapped, cfg = VObj [("options", VArr mapped)] /\
        Forall (fun m => exists n c,
                  m = VObj [("name", n); ("color", c)] /\ truthy c = true)
               mapped) \/
     (key = "relation" /\
      exists dbId, relation_target aliasToId def = Ok dbId /\
        truthy dbId = true /\
        cfg = VObj [("database_id", dbId); ("type", VStr "single_property");
                    ("single_property", VObj [])])).

(** Why [buildDbProperties] leaves a definition out: no type, a type it
    does not know, or a relation to a database it cannot resolve. *)
Definition dropped (aliasToId def : value) : Prop :=
  exists t, get_opt def "type" = Ok t /\
    (truthy t = false \/
     (forall key, In key supported_types -> t <> VStr key) \/
     (t = VStr "relation" /\
      exists dbId, relation_target aliasToId def = Ok dbId /\
        truthy dbId = false)).

(** The schema of the first pass of [createRelationPlaceholders]
    (index.js, lines 512-514):
    [buildDbProperties(Object.fromEntries(
       Object.entries(db.properties || {})
         .filter(([, v]) => v.type !== 'relation')))] *)
Definition not_relation (entry : string * value) : res bool :=
  type <- get (snd entry) "type" ;;
  ret (negb (is_str type "relation")).

Fixpoint filterM {A} (f : A -> res bool) (xs : list A) : res (list A) :=
  match xs with
  | [] => ret []
  | x :: xs' =>
      b <- f x ;;
      ys <- filterM f xs' ;;
      ret (if b then x :: ys else ys)
  end.

Definition propsNoRelation (db : value) : res value :=
  properties <- get db "properties" ;;
  es <- entries (or_else properties (VObj [])) ;;
  kept <- filterM not_relation es ;;
  buildDbProperties (from_entries kept) VUndef.

(** ** getPageTitleText (index.js, lines 160-169) *)

(** [t => t.plain_text || t.text?.content || ''] *)
Definition title_fragment (t : value) : res value :=
  plain <- get t "plain_text" ;;
  if truthy plain then ret plain
  else
    text <- get t "text" ;;
    content <- get_opt text "content" ;;
    ret (or_else content (VStr "")).

(** The loop over the entries of [props]. *)
Fixpoint title_of_entries (es : list (string * value)) : res string :=
  match es with
  | [] => ret "Untitled"
  | (name, prop) :: es' =>
      (* prop?.type === 'title' && Array.isArray(prop.title) *)
      type <- get_opt prop "type" ;;
      if is_str type "title" then
        title <- get prop "title" ;;
        match title with
        | VArr items =>
            frags <- mapM title_fragment items ;;
            text <- join_empty frags ;;
            (* if (text) return text; *)
            if negb (String.eqb text "") then ret text
            else title_of_entries es'
        | _ => title_of_entries es'
        end
      else title_of_entries es'
  end.

Definition getPageTitleText (page : value) : res string :=
  properties <- get page "properties" ;;
  es <- entries (or_else properties (VObj [])) ;;
  title_of_entries es.

(** ** The properties of a seed row (index.js, lines 546-554) *)

Definition text_item (content : value) : value :=
  VObj [("type", VStr "text"); ("text", VObj [("content", content)])].

(** The callback of [Object.entries(row).map]. *)
Definition seed_entry (titleName : string) (titleVal : value)
    (entry : string * value) : res (string * value) :=
  let '(k, v) := entry in
  if String.eqb k titleName || String.eqb k "Name" then
    s <- to_string titleVal ;;
    ret (titleName, VObj [("title", VArr [text_item (VStr s)])])
  else if String.eqb (typeof v) "number" then ret (k, VObj [("number", v)])
  else if String.eqb (typeof v) "string" then
    ret (k, VObj [("rich_text", VArr [text_item v])])
  else ret (k, v).

(** [row[titleName] || row.Name || 'Untitled'] *)
Definition seed_title (titleName : string) (row : value) : res value :=
  own <- get row titleName ;;
  if truthy own then ret own
  else name <- get row "Name" ;; ret (or_else name (VStr "Untitled")).

(** How a member that is not the title is written. *)
Definition seed_value (v : value) : value :=
  if String.eqb (typeof v) "number" then VObj [("number", v)]
  else if String.eqb (typeof v) "string"
       then VObj [("rich_text", VArr [text_item v])]
       else v.

Definition seed_properties (titleName : string) (row : value) : res value :=
  (* const titleVal = row[titleName] || row.Name || 'Untitled'; *)
  titleVal <- seed_title titleName row ;;
  es <- entries row ;;
  pairs <- mapM (seed_entry titleName titleVal) es ;;
  ret (from_entries pairs).

(** ** getDatabaseTitlePropName (index.js, lines 203-210), after the
    database was retrieved *)

Fixpoint title_name_of_entries (es : list (string * value)) : res string :=
  match es with
  | [] => ret "Name"
  | (name, prop) :: es' =>
      type <- get prop "type" ;;
      if is_str type "title" then ret name else title_name_of_entries es'
  end.

Definition databaseTitlePropName (db : value) : res string :=
  properties <- get db "properties" ;;
  es <- entries properties ;;
  title_name_of_entries es.

End Schema.

(* ================================================================== *)
(** * Calls to the Notion API *)
(* ================================================================== *)

Module Api.
Import Js.

(** A call of a method of the client, such as [pages.retrieve], with
    its argument. *)
Record call : Type := mkCall {
  method : string;
  argument : value
}.

Section WithError.
Context {E : Type}.

(** How the API answers a call, given the calls it received before;
    [E] is what a rejected call carries. *)
Definition server : Type := list call -> call -> settled value E.

(** The outcome of an asynchronous function: it returns, it throws, it
    rejects with the error of a call, or it leaves what [Js]
    describes. *)
Inductive outcome (A : Type) : Type :=
| Returned (a : A)
| Threw (e : exn)
| Failed (e : E)
| Outside.
Arguments Returned {A} a.
Arguments Threw {A} e.
Arguments Failed {A} e.
Arguments Outside {A}.

(** An asynchronous function that awaits its calls one after the
    other: given the server and the calls made so far, its outcome and
    the calls made in the end. *)
Definition async (A : Type) : Type :=
  server -> list call -> outcome A * list call.

Definition ret {A} (a : A) : async A := fun _ tr => (Returned a, tr).

Definition bind {A B} (c : async A) (k : A -> async B) : async B :=
  fun srv tr =>
    match c srv tr with
    | (Returned a, tr') => k a srv tr'
    | (Threw e, tr') => (Threw e, tr')
    | (Failed e, tr') => (Failed e, tr')
    | (Outside, tr') => (Outside, tr')
    end.

(** A synchronous computation inside an asynchronous function. *)
Definition lift {A} (r : res A) : async A :=
  fun _ tr =>
    (match r with
     | Ok a => Returned a
     | Throw e => Threw e
     | Unmodelled => Outside
     end, tr).

(** [await client.method(argument)] *)
Definition request (m : string) (arg : value) : async value :=
  fun srv tr =>
    let c := mkCall m arg in
    (match srv tr c with
     | Fulfilled v => Returned v
     | Rejected e => Failed e
     end, (tr ++ [c])%list).

(** [throw e] *)
Definition throw {A} (e : exn) : async A := fun _ tr => (Threw e, tr).

(** A loop that awaits its body for each element of [xs] in turn and
    threads the state [a]. *)
Fixpoint foldM {A B} (f : A -> B -> async A) (xs : list B) (a : A)
    : async A :=
  match xs with
  | [] => ret a
  | x :: xs' => bind (f a x) (foldM f xs')
  end.

(** [try { c } catch (e) { h }] *)
Definition try_catch {A} (c : async A) (h : async A) : async A :=
  fun srv tr =>
    match c srv tr with
    | (Returned a, tr') => (Returned a, tr')
    | (Outside, tr') => (Outside, tr')
    | (_, tr') => h srv tr'
    end.

(** An asynchronous function only adds calls. *)
Definition extends {A} (c : async A) : Prop :=
  forall srv tr o tr', c srv tr = (o, tr') -> exists l, tr' = (tr ++ l)%list.

(** Every call a function adds satisfies [P]. *)
Definition only {A} (P : call -> Prop) (c : async A) : Prop :=
  forall srv tr o tr', c srv tr = (o, tr') ->
    exists l, tr' = (tr ++ l)%list /\ Forall P l.

(** The calls a function adds: all of them satisfy [P], there are
    [hi] of them at most, and [lo] at least when the function
    returns. *)
Definition emits {A} (P : call -> Prop) (lo hi : nat) (c : async A) : Prop :=
  forall srv tr o tr', c srv tr = (o, tr') ->
    exists l, tr' = (tr ++ l)%list /\ Forall P l /\ length l <= hi /\
      ((exists a, o = Returned a) -> lo <= length l).

End WithError.
Arguments server E : clear implicits.
Arguments outcome E A : clear implicits.
Arguments async E A : clear implicits.
Arguments Returned {E A} a.
Arguments Threw {E A} e.
Arguments Failed {E A} e.
Arguments Outside {E A}.

Notation "x <~ c ;; k" := (bind c (fun x => k))
  (at level 100, c at next level, right associativity).

End Api.

(* ================================================================== *)
(** * The installer: export, templates, databases *)
(* ================================================================== *)

(** The asynchronous functions of index.js that talk to the API.  A
    call wrapped in [withRetry] is one [Api.request]: its outcome is the
    outcome of [withRetry] ([Retry]). *)
Module Installer.
Import Js Api.
Local Open Scope string_scope.

(** ** The client (index.js, lines 16-25) *)

(** What [ensureClient] throws ([Client]), as an exception. *)
Definition thrown (f : Client.failure) : exn :=
  match f with
  | Client.ReferenceError => ReferenceError
  | Client.MissingToken =>
      Error (String "010"%char
               "Missing Notion token. Please create an internal integration at https://www.notion.so/my-integrations and set NOTION_TOKEN in a .env file.")
  end.

Definition client_of (e : Client.env) : settled unit exn :=
  Client.outcome_as thrown e.

Section WithError.
Context {E : Type}.

(** What [ensureClient()] does in this process: it returns the client,
    or it throws, and then at every call alike. *)
Variable ensureClient : settled unit exn.

(** [ensureClient();] *)
Definition ensure_client : async E unit :=
  fun _ tr =>
    (match ensureClient with
     | Fulfilled _ => Returned tt
     | Rejected e => Threw e
     end, tr).

(** [await withRetry(() => ensureClient().m(arg))].  What
    [ensureClient] throws has no status: [withRetry] invokes the
    closure five times and then throws that error, and the API has
    received nothing. *)
Definition client_request (m : string) (arg : value) : async E value :=
  _ <~ ensure_client ;; request m arg.

(** ** exportMaster (index.js, lines 143-157) *)

(** [getAllBlocks(id)], described in [Pagination]. *)
Variable getAllBlocks : string -> async E value.

Definition neither_page_nor_database : exn :=
  Error "ID is neither a Page nor a Database. Make sure the integration has access.".

Definition exportMaster (pageOrDbId : string) : async E value :=
  _ <~ ensure_client ;;
  try_catch
    (page <~ client_request "pages.retrieve"
               (VObj [("page_id", VStr pageOrDbId)]) ;;
     blocks <~ getAllBlocks pageOrDbId ;;
     Api.ret (VObj [("kind", VStr "page"); ("page", page);
                    ("blocks", blocks)]))
    (try_catch
       (db <~ client_request "databases.retrieve"
                (VObj [("database_id", VStr pageOrDbId)]) ;;
        Api.ret (VObj [("kind", VStr "database"); ("database", db)]))
       (Api.throw neither_page_nor_database)).

(** ** createFromJsonTemplate (index.js, lines 212-256); [tpl] is what
    [JSON.parse] made of the template file *)

(** A destructuring default [{ k = d } = o]. *)
Definition default_to (d v : value) : value :=
  match v with
  | VUndef => d
  | _ => v
  end.

(** [[{ type: 'text', text: { content: title } }]] *)
Definition title_text (title : value) : value :=
  VArr [VObj [("type", VStr "text"); ("text", VObj [("content", title)])]].

(** [blocks.children.append({ block_id: created.id, children: chunk })] *)
Definition append_children (created : value) (chunk : list value)
    : async E value :=
  _ <~ ensure_client ;;
  id <~ lift (get created "id") ;;
  request "blocks.children.append"
    (VObj [("block_id", id); ("children", VArr chunk)]).

(** The call that appends one batch. *)
Definition append_call (id : value) (chunk : list value) : call :=
  mkCall "blocks.children.append"
    (VObj [("block_id", id); ("children", VArr chunk)]).

(** [for (let i = 0; i < children.length; i += 50) await ...] on an
    array; [Replicator.batches] lists the slices [children.slice(i, i +
    50)] the loop takes. *)
Definition append_all (created : value) (items : list value)
    : async E unit :=
  foldM (fun _ chunk => _ <~ append_children created chunk ;; Api.ret tt)
    (Replicator.batches items) tt.

Definition database_needs_page : exn :=
  Error "Database templates must be created under a page (use --parentType page)".

Definition createFromJsonTemplate (tpl : value) (parent parentType : string)
    : async E value :=
  _ <~ ensure_client ;;
  kind <~ lift (get tpl "kind") ;;
  if is_str kind "page" then
    (* const { title = 'Untitled', icon, cover, properties = {},
               children = [] } = tpl; *)
    title <~ lift (get tpl "title") ;;
    icon <~ lift (get tpl "icon") ;;
    cover <~ lift (get tpl "cover") ;;
    properties <~ lift (get tpl "properties") ;;
    children <~ lift (get tpl "children") ;;
    let title := default_to (VStr "Untitled") title in
    let properties := default_to (VObj []) properties in
    let children := default_to (VArr []) children in
    pagePayload <~
      (if String.eqb parentType "page" then
         own <~ lift (get properties "title") ;;
         let titleProp := or_else own (VObj [("title", title_text title)]) in
         inner <~ lift (get titleProp "title") ;;
         Api.ret
           (VObj [("parent", VObj [("page_id", VStr parent)]);
                  ("properties",
                   VObj [("title",
                          if truthy inner then titleProp
                          else VObj [("title", title_text title)])]);
                  ("icon", icon); ("cover", cover)])
       else
         Api.ret
           (VObj [("parent", VObj [("database_id", VStr parent)]);
                  ("properties", properties);
                  ("icon", icon); ("cover", cover)])) ;;
    created <~ client_request "pages.create" pagePayload ;;
    len <~ lift (get children "length") ;;
    _ <~ (if truthy len then
            match children with
            | VArr items => append_all created items
            | _ => fun _ tr => (Outside, tr)
            end
          else Api.ret tt) ;;
    Api.ret created
  else if is_str kind "database" then
    if negb (String.eqb parentType "page") then Api.throw database_needs_page
    else
      title <~ lift (get tpl "title") ;;
      icon <~ lift (get tpl "icon") ;;
      cover <~ lift (get tpl "cover") ;;
      properties <~ lift (get tpl "properties") ;;
      client_request "databases.create"
        (VObj [("parent", VObj [("page_id", VStr parent)]);
               ("title", title_text (default_to (VStr "Untitled DB") title));
               ("icon", icon); ("cover", cover);
               ("properties", default_to (VObj []) properties)])
  else Api.throw (Error "Unknown template kind").

(** ** getDatabaseTitlePropName (index.js, lines 203-210) *)

Definition getDatabaseTitlePropName (databaseId : value) : async E string :=
  _ <~ ensure_client ;;
  db <~ client_request "databases.retrieve"
          (VObj [("database_id", databaseId)]) ;;
  lift (Schema.databaseTitlePropName db).

(** ** cloneFromMaster (index.js, lines 258-302) *)

(** [cloneBlocksRecursive(sourceBlockId, targetParent, 'block_id')],
    described in [Replicator]. *)
Variable cloneBlocksRecursive : value -> value -> async E unit.

(** [Array.isArray(titleProp?.title) && titleProp.title.length
      ? titleProp.title.map(t => t.plain_text).join('')
      : 'Cloned Page'] *)
Definition cloned_page_title (titleProp : value) : res value :=
  title <- get_opt titleProp "title" ;;
  match title with
  | VArr (_ :: _ as items) =>
      texts <- mapM (fun t => get t "plain_text") items ;;
      text <- join_empty texts ;;
      Js.ret (VStr text)
  | _ => Js.ret (VStr "Cloned Page")
  end.

(** [title?.map(t => t.plain_text).join('') || 'Cloned Database'] *)
Definition cloned_database_title (title : value) : res value :=
  if nullish title then Js.ret (VStr "Cloned Database")
  else
    texts <- array_map (fun t => get t "plain_text") title ;;
    match texts with
    | VArr items =>
        text <- join_empty items ;;
        Js.ret (or_else (VStr text) (VStr "Cloned Database"))
    | _ => Unmodelled
    end.

Definition target_must_be_page : exn :=
  Error "When cloning a database, targetId must be a page_id (a page where the new database will be created).".

(** What follows the creation of the new page. *)
Definition clone_blocks_into (page newPage : value) : async E value :=
  source <~ lift (get page "id") ;;
  target <~ lift (get newPage "id") ;;
  _ <~ cloneBlocksRecursive source target ;;
  Api.ret newPage.

Definition cloneFromMaster (masterId targetParentId mode : string)
    : async E value :=
  _ <~ ensure_client ;;
  master <~ exportMaster masterId ;;
  kind <~ lift (get master "kind") ;;
  if is_str kind "page" then
    page <~ lift (get master "page") ;;
    properties <~ lift (get page "properties") ;;
    titleProp <~ lift (get_opt properties "title") ;;
    titleText <~ lift (cloned_page_title titleProp) ;;
    if String.eqb mode "into_database" then
      titleName <~ getDatabaseTitlePropName (VStr targetParentId) ;;
      newPage <~ client_request "pages.create"
                   (VObj [("parent",
                           VObj [("database_id", VStr targetParentId)]);
                          ("properties",
                           VObj [(titleName,
                                  VObj [("title", title_text titleText)])])]) ;;
      clone_blocks_into page newPage
    else
      newPage <~ client_request "pages.create"
                   (VObj [("parent", VObj [("page_id", VStr targetParentId)]);
                          ("properties",
                           VObj [("title",
                                  VObj [("title", title_text titleText)])])]) ;;
      clone_blocks_into page newPage
  else if is_str kind "database" then
    _ <~ try_catch
           (client_request "pages.retrieve"
              (VObj [("page_id", VStr targetParentId)]))
           (Api.throw target_must_be_page) ;;
    database <~ lift (get master "database") ;;
    properties <~ lift (get database "properties") ;;
    schema <~ lift (Schema.transformPropertiesToCreate properties) ;;
    title <~ lift (get database "title") ;;
    title <~ lift (cloned_database_title title) ;;
    client_request "databases.create"
      (VObj [("parent", VObj [("page_id", VStr targetParentId)]);
             ("title", title_text title);
             ("properties", schema)])
  else Api.ret VUndef.

(** ** createRelationPlaceholders (index.js, lines 507-536) *)

(** The first pass, for one database. *)
Definition create_database (parentPageId : string)
    (created : list (string * value)) (db : value)
    : async E (list (string * value)) :=
  propsNoRelation <~ lift (Schema.propsNoRelation db) ;;
  _ <~ ensure_client ;;
  title <~ lift (get db "title") ;;
  createdDb <~ request "databases.create"
                 (VObj [("parent", VObj [("page_id", VStr parentPageId)]);
                        ("title", title_text title);
                        ("properties", propsNoRelation)]) ;;
  (* created[db.alias] = createdDb.id; *)
  alias <~ lift (get db "alias") ;;
  key <~ lift (to_string alias) ;;
  id <~ lift (get createdDb "id") ;;
  lift (assign created key id).

Definition is_relation (entry : string * value) : res bool :=
  type <- get (snd entry) "type" ;;
  Js.ret (is_str type "relation").

(** The second pass, for one database. *)
Definition update_relations (created : list (string * value)) (db : value)
    : async E unit :=
  properties <~ lift (get db "properties") ;;
  es <~ lift (entries (or_else properties (VObj []))) ;;
  relationProps <~ lift (Schema.filterM is_relation es) ;;
  (* if (Object.keys(relationProps).length) *)
  match from_entries relationProps with
  | VObj (_ :: _) =>
      schema <~ lift (Schema.buildDbProperties properties (VObj created)) ;;
      _ <~ ensure_client ;;
      alias <~ lift (get db "alias") ;;
      key <~ lift (to_string alias) ;;
      id <~ lift (get (VObj created) key) ;;
      _ <~ request "databases.update"
             (VObj [("database_id", id); ("properties", schema)]) ;;
      Api.ret tt
  | _ => Api.ret tt
  end.

Definition createRelationPlaceholders (databases : list value)
    (parentPageId : string) : async E value :=
  created <~ foldM (create_database parentPageId) databases [] ;;
  _ <~ foldM (fun _ db => update_relations created db) databases tt ;;
  Api.ret (VObj created).

(** The calls of the two passes. *)
Definition is_create (c : call) : Prop := method c = "databases.create".
Definition is_update (c : call) : Prop := method c = "databases.update".

(** ** createSeeds (index.js, lines 538-561) *)

(** [if (!created.rows[alias]) created.rows[alias] = [];
     created.rows[alias].push(page);] *)
Definition push_row (rows : list (string * value)) (alias : string)
    (page : value) : res (list (string * value)) :=
  current <- get (VObj rows) alias ;;
  match (if truthy current then current else VArr []) with
  | VArr pages => assign rows alias (VArr (pages ++ [page]))
  | _ => Unmodelled
  end.

(** The body of the loop over the rows of one alias. *)
Definition seed_row (databaseId : value) (titleName alias : string)
    (rows : list (string * value)) (row : value)
    : async E (list (string * value)) :=
  properties <~ lift (Schema.seed_properties titleName row) ;;
  page <~ client_request "pages.create"
            (VObj [("parent", VObj [("database_id", databaseId)]);
                   ("properties", properties)]) ;;
  lift (push_row rows alias page).

(** What [for (const row of rows)] runs through: the elements of an
    array, the characters of a string; another document value is not
    iterable. *)
Definition iterate (rows : value) : res (list value) :=
  match rows with
  | VArr items => Js.ret items
  | VStr s => Js.ret (chars s)
  | VFun => Unmodelled
  | _ => Js.throw TypeError
  end.

(** The body of the loop over the entries of [seeds]. *)
Definition seed_database (aliasToId : value) (created : list (string * value))
    (entry : string * value) : async E (list (string * value)) :=
  databaseId <~ lift (get aliasToId (fst entry)) ;;
  if negb (truthy databaseId) then Api.ret created
  else
    titleName <~ getDatabaseTitlePropName databaseId ;;
    items <~ lift (iterate (snd entry)) ;;
    foldM (seed_row databaseId titleName (fst entry)) items created.

Definition createSeeds (seeds aliasToId : value) : async E value :=
  let seeds := default_to (VObj []) seeds in
  let aliasToId := default_to (VObj []) aliasToId in
  es <~ lift (entries (or_else seeds (VObj []))) ;;
  rows <~ foldM (seed_database aliasToId) es [] ;;
  Api.ret (VObj [("pages", VObj []); ("rows", VObj rows)]).

(** A page created in the database of an alias of [es] that
    [aliasToId] resolves, or the retrieval of such a database. *)
Definition seeds_call (es : list (string * value)) (aliasToId : value)
    (c : call) : Prop :=
  exists alias rows id,
    In (alias, rows) es /\ get aliasToId alias = Ok id /\
    truthy id = true /\
    (c = mkCall "databases.retrieve" (VObj [("database_id", id)]) \/
     exists properties,
       c = mkCall "pages.create"
             (VObj [("parent", VObj [("database_id", id)]);
                    ("properties", properties)])).

End WithError.

End Installer.

(* ================================================================== *)
(** * The Workers backend: action routes *)
(* ================================================================== *)

Module Worker.
Import Js Api.
Local Open Scope string_scope.

(** The request as [new URL(request.url)] presents it. *)
Record request : Type := mkRequest {
  pathname : string;
  query : Signing.search_params
}.

Record env : Type := mkEnv {
  APP_SECRET : Signing.js_string;
  NOTION_TOKEN : Signing.js_string
}.

(** [json(status, body)], the body before [JSON.stringify]. *)
Record response : Type := mkResponse {
  status : Z;
  body : value
}.

Definition json (status : Z) (body : value) : response :=
  mkResponse status body.

(** [s.split('/')] and the last element of the result. *)
Fixpoint split_slash (s : string) : list string :=
  match s with
  | EmptyString => [EmptyString]
  | String c s' =>
      match split_slash s' with
      | seg :: rest =>
          if Ascii.eqb c "/" then EmptyString :: seg :: rest
          else String c seg :: rest
      | [] => []
      end
  end.

Definition last_segment (s : string) : string :=
  List.last (split_slash s) EmptyString.

(** [s.startsWith(p)] *)
Fixpoint starts_with (p s : string) : bool :=
  match p, s with
  | EmptyString, _ => true
  | String a p', String b s' => Ascii.eqb a b && starts_with p' s'
  | String _ _, EmptyString => false
  end.

Section WithTime.
Context {E : Type}.

(** [hmacSign], as in [Signing]. *)
Variable hmacSign : string -> string -> string.

(** [new Date(s).getTime()] for a string [s]: milliseconds, or [None]
    when [s] is no date. *)
Variable parse_date : string -> option Z.

(** [new Date().toISOString()] and [Date.now()]. *)
Variable nowIso : string.
Variable now : Z.

(** [computeAccumulatedMinutes(lastIso, total = 0)].  The quotient of
    two whole numbers of milliseconds rounded by [Math.round] is the
    floor of the quotient plus one half.  A text that is no date gives
    [NaN], and a total that is no number a concatenation: both are left
    out.  Nothing here throws, so the [catch] is never entered. *)
Definition computeAccumulatedMinutes (lastIso total : value) : res value :=
  let total := match total with VUndef => VNum 0 | _ => total end in
  if negb (truthy lastIso) then Js.ret total
  else
    match lastIso with
    | VStr s =>
        match parse_date s with
        | Some from =>
            let diffMin := Z.max 0 ((now - from + 30000) / 60000) in
            match or_else total (VNum 0) with
            | VNum n => Js.ret (VNum (n + diffMin))
            | _ => Unmodelled
            end
        | None => Unmodelled
        end
    | _ => Unmodelled
    end.

(** [statusProp ? statusTo(name) : {}] with
    [statusTo(name) = statusProp && statusProp.type === 'status'
       ? { status: { name } } : undefined] *)
Definition status_part (statusProp : value) (name : string) : res value :=
  if truthy statusProp then
    type <- get statusProp "type" ;;
    Js.ret (if is_str type "status"
            then VObj [("status", VObj [("name", VStr name)])]
            else VUndef)
  else Js.ret (VObj []).

(** [cond ? v : {}] *)
Definition part (cond v : value) : value :=
  if truthy cond then v else VObj [].

(** [updateTaskProperties(update)] *)
Definition updateTaskProperties (taskId update : value) : async E value :=
  Api.request "pages.update"
    (VObj [("page_id", taskId); ("properties", update)]).

(** [lastStartedProp?.date?.start || lastStartedProp?.date?.end || null] *)
Definition last_started (lastStartedProp : value) : res value :=
  date <- get_opt lastStartedProp "date" ;;
  start <- get_opt date "start" ;;
  if truthy start then Js.ret start
  else finish <- get_opt date "end" ;; Js.ret (or_else finish VNull).

(** The update of [pause] and of [stop]. *)
Definition stop_update (name : string)
    (statusProp runningProp lastStartedProp totalProp newTotal : value)
    : res value :=
  st <- status_part statusProp name ;;
  Js.ret
    (VObj
       (spread
          (spread
             (spread (spread [] st)
                (part runningProp
                   (VObj [("Timer Running", VObj [("checkbox", VBool false)])])))
             (part lastStartedProp
                (VObj [("Last Started At", VObj [("date", VNull)])])))
          (part totalProp
             (VObj [("Total Tracked (min)", VObj [("number", newTotal)])])))).

(** [Object.entries(tasksDb.properties)
       .find(([, p]) => p.type === 'title')?.[0] || 'Name'] *)
Fixpoint title_entry (es : list (string * value)) : res string :=
  match es with
  | [] => Js.ret "Name"
  | (name, p) :: es' =>
      type <- get p "type" ;;
      if is_str type "title"
      then Js.ret (if String.eqb name "" then "Name" else name)
      else title_entry es'
  end.

(** [task.properties?.[name]?.title?.map(t => t.plain_text).join('')
       || 'Task'] *)
Definition task_title (task : value) (name : string) : res string :=
  properties <- get task "properties" ;;
  prop <- get_opt properties name ;;
  title <- get_opt prop "title" ;;
  if nullish title then Js.ret "Task"
  else
    mapped <- array_map (fun t => get t "plain_text") title ;;
    match mapped with
    | VArr items =>
        text <- join_empty items ;;
        Js.ret (if String.eqb text "" then "Task" else text)
    | _ => Unmodelled
    end.

(** What both backends do once the signature is checked: the body of
    [fetch] from line 56 on, and the body of [handleAction] of the
    Vercel template from its line 60 on, which is the same code.  The
    three ids are strings, or [undefined] where the query lacks them. *)
Definition perform (action : string) (taskId tasksDbId calendarDbId : value)
    : async E response :=
  task <~ Api.request "pages.retrieve" (VObj [("page_id", taskId)]) ;;
  properties <~ lift (get task "properties") ;;
  let props := or_else properties (VObj []) in
  statusProp <~ lift (get props "Status") ;;
  runningProp <~ lift (get props "Timer Running") ;;
  lastStartedProp <~ lift (get props "Last Started At") ;;
  totalProp <~ lift (get props "Total Tracked (min)") ;;
  if String.eqb action "start" then
    st <~ lift (status_part statusProp "In Progress") ;;
    _ <~ updateTaskProperties taskId
           (VObj
              (spread
                 (spread (spread [] st)
                    (part runningProp
                       (VObj [("Timer Running",
                               VObj [("checkbox", VBool true)])])))
                 (part lastStartedProp
                    (VObj [("Last Started At",
                            VObj [("date",
                                   VObj [("start", VStr nowIso)])])])))) ;;
    Api.ret (json 200 (VObj [("ok", VBool true); ("action", VStr action);
                             ("at", VStr nowIso)]))
  else if String.eqb action "pause" then
    lastIso <~ lift (last_started lastStartedProp) ;;
    number <~ lift (get_opt totalProp "number") ;;
    newTotal <~ lift (computeAccumulatedMinutes lastIso
                        (or_else number (VNum 0))) ;;
    update <~ lift (stop_update "Paused" statusProp runningProp
                      lastStartedProp totalProp newTotal) ;;
    _ <~ updateTaskProperties taskId update ;;
    Api.ret (json 200 (VObj [("ok", VBool true); ("action", VStr action);
                             ("totalMin", newTotal)]))
  else if String.eqb action "stop" then
    lastIso <~ lift (last_started lastStartedProp) ;;
    number <~ lift (get_opt totalProp "number") ;;
    newTotal <~ lift (computeAccumulatedMinutes lastIso
                        (or_else number (VNum 0))) ;;
    update <~ lift (stop_update "Done" statusProp runningProp
                      lastStartedProp totalProp newTotal) ;;
    _ <~ updateTaskProperties taskId update ;;
    _ <~ (if truthy calendarDbId then
            tasksDb <~ Api.request "databases.retrieve"
                         (VObj [("database_id", tasksDbId)]) ;;
            name <~ lift (properties <- get tasksDb "properties" ;;
                          es <- entries properties ;;
                          title_entry es) ;;
            taskTitle <~ lift (task_title task name) ;;
            Api.request "pages.create"
              (VObj
                 [("parent", VObj [("database_id", calendarDbId)]);
                  ("properties",
                   VObj
                     [("Name",
                       VObj [("title",
                              VArr [VObj [("type", VStr "text");
                                          ("text",
                                           VObj [("content",
                                                  VStr taskTitle)])]])]);
                      ("When", VObj [("date", VObj [("start", VStr nowIso)])]);
                      ("Duration (min)", VObj [("number", newTotal)]);
                      ("Task",
                       VObj [("relation",
                              VArr [VObj [("id", taskId)]])])])])
          else Api.ret VUndef) ;;
    Api.ret (json 200 (VObj [("ok", VBool true); ("action", VStr action);
                             ("totalMin", newTotal)]))
  else Api.ret (json 404 (VObj [("error", VStr "Unknown action")])).

(** [fetch(request, env)] *)
Definition fetch (req : request) (e : env) : async E response :=
  try_catch
    (if negb (starts_with "/a/" (pathname req))
     then Api.ret (json 404 (VObj [("error", VStr "Not Found")]))
     else
       let action := last_segment (pathname req) in
       if Signing.falsy (APP_SECRET e) || Signing.falsy (NOTION_TOKEN e)
       then Api.ret (json 500 (VObj [("error", VStr "Missing env")]))
       else if negb (Signing.verifySignature hmacSign
                       (Signing.or_else (APP_SECRET e) "")
                       (Signing.mkUrl (pathname req) (query req)))
       then Api.ret (json 401 (VObj [("error", VStr "Invalid signature")]))
       else
         perform action
           (VStr (Signing.or_else (Signing.sp_get (query req) "taskId") ""))
           (VStr (Signing.or_else (Signing.sp_get (query req) "tasksDbId") ""))
           (VStr (Signing.or_else (Signing.sp_get (query req) "calendarDbId")
                    "")))
    (Api.ret (json 500 (VObj [("error", VStr "Internal error")]))).

(** A request that passes the checks of [fetch]: a path under [/a/],
    both secrets configured, a query whose signature verifies. *)
Definition verified (req : request) (e : env) : Prop :=
  starts_with "/a/" (pathname req) = true /\
  Signing.falsy (APP_SECRET e) = false /\
  Signing.falsy (NOTION_TOKEN e) = false /\
  Signing.verifySignature hmacSign (Signing.or_else (APP_SECRET e) "")
    (Signing.mkUrl (pathname req) (query req)) = true.

End WithTime.

End Worker.

(* ================================================================== *)
(** * The Vercel backend: routing, action routes, webhooks *)
(* ================================================================== *)

(** backend-template/vercel/api/index.js.  The handler writes its
    answer into [res]; the model returns what was written. *)

Module Vercel.
Import Js Api.
Local Open Scope string_scope.

(** The request: [req.method], the path and the query of [req.url] as
    [new URL(req.url, 'http://x')] presents them, [req.query] where the
    framework has set it (an object with string members), and what
    [readBody(req)] settles to. *)
Record request : Type := mkRequest {
  method : string;
  pathname : string;
  searchParams : Signing.search_params;
  query : option Signing.object;
  read : res value
}.

(** What the handler wrote: [res.statusCode] and the argument of
    [res.end], a value before [JSON.stringify] or a plain text. *)
Inductive content : Type :=
| Json (v : value)
| Text (s : string).

Record reply : Type := mkReply {
  statusCode : Z;
  sent : content
}.

(** [json(res, status, body)] and [bad(res, status, message)] *)
Definition json (status : Z) (body : value) : reply :=
  mkReply status (Json body).

Definition bad (status : Z) (message : string) : reply :=
  json status (VObj [("error", VStr message)]).

(** [Object.fromEntries(searchParams)]: a later pair with the same
    name replaces the value of the earlier one. *)
Definition fromEntries (sp : Signing.search_params) : Signing.object :=
  fold_left (fun o kv => Signing.obj_set o (fst kv) (Some (snd kv))) sp [].

(** [s.endsWith(p)], the end of a match anchored by [$]. *)
Fixpoint ends_with (p s : string) : bool :=
  String.eqb p s ||
  match s with
  | EmptyString => false
  | String _ s' => ends_with p s'
  end.

(** [pathname.match(/\/a\/(start|pause|stop)$/)] and its group. *)
Definition action_of (pathname : string) : option string :=
  if ends_with "/a/start" pathname then Some "start"
  else if ends_with "/a/pause" pathname then Some "pause"
  else if ends_with "/a/stop" pathname then Some "stop"
  else None.

(** The class [[A-Za-z0-9_-]]. *)
Definition name_char (c : ascii) : bool :=
  let n := nat_of_ascii c in
  ((65 <=? n)%nat && (n <=? 90)%nat) || ((97 <=? n)%nat && (n <=? 122)%nat)
  || ((48 <=? n)%nat && (n <=? 57)%nat) || (n =? 95)%nat || (n =? 45)%nat.

Fixpoint all_name_chars (s : string) : bool :=
  match s with
  | EmptyString => true
  | String c s' => name_char c && all_name_chars s'
  end.

(** [pathname.match(/\/webhook\/([A-Za-z0-9_-]+)$/)] and its group:
    the class has no slash, so the group is the last segment of the
    path. *)
Definition webhook_of (pathname : string) : option string :=
  let name := Worker.last_segment pathname in
  if negb (String.eqb name "") && all_name_chars name
     && ends_with ("/webhook/" ++ name) pathname
  then Some name else None.

Section WithTime.
Context {E : Type}.

Variable hmacSign : string -> string -> string.
Variable parse_date : string -> option Z.
Variable nowIso : string.
Variable now : Z.

(** [verifySignature(secret, query)] *)
Definition verifySignature (secret : string) (query : Signing.object)
    : bool :=
  let sig := Signing.get query "sig" in
  let action := Signing.get query "action" in
  let taskId := Signing.get query "taskId" in
  let ts := Signing.get query "ts" in
  let nonce := Signing.get query "nonce" in
  let tasksDbId := Signing.get query "tasksDbId" in
  let calendarDbId := Signing.get query "calendarDbId" in
  if Signing.falsy sig || Signing.falsy action || Signing.falsy taskId
     || Signing.falsy ts || Signing.falsy nonce
  then false
  else
    let payload :=
      Signing.join_bar
        [Signing.or_else taskId ""; Signing.or_else action "";
         Signing.or_else ts ""; Signing.or_else nonce "";
         Signing.or_else tasksDbId ""; Signing.or_else calendarDbId ""] in
    String.eqb (hmacSign secret payload) (Signing.or_else sig "").

(** A member of [req.query] as a value. *)
Definition member (v : Signing.js_string) : value :=
  match v with
  | Some s => VStr s
  | None => VUndef
  end.

(** [handleAction(action, req, res)], [query] being [req.query].  From
    line 60 on its body is that of the Workers handler, with [json]
    writing into [res]. *)
Definition handleAction (action : string) (query : Signing.object)
    (e : Worker.env) : async E reply :=
  let secret := Worker.APP_SECRET e in
  let notionToken := Worker.NOTION_TOKEN e in
  if Signing.falsy secret then Api.ret (bad 500 "Missing APP_SECRET")
  else if Signing.falsy notionToken
  then Api.ret (bad 500 "Missing NOTION_TOKEN")
  else if negb (verifySignature (Signing.or_else secret "") query)
  then Api.ret (bad 401 "Invalid signature")
  else
    r <~ Worker.perform parse_date nowIso now action
           (member (Signing.get query "taskId"))
           (member (Signing.get query "tasksDbId"))
           (member (Signing.get query "calendarDbId")) ;;
    Api.ret (json (Worker.status r) (Worker.body r)).

(** [req.query || Object.fromEntries(new URL(req.url, 'http://x')
      .searchParams)] *)
Definition query_of (req : request) : Signing.object :=
  match query req with
  | Some q => q
  | None => fromEntries (searchParams req)
  end.

(** [module.exports = async (req, res) => ...] *)
Definition handler (req : request) (e : Worker.env) : async E reply :=
  try_catch
    (if negb (Worker.starts_with "/api" (pathname req))
     then Api.ret (mkReply 404 (Text "Not Found"))
     else
       match action_of (pathname req) with
       | Some action => handleAction action (query_of req) e
       | None =>
           match webhook_of (pathname req) with
           | Some name =>
               if negb (String.eqb (method req) "POST")
               then Api.ret (bad 405 "Method Not Allowed")
               else
                 let secret := Worker.APP_SECRET e in
                 let provided :=
                   Signing.sp_get (searchParams req) "secret" in
                 if Signing.falsy secret
                 then Api.ret (bad 500 "Missing APP_SECRET")
                 else if Signing.falsy provided
                         || negb (String.eqb (Signing.or_else provided "")
                                    (Signing.or_else secret ""))
                 then Api.ret (bad 401 "Invalid secret")
                 else
                   body <~ Api.lift (read req) ;;
                   Api.ret (json 200
                              (VObj [("ok", VBool true);
                                     ("webhook", VStr name);
                                     ("received", VBool (truthy body))]))
           | None => Api.ret (bad 404 "Route not found")
           end
       end)
    (Api.ret (bad 500 "Internal error")).

End WithTime.

End Vercel.

(* ================================================================== *)
(** * Concrete inputs *)
(* ================================================================== *)


Definition op_503_twice_then (v : nat) : Retry.operation nat :=
  fun k => if (k <? 2)%nat
           then Rejected (Retry.mkError k None (Some 503%Z))
           else Fulfilled v.

Definition op_always_503 : Retry.operation nat :=
  fun k => Rejected (Retry.mkError k (Some 503%Z) None).



(** Two tasks submitted to a limiter created with ceiling 0. *)
Definition events_zero_ceiling : list (Limiter.event nat nat) :=
  [Limiter.Submit; Limiter.Tick; Limiter.Submit; Limiter.Tick].

Definition state_zero_ceiling : Limiter.state nat nat :=
  default (Limiter.createLimit 0)
    (Limiter.run (Limiter.createLimit 0) events_zero_ceiling).

(** A concrete run with the ceiling the program uses, [createLimit(3)]:
    four tasks are submitted, three start, task 1 rejects with error 7
    and its slot goes to task 3. *)
Definition demo_events : list (Limiter.event nat nat) :=
  [Limiter.Submit; Limiter.Submit; Limiter.Submit; Limiter.Submit;
   Limiter.Tick; Limiter.Tick; Limiter.Tick; Limiter.Tick;
   Limiter.Settle 1 (Rejected 7)].

Definition demo_state : Limiter.state nat nat :=
  default (Limiter.createLimit 3) (Limiter.run (Limiter.createLimit 3) demo_events).

(** A paragraph block as the API returns it, and three malformed ones:
    a [rich_text] that is a string, a type tag naming an inherited
    member, a payload that is [null]. *)
Definition block_paragraph : Sanitize.value :=
  Sanitize.VObj 1
    [("object", Sanitize.VStr "block"); ("id", Sanitize.VStr "b-1");
     ("type", Sanitize.VStr "paragraph");
     ("has_children", Sanitize.VBool true);
     ("paragraph",
      Sanitize.VObj 2
        [("rich_text",
          Sanitize.VArr 3
            [Sanitize.VObj 4
               [("type", Sanitize.VStr "text");
                ("text", Sanitize.VObj 5 [("content", Sanitize.VStr "hi")])]]);
         ("color", Sanitize.VStr "default")])]%string.

Definition block_string_rich_text : Sanitize.value :=
  Sanitize.VObj 1
    [("type", Sanitize.VStr "paragraph");
     ("paragraph",
      Sanitize.VObj 2 [("rich_text", Sanitize.VStr "hello")])]%string.

Definition block_constructor : Sanitize.value :=
  Sanitize.VObj 1 [("type", Sanitize.VStr "constructor")]%string.

Definition block_null_payload : Sanitize.value :=
  Sanitize.VObj 1
    [("type", Sanitize.VStr "widget"); ("widget", Sanitize.VNull);
     ("id", Sanitize.VStr "b-2")]%string.

(** The claim of totality, as stated: whatever the blocks of a JSON
    document, a list of the same length is returned. *)
Definition sanitize_total : Prop :=
  forall blocks c,
    Forall (fun b => Sanitize.is_object b /\ Sanitize.json b) blocks ->
    exists out c', Sanitize.sanitizeBlocks blocks c = Sanitize.Ok out c' /\
      length out = length blocks.

(** A link as the installer builds it, on a concrete task row. *)
Definition demo_link : Signing.url :=
  Signing.buildActionUrl Sha256.hmac_sha256_hex
    "1700000000000" "123e4567-e89b-12d3-a456-426614174000"
    "https://example.vercel.app/api/" "start"
    (Signing.action_params (Some "11111111-2222-3333-4444-555555555555")
       (Some "db-tasks") (Some "db-cal"))%string
    (Some "s3cret"%string).

(** The same link signed over the payload the backends check. *)
Definition demo_link_resigned : Signing.url :=
  Signing.mkUrl (Signing.location demo_link)
    (Signing.sp_set (Signing.query demo_link) "sig"
       (Sha256.hmac_sha256_hex "s3cret"
          (Signing.verified_payload (Signing.query demo_link)))).

(** A limiter with ceiling 1 and two tasks, of which the first has
    started; and the events of an event loop in which the promise of
    that task stays pending. *)
Definition events_pending : list (Limiter.event nat nat) :=
  [Limiter.Submit; Limiter.Tick; Limiter.Submit; Limiter.Tick].

Definition state_pending : Limiter.state nat nat :=
  default (Limiter.createLimit 1)
    (Limiter.run (Limiter.createLimit 1) events_pending).

Definition first_pending (ev : Limiter.event nat nat) : Prop :=
  match ev with
  | Limiter.Settle 0 _ => False
  | _ => True
  end.

(** index.js with a token in the environment, what [ensureClient()]
    does there, and a call of [cloneBlocksRecursive] in that process,
    on a source block with sixty children. *)
Definition script_env : Client.env :=
  Client.index_js (Some "secret_token"%string) None.

Definition script_client : settled unit Client.failure :=
  Client.outcome script_env.

Definition script_sanitize (bs : list (nat * bool))
    : settled (list nat) Client.failure :=
  Fulfilled (map fst bs).

Definition script_start : Replicator.state (nat * bool) nat Client.failure :=
  Replicator.start script_client 1 100.

Definition script_step :=
  Replicator.step (sblock := nat) fst snd script_sanitize script_client.

Definition sixty_children : list (nat * bool) :=
  map (fun i => (i, false)) (seq 0 60).

(** The error [ensureClient()] throws there, as [withRetry] sees it: an
    error without a status. *)
Definition reference_error : Retry.error := Retry.mkError 0 None None.

Definition script_list_client : settled unit Retry.error :=
  Client.outcome_as (fun _ => reference_error) script_env.

(** Concrete source trees, in a process with a client.  A block is its
    id and its [has_children] flag; sanitizing keeps the id; an error
    is its status code. *)
Definition demo_sanitize (bs : list (nat * bool)) : settled (list nat) nat :=
  Fulfilled (map fst bs).

Definition demo_run :=
  Replicator.run (sblock := nat) (E := nat) fst snd demo_sanitize
    (Fulfilled tt).

Definition demo_step :=
  Replicator.step (sblock := nat) (E := nat) fst snd demo_sanitize
    (Fulfilled tt).

Definition demo_start : Replicator.state (nat * bool) nat nat :=
  Replicator.start (Fulfilled tt) 1 100.

(** A page with two blocks, the first with an empty child list:
    everything fulfils. *)
Definition trace_fulfilled : list (Replicator.event (nat * bool) nat) :=
  [Replicator.Listed 0 (Fulfilled [(10, true); (11, false)]);
   Replicator.Appended 0 (Fulfilled [110; 111]);
   Replicator.Tick; Replicator.Tick;
   Replicator.Listed 1 (Fulfilled []);
   Replicator.All 1 None;
   Replicator.Settle 0; Replicator.Settle 1;
   Replicator.Finally 0; Replicator.Finally 1;
   Replicator.All 0 None].

Definition state_fulfilled : Replicator.state (nat * bool) nat nat :=
  default demo_start (demo_run demo_start trace_fulfilled).

(** A page with two blocks that both have children: the listing of the
    first child fails with status 404 while the listing of the second
    is still under way. *)
Definition trace_fail_fast : list (Replicator.event (nat * bool) nat) :=
  [Replicator.Listed 0 (Fulfilled [(10, true); (11, true)]);
   Replicator.Appended 0 (Fulfilled [110; 111]);
   Replicator.Tick; Replicator.Tick;
   Replicator.Listed 1 (Rejected 404);
   Replicator.Settle 0;
   Replicator.All 0 (Some 0)].

Definition state_fail_fast : Replicator.state (nat * bool) nat nat :=
  default demo_start (demo_run demo_start trace_fail_fast).

(** A page whose blocks nest four deep: 10 contains 20, which contains
    30, which contains 40. *)
Definition trace_nested : list (Replicator.event (nat * bool) nat) :=
  [Replicator.Listed 0 (Fulfilled [(10, true)]);
   Replicator.Appended 0 (Fulfilled [110]); Replicator.Tick;
   Replicator.Listed 1 (Fulfilled [(20, true)]);
   Replicator.Appended 1 (Fulfilled [120]); Replicator.Tick;
   Replicator.Listed 2 (Fulfilled [(30, true)]);
   Replicator.Appended 2 (Fulfilled [130]); Replicator.Tick;
   Replicator.Listed 3 (Fulfilled [(40, false)]);
   Replicator.Appended 3 (Fulfilled [140]); Replicator.Tick].

Definition state_nested : Replicator.state (nat * bool) nat nat :=
  default demo_start (demo_run demo_start trace_nested).

(** A listing of two pages, served reliably; the same with a first call
    that fails with status 503; the same with a second page that fails
    with status 404; and a listing that always announces a further
    page. *)
Definition demo_page_1 : Pagination.response nat :=
  Pagination.mkResponse [1; 2] true (Some "c1"%string).

Definition demo_page_2 : Pagination.response nat :=
  Pagination.mkResponse [3] false None.

Definition demo_list_children (k : nat) (req : Pagination.request)
    : settled (Pagination.response nat) Retry.error :=
  match Pagination.start_cursor req with
  | None => Fulfilled demo_page_1
  | Some _ => Fulfilled demo_page_2
  end.

Definition flaky_list_children (k : nat) (req : Pagination.request)
    : settled (Pagination.response nat) Retry.error :=
  match k with
  | O => Rejected (Retry.mkError 0 (Some 503%Z) None)
  | S _ => demo_list_children k req
  end.

Definition failing_list_children (k : nat) (req : Pagination.request)
    : settled (Pagination.response nat) Retry.error :=
  match Pagination.start_cursor req with
  | None => Fulfilled demo_page_1
  | Some _ => Rejected (Retry.mkError 1 (Some 404%Z) None)
  end.

Definition endless_list_children (k : nat) (req : Pagination.request)
    : settled (Pagination.response nat) Retry.error :=
  Fulfilled (Pagination.mkResponse [k] true (Some "again"%string)).

Definition demo_requests : list Pagination.request :=
  [Pagination.mkRequest "page" None 100;
   Pagination.mkRequest "page" (Some "c1") 100]%string.

(** The properties of a database as the API returns them. *)
Definition demo_price : Js.value :=
  Js.VObj [("id", Js.VStr "p1"); ("type", Js.VStr "number");
           ("number", Js.VObj [("format", Js.VStr "dollar")])]%string.

Definition demo_tags : Js.value :=
  Js.VObj
    [("id", Js.VStr "p2"); ("type", Js.VStr "multi_select");
     ("multi_select",
      Js.VObj
        [("options",
          Js.VArr [Js.VObj [("id", Js.VStr "o1"); ("name", Js.VStr "A");
                            ("color", Js.VStr "red")]])])]%string.

Definition demo_database_properties : list (string * Js.value) :=
  [("Name", Js.VObj [("id", Js.VStr "title"); ("type", Js.VStr "title");
                     ("title", Js.VObj [])]);
   ("Tags", demo_tags); ("Price", demo_price)]%string.

Definition demo_created : Js.res Js.value :=
  Eval vm_compute in
    Schema.transformPropertiesToCreate (Js.VObj demo_database_properties).

(** The schema of a blueprint: a title, a select whose options are a
    string and an object, a relation to the database known as
    [projects], and a type the installer does not know. *)
Definition demo_relation : Js.value :=
  Js.VObj [("type", Js.VStr "relation");
           ("relation", Js.VObj [("database", Js.VStr "projects")])]%string.

Definition demo_people : Js.value :=
  Js.VObj [("type", Js.VStr "people")]%string.

Definition demo_schema : list (string * Js.value) :=
  [("Name", Js.VObj [("type", Js.VStr "title")]);
   ("Stage",
    Js.VObj [("type", Js.VStr "select");
             ("select",
              Js.VObj [("options",
                        Js.VArr [Js.VStr "Todo";
                                 Js.VObj [("name", Js.VStr "Done");
                                          ("color", Js.VStr "green")]])])]);
   ("Project", demo_relation); ("Owner", demo_people)]%string.

Definition demo_aliases : Js.value :=
  Js.VObj [("projects", Js.VStr "db-7")]%string.

Definition demo_built : Js.res Js.value :=
  Eval vm_compute in Schema.buildDbProperties (Js.VObj demo_schema) demo_aliases.

Definition demo_built_unresolved : list (string * Js.value) :=
  match Schema.buildDbProperties (Js.VObj demo_schema) Js.VUndef with
  | Js.Ok (Js.VObj out) => out
  | _ => []
  end.

Definition demo_database : Js.value :=
  Js.VObj [("alias", Js.VStr "tasks"); ("title", Js.VStr "Tasks");
           ("properties", Js.VObj demo_schema)]%string.

Definition demo_first_pass : Js.res Js.value :=
  Eval vm_compute in Schema.propsNoRelation demo_database.

(** A page whose title has two fragments, and a seed row. *)
Definition demo_title_items : list Js.value :=
  [Js.VObj [("type", Js.VStr "text"); ("plain_text", Js.VStr "Hello ")];
   Js.VObj [("type", Js.VStr "text"); ("plain_text", Js.VStr "World")]]%string.

Definition demo_page : list (string * Js.value) :=
  [("id", Js.VStr "page-1");
   ("properties",
    Js.VObj [("Status", Js.VObj [("type", Js.VStr "status")]);
             ("Title", Js.VObj [("type", Js.VStr "title");
                                ("title", Js.VArr demo_title_items)])])]%string.

Definition demo_row : list (string * Js.value) :=
  [("Name", Js.VStr "First"); ("Estimate", Js.VNum 3);
   ("Notes", Js.VStr "n"); ("Done", Js.VBool false)]%string.

Definition demo_seed : Js.res Js.value :=
  Eval vm_compute in Schema.seed_properties "Task" (Js.VObj demo_row).

(** A task whose timer was started ninety seconds ago, an API that
    serves it, and the link of [demo_link_resigned], whose signature
    covers [action=start], requested under the path of [stop]. *)
Definition demo_task : Js.value :=
  Js.VObj
    [("id", Js.VStr "11111111-2222-3333-4444-555555555555");
     ("properties",
      Js.VObj
        [("Status", Js.VObj [("type", Js.VStr "status")]);
         ("Timer Running", Js.VObj [("checkbox", Js.VBool true)]);
         ("Last Started At",
          Js.VObj [("date",
                    Js.VObj [("start", Js.VStr "2023-11-14T22:13:20.000Z")])]);
         ("Total Tracked (min)", Js.VObj [("number", Js.VNum 5)])])]%string.

Definition demo_notion : Api.server nat :=
  fun _ c =>
    if String.eqb (Api.method c) "pages.retrieve" then Fulfilled demo_task
    else if String.eqb (Api.method c) "databases.retrieve"
    then Fulfilled
           (Js.VObj [("properties",
                      Js.VObj [("Task",
                                Js.VObj [("type", Js.VStr "title")])])]%string)
    else Fulfilled (Js.VObj []).

Definition demo_env : Worker.env :=
  Worker.mkEnv (Some "s3cret"%string) (Some "secret_token"%string).

Definition demo_start_request : Worker.request :=
  Worker.mkRequest "/a/start" (Signing.query demo_link_resigned).

Definition demo_stop_request : Worker.request :=
  Worker.mkRequest "/a/stop" (Signing.query demo_link_resigned).

Definition demo_parse_date (s : string) : option Z := Some 1700000000000%Z.

Definition demo_fetch :=
  Worker.fetch (E := nat) Sha256.hmac_sha256_hex demo_parse_date
    "2023-11-14T22:14:50.000Z" 1700000090000%Z.

Definition demo_stop_run : Api.outcome nat Worker.response * list Api.call :=
  Eval vm_compute in demo_fetch demo_stop_request demo_env demo_notion [].

Definition demo_stop_response : Worker.response :=
  match fst demo_stop_run with
  | Api.Returned resp => resp
  | _ => Worker.json 0 Js.VUndef
  end.

(** A page template with three children, a database template, two
    databases of which the second relates to the first, and a
    workspace that creates what it is asked to. *)
Definition demo_children : list Js.value :=
  [Js.VObj [("type", Js.VStr "heading_1")];
   Js.VObj [("type", Js.VStr "paragraph")];
   Js.VObj [("type", Js.VStr "divider")]]%string.

Definition demo_template : Js.value :=
  Js.VObj [("kind", Js.VStr "page"); ("title", Js.VStr "Plan");
           ("children", Js.VArr demo_children)]%string.

Definition demo_database_template : Js.value :=
  Js.VObj [("kind", Js.VStr "database"); ("title", Js.VStr "Tasks")]%string.

Definition demo_projects : Js.value :=
  Js.VObj [("alias", Js.VStr "projects"); ("title", Js.VStr "Projects");
           ("properties",
            Js.VObj [("Name", Js.VObj [("type", Js.VStr "title")])])]%string.

Definition demo_workspace : Api.server nat :=
  fun tr c =>
    if String.eqb (Api.method c) "pages.create"
    then Fulfilled (Js.VObj [("id", Js.VStr "page-9")]%string)
    else if String.eqb (Api.method c) "databases.create"
    then Fulfilled
           (Js.VObj [("id", Js.VStr (if Nat.eqb (length tr) 0 then "db-7"
                                     else "db-8"))]%string)
    else Fulfilled (Js.VObj []).

Definition demo_template_run : Api.outcome nat Js.value * list Api.call :=
  Eval vm_compute in
    Installer.createFromJsonTemplate (Fulfilled tt) demo_template
      "parent-1"%string "page"%string demo_workspace [].

Definition demo_blueprint_run : Api.outcome nat Js.value * list Api.call :=
  Eval vm_compute in
    Installer.createRelationPlaceholders (Fulfilled tt)
      [demo_projects; demo_database] "parent-1"%string demo_workspace [].

(** The same calls in index.js as it stands, where [ensureClient]
    throws. *)
Definition script_ensure : settled unit Js.exn := Installer.client_of script_env.

Definition script_template_run : Api.outcome nat Js.value * list Api.call :=
  Eval vm_compute in
    Installer.createFromJsonTemplate script_ensure demo_template
      "parent-1"%string "page"%string demo_workspace [].

Definition script_blueprint_run : Api.outcome nat Js.value * list Api.call :=
  Eval vm_compute in
    Installer.createRelationPlaceholders script_ensure
      [demo_projects; demo_database] "parent-1"%string demo_workspace [].

(** The link of [demo_link_resigned] requested from the Vercel handler
    under the path of [stop], and a webhook request. *)
Definition demo_vercel_request : Vercel.request :=
  Vercel.mkRequest "GET" "/api/a/stop" (Signing.query demo_link_resigned)
    None (Js.Ok Js.VNull).

Definition demo_webhook_request : Vercel.request :=
  Vercel.mkRequest "POST" "/api/webhook/notion"
    [("secret", "s3cret")]%string None
    (Js.Ok (Js.VObj [("event", Js.VStr "page.updated")]%string)).

Definition demo_handler :=
  Vercel.handler (E := nat) Sha256.hmac_sha256_hex demo_parse_date
    "2023-11-14T22:14:50.000Z" 1700000090000%Z.

Definition demo_vercel_run : Api.outcome nat Vercel.reply * list Api.call :=
  Eval vm_compute in demo_handler demo_vercel_request demo_env demo_notion [].

Definition demo_webhook_run : Api.outcome nat Vercel.reply * list Api.call :=
  Eval vm_compute in demo_handler demo_webhook_request demo_env demo_notion [].

(** A workspace whose pages are [demo_page], one that holds a database
    and no page, and stand-ins for the listing and the copy of the
    blocks of a page without blocks. *)
Definition demo_master_server : Api.server nat :=
  fun _ c =>
    if String.eqb (Api.method c) "pages.retrieve"
    then Fulfilled (Js.VObj demo_page)
    else Fulfilled (Js.VObj [("id", Js.VStr "page-9")]%string).

Definition demo_database_server : Api.server nat :=
  fun _ c =>
    if String.eqb (Api.method c) "databases.retrieve"
    then Fulfilled
           (Js.VObj [("id", Js.VStr "db-1");
                     ("properties", Js.VObj demo_database_properties)]%string)
    else Rejected 404.

Definition demo_get_blocks (id : string) : Api.async nat Js.value :=
  Api.ret (Js.VArr []).

Definition demo_clone_blocks (source target : Js.value) : Api.async nat unit :=
  Api.ret tt.

Definition demo_clone_database_run
    : Api.outcome nat Js.value * list Api.call :=
  Eval vm_compute in
    Installer.cloneFromMaster (Fulfilled tt) demo_get_blocks
      demo_clone_blocks "db-1"%string "parent-1"%string "under_page"%string
      demo_database_server [].

Definition script_clone_database_run
    : Api.outcome nat Js.value * list Api.call :=
  Eval vm_compute in
    Installer.cloneFromMaster script_ensure demo_get_blocks
      demo_clone_blocks "db-1"%string "parent-1"%string "under_page"%string
      demo_database_server [].

(** Seeds for two aliases, of which the installation knows one. *)
Definition demo_seeds : list (string * Js.value) :=
  [("tasks", Js.VArr [Js.VObj demo_row]);
   ("ghosts", Js.VArr [Js.VObj demo_row])]%string.

Definition demo_alias_ids : list (string * Js.value) :=
  [("tasks", Js.VStr "db-8")]%string.

Definition demo_seeds_run : Api.outcome nat Js.value * list Api.call :=
  Eval vm_compute in
    Installer.createSeeds (Fulfilled tt) (Js.VObj demo_seeds)
      (Js.VObj demo_alias_ids) demo_notion [].

Definition script_seeds_run : Api.outcome nat Js.value * list Api.call :=
  Eval vm_compute in
    Installer.createSeeds script_ensure (Js.VObj demo_seeds)
      (Js.VObj demo_alias_ids) demo_notion [].

(* ================================================================== *)
(** * Properties *)
(* ================================================================== *)

(** ** withRetry *)

Section RetryFacts.
Import Retry.
Local Open Scope Z_scope.
Context {V : Type}.
Implicit Types (fn : operation V) (r : run V) (e : error).

Lemma backoff_range k : 500 <= backoff k <= 5000.
Proof. induction k as [|k IH]; simpl; lia. Qed.

Lemma backoff_step_le k : backoff k <= backoff (S k).
Proof. pose proof (backoff_range k). simpl. lia. Qed.

Lemma backoff_mono i j : (i <= j)%nat -> backoff i <= backoff j.
Proof.
  induction 1 as [|j _ IH]; [lia|].
  pose proof (backoff_step_le j). lia.
Qed.

Lemma fails_retryably_weaken fn k n :
  (k <= n)%nat -> fails_retryably fn n -> fails_retryably fn k.
Proof. intros Hkn H i Hi. apply H. lia. Qed.

Lemma fails_retryably_S fn k e :
  fails_retryably fn k -> fn k = Rejected e -> retryable e = true ->
  fails_retryably fn (S k).
Proof.
  intros H He Hr i Hi.
  destruct (Nat.eq_dec i k) as [->|Hne]; [eauto|].
  apply H. lia.
Qed.

(** The loop, entered after [k] retryable failures, stops at some
    invocation [n] with [k <= n <= 4]: everything before [n] failed
    retryably, the result is the outcome of invocation [n], and the
    delays waited are [backoff 0 .. backoff (n-1)]. *)
Lemma withRetry_loop_char fuel : forall fn k r,
  (k <= 4)%nat -> fails_retryably fn k ->
  withRetry_loop fuel fn (Z.of_nat k) (backoff k) k (map backoff (seq 0 k))
    = Some r ->
  exists n, (k <= n <= 4)%nat /\ invocations r = S n /\
    sleeps r = map backoff (seq 0 n) /\ result r = fn n /\
    fails_retryably fn n /\
    (forall e, fn n = Rejected e -> n = 4%nat \/ fatal (status_of e) = true).
Proof.
  induction fuel as [|fuel IH]; intros fn k r Hk Hpre; simpl; [discriminate|].
  destruct (fn k) as [v|e] eqn:Hfn.
  - intros [= <-]. exists k. simpl. repeat split; auto; try lia.
    intros e He. congruence.
  - destruct ((Z.of_nat k + 1 >=? 5) || fatal (status_of e)) eqn:Hstop.
    + intros [= <-]. exists k. simpl. repeat split; auto; try lia.
      intros e' He'. assert (e' = e) as -> by congruence.
      apply orb_true_iff in Hstop as [Hge|Hf]; [left; lia|right; exact Hf].
    + apply orb_false_iff in Hstop as [Hlt Hnf].
      replace (Z.of_nat k + 1) with (Z.of_nat (S k)) by lia.
      change (Z.min (backoff k * 2) 5000) with (backoff (S k)).
      replace (map backoff (seq 0 k) ++ [backoff k])
        with (map backoff (seq 0 (S k)))
        by (rewrite seq_S, map_app; reflexivity).
      intros Hrun. apply IH in Hrun; [|lia|].
      * destruct Hrun as (n & Hn & Hrest). exists n. split; [lia|exact Hrest].
      * eapply fails_retryably_S; eauto. unfold retryable. now rewrite Hnf.
Qed.

(** Five iterations are always enough: the loop returns. *)
Lemma withRetry_loop_total fuel : forall fn k w c s,
  (k <= 4)%nat -> (5 <= fuel + k)%nat ->
  exists r, withRetry_loop fuel fn (Z.of_nat k) w c s = Some r.
Proof.
  induction fuel as [|fuel IH]; intros fn k w c s Hk Hfuel; [lia|]. simpl.
  destruct (fn c) as [v|e]; [eauto|].
  destruct ((Z.of_nat k + 1 >=? 5) || fatal (status_of e)) eqn:Hstop; [eauto|].
  apply orb_false_iff in Hstop as [Hlt _].
  replace (Z.of_nat k + 1) with (Z.of_nat (S k)) by lia.
  apply IH; lia.
Qed.

Lemma withRetry_total fuel fn :
  (5 <= fuel)%nat -> exists r, withRetry fuel fn = Some r.
Proof.
  intros H. unfold withRetry.
  apply (withRetry_loop_total fuel fn 0%nat); lia.
Qed.

Lemma withRetry_char fuel fn r :
  withRetry fuel fn = Some r ->
  exists n, (n <= 4)%nat /\ invocations r = S n /\
    sleeps r = map backoff (seq 0 n) /\ result r = fn n /\
    fails_retryably fn n /\
    (forall e, fn n = Rejected e -> n = 4%nat \/ fatal (status_of e) = true).
Proof.
  intros H.
  destruct (withRetry_loop_char fuel fn 0%nat r) as (n & Hn & Hrest);
    [lia|intros i Hi; lia|exact H|].
  exists n. split; [lia|exact Hrest].
Qed.




(** C3: an operation whose failures are all retryable is invoked five
    times and the fifth error is surfaced; the delays waited are 500,
    1000, 2000, 4000.  In every call the delay starts at 500, doubles
    after each retryable failure, is capped at 5000 and never decreases,
    and the operation is invoked at most five times. *)
Theorem withRetry_exhaustion_and_backoff :
  (forall fn fuel,
      fails_retryably fn 5 -> (5 <= fuel)%nat ->
      exists e, fn 4%nat = Rejected e /\
        withRetry fuel fn =
          Some (mkRun (Rejected e) 5 [500; 1000; 2000; 4000])) /\
  (forall fn fuel r,
      withRetry fuel fn = Some r ->
      (invocations r <= 5)%nat /\
      sleeps r = map backoff (seq 0 (invocations r - 1))) /\
  backoff 0 = 500 /\
  (forall k, backoff (S k) = Z.min (backoff k * 2) 5000) /\
  (forall k, backoff k <= 5000) /\
  (forall i j, (i <= j)%nat -> backoff i <= backoff j).
Proof.
  split; [|split; [|split; [|split; [|split]]]].
  - intros fn fuel Hall Hfuel.
    destruct (withRetry_total fuel fn Hfuel) as [r Hrun].
    destruct (withRetry_char fuel fn r Hrun)
      as (n & Hn & Hinv & Hsl & Hres & Hfails & Hlast).
    destruct (Hall n ltac:(lia)) as (e & He & Hre).
    destruct (Hlast e He) as [->|Hf].
    + exists e. split; [exact He|]. rewrite Hrun. f_equal.
      destruct r as [res inv sl]. simpl in *. subst. now rewrite He.
    + unfold retryable in Hre. rewrite Hf in Hre. discriminate.
  - intros fn fuel r Hrun.
    destruct (withRetry_char fuel fn r Hrun)
      as (n & Hn & Hinv & Hsl & _).
    rewrite Hinv. split; [lia|]. now rewrite Hsl, Nat.sub_1_r.
  - reflexivity.
  - reflexivity.
  - intros k. apply backoff_range.
  - apply backoff_mono.
Qed.

(** C4: after [K <= 4] retryable failures followed by a success the
    executor resolves with that very value after exactly [K + 1]
    invocations; and whenever the executor settles, it settles with the
    outcome of its last invocation, every earlier invocation having
    failed retryably, a rejection being either fatal or the fifth. *)
Theorem withRetry_success_after_failures :
  (forall fn K v fuel,
      (K <= 4)%nat -> fails_retryably fn K -> fn K = Fulfilled v ->
      (K < fuel)%nat ->
      withRetry fuel fn =
        Some (mkRun (Fulfilled v) (S K) (map backoff (seq 0 K)))) /\
  (forall fn fuel r,
      withRetry fuel fn = Some r ->
      exists n, invocations r = S n /\ result r = fn n /\
        fails_retryably fn n /\
        (forall e, result r = Rejected e ->
           n = 4%nat \/ fatal (status_of e) = true)).
Proof.
  split.
  - intros fn K v fuel HK Hpre Hok Hfuel.
    assert (forall f k, (k <= K)%nat -> (K - k < f)%nat ->
              withRetry_loop f fn (Z.of_nat k) (backoff k) k
                (map backoff (seq 0 k)) =
              Some (mkRun (Fulfilled v) (S K) (map backoff (seq 0 K)))) as Hloop.
    { induction f as [|f IH]; intros k Hk Hf; [lia|]. simpl.
      destruct (Nat.eq_dec k K) as [->|Hne]; [now rewrite Hok|].
      destruct (Hpre k ltac:(lia)) as (e & -> & Hre).
      unfold retryable in Hre. apply negb_true_iff in Hre. rewrite Hre.
      destruct (Z.of_nat k + 1 >=? 5) eqn:Hge; [apply Z.geb_le in Hge; lia|].
      simpl.
      replace (Z.of_nat k + 1) with (Z.of_nat (S k)) by lia.
      replace (map backoff (seq 0 k) ++ [backoff k])
        with (map backoff (seq 0 (S k)))
        by (rewrite seq_S, map_app; reflexivity).
      apply (IH (S k)); lia. }
    apply (Hloop fuel 0%nat); lia.
  - intros fn fuel r Hrun.
    destruct (withRetry_char fuel fn r Hrun)
      as (n & Hn & Hinv & Hsl & Hres & Hfails & Hlast).
    exists n. repeat split; auto.
    intros e He. apply Hlast. congruence.
Qed.

End RetryFacts.

Lemma op_503_twice_fails : Retry.fails_retryably (op_503_twice_then 7) 2.
Proof.
  intros i Hi. exists (Retry.mkError i None (Some 503%Z)). split.
  - unfold op_503_twice_then. destruct (Nat.ltb_spec i 2); [reflexivity|lia].
  - reflexivity.
Defined.

Lemma op_always_503_fails n : Retry.fails_retryably op_always_503 n.
Proof.
  intros i _. exists (Retry.mkError i (Some 503%Z) None).
  split; reflexivity.
Defined.


Lemma withRetry_exhaustion_and_backoff_witness :
  exists e, op_always_503 4%nat = Rejected e /\
    Retry.withRetry 5 op_always_503
      = Some (Retry.mkRun (Rejected e) 5 [500; 1000; 2000; 4000]%Z).
Proof.
  apply (proj1 withRetry_exhaustion_and_backoff op_always_503 5%nat).
  - apply op_always_503_fails.
  - lia.
Defined.

Lemma withRetry_success_after_failures_witness :
  Retry.withRetry 5 (op_503_twice_then 7)
    = Some (Retry.mkRun (Fulfilled 7) 3 [500; 1000]%Z).
Proof.
  apply (proj1 withRetry_success_after_failures (op_503_twice_then 7) 2%nat 7).
  - lia.
  - apply op_503_twice_fails.
  - reflexivity.
  - lia.
Defined.

(** ** createLimit *)

Section LimiterFacts.
Import Limiter.
Local Open Scope Z_scope.
Context {V E : Type}.
Implicit Types (s : state V E) (ev : event V E) (t : task).

Lemma inv_createLimit n : 0 <= n -> inv n (createLimit (V:=V) (E:=E) n).
Proof.
  intros Hn. split; [split|]; simpl; try done.
  all: try (intros t Ht; set_solver).
  intros t [o Ho]. by rewrite lookup_empty in Ho.
Qed.

Lemma queue_head_fresh n s t q :
  inv_core n s -> queue s = t :: q ->
  (t ∉ started s) /\ (t ∉ running s) /\ (t ∉ finishing s) /\
  returned s !! t = None.
Proof.
  intros Hi Hq.
  assert (t ∉ started s) as Hns.
  { pose proof (NoDup_seq 0 (submitted s)) as Hnd.
    rewrite <- (core_fifo _ _ Hi), Hq in Hnd.
    apply NoDup_app in Hnd as (_ & Hd & _).
    intros Hin. apply (Hd t Hin). left. }
  split; [exact Hns|]. split; [|split].
  - intros Hin. by apply (core_running _ _ Hi) in Hin as [? _].
  - intros Hin. by apply (core_finishing _ _ Hi) in Hin as [? _].
  - destruct (returned s !! t) eqn:Hr; [|done].
    exfalso. apply Hns, (core_returned _ _ Hi). by eexists.
Qed.

Lemma size_remove (X : gset nat) (t : nat) :
  t ∈ X -> size X = S (size (X ∖ {[t]})).
Proof.
  intros Hin. rewrite (union_difference_L {[t]} X) at 1 by set_solver.
  rewrite size_union, size_singleton by set_solver. done.
Qed.

Lemma geb_false a b : (a >=? b) = false -> a < b.
Proof. rewrite Z.geb_leb. apply Z.leb_gt. Qed.

Lemma next_core n s : inv_core n s -> inv_core n (next s).
Proof.
  intros Hi. unfold next.
  destruct (active s >=? concurrency s) eqn:Hge; [done|].
  destruct (queue s) as [|t q] eqn:Hq; [done|].
  destruct (queue_head_fresh n s t q Hi Hq) as (Hns & Hnr & Hnf & Hret).
  apply geb_false in Hge. destruct Hi as [Hc Ha Hb Hf Hd Hr Hfi Hst Hre].
  split; simpl.
  - done.
  - rewrite size_union, size_singleton by set_solver. lia.
  - lia.
  - rewrite <- app_assoc. simpl. by rewrite <- Hq.
  - set_solver.
  - intros t' [Heq%elem_of_singleton|Hin]%elem_of_union.
    + subst t'. split; [set_solver|done].
    + destruct (Hr t' Hin). split; [set_solver|done].
  - intros t' Hin. destruct (Hfi t' Hin). split; [set_solver|done].
  - intros t' [Hin|Heq%list_elem_of_singleton]%elem_of_app.
    + destruct (Hst t' Hin); [left; set_solver|by right].
    + subst t'. left. set_solver.
  - intros t' Hs. apply Hre in Hs. set_solver.
Qed.

Lemma next_timers n s :
  inv_core n s ->
  (active s + 1 < n -> (length (queue s) <= timers s + 1)%nat) ->
  active (next s) < n -> (length (queue (next s)) <= timers (next s))%nat.
Proof.
  intros Hi Hpre. unfold next.
  destruct (active s >=? concurrency s) eqn:Hge.
  - apply Z.geb_le in Hge. rewrite (core_conc _ _ Hi) in Hge. lia.
  - destruct (queue s) as [|t q] eqn:Hq; simpl; [rewrite Hq; simpl; lia|].
    intros Hlt. specialize (Hpre Hlt). simpl in Hpre. lia.
Qed.

Lemma submit_inv n s : inv n s -> inv n (submit s).
Proof.
  intros [[Hc Ha Hb Hf Hd Hr Hfi Hst Hre] Ht]. split; [split|]; simpl; try done.
  - change (0%nat :: seq 1 (submitted s)) with (seq 0 (S (submitted s))).
    by rewrite app_assoc, Hf, seq_S.
  - intros Hlt. rewrite length_app. simpl. specialize (Ht Hlt). lia.
Qed.

Lemma settle_state t o s :
  settle t o s =
    mkState (concurrency s) (active s) (queue s) (timers s) (submitted s)
      (started s) (running s ∖ {[t]}) ({[t]} ∪ finishing s)
      (settle_once (returned s) t o).
Proof. by destruct o. Qed.

Lemma settle_inv n s t o : inv n s -> t ∈ running s -> inv n (settle t o s).
Proof.
  intros [[Hc Ha Hb Hf Hd Hr Hfi Hst Hre] Ht] Hin. rewrite settle_state.
  destruct (Hr t Hin) as [Hts Hnone].
  assert (settle_once (returned s) t o = <[t:=o]> (returned s)) as Hso
    by (unfold settle_once; by rewrite Hnone).
  split; [split|]; simpl; try done.
  - rewrite (size_union {[t]} (finishing s)) by set_solver.
    rewrite size_singleton.
    rewrite (size_remove (running s) t Hin) in Ha. lia.
  - set_solver.
  - intros t' [Hin' Hne]%elem_of_difference.
    destruct (Hr t' Hin'). split; [done|].
    rewrite Hso, lookup_insert_ne; [done|set_solver].
  - intros t' [Heq%elem_of_singleton|Hin']%elem_of_union.
    + subst t'. split; [done|]. rewrite Hso, lookup_insert_eq. by eexists.
    + destruct (Hfi t' Hin') as [? [o' Ho']]. split; [done|].
      rewrite Hso, lookup_insert_ne; [by eexists|]. set_solver.
  - intros t' Hs. destruct (decide (t' = t)) as [->|Hne].
    + right. rewrite Hso, lookup_insert_eq. by eexists.
    + destruct (Hst t' Hs) as [?|[o' Ho']]; [left; set_solver|right].
      rewrite Hso, lookup_insert_ne; [by eexists|done].
  - intros t' [o' Ho']. rewrite Hso in Ho'.
    destruct (decide (t = t')) as [<-|Hne]; [done|].
    rewrite lookup_insert_ne in Ho' by done. apply Hre. by eexists.
Qed.

Lemma release_state t s :
  release t s =
    next (mkState (concurrency s) (active s - 1) (queue s) (timers s)
            (submitted s) (started s) (running s) (finishing s ∖ {[t]})
            (returned s)).
Proof. reflexivity. Qed.

Lemma release_inv n s t : inv n s -> t ∈ finishing s -> inv n (release t s).
Proof.
  intros [[Hc Ha Hb Hf Hd Hr Hfi Hst Hre] Ht] Hin. rewrite release_state.
  set (s0 := mkState _ _ _ _ _ _ _ _ _).
  assert (inv_core n s0) as Hcore.
  { split; simpl; try done.
    - rewrite (size_remove (finishing s) t Hin) in Ha. lia.
    - lia.
    - set_solver.
    - intros t' Hin'. apply Hfi. set_solver. }
  split; [by apply next_core|].
  apply (next_timers n s0 Hcore). simpl. lia.
Qed.

Lemma tick_inv n s k :
  inv n s -> timers s = S k ->
  inv n (next (mkState (concurrency s) (active s) (queue s) k (submitted s)
                 (started s) (running s) (finishing s) (returned s))).
Proof.
  intros [[Hc Ha Hb Hf Hd Hr Hfi Hst Hre] Ht] Hk.
  set (s0 := mkState _ _ _ _ _ _ _ _ _).
  assert (inv_core n s0) as Hcore by (split; simpl; done).
  split; [by apply next_core|].
  apply (next_timers n s0 Hcore). simpl. lia.
Qed.

Lemma step_inv n s ev s' : inv n s -> step s ev = Some s' -> inv n s'.
Proof.
  intros Hi. destruct ev as [| |t o|t]; simpl.
  - intros [= <-]. by apply submit_inv.
  - destruct (timers s) as [|k] eqn:Hk; [done|].
    intros [= <-]. by apply tick_inv.
  - destruct (decide (t ∈ running s)); [|done].
    intros [= <-]. by apply settle_inv.
  - destruct (decide (t ∈ finishing s)); [|done].
    intros [= <-]. by apply release_inv.
Qed.

Lemma run_inv n evs : forall s s',
  inv n s -> run s evs = Some s' -> inv n s'.
Proof.
  induction evs as [|ev evs IH]; intros s s' Hi; simpl.
  - by intros [= <-].
  - destruct (step s ev) as [s1|] eqn:Hs; [|done].
    apply IH. by eapply step_inv.
Qed.

Lemma reachable_inv n s : 0 <= n -> reachable n s -> inv n s.
Proof.
  intros Hn [evs Hrun]. eapply run_inv; [|exact Hrun].
  by apply inv_createLimit.
Qed.

Lemma run_app evs1 : forall evs2 s,
  run s (evs1 ++ evs2) =
    match run s evs1 with Some s1 => run s1 evs2 | None => None end.
Proof.
  induction evs1 as [|ev evs1 IH]; intros evs2 s; simpl; [done|].
  destruct (step s ev); [apply IH|done].
Qed.

Lemma reachable_run n s evs s' :
  reachable n s -> run s evs = Some s' -> reachable n s'.
Proof.
  intros [evs0 H0] Hrun. exists (evs0 ++ evs). by rewrite run_app, H0.
Qed.

(** [next] starts a task only below the ceiling, takes it from the
    head of the queue, and counts it. *)
Lemma next_gate s :
  started (next s) <> started s ->
  active s < concurrency s /\
  exists t q, queue s = t :: q /\ started (next s) = started s ++ [t] /\
    active (next s) = active s + 1 /\ queue (next s) = q.
Proof.
  unfold next. destruct (active s >=? concurrency s) eqn:Hge; [done|].
  destruct (queue s) as [|t q] eqn:Hq; [done|]. simpl. intros _.
  split; [by apply geb_false|]. by exists t, q.
Qed.

Lemma work_next n s : inv_core n s -> (work (next s) <= work s)%nat.
Proof.
  intros Hi. unfold next.
  destruct (active s >=? concurrency s); [done|].
  destruct (queue s) as [|t q] eqn:Hq; [done|].
  destruct (queue_head_fresh n s t q Hi Hq) as (_ & Hnr & _).
  unfold work. simpl. rewrite Hq. simpl.
  rewrite (size_union {[t]} (running s)), size_singleton by set_solver. lia.
Qed.

(** Every event of the event loop uses up work. *)
Lemma step_work n s ev s' :
  inv n s -> internal ev -> step s ev = Some s' -> (work s' < work s)%nat.
Proof.
  intros [Hcore Ht] Hint. destruct ev as [| |t o|t]; simpl.
  - done.
  - destruct (timers s) as [|k] eqn:Hk; [done|]. intros [= <-].
    set (s0 := mkState _ _ _ _ _ _ _ _ _).
    assert (inv_core n s0) as Hc0 by (destruct Hcore; split; simpl; done).
    pose proof (work_next n s0 Hc0) as Hle.
    assert (work s = S (work s0)) by (unfold work; simpl; lia). lia.
  - destruct (decide (t ∈ running s)) as [Hin|]; [|done]. intros [= <-].
    rewrite settle_state. unfold work. simpl.
    assert (t ∉ finishing s) by (destruct Hcore; set_solver).
    rewrite (size_union {[t]} (finishing s)), size_singleton by set_solver.
    rewrite (size_remove (running s) t Hin). lia.
  - destruct (decide (t ∈ finishing s)) as [Hin|]; [|done]. intros [= <-].
    rewrite release_state. set (s0 := mkState _ _ _ _ _ _ _ _ _).
    assert (inv_core n s0) as Hc0.
    { destruct Hcore as [Hc Ha Hb Hf Hd Hr Hfi Hst Hre].
      split; simpl; try done.
      - rewrite (size_remove (finishing s) t Hin) in Ha. lia.
      - lia.
      - set_solver.
      - intros t' Hin'. apply Hfi. set_solver. }
    pose proof (work_next n s0 Hc0) as Hle.
    assert (work s = S (work s0)); [|lia].
    unfold work. simpl. rewrite (size_remove (finishing s) t Hin). lia.
Qed.

Lemma run_work n evs : forall s s',
  inv n s -> Forall internal evs -> run s evs = Some s' ->
  (length evs + work s' <= work s)%nat.
Proof.
  induction evs as [|ev evs IH]; intros s s' Hi Hint; simpl.
  - intros [= <-]. lia.
  - destruct (step s ev) as [s1|] eqn:Hs; [|done]. intros Hrun.
    apply Forall_cons in Hint as [Hev Hint].
    pose proof (step_work n s ev s1 Hi Hev Hs).
    pose proof (IH s1 s' (step_inv n s ev s1 Hi Hs) Hint Hrun). lia.
Qed.

(** No deadlock inside the limiter: once nothing is pending and no
    started task is still executing, nothing is left in the queue and
    every returned promise is settled. *)
Lemma idle_all_settled n s : 1 <= n -> inv n s -> idle s -> all_settled s.
Proof.
  intros Hn [[Hc Ha Hb Hf Hd Hr Hfi Hst Hre] Ht] (Htm & Hrun & Hfin) t Hlt.
  rewrite Hrun, Hfin, size_empty in Ha. simpl in Ha.
  assert (queue s = []) as Hq.
  { apply nil_length_inv. specialize (Ht ltac:(lia)). lia. }
  rewrite Hq, app_nil_r in Hf.
  destruct (Hst t) as [Hin|Hs]; [|set_solver|done].
  rewrite Hf. apply elem_of_seq. lia.
Qed.

(** The event loop can always run the limiter to idleness, whatever
    the tasks settle to. *)
Lemma drain_exists n (outcome : nat -> settled V E) : forall w s,
  work s = w -> inv n s ->
  exists evs s', Forall internal evs /\ run s evs = Some s' /\ idle s'.
Proof.
  induction w as [w IH] using lt_wf_ind. intros s Hw Hi.
  assert (forall ev s1, internal ev -> step s ev = Some s1 ->
            exists evs s', Forall internal evs /\ run s evs = Some s' /\
              idle s') as Hgo.
  { intros ev s1 Hev Hs.
    destruct (IH (work s1)) with (s := s1) as (evs & s' & Hint & Hrun & Hidle).
    - subst w. by eapply step_work.
    - done.
    - by eapply step_inv.
    - exists (ev :: evs), s'. split; [by constructor|].
      split; [|done]. simpl. by rewrite Hs. }
  destruct (timers s) as [|k] eqn:Hk.
  - destruct (decide (running s = ∅)) as [Hr|Hr].
    + destruct (decide (finishing s = ∅)) as [Hf|Hf].
      * exists [], s. by repeat split.
      * apply set_choose_L in Hf as [t Hin].
        apply (Hgo (Finally t) (release t s)); [done|].
        simpl. by destruct (decide (t ∈ finishing s)).
    + apply set_choose_L in Hr as [t Hin].
      apply (Hgo (Settle t (outcome t)) (settle t (outcome t) s)); [done|].
      simpl. by destruct (decide (t ∈ running s)).
  - eapply (Hgo Tick); [done|]. simpl. by rewrite Hk.
Qed.

Lemma next_returned s : returned (next s) = returned s.
Proof.
  unfold next. destruct (active s >=? concurrency s); [done|].
  by destruct (queue s).
Qed.

Lemma next_started n s :
  inv_core n s ->
  started (next s) = started s \/
  exists t, started (next s) = started s ++ [t] /\ (t ∉ started s) /\
    returned s !! t = None.
Proof.
  intros Hi. destruct (decide (started (next s) = started s)) as [|Hne];
    [by left|right].
  destruct (next_gate s Hne) as (_ & t & q & Hq & Hs & _).
  destruct (queue_head_fresh n s t q Hi Hq) as (Hns & _ & _ & Hr).
  by exists t.
Qed.

(** A step of the limiter starts at most one task, one that had not
    started and whose promise is pending. *)
Lemma step_started n s ev s' :
  inv n s -> step s ev = Some s' ->
  started s' = started s \/
  exists t, started s' = started s ++ [t] /\ (t ∉ started s) /\
    returned s' !! t = None /\ ev <> Submit /\ (forall u o, ev <> Settle u o).
Proof.
  intros [Hcore Ht]. destruct ev as [| |u o|u]; simpl.
  - intros [= <-]. by left.
  - destruct (timers s) as [|k] eqn:Hk; [done|]. intros [= <-].
    set (s0 := mkState _ _ _ _ _ _ _ _ _).
    assert (inv_core n s0) as Hc0 by (destruct Hcore; split; simpl; done).
    destruct (next_started n s0 Hc0) as [|(t & H1 & H2 & H3)]; [by left|].
    right. exists t. rewrite next_returned. done.
  - destruct (decide (u ∈ running s)); [|done]. intros [= <-].
    left. by rewrite settle_state.
  - destruct (decide (u ∈ finishing s)) as [Hin|]; [|done]. intros [= <-].
    rewrite release_state. set (s0 := mkState _ _ _ _ _ _ _ _ _).
    assert (inv_core n s0) as Hc0.
    { destruct Hcore as [Hc Ha Hb Hf Hd Hr Hfi Hst Hre].
      split; simpl; try done.
      - rewrite (size_remove (finishing s) u Hin) in Ha. lia.
      - lia.
      - set_solver.
      - intros t' Hin'. apply Hfi. set_solver. }
    destruct (next_started n s0 Hc0) as [|(t & H1 & H2 & H3)]; [by left|].
    right. exists t. rewrite next_returned. done.
Qed.

Lemma next_submitted s : submitted (next s) = submitted s.
Proof.
  unfold next. destruct (active s >=? concurrency s); [done|].
  by destruct (queue s).
Qed.

(** A callback of the limiter leaves the returned promises and the
    count of submissions as they are. *)
Lemma step_callback s ev s' :
  step s ev = Some s' -> ev = Tick \/ (exists t, ev = Finally t) ->
  returned s' = returned s /\ submitted s' = submitted s.
Proof.
  intros Hs [->|[t ->]]; simpl in Hs.
  - destruct (timers s); [done|]. injection Hs as <-.
    by rewrite next_returned, next_submitted.
  - destruct (decide (t ∈ finishing s)); [|done]. injection Hs as <-.
    rewrite release_state. by rewrite next_returned, next_submitted.
Qed.

(** When the promise of a running task settles, only the promise
    returned for that task changes. *)
Lemma step_settle n s t o s' :
  inv n s -> step s (Settle t o) = Some s' ->
  returned s' = <[t := o]> (returned s) /\ returned s !! t = None /\
  submitted s' = submitted s /\ started s' = started s.
Proof.
  intros [Hcore _]. simpl.
  destruct (decide (t ∈ running s)) as [Hin|]; [|done]. intros [= <-].
  rewrite settle_state. simpl.
  destruct (core_running _ _ Hcore t Hin) as [_ Hnone].
  unfold settle_once. by rewrite Hnone.
Qed.

Lemma started_lt_submitted s t :
  started s ++ queue s = seq 0 (submitted s) -> t ∈ started s ->
  (t < submitted s)%nat.
Proof.
  intros Hf Hin.
  assert (t ∈ seq 0 (submitted s)) as Hs by (rewrite <- Hf; set_solver).
  apply elem_of_seq in Hs. lia.
Qed.

(** Submission order is all there is: the start log followed by the
    queue is always [0, 1, ..., submitted - 1]. *)
Lemma step_fifo s ev s' :
  started s ++ queue s = seq 0 (submitted s) -> step s ev = Some s' ->
  started s' ++ queue s' = seq 0 (submitted s').
Proof.
  assert (forall s0 : state V E,
            started s0 ++ queue s0 = seq 0 (submitted s0) ->
            started (next s0) ++ queue (next s0) = seq 0 (submitted (next s0)))
    as Hnext.
  { intros s0 H0. unfold next. destruct (active s0 >=? concurrency s0); [done|].
    destruct (queue s0) as [|t q] eqn:Hq; [by rewrite Hq|]. simpl.
    by rewrite <- app_assoc. }
  intros Hf. destruct ev as [| |t o|t]; simpl.
  - intros [= <-]. simpl.
    change (0%nat :: seq 1 (submitted s)) with (seq 0 (S (submitted s))).
    by rewrite app_assoc, Hf, seq_S.
  - destruct (timers s); [done|]. intros [= <-]. by apply Hnext.
  - destruct (decide (t ∈ running s)); [|done]. intros [= <-].
    by rewrite settle_state.
  - destruct (decide (t ∈ finishing s)); [|done]. intros [= <-].
    rewrite release_state. by apply Hnext.
Qed.

Lemma run_fifo evs : forall s s',
  started s ++ queue s = seq 0 (submitted s) -> run s evs = Some s' ->
  started s' ++ queue s' = seq 0 (submitted s').
Proof.
  induction evs as [|ev evs IH]; intros s s' H0; simpl.
  - by intros [= <-].
  - destruct (step s ev) as [s1|] eqn:Hs; [|done].
    apply IH. by eapply step_fifo.
Qed.

Lemma reachable_fifo n s :
  reachable n s -> started s ++ queue s = seq 0 (submitted s).
Proof. intros [evs Hrun]. by eapply run_fifo; [|exact Hrun]. Qed.

Lemma app_seq_split (l k : list nat) m :
  l ++ k = seq 0 m -> l = seq 0 (length l) /\ k = seq (length l) (length k).
Proof.
  intros H.
  assert (length l + length k = m)%nat as Hm
    by (rewrite <- length_app, H; apply length_seq).
  rewrite <- Hm, seq_app in H. simpl in H.
  apply app_inj_1 in H; [done|]. by rewrite length_seq.
Qed.

(** A promise that has settled stays as it settled. *)
Lemma step_returned s ev s' t o :
  returned s !! t = Some o -> step s ev = Some s' -> returned s' !! t = Some o.
Proof.
  assert (forall s0 : state V E, returned (next s0) = returned s0) as Hnext.
  { intros s0. unfold next. destruct (active s0 >=? concurrency s0); [done|].
    by destruct (queue s0). }
  intros Hr. destruct ev as [| |t' o'|t']; simpl.
  - by intros [= <-].
  - destruct (timers s); [done|]. intros [= <-]. by rewrite Hnext.
  - destruct (decide (t' ∈ running s)); [|done]. intros [= <-].
    rewrite settle_state. simpl. unfold settle_once.
    destruct (returned s !! t') eqn:Ht'; [done|].
    rewrite lookup_insert_ne; [done|]. congruence.
  - destruct (decide (t' ∈ finishing s)); [|done]. intros [= <-].
    rewrite release_state. by rewrite Hnext.
Qed.

Lemma run_returned evs : forall s s' t o,
  returned s !! t = Some o -> run s evs = Some s' -> returned s' !! t = Some o.
Proof.
  induction evs as [|ev evs IH]; intros s s' t o Hr; simpl.
  - by intros [= <-].
  - destruct (step s ev) as [s1|] eqn:Hs; [|done].
    apply IH. by eapply step_returned.
Qed.

(** C1, as the code has it: in every state a limiter created with
    ceiling [n >= 1] can reach, [active] is the number of tasks between
    their start and their [.finally] callback and never exceeds [n];
    [next] starts a task only when [active < concurrency]; and every
    submitted task settles provided the promise of every started task
    does: the event loop never runs more than [work s] further events
    without a new submission; once it is idle, that is once no callback
    is pending and no started task is still executing, every returned
    promise is settled; and whatever the tasks settle to, it can reach
    idleness. *)
Theorem limiter_bounded_and_live n s :
  1 <= n -> reachable n s ->
  (0 <= active s <= n /\
   active s = Z.of_nat (size (running s) + size (finishing s))) /\
  (forall s0 : state V E,
     started (next s0) <> started s0 -> active s0 < concurrency s0) /\
  (forall evs s',
     Forall internal evs -> run s evs = Some s' ->
     (length evs <= work s)%nat /\ (idle s' -> all_settled s')) /\
  (forall outcome : nat -> settled V E,
     exists evs s', Forall internal evs /\ run s evs = Some s' /\
       idle s' /\ all_settled s').
Proof.
  intros Hn Hreach.
  assert (inv n s) as Hi by (apply reachable_inv; [lia|done]).
  split; [|split; [|split]].
  - destruct Hi as [[Hc Ha Hb Hf Hd Hr Hfi Hst Hre] Ht]. split; [lia|done].
  - intros s0 Hs0. by apply next_gate.
  - intros evs s' Hint Hrun. split.
    + pose proof (run_work n evs s s' Hi Hint Hrun). lia.
    + apply (idle_all_settled n); [done|]. by eapply run_inv.
  - intros outcome.
    destruct (drain_exists n outcome (work s) s eq_refl Hi)
      as (evs & s' & Hint & Hrun & Hidle).
    exists evs, s'. split; [done|]. split; [done|]. split; [done|].
    apply (idle_all_settled n); [done| |done]. by eapply run_inv.
Qed.

(** C8: tasks start in submission order.  The start log followed by
    the pending queue is always the list of submitted tasks in
    submission order, a step starts nothing but the head of the queue,
    and when [a] was submitted before [b] and [b] has started, [a] has
    started at an earlier position of the log. *)
Theorem limiter_fifo n s :
  reachable n s ->
  started s ++ queue s = seq 0 (submitted s) /\
  (forall ev s', step s ev = Some s' ->
     started s' = started s \/
     exists t q, queue s = t :: q /\ started s' = started s ++ [t] /\
       queue s' = q) /\
  (forall a b, (a < b)%nat -> b ∈ started s ->
     exists i j, (i < j)%nat /\ started s !! i = Some a /\
       started s !! j = Some b).
Proof.
  intros Hreach. pose proof (reachable_fifo n s Hreach) as Hf.
  split; [done|]. split.
  - assert (forall s0 : state V E, queue s0 = queue s ->
              started s0 = started s ->
              started (next s0) = started s \/
              exists t q, queue s = t :: q /\
                started (next s0) = started s ++ [t] /\ queue (next s0) = q)
      as Hnext.
    { intros s0 Hq Hs.
      destruct (decide (started (next s0) = started s0)) as [He|Hne].
      - left. congruence.
      - right. destruct (next_gate s0 Hne) as (_ & t & q & H1 & H2 & _ & H3).
        exists t, q. rewrite <- Hq, <- Hs. done. }
    intros ev s'. destruct ev as [| |t o|t]; simpl.
    + intros [= <-]. by left.
    + destruct (timers s); [done|]. intros [= <-]. by apply Hnext.
    + destruct (decide (t ∈ running s)); [|done]. intros [= <-].
      left. by rewrite settle_state.
    + destruct (decide (t ∈ finishing s)); [|done]. intros [= <-].
      rewrite release_state. by apply Hnext.
  - intros a b Hab Hb. apply app_seq_split in Hf as [Hs _].
    rewrite Hs in Hb. apply elem_of_seq in Hb.
    exists a, b. split; [done|]. rewrite Hs.
    split; apply lookup_seq; lia.
Qed.

(** C9: when the promise of a running task settles, fulfilled or
    rejected, the promise the limiter returned settles in the same way
    (a rejection with the same error) and stays so, and the [.finally]
    callback of the task is pending; when that callback runs the count
    is decremented and [next] is called, so that a queued task is
    started whatever the outcome of the task that finished. *)
Theorem limiter_release_on_all_paths n s :
  1 <= n -> reachable n s ->
  (forall t o s',
     step s (Settle t o) = Some s' ->
     returned s' !! t = Some o /\ t ∈ finishing s' /\
     forall evs s'', run s' evs = Some s'' -> returned s'' !! t = Some o) /\
  (forall t s',
     step s (Finally t) = Some s' ->
     (exists s0, active s0 = active s - 1 /\ queue s0 = queue s /\
        s' = next s0) /\
     (queue s = [] -> active s' = active s - 1) /\
     (forall t' q, queue s = t' :: q ->
        started s' = started s ++ [t'] /\ queue s' = q /\ t' ∈ running s' /\
        active s' = active s)).
Proof.
  intros Hn Hreach.
  assert (inv n s) as Hi by (apply reachable_inv; [lia|done]).
  destruct Hi as [[Hc Ha Hb Hf Hd Hr Hfi Hst Hre] Ht]. split.
  - intros t o s'. simpl.
    destruct (decide (t ∈ running s)) as [Hin|]; [|done]. intros [= <-].
    rewrite settle_state. simpl.
    assert (settle_once (returned s) t o !! t = Some o) as Hso.
    { unfold settle_once. destruct (Hr t Hin) as [_ ->].
      by rewrite lookup_insert_eq. }
    split; [done|]. split; [set_solver|].
    intros evs s'' Hrun.
    apply (run_returned evs _ s'' t o) in Hrun; [done|exact Hso].
  - intros t s'. simpl.
    destruct (decide (t ∈ finishing s)) as [Hin|]; [|done]. intros [= <-].
    rewrite release_state. set (s0 := mkState _ _ _ _ _ _ _ _ _).
    split; [by exists s0|].
    unfold next. simpl.
    destruct (active s - 1 >=? concurrency s) eqn:Hge;
      [apply Z.geb_le in Hge; lia|].
    split.
    + intros ->. done.
    + intros t' q ->. simpl. repeat split; [set_solver|lia].
Qed.

End LimiterFacts.

Lemma demo_reachable : Limiter.reachable 3 demo_state.
Proof. exists demo_events. vm_compute. reflexivity. Defined.

Lemma limiter_bounded_and_live_witness :
  (0 <= Limiter.active demo_state <= 3)%Z.
Proof.
  apply (limiter_bounded_and_live 3 demo_state); [lia|apply demo_reachable].
Defined.

Lemma limiter_fifo_witness :
  Limiter.started demo_state ++ Limiter.queue demo_state = [0; 1; 2; 3].
Proof. apply (limiter_fifo 3 demo_state demo_reachable). Defined.

Lemma limiter_release_on_all_paths_witness :
  Limiter.returned demo_state !! 1 = Some (Rejected 7) /\
  Limiter.started (Limiter.release 1 demo_state) = [0; 1; 2; 3] /\
  Limiter.queue (Limiter.release 1 demo_state) = [] /\
  3 ∈ Limiter.running (Limiter.release 1 demo_state) /\
  Limiter.active (Limiter.release 1 demo_state) = 3%Z.
Proof.
  split.
  - vm_compute. reflexivity.
  - apply (proj2 (limiter_release_on_all_paths 3 demo_state ltac:(lia)
                    demo_reachable) 1 (Limiter.release 1 demo_state)
             ltac:(vm_compute; reflexivity)).
    vm_compute. reflexivity.
Defined.

(** ** sanitizeBlocks *)

Section SanitizeFacts.
Import Sanitize.
Local Open Scope string_scope.

(** Induction on values, through arrays and objects. *)
Lemma value_induction (P : value -> Prop) :
  P VUndef -> P VNull -> (forall b, P (VBool b)) -> (forall n, P (VNum n)) ->
  (forall s, P (VStr s)) -> P VFun ->
  (forall l items, Forall P items -> P (VArr l items)) ->
  (forall l props, Forall (fun kv => P (snd kv)) props -> P (VObj l props)) ->
  forall v, P v.
Proof.
  intros Hu Hn Hb Hz Hs Hf Ha Ho.
  fix IH 1. intros [| |b|n|s| |l items|l props];
    [exact Hu|exact Hn|apply Hb|apply Hz|apply Hs|exact Hf| |].
  - apply Ha. induction items as [|x xs IHxs]; constructor;
      [apply IH|exact IHxs].
  - apply Ho. induction props as [|[k x] ps IHps]; constructor;
      [apply IH|exact IHps].
Qed.

Lemma fresh_from_arr n l items :
  fresh_from n (VArr l items) <-> n <= l /\ Forall (fresh_from n) items.
Proof.
  simpl. apply and_iff_compat_l.
  induction items as [|x xs IH]; [by split; [constructor|]|].
  rewrite Forall_cons, <- IH. done.
Qed.

Lemma fresh_from_obj n l props :
  fresh_from n (VObj l props) <->
  n <= l /\ Forall (fun kv => fresh_from n (snd kv)) props.
Proof.
  simpl. apply and_iff_compat_l.
  induction props as [|x xs IH]; [by split; [constructor|]|].
  rewrite Forall_cons, <- IH. done.
Qed.

Lemma json_arr l items : json (VArr l items) <-> Forall json items.
Proof.
  simpl. induction items as [|x xs IH]; [by split; [constructor|]|].
  rewrite Forall_cons, <- IH. done.
Qed.

Lemma json_obj l props :
  json (VObj l props) <-> Forall (fun kv => json (snd kv)) props.
Proof.
  simpl. induction props as [|x xs IH]; [by split; [constructor|]|].
  rewrite Forall_cons, <- IH. done.
Qed.

Lemma fresh_from_le m n v : m <= n -> fresh_from n v -> fresh_from m v.
Proof.
  intros Hmn. induction v as [| | | | | |l items IH|l props IH]
    using value_induction; try done.
  - rewrite !fresh_from_arr. intros [Hl Hall]. split; [lia|].
    rewrite Forall_forall in IH. rewrite Forall_forall in Hall.
    apply Forall_forall. auto.
  - rewrite !fresh_from_obj. intros [Hl Hall]. split; [lia|].
    rewrite Forall_forall in IH. rewrite Forall_forall in Hall.
    apply Forall_forall. auto.
Qed.

Lemma json_not_omitted v : json v -> omitted v = false.
Proof. by destruct v. Qed.

(** The copy made by the JSON round trip has the content of the
    original and consists of new objects only. *)
Lemma clone_spec v : forall c,
  json v ->
  exists v' c', clone v c = (v', c') /\ c <= c' /\ erase v' = erase v /\
    fresh_from c v'.
Proof.
  induction v as [| | | | | |l items IH|l props IH] using value_induction;
    intros c Hj; try done; try (by eexists _, c).
  - apply json_arr in Hj.
    assert (forall m, exists items' m',
              clone_items clone items m = (items', m') /\ m <= m' /\
              map erase items' = map erase items /\
              Forall (fresh_from m) items') as Hitems.
    { clear c. induction items as [|x xs IHxs]; intros m.
      - exists [], m. by repeat split.
      - apply Forall_cons in IH as [IHx IH]. apply Forall_cons in Hj as [Hx Hj].
        destruct (IHx m Hx) as (x' & m1 & Hcx & Hle1 & Hex & Hfx).
        destruct (IHxs IH Hj m1) as (r & m2 & Hcr & Hle2 & Her & Hfr).
        exists (x' :: r), m2. simpl. rewrite Hcx, Hcr.
        split; [done|]. split; [lia|]. split; [by rewrite Hex, Her|].
        constructor; [done|].
        eapply Forall_impl; [exact Hfr|]. intros y. apply fresh_from_le. lia. }
    destruct (Hitems (S c)) as (items' & c' & Hc & Hle & He & Hf).
    exists (VArr c items'), c'. simpl. rewrite Hc.
    split; [done|]. split; [lia|]. split; [by rewrite He|].
    apply fresh_from_arr. split; [done|].
    eapply Forall_impl; [exact Hf|]. intros y. apply fresh_from_le. lia.
  - apply json_obj in Hj.
    assert (forall m, exists props' m',
              clone_props clone props m = (props', m') /\ m <= m' /\
              map (fun kv => (fst kv, erase (snd kv))) props'
              = map (fun kv => (fst kv, erase (snd kv))) props /\
              Forall (fun kv => fresh_from m (snd kv)) props') as Hprops.
    { clear c. induction props as [|[k x] xs IHxs]; intros m.
      - exists [], m. by repeat split.
      - apply Forall_cons in IH as [IHx IH]. apply Forall_cons in Hj as [Hx Hj].
        simpl in IHx, Hx.
        destruct (IHx m Hx) as (x' & m1 & Hcx & Hle1 & Hex & Hfx).
        destruct (IHxs IH Hj m1) as (r & m2 & Hcr & Hle2 & Her & Hfr).
        exists ((k, x') :: r), m2. simpl.
        rewrite (json_not_omitted x Hx), Hcx, Hcr.
        split; [done|]. split; [lia|]. split; [by rewrite Hex, Her|].
        constructor; [done|].
        eapply Forall_impl; [exact Hfr|]. intros y. apply fresh_from_le. lia. }
    destruct (Hprops (S c)) as (props' & c' & Hc & Hle & He & Hf).
    exists (VObj c props'), c'. simpl. rewrite Hc.
    split; [done|]. split; [lia|]. split; [by rewrite He|].
    apply fresh_from_obj. split; [done|].
    eapply Forall_impl; [exact Hf|]. intros y. apply fresh_from_le. lia.
Qed.

Lemma lookup_erase k ps :
  lookup k (erase_props ps) = option_map erase (lookup k ps).
Proof.
  induction ps as [|[k' x] ps IH]; [done|]. simpl.
  by destruct (String.eqb k k').
Qed.

Lemma get_erase v k : get (erase v) k = erase (get v k).
Proof.
  destruct v; try done. simpl. fold (erase_props props).
  rewrite lookup_erase. destruct (lookup k props); [done|].
  by destruct (inherited k).
Qed.

Lemma nullish_erase v : nullish (erase v) = nullish v.
Proof. by destruct v. Qed.

Lemma truthy_erase v : truthy (erase v) = truthy v.
Proof. by destruct v. Qed.

Lemma get_opt_erase v k : get_opt (erase v) k = erase (get_opt v k).
Proof.
  unfold get_opt. rewrite nullish_erase, get_erase. by destruct (nullish v).
Qed.

Lemma is_object_erase v : is_object (erase v) <-> is_object v.
Proof. by destruct v. Qed.

Lemma obj_set_erase ps k x :
  erase_props (obj_set ps k x) = obj_set (erase_props ps) k (erase x).
Proof.
  induction ps as [|[k' y] ps IH]; [done|]. simpl.
  destruct (String.eqb k k'); [done|]. simpl. by rewrite <- IH.
Qed.

Lemma obj_set_id ps k x : lookup k ps = Some x -> obj_set ps k x = ps.
Proof.
  induction ps as [|[k' y] ps IH]; [done|]. simpl.
  destruct (String.eqb k k') eqn:Hk.
  - by intros [= ->].
  - intros H. by rewrite IH.
Qed.

Lemma lookup_obj_set_eq ps k x : lookup k (obj_set ps k x) = Some x.
Proof.
  induction ps as [|[k' y] ps IH]; simpl; [by rewrite String.eqb_refl|].
  destruct (String.eqb k k') eqn:Hk; simpl; by rewrite Hk.
Qed.

Lemma lookup_obj_set_ne ps k k' x :
  k <> k' -> lookup k' (obj_set ps k x) = lookup k' ps.
Proof.
  intros Hne. induction ps as [|[k0 y] ps IH]; simpl.
  - destruct (String.eqb_spec k' k); [congruence|done].
  - destruct (String.eqb_spec k k0) as [->|]; simpl.
    + destruct (String.eqb_spec k' k0); [congruence|done].
    + by rewrite IH.
Qed.

Lemma erase_obj l ps : erase (VObj l ps) = VObj 0 (erase_props ps).
Proof. reflexivity. Qed.

Lemma erase_arr_inv v l items :
  erase v = erase (VArr l items) ->
  exists l' items', v = VArr l' items' /\ map erase items' = map erase items.
Proof. destruct v; try done. simpl. intros [= H]. eauto. Qed.

Lemma erase_obj_inv v l ps :
  erase v = erase (VObj l ps) ->
  exists l' ps', v = VObj l' ps' /\ erase_props ps' = erase_props ps.
Proof. destruct v; try done. simpl. intros [= H]. eauto. Qed.

Lemma Forall_is_object_erase xs ys :
  map erase xs = map erase ys -> Forall is_object ys -> Forall is_object xs.
Proof.
  revert ys. induction xs as [|x xs IH]; intros [|y ys]; try done.
  simpl. intros [= Hx Hxs] [Hy Hys]%Forall_cons. constructor; [|eauto].
  apply is_object_erase. rewrite Hx. by apply is_object_erase.
Qed.

(** [rich_text.map(rt => ({ ...rt }))] on an array of objects. *)
Lemma mapM_spread n0 items : forall c,
  Forall is_object items -> Forall (fresh_from n0) items -> n0 <= c ->
  exists items' c', mapM spread items c = Ok items' c' /\ c <= c' /\
    map erase items' = map erase items /\ Forall (fresh_from n0) items'.
Proof.
  induction items as [|x xs IH]; intros c Hobj Hfr Hle.
  - exists [], c. by repeat split.
  - apply Forall_cons in Hobj as [Hx Hobj]. apply Forall_cons in Hfr as [Hfx Hfr].
    destruct x as [| | | | | | |lx px]; try done.
    destruct (IH (S c) Hobj Hfr ltac:(lia)) as (r & c' & Hr & Hle' & Her & Hfr').
    exists (VObj c px :: r), c'. simpl. unfold bind. simpl. rewrite Hr.
    split; [done|]. split; [lia|]. split; [by rewrite Her|].
    constructor; [|done]. apply fresh_from_obj.
    apply fresh_from_obj in Hfx as [_ Hpx]. done.
Qed.

Lemma json_lookup l ps k x : json (VObj l ps) -> lookup k ps = Some x -> json x.
Proof.
  rewrite json_obj. induction ps as [|[k' y] ps IH]; [done|]. simpl.
  intros [Hy Hps]%Forall_cons. destruct (String.eqb k k'); [|auto].
  by intros [= <-].
Qed.

Lemma fresh_lookup n l ps k x :
  fresh_from n (VObj l ps) -> lookup k ps = Some x -> fresh_from n x.
Proof.
  rewrite fresh_from_obj. intros [_ Hall].
  induction ps as [|[k' y] ps IH]; [done|]. simpl.
  apply Forall_cons in Hall as [Hy Hps]. destruct (String.eqb k k'); [|auto].
  by intros [= <-].
Qed.

Lemma fresh_obj_set n l ps k x :
  fresh_from n (VObj l ps) -> fresh_from n x ->
  fresh_from n (VObj l (obj_set ps k x)).
Proof.
  rewrite !fresh_from_obj. intros [Hl Hall] Hx. split; [done|].
  induction ps as [|[k' y] ps IH]; simpl.
  - by repeat constructor.
  - apply Forall_cons in Hall as [Hy Hps].
    destruct (String.eqb k k'); constructor; auto.
Qed.

(** On a block as the listing call returns it the callback does not
    throw; what it returns has the promised content, and its payload is
    made of objects allocated by the call. *)
Lemma sanitizeBlock_spec b k c :
  block_ok b k ->
  exists o c', sanitizeBlock b c = Ok o c' /\ c <= c' /\ is_object o /\
    erase o = erase (expected b k) /\ fresh_from c (get o k).
Proof.
  intros [Hobj Hjson Hkey Hown Hmark _ Hrich].
  destruct b as [| | | | | | |lb props]; try done.
  unfold sanitizeBlock, expected, bind, get_strict, alloc, ret.
  cbn [nullish]. rewrite Hkey.
  set (b := VObj lb props) in *. set (ty := get b "type").
  set (p := get b k) in *. set (hc := truthy (get b "has_children")).
  assert (forall base base', erase_props base' = erase_props base ->
            erase (VObj c (if hc then obj_set base' "has_children" (VBool true)
                           else base'))
            = erase (VObj 0 (if hc then obj_set base "has_children" (VBool true)
                             else base))) as Hfinal.
  { intros base base' He. rewrite !erase_obj. f_equal.
    destruct hc; [|done]. by rewrite !obj_set_erase, He. }
  assert (forall base x, lookup k base = Some x ->
            get (VObj c (if hc then obj_set base "has_children" (VBool true)
                         else base)) k = x) as Hgetk.
  { intros base x Hl. simpl. destruct hc.
    - rewrite lookup_obj_set_ne by done. by rewrite Hl.
    - by rewrite Hl. }
  destruct (truthy p) eqn:Htp.
  - assert (json p) as Hjp.
    { subst p. unfold b, get in *. destruct (lookup k props) eqn:Hl.
      - by eapply (json_lookup lb props k).
      - by destruct (inherited k). }
    unfold json_roundtrip. rewrite (json_not_omitted p Hjp).
    destruct (clone_spec p (S c) Hjp) as (cp & c1 & Hcl & Hle1 & Her & Hfr).
    rewrite Hcl.
    assert (get (VObj c (obj_set [("type", ty)] k cp)) k = cp) as Hget.
    { cbn [get]. by rewrite lookup_obj_set_eq. }
    rewrite Hget.
    destruct (truthy (get_opt cp "rich_text")) eqn:Hrt.
    + assert (truthy (get_opt p "rich_text") = true) as Hrtp.
      { by rewrite <- truthy_erase, <- get_opt_erase, <- Her, get_opt_erase,
          truthy_erase. }
      destruct (Hrich Hrtp) as (l & items & Hgp & Hio).
      assert (erase (get cp "rich_text") = erase (VArr l items)) as Hec
        by (by rewrite <- get_erase, Her, get_erase, Hgp).
      apply erase_arr_inv in Hec as (l' & items' & Hgc & Hmap).
      rewrite Hgc. destruct cp as [| | | | | | |lp pp]; try done.
      assert (lookup "rich_text" pp = Some (VArr l' items')) as Hlr.
      { simpl in Hgc. destruct (lookup "rich_text" pp); [by f_equal|].
        by vm_compute in Hgc. }
      pose proof (fresh_lookup _ _ _ _ _ Hfr Hlr) as Hfa.
      apply fresh_from_arr in Hfa as [_ Hfi].
      destruct (mapM_spread (S c) items' (S c1)
                  (Forall_is_object_erase _ _ Hmap Hio) Hfi ltac:(lia))
        as (items'' & c2 & Hmm & Hle2 & Hmap' & Hfi').
      unfold array_map, bind, alloc, ret. rewrite Hmm.
      set (cp' := VObj lp (obj_set pp "rich_text" (VArr c1 items''))).
      assert (erase cp' = erase (VObj lp pp)) as Hecp.
      { unfold cp'. rewrite !erase_obj, obj_set_erase. f_equal.
        apply obj_set_id. rewrite lookup_erase, Hlr. simpl.
        by rewrite Hmap', Hmap. }
      eexists _, c2. split; [reflexivity|]. split; [lia|]. split; [done|].
      split.
      * apply Hfinal. rewrite !obj_set_erase, Hecp, Her.
        rewrite <- (obj_set_erase [("type", ty)] k p).
        apply obj_set_id. rewrite lookup_erase, lookup_obj_set_eq. done.
      * rewrite (Hgetk _ cp') by apply lookup_obj_set_eq.
        apply (fresh_from_le c (S c)); [lia|]. unfold cp'.
        apply fresh_obj_set; [done|]. apply fresh_from_arr. split; [lia|done].
    + eexists _, c1. split; [reflexivity|]. split; [lia|]. split; [done|].
      split.
      * apply Hfinal. by rewrite !obj_set_erase, Her.
      * rewrite (Hgetk _ cp) by apply lookup_obj_set_eq.
        apply (fresh_from_le c (S c)); [lia|done].
  - assert (get_opt (get (VObj c [("type", ty)]) k) "rich_text" = VUndef)
      as Hnone.
    { simpl. destruct (String.eqb_spec k "type") as [->|Hne].
      - change ty with p. clearbody p. by destruct p.
      - by destruct (inherited k). }
    rewrite Hnone. cbn [truthy].
    eexists _, (S c). split; [reflexivity|]. split; [lia|]. split; [done|].
    split; [by apply Hfinal|].
    simpl. destruct hc; simpl.
    + destruct (String.eqb_spec k "type") as [->|Hne].
      * change ty with p. clearbody p. by destruct p.
      * destruct (String.eqb_spec k "has_children"); [done|].
        by destruct (inherited k).
    + destruct (String.eqb_spec k "type") as [->|Hne].
      * change ty with p. clearbody p. by destruct p.
      * by destruct (inherited k).
Qed.

Lemma filter_truthy_objects (out : list value) :
  Forall is_object out -> filter (fun v => truthy v = true) out = out.
Proof.
  induction 1 as [|o out Ho _ IH]; [done|].
  rewrite filter_cons_True by (by destruct o). by rewrite IH.
Qed.

Lemma mapM_sanitizeBlock blocks : forall c,
  Forall (fun b => exists k, block_ok b k) blocks ->
  exists out c', mapM sanitizeBlock blocks c = Ok out c' /\ c <= c' /\
    Forall is_object out /\
    Forall2 (fun b o => exists k, to_key (get b "type") = Key k /\
               erase o = erase (expected b k) /\ fresh_from c (get o k))
      blocks out.
Proof.
  induction blocks as [|b bs IH]; intros c Hall.
  - exists [], c. by repeat split.
  - apply Forall_cons in Hall as [[k Hb] Hall].
    destruct (sanitizeBlock_spec b k c Hb) as (o & c1 & Ho & Hle & Hob & He & Hf).
    destruct (IH c1 Hall) as (out & c2 & Hout & Hle2 & Hobs & Hrel).
    exists (o :: out), c2. simpl. unfold bind. rewrite Ho, Hout.
    split; [done|]. split; [lia|]. split; [by constructor|].
    constructor.
    + exists k. split; [apply Hb|done].
    + eapply Forall2_impl; [exact Hrel|].
      intros b' o' (k' & Hk' & He' & Hf'). exists k'. repeat split; try done.
      eapply fresh_from_le; [|exact Hf']. done.
Qed.

(** A block of a JSON document is such a block when its type tag is a
    string that names neither [has_children], nor [__proto__], nor a
    member inherited from [Object.prototype], and the [rich_text] of
    its payload, when set, is an array of objects. *)
Lemma string_tag_block_ok l props k :
  json (VObj l props) ->
  lookup "type" props = Some (VStr k) ->
  k <> "has_children" -> k <> "__proto__" -> inherited k = false ->
  plain_rich_text (get (VObj l props) k) ->
  block_ok (VObj l props) k.
Proof.
  intros Hjson Htype Hmark Hproto Hinh Hrich. split; try done.
  - cbn [get]. by rewrite Htype.
  - cbn [get]. destruct (lookup k props) as [x|] eqn:Hk.
    + intros ->. by apply (json_lookup l props k VFun Hjson) in Hk.
    + by rewrite Hinh.
Qed.

(** C7, as the code has it: on blocks as the listing call returns them
    (objects of a JSON document whose type tag converts to a property
    key, as every string does, that names neither [has_children] nor
    an inherited member, the payload's [rich_text], when set, being an
    array of objects) [sanitizeBlocks] does not throw and
    returns one object per block, in the same order, whose content is
    the type discriminator, the payload when the block has one, and
    [has_children: true] when the marker is set; the payload of the
    result is made of objects allocated by the call, none shared with
    the input.  Any type tag is treated alike. *)
Theorem sanitizeBlocks_on_listed_blocks blocks c :
  Forall (fun b => exists k, block_ok b k) blocks ->
  exists out c', sanitizeBlocks blocks c = Ok out c' /\
    length out = length blocks /\
    Forall2 (fun b o => exists k, to_key (get b "type") = Key k /\
               erase o = erase (expected b k) /\ fresh_from c (get o k))
      blocks out.
Proof.
  intros Hall.
  destruct (mapM_sanitizeBlock blocks c Hall)
    as (out & c' & Hout & Hle & Hobs & Hrel).
  exists out, c'. unfold sanitizeBlocks, bind, ret. rewrite Hout.
  rewrite (filter_truthy_objects out Hobs).
  split; [done|]. split; [|done].
  symmetry. by eapply Forall2_length.
Qed.

End SanitizeFacts.

Example sanitizeBlocks_paragraph :
  Sanitize.sanitizeBlocks [block_paragraph] 10
  = Sanitize.Ok
      [Sanitize.VObj 10
         [("type", Sanitize.VStr "paragraph");
          ("paragraph",
           Sanitize.VObj 11
             [("rich_text",
               Sanitize.VArr 15
                 [Sanitize.VObj 16
                    [("type", Sanitize.VStr "text");
                     ("text",
                      Sanitize.VObj 14 [("content", Sanitize.VStr "hi")])]]);
              ("color", Sanitize.VStr "default")]);
          ("has_children", Sanitize.VBool true)]%string] 17.
Proof. reflexivity. Qed.

Example sanitizeBlocks_string_rich_text :
  Sanitize.sanitizeBlocks [block_paragraph; block_string_rich_text] 10
  = Sanitize.Throw Sanitize.TypeError.
Proof. reflexivity. Qed.

Example sanitizeBlocks_inherited_tag :
  Sanitize.sanitizeBlocks [block_constructor] 10
  = Sanitize.Throw Sanitize.SyntaxError.
Proof. reflexivity. Qed.

Example sanitizeBlocks_null_payload :
  Sanitize.sanitizeBlocks [block_null_payload] 10
  = Sanitize.Ok [Sanitize.VObj 10 [("type", Sanitize.VStr "widget")]%string] 11.
Proof. reflexivity. Qed.

(** C7 as stated fails: a block whose payload has a string for
    [rich_text] makes the whole call throw. *)
Lemma sanitizeBlocks_not_total : ~ sanitize_total.
Proof.
  intros Htotal.
  destruct (Htotal [block_string_rich_text] 10) as (out & c' & Hrun & _).
  - repeat constructor.
  - discriminate Hrun.
Qed.

Lemma block_paragraph_ok : Sanitize.block_ok block_paragraph "paragraph".
Proof.
  split.
  - exact I.
  - simpl. repeat split.
  - reflexivity.
  - discriminate.
  - discriminate.
  - discriminate.
  - intros _. eexists _, _. split; [reflexivity|]. by repeat constructor.
Defined.

Lemma sanitizeBlocks_on_listed_blocks_witness :
  exists out c',
    Sanitize.sanitizeBlocks [block_paragraph] 10 = Sanitize.Ok out c' /\
    length out = 1 /\
    Forall2 (fun b o => exists k,
               Sanitize.to_key (Sanitize.get b "type") = Sanitize.Key k /\
               Sanitize.erase o = Sanitize.erase (Sanitize.expected b k) /\
               Sanitize.fresh_from 10 (Sanitize.get o k))
      [block_paragraph] out.
Proof.
  apply (sanitizeBlocks_on_listed_blocks [block_paragraph] 10).
  constructor; [|constructor]. exists "paragraph"%string.
  apply block_paragraph_ok.
Defined.

(** ** Action links *)

Example sha256_abc :
  Sha256.hex (Sha256.sha256 (Sha256.bytes_of_string "abc"))
  = "ba7816bf8f01cfea414140de5dae2223b00361a396177a9cb410ff61f20015ad"%string.
Proof. vm_compute. reflexivity. Qed.

Example hmac_fox :
  Sha256.hmac_sha256_hex "key" "The quick brown fox jumps over the lazy dog"
  = "f7bc83f430538424b13298e6aa6fb143ef4d59a14946175997479dbc2d1a3cd8"%string.
Proof. vm_compute. reflexivity. Qed.

Section SigningFacts.
Import Signing.
Local Open Scope string_scope.
Variable hmacSign : string -> string -> string.

Lemma or_else_some s d : s <> "" -> or_else (Some s) d = s.
Proof. by destruct s. Qed.

Lemma falsy_some s : s <> "" -> falsy (Some s) = false.
Proof. by destruct s. Qed.

(** What is signed leaves [ts] and [nonce] empty: [params] has no such
    members, and the fallback of [params[k] || ...] is [''] for every
    key but ['action']. *)
Lemma ordered_action_params action t d c :
  ordered action (action_params t d c)
  = [or_else t ""; action; ""; ""; or_else d ""; or_else c ""].
Proof. reflexivity. Qed.

(** The query of the link carries [ts] and [nonce]. *)
Lemma buildActionUrl_query ts nonce baseUrl action t d c secret :
  let u := buildActionUrl hmacSign ts nonce baseUrl action
             (action_params t d c) secret in
  sp_get (query u) "taskId" = Some (to_USVString t) /\
  sp_get (query u) "action" = Some action /\
  sp_get (query u) "ts" = Some ts /\
  sp_get (query u) "nonce" = Some nonce /\
  sp_get (query u) "tasksDbId" = Some (to_USVString d) /\
  sp_get (query u) "calendarDbId" = Some (to_USVString c).
Proof.
  unfold buildActionUrl. destruct (falsy secret); [by cbn|].
  match goal with |- context [falsy (Some ?x)] => destruct (falsy (Some x)) end;
    by cbn.
Qed.

(** For non-empty strings all round, a link is accepted exactly when
    the MAC of the payload with [ts] and [nonce] equals the MAC of the
    payload without them. *)
Lemma verifySignature_buildActionUrl ts nonce baseUrl action t d c secret :
  t <> "" -> d <> "" -> c <> "" -> action <> "" -> ts <> "" ->
  nonce <> "" -> secret <> "" ->
  hmacSign secret (join_bar [t; action; ""; ""; d; c]) <> "" ->
  verifySignature hmacSign secret
    (buildActionUrl hmacSign ts nonce baseUrl action
       (action_params (Some t) (Some d) (Some c)) (Some secret))
  = String.eqb (hmacSign secret (join_bar [t; action; ts; nonce; d; c]))
      (hmacSign secret (join_bar [t; action; ""; ""; d; c])).
Proof.
  intros Ht Hd Hc Ha Hts Hn Hs Hsig.
  unfold buildActionUrl, verifySignature.
  rewrite ordered_action_params, (falsy_some secret Hs).
  rewrite !or_else_some by done.
  rewrite falsy_some by done. cbn - [join_bar falsy or_else].
  rewrite !falsy_some by done.
  rewrite !or_else_some by done. cbn [orb]. unfold verified_payload.
  cbn - [join_bar or_else]. rewrite !or_else_some by done. reflexivity.
Qed.

End SigningFacts.

Example demo_link_location :
  Signing.location demo_link = "https://example.vercel.app/api/a/start"%string.
Proof. reflexivity. Qed.

Example demo_link_sig :
  Signing.sp_get (Signing.query demo_link) "sig"
  = Some "1e169be81d2c03e2c60c92ac3c9ef02659f92e682ac17c35a8825f3a10c4e265"%string
  /\ Sha256.hmac_sha256_hex "s3cret"
       (Signing.verified_payload (Signing.query demo_link))
     = "007b555b60a3c5ef103f78127e73db0de9ade9fb8fd9b5a28609f6694cc96164"%string.
Proof. split; vm_compute; reflexivity. Qed.

Example demo_link_resigned_accepted :
  Signing.verifySignature Sha256.hmac_sha256_hex "s3cret" demo_link_resigned
  = true.
Proof. vm_compute. reflexivity. Qed.

(** C10 at a concrete link: the link [buildActionUrl] returns is signed
    over [taskId|start|||tasksDbId|calendarDbId], the backends check
    [taskId|start|ts|nonce|tasksDbId|calendarDbId] with the [ts] and
    [nonce] of the query, and [verifySignature] returns [false]. *)
Theorem buildActionUrl_link_is_rejected :
  Signing.verifySignature Sha256.hmac_sha256_hex "s3cret" demo_link = false.
Proof. vm_compute. reflexivity. Qed.

(** ** The creation batches *)

Ltac div_lia := zify; Z.div_mod_to_equations; lia.

Section BatchFacts.
Import Replicator.
Context {A : Type}.
Implicit Types (xs : list A).

(** The loop cuts [xs] at the multiples of 50. *)
Lemma batches_from_spec xs fuel : forall i,
  batches_from fuel i xs
  = (fun j => slice (i + 50 * j) (i + 50 * j + 50) xs)
      <$> seq 0 (Nat.min fuel ((length xs - i + 49) / 50)).
Proof.
  induction fuel as [|fuel IH]; intros i; [done|]. cbn [batches_from].
  destruct (Nat.ltb_spec i (length xs)) as [Hlt|Hge].
  - replace ((length xs - i + 49) / 50)
      with (S ((length xs - (i + 50) + 49) / 50)) by div_lia.
    rewrite <- Nat.succ_min_distr. cbn [seq]. rewrite fmap_cons.
    rewrite Nat.mul_0_r, Nat.add_0_r. f_equal.
    rewrite IH, <- fmap_S_seq, <- list_fmap_compose.
    apply list_fmap_ext. intros _ j _. cbn [compose]. f_equal; lia.
  - replace ((length xs - i + 49) / 50) with 0 by div_lia.
    by rewrite Nat.min_0_r.
Qed.

Lemma batches_spec xs :
  batches xs
  = (fun j => slice (50 * j) (50 * j + 50) xs)
      <$> seq 0 ((length xs + 49) / 50).
Proof.
  unfold batches. rewrite batches_from_spec. rewrite Nat.sub_0_r.
  replace (Nat.min (length xs) ((length xs + 49) / 50))
    with ((length xs + 49) / 50) by div_lia.
  done.
Qed.

Lemma batches_length xs : length (batches xs) = (length xs + 49) / 50.
Proof. by rewrite batches_spec, length_fmap, length_seq. Qed.

Lemma batches_lookup xs k :
  (50 * k < length xs) ->
  batches xs !! k = Some (slice (50 * k) (50 * k + 50) xs).
Proof.
  intros Hk. rewrite batches_spec, list_lookup_fmap, lookup_seq_lt by div_lia.
  done.
Qed.

Lemma slice_length xs i :
  length (slice i (i + 50) xs) = Nat.min 50 (length xs - i).
Proof. unfold slice. rewrite length_take, length_drop. lia. Qed.

Lemma batches_sizes xs :
  Forall (fun b => 1 <= length b <= 50) (batches xs).
Proof.
  rewrite batches_spec. apply Forall_fmap, Forall_forall.
  intros j Hj%elem_of_seq. simpl. rewrite slice_length.
  assert (50 * j < length xs) by div_lia. lia.
Qed.

Lemma batches_concat_from xs fuel : forall i,
  length xs <= i + 50 * fuel ->
  concat (batches_from fuel i xs) = drop i xs.
Proof.
  induction fuel as [|fuel IH]; intros i Hfuel; cbn [batches_from concat].
  - by rewrite drop_ge by lia.
  - destruct (Nat.ltb_spec i (length xs)) as [Hlt|Hge].
    + cbn [concat]. rewrite IH by lia. unfold slice.
      replace (i + 50 - i) with 50 by lia.
      rewrite <- drop_drop. apply take_drop.
    + by rewrite drop_ge.
Qed.

(** The batches, in order, make up the list. *)
Lemma batches_concat xs : concat (batches xs) = xs.
Proof. unfold batches. rewrite batches_concat_from; [done|lia]. Qed.

Lemma batches_nil : batches (@nil A) = [].
Proof. reflexivity. Qed.

Lemma batches_take_S xs k :
  50 * k + 50 < length xs ->
  take (S (S k)) (batches xs)
  = take (S k) (batches xs) ++ [slice (50 * k + 50) (50 * k + 50 + 50) xs].
Proof.
  intros Hk. rewrite (take_S_r _ (S k) (slice (50 * S k) (50 * S k + 50) xs)).
  - do 3 f_equal; lia.
  - apply batches_lookup. lia.
Qed.

Lemma batches_take_all xs k :
  50 * k < length xs -> length xs <= 50 * k + 50 ->
  take (S k) (batches xs) = batches xs.
Proof.
  intros H1 H2. apply take_ge. rewrite batches_length. div_lia.
Qed.

End BatchFacts.

(** ** cloneBlocksRecursive *)

Section ReplicatorFacts.
Import Replicator.
Context {block sblock E : Type}.
Variable block_id : block -> nat.
Variable has_children : block -> bool.
Variable sanitizeBlocks : list block -> settled (list sblock) E.
Variable ensureClient : settled unit E.

Abbreviation state := (Replicator.state block sblock E).
Abbreviation opening := (Replicator.opening (block := block)
                           (sblock := sblock) ensureClient).
Abbreviation start := (Replicator.start (block := block) (sblock := sblock)
                         ensureClient).
Abbreviation step :=
  (Replicator.step block_id has_children sanitizeBlocks ensureClient).
Abbreviation run :=
  (Replicator.run block_id has_children sanitizeBlocks ensureClient).
Abbreviation reachable :=
  (Replicator.reachable block_id has_children sanitizeBlocks ensureClient).
Abbreviation run_body :=
  (Replicator.run_body block_id has_children ensureClient).
Abbreviation after_next :=
  (Replicator.after_next block_id has_children ensureClient).
Abbreviation calls_ok := (Replicator.calls_ok sanitizeBlocks).
Implicit Types (s : state) (cl : clone block sblock E) (ti : taskinfo block).

Lemma opening_parent src dst p : c_parent (opening src dst p) = p.
Proof. unfold Replicator.opening. by destruct ensureClient. Qed.

Lemma opening_not_fulfilled src dst p ts :
  c_phase (opening src dst p) <> PDone ts (Fulfilled tt).
Proof. unfold Replicator.opening. by destruct ensureClient. Qed.

Lemma opening_calls_ok src dst p : calls_ok (opening src dst p).
Proof.
  unfold Replicator.opening, Replicator.calls_ok.
  destruct ensureClient; simpl; [done|by left].
Qed.

Lemma rinv_start src dst : rinv (start src dst : state).
Proof.
  split; simpl; try done.
  - by apply inv_createLimit.
  - intros [|x] cl t; [|done]. intros [= <-]. by rewrite opening_parent.
  - intros [|x] cl ts; [|done]. intros [= <-] Hph.
    by destruct (opening_not_fulfilled src dst None ts).
Qed.

(** Changing one activation that has not settled, keeping its parent
    and its tasks. *)
Lemma set_clone_inv c f s :
  rinv s ->
  (forall cl, clones s !! c = Some cl ->
     c_parent (f cl) = c_parent cl /\
     (forall ts o, c_phase cl <> PDone ts o) /\
     (forall t, t ∈ waiting_of (c_phase cl) -> t ∈ waiting_of (c_phase (f cl))) /\
     (forall ts, c_phase (f cl) = PDone ts (Fulfilled tt) ->
        forall t, t ∈ ts ->
          Limiter.returned (lim s) !! t = Some (Fulfilled tt))) ->
  rinv (set_clone c f s).
Proof.
  intros [Hl Hlen Hown Hch Hpar Hset Hful] Hf.
  assert (forall x cl', alter f c (clones s) !! x = Some cl' ->
            exists cl, clones s !! x = Some cl /\
              (x <> c /\ cl' = cl \/ x = c /\ cl' = f cl)) as Halt.
  { intros x cl'. destruct (decide (x = c)) as [->|Hne].
    - rewrite list_lookup_alter_eq. destruct (clones s !! c) as [cl|]; [|done].
      intros [= <-]. exists cl. split; [done|]. by right.
    - rewrite list_lookup_alter_ne by done. intros H. exists cl'.
      split; [done|]. by left. }
  split; simpl; try done.
  - intros t ti Ht. destruct (Hown t ti Ht) as (cl & Hcl & Hin).
    destruct (decide (t_owner ti = c)) as [Hc|Hne].
    + exists (f cl). rewrite Hc, list_lookup_alter_eq. rewrite Hc in Hcl.
      rewrite Hcl. split; [done|]. by apply (Hf cl Hcl).
    + exists cl. by rewrite list_lookup_alter_ne.
  - intros t ti x Ht Hx. destruct (Hch t ti x Ht Hx) as (Hst & cl & Hcl & Hp).
    split; [done|]. destruct (decide (x = c)) as [->|Hne].
    + exists (f cl). rewrite list_lookup_alter_eq, Hcl. split; [done|].
      by rewrite (proj1 (Hf cl Hcl)).
    + exists cl. by rewrite list_lookup_alter_ne.
  - intros x cl' t Hx Hp.
    destruct (Halt x cl' Hx) as (cl & Hcl & [[_ ->]|[-> ->]]); [eauto|].
    apply (Hpar c cl t Hcl). by rewrite <- (proj1 (Hf cl Hcl)).
  - intros t o Hr. specialize (Hset t o Hr). unfold task_outcome in *. simpl.
    destruct (tasks s !! t) as [ti|]; [|done].
    destruct (t_child ti) as [x|]; [|done].
    destruct (clones s !! x) as [cl|] eqn:Hcl; [|done].
    destruct (decide (x = c)) as [->|Hne].
    + destruct (c_phase cl) eqn:Hph; try done.
      by destruct (proj1 (proj2 (Hf cl Hcl)) ts o0).
    + by rewrite list_lookup_alter_ne, Hcl.
  - intros x cl' ts Hx Hph t Hin.
    destruct (Halt x cl' Hx) as (cl & Hcl & [[_ ->]|[-> ->]]).
    + by apply (Hful x cl ts).
    + by apply (proj2 (proj2 (proj2 (Hf cl Hcl))) ts).
Qed.

Lemma rinv_dest s d :
  rinv s -> rinv (Replicator.mkState (lim s) (clones s) (tasks s) d).
Proof. intros [Hl Hlen Hown Hch Hpar Hset Hful]. by split. Qed.

Lemma finish_inv c ts o s cl :
  rinv s -> clones s !! c = Some cl ->
  (forall ts' o', c_phase cl <> PDone ts' o') ->
  (forall t, t ∈ waiting_of (c_phase cl) -> t ∈ ts) ->
  (o = Fulfilled tt ->
   forall t, t ∈ ts -> Limiter.returned (lim s) !! t = Some (Fulfilled tt)) ->
  rinv (finish c ts o s).
Proof.
  intros Hi Hcl Hnd Hts Hful. apply set_clone_inv; [done|].
  intros cl' Hcl'. assert (cl' = cl) as -> by congruence.
  repeat split; try done.
  simpl. intros ts' [= -> ->]. by apply Hful.
Qed.

(** [submit_all] submits one task per created block. *)
Lemma submit_all_spec c (blocks : list block) created :
  forall idx (l : Limiter.state unit E) ts l' ts',
  submit_all c blocks idx created l ts = (l', ts') ->
  (Limiter.inv 3 l -> Limiter.inv 3 l') /\
  Limiter.submitted l' = Limiter.submitted l + length created /\
  Limiter.returned l' = Limiter.returned l /\
  Limiter.started l' = Limiter.started l /\
  length ts' = length ts + length created /\
  (forall t, t < length ts -> ts' !! t = ts !! t) /\
  (forall t ti, ts' !! t = Some ti -> length ts <= t ->
     t_owner ti = c /\ t_child ti = None).
Proof.
  induction created as [|nb rest IH]; intros idx l ts l' ts'; simpl.
  - intros [= <- <-]. split; [done|]. split; [lia|]. split; [done|].
    split; [done|]. split; [lia|]. split; [done|].
    intros t ti Ht Hle. apply lookup_lt_Some in Ht. lia.
  - intros Hsub. apply IH in Hsub as (H1 & H2 & H3 & H4 & H5 & H6 & H7).
    rewrite length_app in *. simpl in *.
    split; [intros Hl; by apply H1, submit_inv|].
    split; [lia|]. split; [done|]. split; [done|]. split; [lia|]. split.
    + intros t Ht. rewrite H6 by lia. by apply lookup_app_l.
    + intros t ti Ht Hle. destruct (decide (t = length ts)) as [->|Hne].
      * rewrite H6 in Ht by lia. rewrite list_lookup_middle in Ht by done.
        by injection Ht as <-.
      * apply (H7 t ti Ht). lia.
Qed.

Lemma promise_all_inv c blocks created s cl :
  rinv s -> clones s !! c = Some cl ->
  (forall ts o, c_phase cl <> PDone ts o) ->
  waiting_of (c_phase cl) = [] ->
  rinv (promise_all c blocks created s).
Proof.
  intros [Hl Hlen Hown Hch Hpar Hset Hful] Hcl Hnd Hw. unfold promise_all.
  destruct (submit_all c blocks 0 created (lim s) (tasks s)) as [l' ts'] eqn:Hs.
  apply submit_all_spec in Hs as (H1 & H2 & H3 & H4 & H5 & H6 & H7).
  assert (forall t ti, tasks s !! t = Some ti -> t_owner ti <> c) as Hother.
  { intros t ti Ht Hc. destruct (Hown t ti Ht) as (cl' & Hcl' & Hin).
    rewrite Hc, Hcl in Hcl'. injection Hcl' as <-. rewrite Hw in Hin.
    by apply elem_of_nil in Hin. }
  assert (forall t ti, ts' !! t = Some ti ->
            t < length (tasks s) /\ tasks s !! t = Some ti \/
            length (tasks s) <= t /\ t_owner ti = c /\ t_child ti = None)
    as Hcases.
  { intros t ti Ht. destruct (decide (t < length (tasks s))) as [Hlt|Hge].
    - left. split; [done|]. by rewrite <- H6.
    - right. split; [lia|]. apply (H7 t ti Ht). lia. }
  split; simpl.
  - by apply H1.
  - lia.
  - intros t ti Ht. destruct (Hcases t ti Ht) as [[Hlt Hold]|(Hge & Ho & _)].
    + destruct (Hown t ti Hold) as (cl' & Hcl' & Hin). exists cl'.
      rewrite list_lookup_alter_ne by (intros Heq; by apply (Hother t ti Hold)).
      done.
    + exists (with_phase (PWaiting blocks
                (seq (Limiter.submitted (lim s)) (length created))) cl).
      rewrite Ho, list_lookup_alter_eq, Hcl. split; [done|]. simpl.
      apply elem_of_seq. apply lookup_lt_Some in Ht. lia.
  - intros t ti x Ht Hx. destruct (Hcases t ti Ht) as [[Hlt Hold]|(_ & _ & Hn)];
      [|congruence].
    destruct (Hch t ti x Hold Hx) as (Hst & cl' & Hcl' & Hp).
    split; [by rewrite H4|]. destruct (decide (x = c)) as [->|Hne].
    + eexists. rewrite list_lookup_alter_eq, Hcl'. split; [done|]. done.
    + exists cl'. by rewrite list_lookup_alter_ne.
  - intros x cl' t Hx Hp.
    assert (exists cl0, clones s !! x = Some cl0 /\ c_parent cl0 = Some t)
      as (cl0 & Hcl0 & Hp0).
    { destruct (decide (x = c)) as [->|Hne].
      - rewrite list_lookup_alter_eq, Hcl in Hx. injection Hx as <-. eauto.
      - rewrite list_lookup_alter_ne in Hx by done. eauto. }
    destruct (Hpar x cl0 t Hcl0 Hp0) as (ti & Hti & Hc). exists ti.
    split; [|done]. rewrite H6; [done|]. by eapply lookup_lt_Some.
  - intros t o Hr. rewrite H3 in Hr. specialize (Hset t o Hr).
    unfold task_outcome in *. simpl.
    destruct (tasks s !! t) as [ti|] eqn:Hti; [|done].
    rewrite H6 by (by eapply lookup_lt_Some). rewrite Hti.
    destruct (t_child ti) as [x|]; [|done].
    destruct (clones s !! x) as [cl'|] eqn:Hcl'; [|done].
    destruct (decide (x = c)) as [->|Hne].
    + assert (cl' = cl) as -> by congruence.
      destruct (c_phase cl) eqn:Hph; try done. by destruct (Hnd ts o0).
    + by rewrite list_lookup_alter_ne, Hcl'.
  - intros x cl' ts Hx Hph t Hin. rewrite H3.
    destruct (decide (x = c)) as [->|Hne].
    + rewrite list_lookup_alter_eq, Hcl in Hx. by injection Hx as <-.
    + rewrite list_lookup_alter_ne in Hx by done. by apply (Hful x cl' ts).
Qed.

Lemma loop_inv c blocks sanitized i created s cl :
  rinv s -> clones s !! c = Some cl ->
  (forall ts o, c_phase cl <> PDone ts o) ->
  waiting_of (c_phase cl) = [] ->
  rinv (loop c blocks sanitized i created s).
Proof.
  intros Hi Hcl Hnd Hw. unfold loop.
  destruct (i <? length sanitized); [|by eapply promise_all_inv].
  apply set_clone_inv; [done|].
  intros cl' Hcl'. assert (cl' = cl) as -> by congruence.
  repeat split; try done. rewrite Hw. intros t Hin.
  by apply elem_of_nil in Hin.
Qed.

(** A callback of the limiter runs, and the task it started, if any,
    runs its body. *)
Lemma callback_inv s lev l' :
  rinv s -> Limiter.step (lim s) lev = Some l' ->
  lev = Limiter.Tick \/ (exists t, lev = Limiter.Finally t) ->
  rinv (after_next (lim s) (with_lim l' s)).
Proof.
  intros [Hl Hlen Hown Hch Hpar Hset Hful] Hstep Hev.
  destruct (step_callback (lim s) lev l' Hstep Hev) as [Hret Hsub].
  pose proof (step_inv 3 (lim s) lev l' Hl Hstep) as Hl'.
  assert (forall t, t ∈ Limiter.started (lim s) -> t ∈ Limiter.started l')
    as Hmono.
  { destruct (step_started 3 (lim s) lev l' Hl Hstep) as [->|(t & -> & _)];
      set_solver. }
  assert (rinv (with_lim l' s)) as Hplain.
  { split; simpl; try done.
    - lia.
    - intros t ti x Ht Hx. destruct (Hch t ti x Ht Hx) as [Hst Hcl].
      split; [by apply Hmono|done].
    - intros t o. rewrite Hret. apply Hset.
    - intros c cl ts Hc Hph t Hin. rewrite Hret. by apply (Hful c cl ts). }
  unfold Replicator.after_next. simpl.
  destruct (step_started 3 (lim s) lev l' Hl Hstep)
    as [Hsame|(t & Hst & Hfresh & Hnone & _)].
  { rewrite Hsame, Nat.ltb_irrefl. done. }
  rewrite Hst, length_app, last_snoc. simpl.
  replace (length (Limiter.started (lim s)) <? length (Limiter.started (lim s)) + 1)
    with true by (symmetry; apply Nat.ltb_lt; lia).
  unfold Replicator.run_body. simpl.
  destruct (tasks s !! t) as [ti|] eqn:Hti; [|exact Hplain].
  destruct (t_src ti) as [b|]; [|exact Hplain].
  destruct (has_children b); [|exact Hplain].
  assert (t_child ti = None) as Hnochild.
  { destruct (t_child ti) as [x|] eqn:Hx; [|done].
    by destruct (Hch t ti x Hti Hx) as [Hin _]. }
  assert (t < length (tasks s)) as Htlt by (by eapply lookup_lt_Some).
  split; simpl.
  - done.
  - rewrite length_insert. lia.
  - intros t' ti'. destruct (decide (t' = t)) as [->|Hne].
    + rewrite list_lookup_insert_eq by done. intros [= <-]. simpl.
      destruct (Hown t ti Hti) as (cl & Hcl & Hin). exists cl.
      split; [|done]. rewrite lookup_app_l; [done|]. by eapply lookup_lt_Some.
    + rewrite list_lookup_insert_ne by done. intros Ht'.
      destruct (Hown t' ti' Ht') as (cl & Hcl & Hin). exists cl.
      split; [|done]. rewrite lookup_app_l; [done|]. by eapply lookup_lt_Some.
  - intros t' ti' x. destruct (decide (t' = t)) as [->|Hne].
    + rewrite list_lookup_insert_eq by done. intros [= <-]. simpl.
      intros [= <-]. split; [rewrite Hst; set_solver|].
      eexists. rewrite list_lookup_middle by done.
      split; [done|apply opening_parent].
    + rewrite list_lookup_insert_ne by done. intros Ht' Hx.
      destruct (Hch t' ti' x Ht' Hx) as (Hin & cl & Hcl & Hp).
      split; [by apply Hmono|]. exists cl. split; [|done].
      rewrite lookup_app_l; [done|]. by eapply lookup_lt_Some.
  - intros x cl t' Hx Hp.
    apply lookup_app_Some in Hx as [Hx|[Hge Hx]].
    + destruct (Hpar x cl t' Hx Hp) as (ti' & Hti' & Hc). exists ti'.
      split; [|done]. rewrite list_lookup_insert_ne; [done|].
      intros ->. congruence.
    + destruct (x - length (clones s)) as [|k] eqn:Hk; [|done].
      simpl in Hx. injection Hx as <-. rewrite opening_parent in Hp.
      injection Hp as <-.
      eexists. rewrite list_lookup_insert_eq by done. split; [done|]. simpl.
      f_equal. lia.
  - intros t' o Hr. assert (t' <> t) as Hne by (intros ->; congruence).
    rewrite Hret in Hr. specialize (Hset t' o Hr).
    unfold task_outcome in *. simpl. rewrite list_lookup_insert_ne by done.
    destruct (tasks s !! t') as [ti'|]; [|done].
    destruct (t_child ti') as [x|]; [|done].
    destruct (clones s !! x) as [cl|] eqn:Hcl; [|done].
    rewrite lookup_app_l; [by rewrite Hcl|]. by eapply lookup_lt_Some.
  - intros c cl ts Hc Hph t' Hin. rewrite Hret.
    apply lookup_app_Some in Hc as [Hc|[Hge Hc]].
    + by apply (Hful c cl ts).
    + destruct (c - length (clones s)) as [|k]; [|done].
      simpl in Hc. injection Hc as <-.
      by destruct (opening_not_fulfilled (block_id b) (t_new ti) (Some t) ts).
Qed.

(** The promise of a task settles as the task's own promise did. *)
Lemma settle_inv_rep s t o l' :
  rinv s -> task_outcome s t = Some o ->
  Limiter.step (lim s) (Limiter.Settle t o) = Some l' ->
  rinv (with_lim l' s).
Proof.
  intros [Hl Hlen Hown Hch Hpar Hset Hful] Hout Hstep.
  pose proof (step_inv 3 (lim s) _ l' Hl Hstep) as Hl'.
  destruct (step_settle 3 (lim s) t o l' Hl Hstep) as (Hret & Hnone & Hsub & Hst).
  split; simpl; try done.
  - lia.
  - intros t' ti x Ht Hx. rewrite Hst. by apply (Hch t' ti x).
  - intros t' o'. rewrite Hret. destruct (decide (t' = t)) as [->|Hne].
    + rewrite lookup_insert_eq. by intros [= <-].
    + rewrite lookup_insert_ne by done. apply Hset.
  - intros c cl ts Hc Hph t' Hin. rewrite Hret.
    rewrite lookup_insert_ne; [by apply (Hful c cl ts)|].
    intros <-. rewrite (Hful c cl ts Hc Hph t Hin) in Hnone. done.
Qed.

Lemma forallb_fulfilled (l : Limiter.state unit E) ts :
  forallb (fulfilled l) ts = true ->
  forall t, t ∈ ts -> Limiter.returned l !! t = Some (Fulfilled tt).
Proof.
  intros H t Hin. apply list_elem_of_In in Hin.
  rewrite forallb_forall in H. specialize (H t Hin). unfold fulfilled in H.
  destruct (Limiter.returned l !! t) as [[[]|]|]; done.
Qed.

Lemma step_rinv s ev s' : rinv s -> step s ev = Some s' -> rinv s'.
Proof.
  intros Hi. destruct ev as [|c r|c r|t|t|c r]; cbn [Replicator.step].
  - destruct (Limiter.step (lim s) Limiter.Tick) as [l'|] eqn:Hs; [|done].
    intros [= <-]. eapply callback_inv; eauto.
  - destruct (clones s !! c) as [cl|] eqn:Hcl; [|done].
    destruct (c_phase cl) eqn:Hph; try done.
    assert (forall e, rinv (finish c [] (Rejected e) s)) as Hrej.
    { intros e. apply (finish_inv c [] (Rejected e) s cl Hi Hcl);
        rewrite ?Hph; done. }
    destruct r as [blocks|e]; [|by intros [= <-]].
    destruct (sanitizeBlocks blocks) as [sanitized|e]; [|by intros [= <-]].
    intros [= <-].
    apply (loop_inv c blocks sanitized 0 [] s cl Hi Hcl); by rewrite Hph.
  - destruct (clones s !! c) as [cl|] eqn:Hcl; [|done].
    destruct (c_phase cl) eqn:Hph; try done.
    destruct r as [ids|e].
    + intros [= <-].
      apply (loop_inv c blocks sanitized (i + 50) (created ++ ids) _ cl
               (rinv_dest s _ Hi) Hcl); by rewrite Hph.
    + intros [= <-]. apply (finish_inv c [] (Rejected e) s cl Hi Hcl);
        rewrite ?Hph; done.
  - destruct (task_outcome s t) as [o|] eqn:Ho; [|done].
    destruct (Limiter.step (lim s) (Limiter.Settle t o)) as [l'|] eqn:Hs;
      [|done].
    intros [= <-]. by eapply settle_inv_rep.
  - destruct (Limiter.step (lim s) (Limiter.Finally t)) as [l'|] eqn:Hs; [|done].
    intros [= <-]. eapply callback_inv; eauto.
  - destruct (clones s !! c) as [cl|] eqn:Hcl; [|done].
    destruct (c_phase cl) eqn:Hph; try done.
    destruct r as [t|].
    + destruct (bool_decide (t ∈ ts)); [|done].
      destruct (Limiter.returned (lim s) !! t) as [[|e]|]; try done.
      intros [= <-]. apply (finish_inv c ts (Rejected e) s cl Hi Hcl);
        rewrite ?Hph; done.
    + destruct (forallb (fulfilled (lim s)) ts) eqn:Hall; [|done].
      intros [= <-]. apply (finish_inv c ts (Fulfilled tt) s cl Hi Hcl);
        rewrite ?Hph; try done.
      intros _. by apply forallb_fulfilled.
Qed.

Lemma run_rinv evs : forall s s', rinv s -> run s evs = Some s' -> rinv s'.
Proof.
  induction evs as [|ev evs IH]; intros s s' Hi; simpl.
  - by intros [= <-].
  - destruct (step s ev) as [s1|] eqn:Hs; [|done].
    apply IH. by eapply step_rinv.
Qed.

Lemma reachable_rinv s : reachable s -> rinv s.
Proof.
  intros (src & dst & evs & Hrun). eapply run_rinv; [|exact Hrun].
  apply rinv_start.
Qed.

Lemma phase_of_Some s c p :
  phase_of s c = Some p <-> exists cl, clones s !! c = Some cl /\ c_phase cl = p.
Proof.
  unfold phase_of. destruct (clones s !! c) as [cl|]; simpl.
  - split; [intros [= <-]; eauto|]. by intros (cl' & [= <-] & ->).
  - split; [done|]. by intros (cl' & ? & _).
Qed.

(** A fulfilled activation has every activation its tasks called
    fulfilled. *)
Lemma spawned_fulfilled s c x :
  rinv s -> is_fulfilled s c -> spawned_by s c x -> is_fulfilled s x.
Proof.
  intros [Hl Hlen Hown Hch Hpar Hset Hful] [ts Hc] (cl & t & ti & Hx & Hp & Ht & Ho).
  apply phase_of_Some in Hc as (clc & Hclc & Hph).
  destruct (Hown t ti Ht) as (clc' & Hclc' & Hin).
  rewrite Ho, Hclc in Hclc'. injection Hclc' as <-. rewrite Hph in Hin.
  simpl in Hin. pose proof (Hful c clc ts Hclc Hph t Hin) as Hr.
  apply Hset in Hr. unfold task_outcome in Hr. rewrite Ht in Hr.
  destruct (Hpar x cl t Hx Hp) as (ti' & Hti' & Hchild).
  assert (ti' = ti) as -> by congruence. rewrite Hchild, Hx in Hr.
  destruct (c_phase cl) as [| | |ts' o] eqn:Hphx; try done.
  injection Hr as ->. exists ts'. apply phase_of_Some. eauto.
Qed.

Lemma below_fulfilled s c x :
  rinv s -> is_fulfilled s c -> below s c x -> is_fulfilled s x.
Proof.
  intros Hi Hc. induction 1 as [x Hs|x y _ IH Hs].
  - by eapply spawned_fulfilled.
  - by eapply spawned_fulfilled.
Qed.

Lemma owned_fulfilled s c t ti :
  rinv s -> is_fulfilled s c -> tasks s !! t = Some ti -> t_owner ti = c ->
  Limiter.returned (lim s) !! t = Some (Fulfilled tt).
Proof.
  intros [Hl Hlen Hown Hch Hpar Hset Hful] [ts Hc] Ht Ho.
  apply phase_of_Some in Hc as (clc & Hclc & Hph).
  destruct (Hown t ti Ht) as (clc' & Hclc' & Hin).
  rewrite Ho, Hclc in Hclc'. injection Hclc' as <-. rewrite Hph in Hin.
  by apply (Hful c clc ts).
Qed.

Lemma stable_refl s : stable s s.
Proof.
  split; [eauto|]. split; [eauto|]. exists []. by rewrite app_nil_r.
Qed.

Lemma stable_trans s1 s2 s3 : stable s1 s2 -> stable s2 s3 -> stable s1 s3.
Proof.
  intros (Hc1 & Ht1 & d1 & Hd1) (Hc2 & Ht2 & d2 & Hd2). split; [|split].
  - intros x cl Hx. destruct (Hc1 x cl Hx) as (cl' & Hx' & Hp' & Hd').
    destruct (Hc2 x cl' Hx') as (cl'' & Hx'' & Hp'' & Hd'').
    exists cl''. split; [done|]. split; [congruence|]. eauto.
  - intros t ti Ht. destruct (Ht1 t ti Ht) as (ti' & Ht' & Ho').
    destruct (Ht2 t ti' Ht') as (ti'' & Ht'' & Ho'').
    exists ti''. split; [done|congruence].
  - exists (d1 ++ d2). by rewrite Hd2, Hd1, app_assoc.
Qed.

Lemma stable_set_clone c f s :
  (forall cl, clones s !! c = Some cl ->
     c_parent (f cl) = c_parent cl /\ forall ts o, c_phase cl <> PDone ts o) ->
  stable s (set_clone c f s).
Proof.
  intros Hf. split; [|split]; simpl.
  - intros x cl Hx. destruct (decide (x = c)) as [->|Hne].
    + exists (f cl). rewrite list_lookup_alter_eq, Hx.
      destruct (Hf cl Hx) as [Hp Hnd]. split; [done|]. split; [done|].
      intros ts o Hph. by destruct (Hnd ts o).
    + exists cl. by rewrite list_lookup_alter_ne.
  - eauto.
  - exists []. by rewrite app_nil_r.
Qed.

Lemma stable_loop c blocks sanitized i created s cl :
  clones s !! c = Some cl -> (forall ts o, c_phase cl <> PDone ts o) ->
  stable s (loop c blocks sanitized i created s).
Proof.
  intros Hcl Hnd. unfold loop. destruct (i <? length sanitized).
  - apply stable_set_clone. intros cl' Hcl'. by assert (cl' = cl) as -> by congruence.
  - unfold promise_all.
    destruct (submit_all c blocks 0 created (lim s) (tasks s)) as [l' ts'] eqn:Hs.
    apply submit_all_spec in Hs as (_ & _ & _ & _ & _ & H6 & _).
    split; [|split]; simpl.
    + intros x cl' Hx. destruct (decide (x = c)) as [->|Hne].
      * assert (cl' = cl) as -> by congruence. eexists.
        rewrite list_lookup_alter_eq, Hx. split; [done|]. split; [done|].
        intros ts o Hph. by destruct (Hnd ts o).
      * exists cl'. by rewrite list_lookup_alter_ne.
    + intros t ti Ht. exists ti. split; [|done].
      rewrite H6; [done|]. by eapply lookup_lt_Some.
    + exists []. by rewrite app_nil_r.
Qed.

Lemma stable_after_next l s : stable s (after_next l s).
Proof.
  unfold Replicator.after_next.
  destruct (_ <? _); [|apply stable_refl].
  destruct (last _) as [t|]; [|apply stable_refl].
  unfold Replicator.run_body.
  destruct (tasks s !! t) as [ti|] eqn:Hti; [|apply stable_refl].
  destruct (t_src ti) as [b|]; [|apply stable_refl].
  destruct (has_children b); [|apply stable_refl].
  split; [|split]; simpl.
  - intros x cl Hx. exists cl. split; [|done].
    rewrite lookup_app_l; [done|]. by eapply lookup_lt_Some.
  - intros t' ti' Ht'. destruct (decide (t' = t)) as [->|Hne].
    + eexists. rewrite list_lookup_insert_eq by (by eapply lookup_lt_Some).
      split; [done|]. simpl. congruence.
    + exists ti'. by rewrite list_lookup_insert_ne.
  - exists []. by rewrite app_nil_r.
Qed.

Lemma step_stable s ev s' : step s ev = Some s' -> stable s s'.
Proof.
  destruct ev as [|c r|c r|t|t|c r]; cbn [Replicator.step].
  - destruct (Limiter.step (lim s) Limiter.Tick) as [l'|]; [|done].
    intros [= <-]. apply (stable_trans _ (with_lim l' s));
      [|apply stable_after_next].
    split; [eauto|]. split; [eauto|]. exists []. by rewrite app_nil_r.
  - destruct (clones s !! c) as [cl|] eqn:Hcl; [|done].
    destruct (c_phase cl) eqn:Hph; try done.
    assert (forall ts o, c_phase cl <> PDone ts o) as Hnd by (by rewrite Hph).
    assert (forall e, stable s (finish c [] (Rejected e) s)) as Hrej.
    { intros e. apply stable_set_clone. intros cl' Hcl'.
      by assert (cl' = cl) as -> by congruence. }
    destruct r as [blocks|e]; [|by intros [= <-]].
    destruct (sanitizeBlocks blocks) as [sanitized|e]; [|by intros [= <-]].
    intros [= <-]. by eapply stable_loop.
  - destruct (clones s !! c) as [cl|] eqn:Hcl; [|done].
    destruct (c_phase cl) eqn:Hph; try done.
    assert (forall ts o, c_phase cl <> PDone ts o) as Hnd by (by rewrite Hph).
    destruct r as [ids|e].
    + intros [= <-].
      set (s1 := Replicator.mkState (lim s) (clones s) (tasks s) _).
      apply (stable_trans _ s1); [|by eapply (stable_loop _ _ _ _ _ s1)].
      split; [eauto|]. split; [eauto|]. by eexists.
    + intros [= <-]. apply stable_set_clone. intros cl' Hcl'.
      by assert (cl' = cl) as -> by congruence.
  - destruct (task_outcome s t) as [o|]; [|done].
    destruct (Limiter.step (lim s) (Limiter.Settle t o)) as [l'|]; [|done].
    intros [= <-]. split; [eauto|]. split; [eauto|]. exists [].
    by rewrite app_nil_r.
  - destruct (Limiter.step (lim s) (Limiter.Finally t)) as [l'|]; [|done].
    intros [= <-]. apply (stable_trans _ (with_lim l' s));
      [|apply stable_after_next].
    split; [eauto|]. split; [eauto|]. exists []. by rewrite app_nil_r.
  - destruct (clones s !! c) as [cl|] eqn:Hcl; [|done].
    destruct (c_phase cl) eqn:Hph; try done.
    assert (forall ts o, c_phase cl <> PDone ts o) as Hnd by (by rewrite Hph).
    assert (forall o, stable s (finish c ts o s)) as Hfin.
    { intros o. apply stable_set_clone. intros cl' Hcl'.
      by assert (cl' = cl) as -> by congruence. }
    destruct r as [t|].
    + destruct (bool_decide (t ∈ ts)); [|done].
      destruct (Limiter.returned (lim s) !! t) as [[|e]|]; try done.
      by intros [= <-].
    + destruct (forallb (fulfilled (lim s)) ts); [|done]. by intros [= <-].
Qed.

Lemma run_stable evs : forall s s', run s evs = Some s' -> stable s s'.
Proof.
  induction evs as [|ev evs IH]; intros s s'; simpl.
  - intros [= <-]. apply stable_refl.
  - destruct (step s ev) as [s1|] eqn:Hs; [|done]. intros Hrun.
    eapply stable_trans; [by eapply step_stable|by apply IH].
Qed.

Lemma stable_spawned s s' c x :
  stable s s' -> spawned_by s c x -> spawned_by s' c x.
Proof.
  intros (Hc & Ht & _) (cl & t & ti & Hx & Hp & Hti & Ho).
  destruct (Hc x cl Hx) as (cl' & Hx' & Hp' & _).
  destruct (Ht t ti Hti) as (ti' & Hti' & Ho').
  exists cl', t, ti'. repeat split; congruence.
Qed.

Lemma stable_done s s' c o :
  stable s s' -> done_as s c o -> done_as s' c o.
Proof.
  intros (Hc & _) [ts Hph]. apply phase_of_Some in Hph as (cl & Hcl & Hph).
  destruct (Hc c cl Hcl) as (cl' & Hcl' & _ & Hd).
  exists ts. apply phase_of_Some. eauto.
Qed.

Lemma run_app_rep evs1 : forall evs2 s,
  run s (evs1 ++ evs2) =
    match run s evs1 with Some s1 => run s1 evs2 | None => None end.
Proof.
  induction evs1 as [|ev evs1 IH]; intros evs2 s; simpl; [done|].
  destruct (step s ev); [apply IH|done].
Qed.

(** A rejected activation makes the activation that called it reject,
    by promise reactions alone. *)
Lemma reject_up s c x :
  rinv s -> spawned_by s c x -> is_rejected s x ->
  exists evs s', Forall reaction evs /\ run s evs = Some s' /\
    is_rejected s' c.
Proof.
  intros Hi (cl & t & ti & Hx & Hp & Hti & Ho) (e & tsx & Hphx).
  apply phase_of_Some in Hphx as (cl' & Hx' & Hphx).
  assert (cl' = cl) as -> by congruence.
  pose proof Hi as [Hl Hlen Hown Hch Hpar Hset Hful].
  destruct (Hpar x cl t Hx Hp) as (ti' & Hti' & Hchild).
  assert (ti' = ti) as -> by congruence.
  assert (task_outcome s t = Some (Rejected e)) as Hout.
  { unfold task_outcome. by rewrite Hti, Hchild, Hx, Hphx. }
  destruct (Hown t ti Hti) as (clc & Hclc & Hin). rewrite Ho in Hclc.
  (* once the promise returned for [t] is rejected, [Promise.all] rejects *)
  assert (forall s1, clones s1 = clones s ->
            Limiter.returned (lim s1) !! t = Some (Rejected e) ->
            (forall ts, c_phase clc = PDone ts (Fulfilled tt) -> False) ->
            exists evs s', Forall reaction evs /\ run s1 evs = Some s' /\
              is_rejected s' c) as Hall.
  { intros s1 Hcl1 Hr Hnf. destruct (c_phase clc) as [| | |ts [[]|e']] eqn:Hph;
      try (by apply elem_of_nil in Hin).
    - exists [All c (Some t)]. eexists. split; [by repeat constructor|].
      simpl. rewrite Hcl1, Hclc, Hph, Hr. simpl in Hin.
      rewrite (bool_decide_eq_true_2 _ Hin). split; [done|].
      exists e, ts. unfold phase_of, finish, set_clone. simpl.
      by rewrite Hcl1, list_lookup_alter_eq, Hclc.
    - by destruct (Hnf ts).
    - exists [], s1. split; [done|]. split; [done|].
      exists e', ts. unfold phase_of. by rewrite Hcl1, Hclc, <- Hph. }
  destruct (Limiter.returned (lim s) !! t) as [o|] eqn:Hr.
  - pose proof (Hset t o Hr) as Ho'. rewrite Hout in Ho'. injection Ho' as <-.
    apply (Hall s); [done|done|].
    intros ts Hph. simpl in Hin. rewrite Hph in Hin.
    pose proof (Hful c clc ts Hclc Hph t Hin). congruence.
  - destruct (Hch t ti x Hti Hchild) as [Hst _].
    destruct Hl as [Hcore _].
    destruct (Limiter.core_started _ _ Hcore t Hst) as [Hrun|[o Hsome]];
      [|congruence].
    assert (Limiter.step (lim s) (Limiter.Settle t (Rejected e))
            = Some (Limiter.settle t (Rejected e) (lim s))) as Hstep.
    { simpl. by destruct (decide (t ∈ Limiter.running (lim s))). }
    destruct (Hall (with_lim (Limiter.settle t (Rejected e) (lim s)) s))
      as (evs & s' & Hre & Hrun' & Hrej).
    + done.
    + unfold with_lim. cbn [lim]. rewrite settle_state.
      cbn [Limiter.returned]. unfold Limiter.settle_once.
      by rewrite Hr, lookup_insert_eq.
    + intros ts Hph. rewrite Hph in Hin. simpl in Hin.
      pose proof (Hful c clc ts Hclc Hph t Hin). congruence.
    + exists (Settle t :: evs), s'. split; [by constructor|]. split; [|done].
      cbn [Replicator.run Replicator.step]. rewrite Hout, Hstep. done.
Qed.

Lemma below_reject s c x :
  below s c x ->
  forall s1, stable s s1 -> rinv s1 -> is_rejected s1 x ->
  exists evs s2, Forall reaction evs /\ run s1 evs = Some s2 /\
    is_rejected s2 c.
Proof.
  induction 1 as [x Hs|x y _ IH Hs]; intros s1 Hst Hi Hrej.
  - apply (reject_up s1 c x Hi); [|done]. by eapply stable_spawned.
  - destruct (reject_up s1 x y Hi) as (evs1 & s2 & Hre1 & Hrun1 & Hrej1);
      [by eapply stable_spawned|done|].
    destruct (IH s2) as (evs2 & s3 & Hre2 & Hrun2 & Hrej2).
    + eapply stable_trans; [exact Hst|]. by eapply run_stable.
    + by eapply run_rinv.
    + done.
    + exists (evs1 ++ evs2), s3. split; [by apply Forall_app|].
      split; [|done]. by rewrite run_app_rep, Hrun1.
Qed.

Lemma stable_below s s' c x : stable s s' -> below s c x -> below s' c x.
Proof.
  intros Hst. induction 1 as [x Hs|x y _ IH Hs].
  - apply below_child. by eapply stable_spawned.
  - eapply below_deeper; [exact IH|]. by eapply stable_spawned.
Qed.

Lemma done_unique s c o o' : done_as s c o -> done_as s c o' -> o = o'.
Proof. intros [ts H] [ts' H']. congruence. Qed.

(** What holds whatever [ensureClient] does.  In every reachable state
    and for every activation [c] of [cloneBlocksRecursive] (the
    top-level call is activation 0): if [c] is fulfilled, every
    activation called below it, transitively, is fulfilled, and so is
    every task made below it; if an activation below [c] is rejected
    then [c] is not fulfilled, never will be, and promise reactions
    alone bring [c] to reject; and the chunks appended at the
    destination are never taken back. *)
Theorem replicate_completion_and_failure s c :
  reachable s ->
  (is_fulfilled s c ->
   (forall x, below s c x -> is_fulfilled s x) /\
   (forall t ti, tasks s !! t = Some ti ->
      t_owner ti = c \/ below s c (t_owner ti) ->
      Limiter.returned (lim s) !! t = Some (Fulfilled tt))) /\
  (forall x, below s c x -> is_rejected s x ->
     (forall evs s', run s evs = Some s' -> ~ is_fulfilled s' c) /\
     exists evs s', Forall reaction evs /\ run s evs = Some s' /\
       is_rejected s' c) /\
  (forall evs s', run s evs = Some s' -> exists d, dest s' = dest s ++ d).
Proof.
  intros Hreach. pose proof (reachable_rinv s Hreach) as Hi.
  split; [|split].
  - intros Hc. split.
    + intros x Hx. by eapply below_fulfilled.
    + intros t ti Ht [Ho|Hb].
      * by eapply owned_fulfilled.
      * apply (owned_fulfilled s (t_owner ti) t ti); try done.
        by eapply below_fulfilled.
  - intros x Hx Hrej. split.
    + intros evs s' Hrun Hc.
      pose proof (run_stable evs s s' Hrun) as Hst.
      pose proof (run_rinv evs s s' Hi Hrun) as Hi'.
      assert (is_fulfilled s' x) as Hfx
        by (eapply below_fulfilled; eauto; by eapply stable_below).
      destruct Hrej as [e Hrej].
      pose proof (stable_done s s' x _ Hst Hrej) as Hrej'.
      pose proof (done_unique s' x _ _ Hfx Hrej'). done.
    + apply (below_reject s c x Hx s); [apply stable_refl|done|done].
  - intros evs s' Hrun. by destruct (run_stable evs s s' Hrun) as (_ & _ & Hd).
Qed.

Lemma calls_ok_rejected cl ts e :
  calls_ok cl -> (forall ts' o, c_phase cl <> PDone ts' o) ->
  calls_ok (with_phase (PDone ts (Rejected e)) cl).
Proof.
  unfold calls_ok. simpl. destruct (c_phase cl) as [|bl sa i cr|bl ts0|ts0 o].
  - intros -> _. right. by exists [], 0.
  - intros (Hs & k & -> & Hlt & ->) _. right. by exists sa, (S k).
  - intros (sa & Hs & ->) _. right. exists sa, (length (batches sa)).
    by rewrite take_ge.
  - intros _ Hnd. by destruct (Hnd ts0 o).
Qed.

Lemma calls_ok_loop c blocks sanitized i created s cl :
  clones s !! c = Some cl ->
  sanitizeBlocks blocks = Fulfilled sanitized ->
  (i = 0 /\ c_calls cl = [CallList (c_src cl)] \/
   exists k, i = 50 * k + 50 /\ 50 * k < length sanitized /\
     c_calls cl = CallList (c_src cl)
                  :: (CallAppend (c_dst cl) <$> take (S k) (batches sanitized))) ->
  Forall calls_ok (clones s) ->
  Forall calls_ok (clones (loop c blocks sanitized i created s)).
Proof.
  intros Hcl Hsan Hcalls Hall. unfold loop.
  destruct (Nat.ltb_spec i (length sanitized)) as [Hlt|Hge].
  - simpl. apply Forall_alter; [done|]. intros cl' Hcl' _.
    assert (cl' = cl) as -> by congruence. unfold calls_ok. simpl.
    split; [done|]. destruct Hcalls as [[-> Hc]|(k & -> & Hk & Hc)].
    + exists 0. split; [done|]. split; [done|]. rewrite Hc.
      rewrite (take_S_r _ 0 (slice 0 50 sanitized)), take_0 by
        (by apply (batches_lookup sanitized 0)).
      done.
    + exists (S k). split; [lia|]. split; [done|]. rewrite Hc.
      rewrite batches_take_S by lia. rewrite fmap_app. simpl.
      do 3 f_equal; lia.
  - unfold promise_all.
    destruct (submit_all c blocks 0 created (lim s) (tasks s)) as [l' ts'].
    simpl. apply Forall_alter; [done|]. intros cl' Hcl' _.
    assert (cl' = cl) as -> by congruence. unfold calls_ok. simpl.
    exists sanitized. split; [done|].
    destruct Hcalls as [[-> Hc]|(k & -> & Hk & Hc)].
    + rewrite Hc. destruct sanitized; [done|simpl in Hge; lia].
    + rewrite Hc. by rewrite batches_take_all by lia.
Qed.

Lemma step_calls s ev s' :
  Forall calls_ok (clones s) -> step s ev = Some s' ->
  Forall calls_ok (clones s').
Proof.
  intros Hall.
  assert (forall l (s0 : state), Forall calls_ok (clones s0) ->
            Forall calls_ok (clones (after_next l s0))) as Hnext.
  { intros l s0 H0. unfold Replicator.after_next.
    destruct (_ <? _); [|done]. destruct (last _) as [t|]; [|done].
    unfold Replicator.run_body. destruct (tasks s0 !! t) as [ti|]; [|done].
    destruct (t_src ti) as [b|]; [|done]. destruct (has_children b); [|done].
    simpl. apply Forall_app. split; [done|].
    constructor; [apply opening_calls_ok|constructor]. }
  assert (forall c cl ts e, clones s !! c = Some cl ->
            (forall ts' o, c_phase cl <> PDone ts' o) ->
            Forall calls_ok (clones (finish c ts (Rejected e) s))) as Hrej.
  { intros c cl ts e Hcl Hnd. simpl. apply Forall_alter; [done|].
    intros cl' Hcl' Hok. assert (cl' = cl) as -> by congruence.
    by apply calls_ok_rejected. }
  destruct ev as [|c r|c r|t|t|c r]; cbn [Replicator.step].
  - destruct (Limiter.step (lim s) Limiter.Tick) as [l'|]; [|done].
    intros [= <-]. by apply Hnext.
  - destruct (clones s !! c) as [cl|] eqn:Hcl; [|done].
    destruct (c_phase cl) eqn:Hph; try done.
    assert (forall ts' o, c_phase cl <> PDone ts' o) as Hnd by (by rewrite Hph).
    destruct r as [blocks|e]; [|intros [= <-]; by eapply Hrej].
    destruct (sanitizeBlocks blocks) as [sanitized|e] eqn:Hsan;
      [|intros [= <-]; by eapply Hrej].
    intros [= <-]. eapply calls_ok_loop; eauto. left. split; [done|].
    rewrite Forall_forall in Hall.
    assert (calls_ok cl) as Hok
      by (apply Hall; by eapply list_elem_of_lookup_2).
    unfold calls_ok in Hok. by rewrite Hph in Hok.
  - destruct (clones s !! c) as [cl|] eqn:Hcl; [|done].
    destruct (c_phase cl) eqn:Hph; try done.
    assert (forall ts' o, c_phase cl <> PDone ts' o) as Hnd by (by rewrite Hph).
    destruct r as [ids|e]; [|intros [= <-]; by eapply Hrej].
    intros [= <-].
    rewrite Forall_forall in Hall.
    assert (calls_ok cl) as Hok
      by (apply Hall; by eapply list_elem_of_lookup_2).
    unfold calls_ok in Hok. rewrite Hph in Hok.
    destruct Hok as (Hsan & k & -> & Hlt & Hc).
    apply (calls_ok_loop c blocks sanitized (50 * k + 50) (created ++ ids)
             _ cl); [exact Hcl|exact Hsan| |by apply Forall_forall].
    right. by exists k.
  - destruct (task_outcome s t) as [o|]; [|done].
    destruct (Limiter.step (lim s) (Limiter.Settle t o)) as [l'|]; [|done].
    by intros [= <-].
  - destruct (Limiter.step (lim s) (Limiter.Finally t)) as [l'|]; [|done].
    intros [= <-]. by apply Hnext.
  - destruct (clones s !! c) as [cl|] eqn:Hcl; [|done].
    destruct (c_phase cl) eqn:Hph; try done.
    assert (forall ts' o, c_phase cl <> PDone ts' o) as Hnd by (by rewrite Hph).
    destruct r as [t|].
    + destruct (bool_decide (t ∈ ts)); [|done].
      destruct (Limiter.returned (lim s) !! t) as [[|e]|]; try done.
      intros [= <-]. by eapply Hrej.
    + destruct (forallb (fulfilled (lim s)) ts); [|done].
      intros [= <-]. simpl. apply Forall_alter; [done|].
      intros cl' Hcl' Hok. assert (cl' = cl) as -> by congruence.
      unfold calls_ok in *. simpl. rewrite Hph in Hok.
      destruct Hok as (sa & _ & Hc). by exists sa.
Qed.

Lemma reachable_calls s c cl :
  reachable s -> clones s !! c = Some cl -> calls_ok cl.
Proof.
  intros (src & dst & evs & Hrun) Hcl.
  assert (Forall calls_ok (clones s)) as Hall.
  { revert Hrun.
    assert (Forall calls_ok (clones (start src dst : state))) as H0
      by (constructor; [apply opening_calls_ok|constructor]).
    revert H0. generalize (start src dst : state).
    induction evs as [|ev evs IH]; intros s0 H0; simpl.
    - by intros [= <-].
    - destruct (step s0 ev) as [s1|] eqn:Hs; [|done].
      apply IH. by eapply step_calls. }
  rewrite Forall_forall in Hall. apply Hall. by eapply list_elem_of_lookup_2.
Qed.

(** The loop cuts the sanitized list into [ceil(n/50)] batches of at
    most 50 blocks which, in order, make up the list; 60 blocks give a
    batch of 50 and a batch of 10, no block gives no batch.  An
    activation that got past [ensureClient] appends these batches and
    nothing else, one at a time: while it awaits the answer to batch
    [k] it has issued the batches up to [k], and once past the loop it
    has issued the listing followed by all the batches in order; with
    no child, the listing alone. *)
Theorem append_batches :
  (forall xs : list sblock,
     length (batches xs) = (length xs + 49) / 50 /\
     Forall (fun b => 1 <= length b <= 50) (batches xs) /\
     concat (batches xs) = xs) /\
  (forall xs : list sblock,
     length xs = 60 -> length <$> batches xs = [50; 10]) /\
  batches (@nil sblock) = [] /\
  (forall s c cl, reachable s -> clones s !! c = Some cl -> calls_ok cl) /\
  (forall s c cl blocks ts,
     reachable s -> clones s !! c = Some cl ->
     c_phase cl = PWaiting blocks ts -> sanitizeBlocks blocks = Fulfilled [] ->
     c_calls cl = [CallList (c_src cl)]).
Proof.
  split; [|split; [|split; [|split]]].
  - intros xs. split; [apply batches_length|].
    split; [apply batches_sizes|apply batches_concat].
  - intros xs Hlen. rewrite batches_spec, Hlen.
    change ((60 + 49) / 50) with 2. cbn [seq fmap list_fmap].
    rewrite !slice_length, Hlen. reflexivity.
  - reflexivity.
  - apply reachable_calls.
  - intros s c cl blocks ts Hreach Hcl Hph Hsan.
    pose proof (reachable_calls s c cl Hreach Hcl) as Hok.
    unfold calls_ok in Hok. rewrite Hph in Hok.
    destruct Hok as (sa & Hsa & Hc). rewrite Hsan in Hsa.
    injection Hsa as <-. by rewrite Hc.
Qed.

(** When [ensureClient] throws, a call of [cloneBlocksRecursive] is
    over before its first await: the activation is rejected, nothing
    was called, and no event applies. *)
Lemma start_rejected e src dst :
  ensureClient = Rejected e ->
  (start src dst : state) =
    Replicator.mkState (Limiter.createLimit 3)
      [mkClone src dst None [] (PDone [] (Rejected e))] [] [].
Proof. intros He. unfold Replicator.start, Replicator.opening. by rewrite He. Qed.

Lemma start_stuck e src dst ev :
  ensureClient = Rejected e -> step (start src dst) ev = None.
Proof.
  intros He. rewrite (start_rejected e) by done.
  destruct ev as [|c r|c r|t|t|c r]; cbn [Replicator.step].
  - reflexivity.
  - destruct c as [|c]; reflexivity.
  - destruct c as [|c]; reflexivity.
  - reflexivity.
  - cbn [lim]. simpl. destruct (decide (t ∈ ∅)) as [Hin|]; [|done].
    set_solver.
  - destruct c as [|c]; reflexivity.
Qed.



End ReplicatorFacts.

Lemma state_fulfilled_reachable :
  Replicator.reachable fst snd demo_sanitize (Fulfilled tt) state_fulfilled.
Proof. exists 1, 100, trace_fulfilled. vm_compute. reflexivity. Defined.

(** With a client: a page with two blocks, everything fulfils. *)
Lemma replicate_completion_and_failure_witness :
  Replicator.is_fulfilled state_fulfilled 1 /\
  exists d, Replicator.dest state_fulfilled = Replicator.dest state_fulfilled ++ d.
Proof.
  pose proof (replicate_completion_and_failure fst snd demo_sanitize
                (Fulfilled tt) state_fulfilled 0 state_fulfilled_reachable)
    as (Hful & _ & Hdest).
  split.
  - apply Hful.
    + exists [0; 1]. vm_compute. reflexivity.
    + apply Replicator.below_child. eexists _, 0, _.
      repeat split; vm_compute; reflexivity.
  - apply (Hdest []). reflexivity.
Defined.

(** With a client [Promise.all] is fail-fast: the top-level call has
    settled (rejected with the 404 of the first child's listing) while
    the replication of the second child, which it spawned, has not
    settled. *)
Lemma replicate_settles_before_subtree :
  demo_run demo_start trace_fail_fast = Some state_fail_fast /\
  Replicator.is_rejected state_fail_fast 0 /\
  Replicator.below state_fail_fast 0 2 /\
  ~ Replicator.is_settled state_fail_fast 2.
Proof.
  split; [vm_compute; reflexivity|]. split; [|split].
  - exists 404, [0; 1]. vm_compute. reflexivity.
  - apply Replicator.below_child. eexists _, 1, _.
    repeat split; vm_compute; reflexivity.
  - intros (o & ts & H). vm_compute in H. discriminate.
Qed.

Lemma limiter_finally_none {V E} (l : Limiter.state V E) t :
  Limiter.finishing l = ∅ -> Limiter.step l (Limiter.Finally t) = None.
Proof.
  intros H. simpl. destruct (decide (t ∈ Limiter.finishing l)); [|done].
  set_solver.
Qed.

(** With a client, and a source tree nested four blocks deep: the
    limiter [createLimit(3)], after four submissions each followed by
    its [next] callback, holds task 3 in the queue, its promise
    pending, and no event can occur: the three running tasks await,
    through their activations, the promise of a task queued behind
    them. *)
Lemma limiter_starves_nested_task :
  demo_run demo_start trace_nested = Some state_nested /\
  Limiter.run (Limiter.createLimit 3)
    [Limiter.Submit; Limiter.Tick; Limiter.Submit; Limiter.Tick;
     Limiter.Submit; Limiter.Tick; Limiter.Submit; Limiter.Tick]
  = Some (Replicator.lim state_nested) /\
  Limiter.concurrency (Replicator.lim state_nested) = 3%Z /\
  Limiter.active (Replicator.lim state_nested) = 3%Z /\
  Limiter.queue (Replicator.lim state_nested) = [3] /\
  Limiter.returned (Replicator.lim state_nested) !! 3 = None /\
  forall ev, demo_step state_nested ev = None.
Proof.
  split; [vm_compute; reflexivity|]. repeat (split; [vm_compute; reflexivity|]).
  intros [|c r|c r|t|t|c r].
  - vm_compute. reflexivity.
  - destruct c as [|[|[|[|c]]]]; reflexivity.
  - destruct c as [|[|[|[|c]]]]; reflexivity.
  - destruct t as [|[|[|[|t]]]]; vm_compute; reflexivity.
  - cbn [demo_step Replicator.step].
    rewrite limiter_finally_none; [done|]. vm_compute. reflexivity.
  - destruct c as [|[|[|[|c]]]]; [| | | |reflexivity];
      (destruct r as [t|]; [destruct t as [|[|[|[|t]]]]|]);
      vm_compute; reflexivity.
Qed.

Lemma append_batches_witness :
  length <$> Replicator.batches (seq 0 60) = [50; 10] /\
  Replicator.calls_ok demo_sanitize
    (Replicator.mkClone 1 100 None
       [Replicator.CallList 1; Replicator.CallAppend 100 [10; 11]]
       (Replicator.PDone [0; 1] (Fulfilled tt))).
Proof.
  pose proof (append_batches fst snd demo_sanitize (Fulfilled tt))
    as (_ & H60 & _ & Hcalls & _).
  split.
  - apply H60. reflexivity.
  - apply (Hcalls state_fulfilled 0).
    + apply state_fulfilled_reachable.
    + vm_compute. reflexivity.
Defined.

(** ** The client *)

(** In index.js every call of [ensureClient] throws the
    [ReferenceError], whatever the environment variables. *)
Lemma ensureClient_index_js token key :
  Client.ensureClient (Client.index_js token key)
  = Rejected Client.ReferenceError.
Proof. reflexivity. Qed.

(** The first call decides for all later ones: after a call that
    returned every call returns and changes nothing. *)
Lemma ensureClient_again e e' :
  Client.ensureClient e = Fulfilled e' ->
  Client.ensureClient e' = Fulfilled e'.
Proof.
  unfold Client.ensureClient.
  destruct (Client.notion e) eqn:Hn; [done| |].
  - destruct (negb _); [done|]. by intros [= <-].
  - intros [= <-]. by rewrite Hn.
Qed.




(** C6 at a call of [cloneBlocksRecursive] on a source block with
    sixty children: [ensureClient()] throws (index.js declares no
    variable [notion]), the call is rejected before it lists the
    children, and nothing follows: no event applies, not even the
    answer of a listing, so that no batch is ever appended, where
    sixty children call for a batch of 50 and a batch of 10. *)
Theorem cloneBlocksRecursive_appends_nothing :
  script_client = Rejected Client.ReferenceError /\
  Replicator.clones script_start
  = [Replicator.mkClone 1 100 None []
       (Replicator.PDone [] (Rejected Client.ReferenceError))] /\
  Replicator.dest script_start = [] /\
  (forall ev, script_step script_start ev = None) /\
  script_step script_start (Replicator.Listed 0 (Fulfilled sixty_children))
  = None /\
  length <$> Replicator.batches (fst <$> sixty_children) = [50; 10].
Proof.
  split; [reflexivity|]. split; [reflexivity|]. split; [reflexivity|].
  split; [|split; [reflexivity|reflexivity]].
  intros ev. apply (start_stuck fst snd script_sanitize script_client
                      Client.ReferenceError 1 100 ev eq_refl).
Qed.

(** C1 as stated fails: a limiter with ceiling 1 has started task 0
    and holds task 1 in its queue; as long as the promise of task 0
    stays pending, whatever else happens, task 1 is not started and
    the promise returned for it is not settled. *)
Lemma limiter_waits_for_pending_task :
  Limiter.run (Limiter.createLimit 1) events_pending = Some state_pending /\
  Limiter.started state_pending = [0] /\
  Limiter.queue state_pending = [1] /\
  forall evs s',
    Forall first_pending evs -> Limiter.run state_pending evs = Some s' ->
    Limiter.started s' = [0] /\ Limiter.returned s' !! 1 = None.
Proof.
  split; [reflexivity|]. split; [reflexivity|]. split; [reflexivity|].
  assert (forall evs (s s' : Limiter.state nat nat),
            Limiter.concurrency s = 1%Z -> Limiter.active s = 1%Z ->
            Limiter.running s = {[0]} -> Limiter.finishing s = ∅ ->
            Limiter.started s = [0] -> Limiter.returned s = ∅ ->
            Forall first_pending evs -> Limiter.run s evs = Some s' ->
            Limiter.started s' = [0] /\ Limiter.returned s' !! 1 = None)
    as Hinv.
  { induction evs as [|ev evs IH]; intros s s' Hc Ha Hr Hf Hst Hre Hall.
    - intros [= <-]. by rewrite Hst, Hre.
    - apply Forall_cons in Hall as [Hev Hall]. cbn [Limiter.run].
      destruct ev as [| |t o|t]; cbn [Limiter.step].
      + by apply IH.
      + destruct (Limiter.timers s) as [|n]; [done|].
        unfold Limiter.next. cbn [Limiter.active Limiter.concurrency].
        rewrite Ha, Hc. change (1 >=? 1)%Z with true. by apply IH.
      + destruct (decide (t ∈ Limiter.running s)) as [Hin|]; [|done].
        rewrite Hr in Hin. apply elem_of_singleton in Hin as ->.
        by destruct Hev.
      + destruct (decide (t ∈ Limiter.finishing s)) as [Hin|]; [|done].
        rewrite Hf in Hin. set_solver. }
  intros evs s'. by apply Hinv.
Qed.

(* ================================================================== *)
(** * Further properties of the helpers *)
(* ================================================================== *)

(** ** withRetry: termination and total delay *)

Section RetryMore.
Import Retry.
Local Open Scope Z_scope.
Context {V : Type}.
Implicit Types (fn : operation V) (r : run V) (e : error).

(** More iterations than needed change nothing. *)
Lemma withRetry_loop_fuel fuel : forall fn a w c sl r,
  withRetry_loop fuel fn a w c sl = Some r ->
  withRetry_loop (S fuel) fn a w c sl = Some r.
Proof.
  induction fuel as [|fuel IH]; intros fn a w c sl r; [discriminate|].
  intros H. simpl in H. change (withRetry_loop (S (S fuel)) fn a w c sl)
    with (match fn c with
          | Fulfilled v => Some (mkRun (Fulfilled v) (S c) sl)
          | Rejected err =>
              if (a + 1 >=? 5) || fatal (status_of err)
              then Some (mkRun (Rejected err) (S c) sl)
              else withRetry_loop (S fuel) fn (a + 1) (Z.min (w * 2) 5000)
                     (S c) (sl ++ [w])
          end).
  destruct (fn c) as [v|err]; [exact H|].
  destruct ((a + 1 >=? 5) || fatal (status_of err)); [exact H|].
  apply IH. exact H.
Qed.

Lemma withRetry_fuel_le fuel fuel' fn r :
  (fuel <= fuel')%nat -> withRetry fuel fn = Some r ->
  withRetry fuel' fn = Some r.
Proof.
  induction 1 as [|m _ IH]; [tauto|].
  intros H. apply withRetry_loop_fuel. apply IH. exact H.
Qed.

(** For an operation each of whose invocations settles (a promise
    that stays pending keeps [withRetry] pending: there is no
    timeout), one call of [withRetry] settles, however the invocations
    settle: five iterations of the loop are enough, and any larger
    number gives the same run.  The operation is invoked between one
    and five times, a delay is waited between two invocations and
    nowhere else, and the delays of one call add up to 7500 ms at
    most. *)
Theorem withRetry_settles_within_budget fn :
  exists r,
    (forall fuel, (5 <= fuel)%nat -> withRetry fuel fn = Some r) /\
    (1 <= invocations r <= 5)%nat /\
    length (sleeps r) = (invocations r - 1)%nat /\
    fold_right Z.add 0 (sleeps r) <= 7500.
Proof.
  destruct (withRetry_total 5 fn) as [r Hr]; [lia|].
  exists r. split.
  - intros fuel Hfuel. now apply (withRetry_fuel_le 5 fuel).
  - destruct (withRetry_char 5 fn r Hr) as (n & Hn & Hinv & Hsl & _).
    rewrite Hinv, Hsl. split; [lia|]. split.
    + rewrite length_map, length_seq. lia.
    + destruct n as [|[|[|[|[|n]]]]]; simpl; lia.
Qed.


End RetryMore.


(** ** createLimit: a ceiling without capacity, and work conservation *)

Section LimiterMore.
Import Limiter.
Local Open Scope Z_scope.
Context {V E : Type}.

Lemma starved_next n (s : state V E) :
  n <= 0 -> starved n s -> next s = s.
Proof.
  intros Hn (Hc & Ha & _). unfold next.
  destruct (active s >=? concurrency s) eqn:Hge; [reflexivity|].
  apply geb_false in Hge. lia.
Qed.

Lemma starved_step n (s : state V E) ev s' :
  n <= 0 -> starved n s -> step s ev = Some s' -> starved n s'.
Proof.
  intros Hn Hs. pose proof Hs as (Hc & Ha & Hst & Hr & Hf & Hre & Hq).
  destruct ev as [| |t o|t]; simpl.
  - intros [= <-]. unfold starved, submit.
    cbn [concurrency active started running finishing returned queue
         submitted].
    rewrite seq_S, Hq. done.
  - destruct (timers s) as [|k]; [done|]. intros [= <-].
    rewrite (starved_next n); [|done|done]. done.
  - destruct (decide (t ∈ running s)) as [Hin|]; [|done].
    rewrite Hr in Hin. set_solver.
  - destruct (decide (t ∈ finishing s)) as [Hin|]; [|done].
    rewrite Hf in Hin. set_solver.
Qed.

Lemma starved_run n evs : forall (s s' : state V E),
  n <= 0 -> starved n s -> run s evs = Some s' -> starved n s'.
Proof.
  induction evs as [|ev evs IH]; intros s s' Hn Hs; simpl.
  - by intros [= <-].
  - destruct (step s ev) as [s1|] eqn:Hstep; [|done].
    apply IH; [done|]. by eapply starved_step.
Qed.

(** A limiter created with a ceiling of 0 or less never starts a task:
    in every state it can reach no task has started, no returned promise
    is settled, and all submitted tasks are still queued, in submission
    order. *)
Theorem limiter_without_capacity_starts_nothing n (s : state V E) :
  n <= 0 -> reachable n s ->
  started s = [] /\ returned s = ∅ /\ active s = 0 /\
  queue s = seq 0 (submitted s).
Proof.
  intros Hn [evs Hrun].
  assert (starved n s) as (Hc & Ha & Hst & Hr & Hf & Hre & Hq).
  { apply (starved_run n evs (createLimit n) s); [done| |done].
    unfold starved, createLimit. simpl. done. }
  done.
Qed.

(** The limiter wastes no capacity.  In every state a limiter with
    ceiling [n >= 1] can reach, while a slot is free each queued task
    has a [next] callback of its own pending; so once the scheduled
    callbacks have all run, a task is only left waiting when all [n]
    slots are taken. *)
Theorem limiter_work_conserving n (s : state V E) :
  1 <= n -> reachable n s ->
  (active s < n -> (length (queue s) <= timers s)%nat) /\
  (timers s = 0%nat -> queue s <> [] -> active s = n).
Proof.
  intros Hn Hreach.
  assert (inv n s) as [[Hc Ha Hb Hf Hd Hr Hfi Hst Hre] Ht]
    by (apply reachable_inv; [lia|done]).
  split; [exact Ht|].
  intros H0 Hq. destruct (decide (active s < n)) as [Hlt|]; [|lia].
  apply Ht in Hlt. rewrite H0 in Hlt.
  destruct (queue s); [done|simpl in Hlt; lia].
Qed.

End LimiterMore.

Lemma limiter_without_capacity_starts_nothing_witness :
  Limiter.started state_zero_ceiling = [] /\
  Limiter.returned state_zero_ceiling = ∅ /\
  Limiter.active state_zero_ceiling = 0%Z /\
  Limiter.queue state_zero_ceiling = [0; 1].
Proof.
  apply (limiter_without_capacity_starts_nothing 0 state_zero_ceiling);
    [lia|].
  exists events_zero_ceiling. vm_compute. reflexivity.
Defined.

Lemma limiter_work_conserving_witness :
  Limiter.queue demo_state = [3] /\ Limiter.active demo_state = 3%Z.
Proof.
  split; [vm_compute; reflexivity|].
  apply (limiter_work_conserving 3 demo_state ltac:(lia) demo_reachable).
  - vm_compute. reflexivity.
  - vm_compute. discriminate.
Defined.

(** ** getAllBlocks *)

Section PaginationFacts.
Import Pagination.
Context {block : Type}.
Variable list_children :
  nat -> request -> settled (response block) Retry.error.
Variable ensureClient : settled unit Retry.error.
Implicit Types (resp : response block) (req : request) (l : listing block).

Abbreviation list_call := (Pagination.list_call list_children ensureClient).
Abbreviation getAllBlocks_loop :=
  (Pagination.getAllBlocks_loop list_children ensureClient).
Abbreviation getAllBlocks :=
  (Pagination.getAllBlocks list_children ensureClient).

(** One iteration: what the [withRetry] around the page request did. *)
Lemma page_attempts calls0 req r :
  Retry.withRetry 5 (fun k => list_call (calls0 + k) req) = Some r ->
  exists n, n <= 4 /\ Retry.invocations r = S n /\
    Retry.result r = list_call (calls0 + n) req /\
    (forall i, i < n -> exists e, list_call (calls0 + i) req = Rejected e) /\
    (forall e, Retry.result r = Rejected e ->
       n = 4 \/ Retry.fatal (Retry.status_of e) = true).
Proof.
  intros Hr.
  destruct (withRetry_char 5 _ r Hr)
    as (n & Hn & Hinv & _ & Hres & Hfails & Hlast).
  exists n. split; [exact Hn|]. split; [exact Hinv|]. split; [exact Hres|].
  split.
  - intros i Hi. destruct (Hfails i Hi) as (e & He & _). eauto.
  - intros e He. apply Hlast. congruence.
Qed.

Abbreviation answered :=
  (Pagination.answered list_children ensureClient).

Lemma cursor_before_app resps resp i :
  i <= length resps ->
  cursor_before (resps ++ [resp]) i = cursor_before resps i.
Proof.
  destruct i as [|j]; [reflexivity|]. intros Hj. simpl.
  rewrite lookup_app_l; [reflexivity|lia].
Qed.

Lemma cursor_before_last resps resp :
  cursor_before (resps ++ [resp]) (S (length resps)) = next_of resp.
Proof.
  simpl. rewrite lookup_app_r; [|lia]. by rewrite Nat.sub_diag.
Qed.

Lemma answered_snoc b reqs resps n req resp k m :
  answered b reqs resps n ->
  req = mkRequest b (cursor_before resps (length resps)) 100 ->
  list_call k req = Fulfilled resp -> k < m -> n <= m ->
  truthy (next_of resp) = true ->
  answered b (reqs ++ [req]) (resps ++ [resp]) m.
Proof.
  intros (Hlen & Hcont & Hall) Hreq Hk Hkm Hm Hnext.
  split; [rewrite !length_app; simpl; lia|].
  split; [apply Forall_app; split; [exact Hcont|by constructor]|].
  intros i req' resp' Hi Hi'.
  destruct (decide (i < length reqs)) as [Hlt|Hge].
  - rewrite lookup_app_l in Hi by lia.
    rewrite lookup_app_l in Hi' by lia.
    destruct (Hall i req' resp' Hi Hi') as (-> & k' & Hk' & Hans).
    split; [by rewrite cursor_before_app by lia|].
    exists k'. split; [lia|exact Hans].
  - assert (i = length reqs) as ->.
    { apply lookup_lt_Some in Hi. rewrite length_app in Hi. simpl in Hi. lia. }
    rewrite lookup_app_r in Hi by lia. rewrite Nat.sub_diag in Hi.
    rewrite <- Hlen in Hi'.
    rewrite lookup_app_r in Hi' by lia. rewrite Nat.sub_diag in Hi'.
    simpl in Hi, Hi'. injection Hi as <-. injection Hi' as <-.
    split.
    + rewrite <- Hlen. by rewrite cursor_before_app by lia.
    + exists k. split; [exact Hkm|exact Hk].
Qed.

(** The loop, entered after the pages [resps]: when it returns, further
    pages were listed in the same way and a last request either was
    answered by a page that asks for no further one, or was rejected. *)
Lemma getAllBlocks_loop_char fuel : forall b resps reqs n l,
  answered b reqs resps n -> length reqs <= n <= 5 * length reqs ->
  getAllBlocks_loop fuel b (concat (map results resps))
    (cursor_before resps (length resps)) reqs n = Some l ->
  exists reqs' resps' req,
    requests l = reqs' ++ [req] /\
    answered b reqs' resps' (calls l - 1) /\
    req = mkRequest b (cursor_before resps' (length resps')) 100 /\
    (length (requests l) <= calls l <= 5 * length (requests l)) /\
    match outcome l with
    | Fulfilled bs =>
        exists resp, (exists k, k < calls l /\
                        list_call k req = Fulfilled resp) /\
          truthy (next_of resp) = false /\
          bs = concat (map results (resps' ++ [resp]))
    | Rejected e =>
        list_call (calls l - 1) req = Rejected e /\
        (Retry.fatal (Retry.status_of e) = true \/
         (5 <= calls l /\
          forall j, j < 5 ->
            exists e', list_call (calls l - 5 + j) req = Rejected e'))
    end.
Proof.
  induction fuel as [|fuel IH]; intros b resps reqs n l Hans Hn;
    [discriminate|].
  cbn [Pagination.getAllBlocks_loop].
  set (req := mkRequest b (cursor_before resps (length resps)) 100).
  destruct (Retry.withRetry 5 (fun k => list_call (n + k) req))
    as [r|] eqn:Hr; [|discriminate].
  destruct (page_attempts n req r Hr) as (m & Hm & Hinv & Hres & Hfails & Hlast).
  pose proof Hans as (Hlen & Hcont & Hall).
  assert (answered b reqs resps (n + Retry.invocations r - 1)) as Hans'.
  { split; [exact Hlen|]. split; [exact Hcont|].
    intros i req' resp' Hi Hi'.
    destruct (Hall i req' resp' Hi Hi') as (-> & k & Hk & Hk').
    split; [reflexivity|]. exists k. split; [lia|exact Hk']. }
  destruct (Retry.result r) as [resp|e] eqn:Hout.
  - destruct (truthy (next_of resp)) eqn:Hnext.
    + intros Hloop.
      assert (answered b (reqs ++ [req]) (resps ++ [resp])
                (n + Retry.invocations r)) as Hsnoc.
      { apply (answered_snoc b reqs resps n req resp (n + m));
          [exact Hans|reflexivity|congruence|lia|lia|exact Hnext]. }
      apply (IH b (resps ++ [resp]) (reqs ++ [req])
               (n + Retry.invocations r) l Hsnoc);
        [rewrite length_app; simpl; lia|].
      rewrite map_app, concat_app, length_app. simpl.
      rewrite app_nil_r, Nat.add_1_r, cursor_before_last. exact Hloop.
    + intros [= <-]. simpl.
      exists reqs, resps, req. split; [reflexivity|].
      split; [exact Hans'|]. split; [reflexivity|].
      split; [rewrite length_app; simpl; lia|].
      exists resp. split; [exists (n + m); split; [lia|congruence]|].
      split; [exact Hnext|].
      rewrite map_app, concat_app. simpl. by rewrite app_nil_r.
  - intros [= <-]. simpl.
    exists reqs, resps, req. split; [reflexivity|].
    split; [exact Hans'|]. split; [reflexivity|].
    split; [rewrite length_app; simpl; lia|].
    rewrite Hinv. replace (n + S m - 1) with (n + m) by lia.
    split; [congruence|].
    destruct (Hlast e eq_refl) as [->|Hf]; [right|left; exact Hf].
    split; [lia|]. intros j Hj.
    destruct (decide (j = 4)) as [->|Hne].
    + exists e. replace (n + 5 - 5 + 4) with (n + 4) by lia. congruence.
    + destruct (Hfails j ltac:(lia)) as (e' & He'). exists e'.
      replace (n + 5 - 5 + j) with (n + j) by lia. exact He'.
Qed.

Lemma answered_nil b : answered b [] [] 0.
Proof.
  split; [reflexivity|]. split; [constructor|].
  intros i req resp Hi. by rewrite lookup_nil in Hi.
Qed.

Lemma withRetry_first_success {V} (fn : Retry.operation V) v fuel :
  fn 0 = Fulfilled v ->
  Retry.withRetry (S fuel) fn = Some (Retry.mkRun (Fulfilled v) 1 []).
Proof. intros H. unfold Retry.withRetry. simpl. by rewrite H. Qed.

Lemma list_call_client u k req :
  ensureClient = Fulfilled u -> list_call k req = list_children k req.
Proof. intros He. unfold Pagination.list_call. by rewrite He. Qed.

(** [getAllBlocks] begins with [ensureClient()]: when that throws, as
    it does in index.js, the call is rejected with its error and no
    request is made.  Otherwise, when the API answers every request,
    and the pages it serves from the first one on are [pages] and then
    [final], each page but the last asking for a further one,
    [getAllBlocks] returns: within [length pages + 1] iterations it
    fulfils with the results of all these pages, in order, after one
    call per page: the first without a cursor, each later one with the
    cursor of the page before, all with the given block id and a page
    size of 100. *)
Theorem getAllBlocks_lists_every_page fuel b
    (pages : list (response block)) (final : response block) :
  (forall i resp k, (pages ++ [final]) !! i = Some resp ->
     list_children k (mkRequest b (cursor_before (pages ++ [final]) i) 100)
       = Fulfilled resp) ->
  Forall (fun resp => truthy (next_of resp) = true) pages ->
  truthy (next_of final) = false ->
  length pages < fuel ->
  getAllBlocks fuel b =
    Some match ensureClient with
         | Rejected e => mkListing (Rejected e) [] 0
         | Fulfilled _ =>
             mkListing (Fulfilled (concat (map results (pages ++ [final]))))
               (map (fun i =>
                       mkRequest b (cursor_before (pages ++ [final]) i) 100)
                    (seq 0 (S (length pages))))
               (S (length pages))
         end.
Proof.
  intros Hserve0 Hcont Hfinal Hfuel. unfold Pagination.getAllBlocks.
  destruct ensureClient as [u|e] eqn:He; [|reflexivity]. rewrite <- He.
  assert (forall i resp k, (pages ++ [final]) !! i = Some resp ->
            list_call k (mkRequest b (cursor_before (pages ++ [final]) i) 100)
            = Fulfilled resp) as Hserve.
  { intros i resp k Hi. unfold Pagination.list_call. rewrite He.
    by apply Hserve0. }
  clear Hserve0.
  set (all := pages ++ [final]) in *.
  set (mk := fun i => mkRequest b (cursor_before all i) 100).
  assert (forall d j f, j + d = length pages -> d < f ->
            getAllBlocks_loop f b
              (concat (map results (take j all))) (cursor_before all j)
              (map mk (seq 0 j)) j =
            Some (mkListing (Fulfilled (concat (map results all)))
                    (map mk (seq 0 (S (length pages)))) (S (length pages))))
    as Hloop.
  { induction d as [|d IH]; intros j f Hj Hf;
      (destruct f as [|f]; [lia|]); cbn [Pagination.getAllBlocks_loop].
    - assert (j = length pages) as -> by lia.
      assert (all !! length pages = Some final) as Hlast.
      { unfold all. rewrite lookup_app_r by lia. by rewrite Nat.sub_diag. }
      rewrite (withRetry_first_success _ final) by (by apply Hserve).
      cbn [Retry.result Retry.invocations]. rewrite Hfinal.
      f_equal. f_equal.
      + f_equal. rewrite <- (take_ge all (S (length pages))) at 2
          by (unfold all; rewrite length_app; simpl; lia).
        rewrite (take_S_r _ _ final) by exact Hlast.
        rewrite map_app, concat_app. simpl. by rewrite app_nil_r.
      + rewrite (seq_S (length pages)), map_app. reflexivity.
      + lia.
    - assert (exists resp, pages !! j = Some resp) as [resp Hresp]
          by (apply lookup_lt_is_Some; lia).
      assert (all !! j = Some resp) as Hall
          by (unfold all; rewrite lookup_app_l by lia; exact Hresp).
      rewrite (withRetry_first_success _ resp) by (by apply Hserve).
      cbn [Retry.result Retry.invocations].
      assert (truthy (next_of resp) = true) as ->.
      { exact (Forall_lookup_1 _ _ _ _ Hcont Hresp). }
      specialize (IH (S j) f ltac:(lia) ltac:(lia)).
      rewrite (take_S_r _ _ resp), map_app, concat_app in IH by exact Hall.
      simpl concat in IH. rewrite app_nil_r in IH.
      rewrite seq_S, map_app in IH. simpl in IH.
      rewrite Hall in IH. simpl in IH.
      replace (j + 1) with (S j) by lia. exact IH. }
  apply (Hloop (length pages) 0 fuel); [reflexivity|exact Hfuel].
Qed.

(** The loop when it fulfils: the blocks it returns are the results of
    the pages the API served, in order and without gaps. *)
Lemma loop_fulfilled fuel b l bs :
  getAllBlocks_loop fuel b [] None [] 0 = Some l -> outcome l = Fulfilled bs ->
  exists resps,
    length resps = length (requests l) /\
    bs = concat (map results resps) /\
    (forall i req resp,
       requests l !! i = Some req -> resps !! i = Some resp ->
       req = mkRequest b (cursor_before resps i) 100 /\
       (exists k, k < calls l /\ list_call k req = Fulfilled resp) /\
       (truthy (next_of resp) = true <-> S i < length resps)) /\
    1 <= length (requests l) <= calls l /\
    calls l <= 5 * length (requests l).
Proof.
  intros Hrun Hout.
  destruct (getAllBlocks_loop_char fuel b [] [] 0 l (answered_nil b)
              ltac:(simpl; lia) Hrun)
    as (reqs' & resps' & req & Hreqs & (Hlen & Hcont & Hall) & Hreq & Hb & Hfin).
  rewrite Hout in Hfin. destruct Hfin as (resp & (k & Hk & Hans) & Hstop & ->).
  exists (resps' ++ [resp]). rewrite Hreqs, !length_app. simpl.
  split; [lia|]. split; [reflexivity|]. split.
  - intros i req0 resp0 Hi Hi'.
    destruct (decide (i < length reqs')) as [Hlt|Hge].
    + rewrite lookup_app_l in Hi by lia.
      rewrite lookup_app_l in Hi' by lia.
      destruct (Hall i req0 resp0 Hi Hi') as (-> & k' & Hk' & Hans').
      split; [by rewrite cursor_before_app by lia|].
      split; [exists k'; split; [lia|exact Hans']|].
      split; [lia|]. intros _.
      exact (Forall_lookup_1 _ _ _ _ Hcont Hi').
    + assert (i = length reqs') as ->.
      { apply lookup_lt_Some in Hi. rewrite length_app in Hi. simpl in Hi.
        lia. }
      rewrite lookup_app_r in Hi by lia. rewrite Nat.sub_diag in Hi.
      rewrite <- Hlen in Hi'.
      rewrite lookup_app_r in Hi' by lia. rewrite Nat.sub_diag in Hi'.
      simpl in Hi, Hi'. injection Hi as <-. injection Hi' as <-.
      split; [rewrite Hreq, <- Hlen; by rewrite cursor_before_app by lia|].
      split; [exists k; split; [exact Hk|exact Hans]|].
      rewrite Hstop. split; [discriminate|lia].
  - rewrite Hreqs, length_app in Hb. simpl in Hb. lia.
Qed.

(** The loop when it rejects: with the error of the last call. *)
Lemma loop_rejected fuel b l e :
  getAllBlocks_loop fuel b [] None [] 0 = Some l -> outcome l = Rejected e ->
  exists reqs req resps,
    requests l = reqs ++ [req] /\
    list_call (calls l - 1) req = Rejected e /\
    (Retry.fatal (Retry.status_of e) = true \/
     (5 <= calls l /\
      forall j, j < 5 ->
        exists e', list_call (calls l - 5 + j) req = Rejected e')) /\
    length resps = length reqs /\
    (forall i req' resp, reqs !! i = Some req' -> resps !! i = Some resp ->
       exists k, k < calls l - 1 /\ list_call k req' = Fulfilled resp).
Proof.
  intros Hrun Hout.
  destruct (getAllBlocks_loop_char fuel b [] [] 0 l (answered_nil b)
              ltac:(simpl; lia) Hrun)
    as (reqs' & resps' & req & Hreqs & (Hlen & Hcont & Hall) & Hreq & Hb & Hfin).
  rewrite Hout in Hfin. destruct Hfin as (Hlast & Hwhy).
  exists reqs', req, resps'. split; [exact Hreqs|]. split; [exact Hlast|].
  split; [exact Hwhy|]. split; [exact Hlen|].
  intros i req' resp Hi Hi'. by destruct (Hall i req' resp Hi Hi') as (_ & Hk).
Qed.

(** How [getAllBlocks] settles.  When it fulfils, [ensureClient]
    returned and the blocks are the results of the pages the API
    served, in order and without gaps: every request carries the given
    block id and a page size of 100, the first one no cursor and each
    later one the cursor of the page before; all pages but the last
    asked for a further one and the last did not; and the API received
    between one and five calls per page.  When it rejects, either
    [ensureClient] threw, as it does in index.js, and [getAllBlocks]
    rejects with its error without a request; or it rejects with the
    error of the last call the API received, which either failed with
    a status [withRetry] does not retry or was the fifth failure in a
    row of the same page request, every earlier request having been
    answered with a page, none of which is returned. *)
Theorem getAllBlocks_outcome fuel b l :
  getAllBlocks fuel b = Some l ->
  match outcome l with
  | Fulfilled bs =>
      ensureClient = Fulfilled tt /\
      exists resps,
        length resps = length (requests l) /\
        bs = concat (map results resps) /\
        (forall i req resp,
           requests l !! i = Some req -> resps !! i = Some resp ->
           req = mkRequest b (cursor_before resps i) 100 /\
           (exists k, k < calls l /\ list_children k req = Fulfilled resp) /\
           (truthy (next_of resp) = true <-> S i < length resps)) /\
        1 <= length (requests l) <= calls l /\
        calls l <= 5 * length (requests l)
  | Rejected e =>
      (ensureClient = Rejected e /\ requests l = [] /\ calls l = 0) \/
      (ensureClient = Fulfilled tt /\
       exists reqs req resps,
         requests l = reqs ++ [req] /\
         list_children (calls l - 1) req = Rejected e /\
         (Retry.fatal (Retry.status_of e) = true \/
          (5 <= calls l /\
           forall j, j < 5 ->
             exists e', list_children (calls l - 5 + j) req = Rejected e')) /\
         length resps = length reqs /\
         (forall i req' resp,
            reqs !! i = Some req' -> resps !! i = Some resp ->
            exists k, k < calls l - 1 /\
              list_children k req' = Fulfilled resp))
  end.
Proof.
  unfold Pagination.getAllBlocks.
  destruct ensureClient as [[]|e0] eqn:He.
  2:{ intros [= <-]. simpl. left. done. }
  rewrite <- He. intros Hrun.
  assert (forall k req, list_call k req = list_children k req) as Hcall
    by (intros k req; by apply (list_call_client tt)).
  destruct (outcome l) as [bs|e] eqn:Hout.
  - split; [done|].
    destruct (loop_fulfilled fuel b l bs Hrun Hout)
      as (resps & Hlen & Hbs & Hreqs & Hn).
    exists resps. split; [done|]. split; [done|]. split; [|done].
    intros i req resp Hi Hi'.
    destruct (Hreqs i req resp Hi Hi') as (Hreq & (k & Hk & Hans) & Hmore).
    split; [done|]. split; [|done]. exists k. by rewrite <- Hcall.
  - right. split; [done|].
    destruct (loop_rejected fuel b l e Hrun Hout)
      as (reqs & req & resps & Hreqs & Hlast & Hwhy & Hlen & Hall).
    exists reqs, req, resps. split; [done|].
    split; [by rewrite <- Hcall|]. split.
    + destruct Hwhy as [Hf|[H5 Hfails]]; [by left|right].
      split; [done|]. intros j Hj. destruct (Hfails j Hj) as [e' He'].
      exists e'. by rewrite <- Hcall.
    + split; [done|]. intros i req' resp Hi Hi'.
      destruct (Hall i req' resp Hi Hi') as (k & Hk & Hans).
      exists k. by rewrite <- Hcall.
Qed.

(** [getAllBlocks] has no guard against a listing that never ends: when
    every answer of the API asks for a further page, then, unless
    [ensureClient] throws and ends the call at once, no number of
    iterations makes it return. *)
Theorem getAllBlocks_endless_listing_never_returns :
  (forall k req, exists resp,
     list_children k req = Fulfilled resp /\ truthy (next_of resp) = true) ->
  forall fuel b,
    getAllBlocks fuel b =
      match ensureClient with
      | Rejected e => Some (mkListing (Rejected e) [] 0)
      | Fulfilled _ => None
      end.
Proof.
  intros Hmore fuel b. unfold Pagination.getAllBlocks.
  destruct ensureClient as [u|e] eqn:He; [|reflexivity]. rewrite <- He.
  generalize (@nil block) (@None string) (@nil request) 0.
  induction fuel as [|fuel IH]; intros res c reqs n; [reflexivity|].
  cbn [Pagination.getAllBlocks_loop].
  destruct (Hmore (n + 0) (mkRequest b c 100)) as (resp & Hresp & Hnext).
  rewrite (withRetry_first_success _ resp)
    by (by rewrite (list_call_client u)).
  cbn [Retry.result Retry.invocations]. rewrite Hnext. apply IH.
Qed.

End PaginationFacts.

Lemma getAllBlocks_lists_every_page_witness :
  Pagination.getAllBlocks demo_list_children script_list_client 2 "page"%string
  = Some (Pagination.mkListing (Rejected reference_error) [] 0) /\
  Pagination.getAllBlocks demo_list_children (Fulfilled tt) 2 "page"%string
  = Some (Pagination.mkListing (Fulfilled [1; 2; 3]) demo_requests 2).
Proof.
  assert (forall i resp k, ([demo_page_1] ++ [demo_page_2]) !! i = Some resp ->
            demo_list_children k
              (Pagination.mkRequest "page"%string
                 (Pagination.cursor_before ([demo_page_1] ++ [demo_page_2]) i)
                 100)
            = Fulfilled resp) as Hserve.
  { intros i resp k. destruct i as [|[|i]]; simpl; intros [= <-]; reflexivity. }
  split.
  - apply (getAllBlocks_lists_every_page demo_list_children script_list_client
             2 "page"%string [demo_page_1] demo_page_2 Hserve).
    + repeat constructor.
    + reflexivity.
    + simpl. lia.
  - apply (getAllBlocks_lists_every_page demo_list_children (Fulfilled tt)
             2 "page"%string [demo_page_1] demo_page_2 Hserve).
    + repeat constructor.
    + reflexivity.
    + simpl. lia.
Defined.

Lemma getAllBlocks_outcome_witness :
  (script_list_client = Rejected reference_error \/
   script_list_client = Fulfilled tt) /\
  exists reqs req (resps : list (Pagination.response nat)),
    demo_requests = reqs ++ [req] /\
    failing_list_children 1 req =
      Rejected (Retry.mkError 1 (Some 404%Z) None) /\
    length resps = length reqs.
Proof.
  split.
  - destruct (getAllBlocks_outcome demo_list_children script_list_client 3
                "page"%string
                (Pagination.mkListing (Rejected reference_error) [] 0)
                eq_refl) as [(H & _)|(H & _)]; [by left|by right].
  - destruct (getAllBlocks_outcome failing_list_children (Fulfilled tt) 3
                "page"%string
                (Pagination.mkListing
                   (Rejected (Retry.mkError 1 (Some 404%Z) None))
                   demo_requests 2)
                eq_refl)
      as [(H & _)|(_ & reqs & req & resps & H1 & H2 & _ & H3 & _)];
      [discriminate|].
    exists reqs, req, resps. split; [exact H1|]. split; [exact H2|exact H3].
Defined.

Lemma getAllBlocks_endless_listing_never_returns_witness :
  Pagination.getAllBlocks endless_list_children script_list_client 1000
    "page"%string
  = Some (Pagination.mkListing (Rejected reference_error) [] 0) /\
  Pagination.getAllBlocks endless_list_children (Fulfilled tt) 1000
    "page"%string = None.
Proof.
  split.
  - apply (getAllBlocks_endless_listing_never_returns endless_list_children
             script_list_client).
    intros k req. eexists. split; reflexivity.
  - apply (getAllBlocks_endless_listing_never_returns endless_list_children
             (Fulfilled tt)).
    intros k req. eexists. split; reflexivity.
Defined.

(** ** Documents *)

Section JsFacts.
Import Js.
Local Open Scope string_scope.
Implicit Types (v : value) (k name : string) (ps : list (string * value)).

Lemma lookup_insert_eq k v ps :
  lookup k ps = None -> lookup k (insert k v ps) = Some v.
Proof.
  induction ps as [|[k' v'] ps IH]; simpl.
  - intros _. by rewrite String.eqb_refl.
  - destruct (String.eqb_spec k k') as [->|Hne]; [discriminate|]. intros H.
    destruct (precedes k k'); simpl.
    + by rewrite String.eqb_refl.
    + destruct (String.eqb_spec k k'); [done|]. by apply IH.
Qed.

Lemma lookup_insert_ne k k0 v ps :
  k0 <> k -> lookup k0 (insert k v ps) = lookup k0 ps.
Proof.
  intros Hne. induction ps as [|[k' v'] ps IH]; simpl.
  - by destruct (String.eqb_spec k0 k).
  - destruct (precedes k k'); simpl.
    + by destruct (String.eqb_spec k0 k).
    + by rewrite IH.
Qed.

Lemma lookup_replace_eq k v ps :
  is_Some (lookup k ps) -> lookup k (replace k v ps) = Some v.
Proof.
  induction ps as [|[k' v'] ps IH]; simpl; [by intros [? ?]|].
  destruct (String.eqb_spec k k') as [->|Hne]; simpl.
  - by rewrite String.eqb_refl.
  - destruct (String.eqb_spec k k'); [done|]. exact IH.
Qed.

Lemma lookup_replace_ne k k0 v ps :
  k0 <> k -> lookup k0 (replace k v ps) = lookup k0 ps.
Proof.
  intros Hne. induction ps as [|[k' v'] ps IH]; simpl; [done|].
  destruct (String.eqb_spec k k') as [->|Hne']; simpl.
  - by destruct (String.eqb_spec k0 k').
  - by rewrite IH.
Qed.

Lemma lookup_define_eq k v ps : lookup k (define ps k v) = Some v.
Proof.
  unfold define. destruct (lookup k ps) eqn:H.
  - apply lookup_replace_eq. by rewrite H.
  - by apply lookup_insert_eq.
Qed.

Lemma lookup_define_ne k k0 v ps :
  k0 <> k -> lookup k0 (define ps k v) = lookup k0 ps.
Proof.
  intros Hne. unfold define. destruct (lookup k ps).
  - by apply lookup_replace_ne.
  - by apply lookup_insert_ne.
Qed.

Lemma assign_ok k v ps :
  k <> "__proto__" -> assign ps k v = Ok (define ps k v).
Proof.
  intros Hne. unfold assign.
  by destruct (String.eqb_spec k "__proto__").
Qed.

Lemma assign_Ok ps k v ps' : assign ps k v = Ok ps' -> ps' = define ps k v.
Proof.
  unfold assign.
  destruct (String.eqb k "__proto__" &&
            negb (bool_decide (is_Some (lookup k ps)))); [done|].
  by intros [= <-].
Qed.

Lemma lookup_app k ps1 ps2 :
  lookup k (ps1 ++ ps2)%list =
    match lookup k ps1 with Some v => Some v | None => lookup k ps2 end.
Proof.
  induction ps1 as [|[k' v'] ps1 IH]; simpl; [done|].
  by destruct (String.eqb k k').
Qed.

Lemma get_own ps k v : lookup k ps = Some v -> get (VObj ps) k = Ok v.
Proof. intros H. simpl. by rewrite H. Qed.

Lemma lookup_In k v ps : lookup k ps = Some v -> In (k, v) ps.
Proof.
  induction ps as [|[k' v'] ps IH]; simpl; [done|].
  destruct (String.eqb_spec k k') as [->|Hne].
  - intros [= ->]. by left.
  - intros H. right. by apply IH.
Qed.

Lemma lookup_None_keys k ps : lookup k ps = None <-> ~ In k (map fst ps).
Proof.
  induction ps as [|[k' v'] ps IH]; simpl; [tauto|].
  destruct (String.eqb_spec k k') as [->|Hne].
  - split; [done|]. intros H. exfalso. apply H. by left.
  - rewrite IH. split; [intros H [Heq|Hin]; [congruence|tauto]|tauto].
Qed.

Lemma In_lookup k v ps :
  NoDup (map fst ps) -> In (k, v) ps -> lookup k ps = Some v.
Proof.
  induction ps as [|[k' v'] ps IH]; simpl; [done|].
  intros Hnd. apply NoDup_cons in Hnd as [Hk' Hnd].
  intros [[= -> ->]|Hin].
  - by rewrite String.eqb_refl.
  - destruct (String.eqb_spec k k') as [->|Hne]; [|by apply IH].
    exfalso. apply Hk'. apply list_elem_of_In.
    change k' with (fst (k', v)). by apply in_map.
Qed.

(** A loop whose body keeps [I] keeps it. *)
Lemma foldM_inv {A B} (f : A -> B -> res A) (I : list B -> A -> Prop) xs :
  forall done a r,
    I done a ->
    (forall done x a a', I done a -> f a x = Ok a' ->
       I (done ++ [x])%list a') ->
    foldM f xs a = Ok r -> I (done ++ xs)%list r.
Proof.
  induction xs as [|x xs IH]; intros done a r HI Hstep; simpl.
  - intros [= <-]. by rewrite app_nil_r.
  - destruct (f a x) as [a'| |] eqn:Hf; simpl; [|done|done].
    intros Hr. rewrite (app_assoc done [x] xs : (done ++ x :: xs = (done ++ [x]) ++ xs)%list).
    eapply IH; [|exact Hstep|exact Hr]. by eapply Hstep.
Qed.

Lemma mapM_Forall2 {A B} (f : A -> res B) xs : forall ys,
  mapM f xs = Ok ys -> Forall2 (fun x y => f x = Ok y) xs ys.
Proof.
  induction xs as [|x xs IH]; simpl; intros ys.
  - intros [= <-]. constructor.
  - destruct (f x) as [y| |] eqn:Hf; simpl; [|done|done].
    destruct (mapM f xs) as [ys'| |]; simpl; [|done|done].
    intros [= <-]. constructor; [done|]. by apply IH.
Qed.

Lemma foldM_total {A B} (f : A -> B -> res A) (I : A -> Prop) xs : forall a,
  I a ->
  (forall a x, I a -> In x xs -> exists a', f a x = Ok a' /\ I a') ->
  exists r, foldM f xs a = Ok r /\ I r.
Proof.
  induction xs as [|x xs IH]; intros a Ha Hstep; simpl; [by exists a|].
  destruct (Hstep a x Ha ltac:(by left)) as (a' & -> & Ha'). simpl.
  apply IH; [exact Ha'|]. intros a0 x0 Ha0 Hin. apply Hstep; [done|by right].
Qed.

Lemma mapM_total {A B} (f : A -> res B) xs :
  Forall (fun x => exists y, f x = Ok y) xs -> exists ys, mapM f xs = Ok ys.
Proof.
  induction 1 as [|x xs [y Hy] _ [ys IH]]; simpl; [by exists []|].
  rewrite Hy, IH. simpl. by eexists.
Qed.

(** The member [k] of [Object.fromEntries(pairs)] is the value of the
    last pair with that key. *)
Lemma lookup_fold_define k pairs : forall acc,
  lookup k (fold_left (fun o kv => define o (fst kv) (snd kv)) pairs acc) =
    match lookup k (rev pairs) with
    | Some v => Some v
    | None => lookup k acc
    end.
Proof.
  induction pairs as [|[k0 v0] pairs IH]; intros acc; simpl; [done|].
  rewrite IH, lookup_app. destruct (lookup k (rev pairs)); [done|].
  simpl. destruct (String.eqb_spec k k0) as [->|Hne].
  - apply lookup_define_eq.
  - by apply lookup_define_ne.
Qed.

End JsFacts.

(** ** transformPropertiesToCreate *)

Section TransformFacts.
Import Js Schema.
Local Open Scope string_scope.
Implicit Types (v prop : value) (k name key : string)
  (ps out : list (string * value)).

Lemma array_map_Ok f v r :
  array_map f v = Ok r ->
  exists items items', v = VArr items /\ mapM f items = Ok items' /\
    r = VArr items'.
Proof.
  destruct v as [| | | | | |items|ps]; simpl; try done.
  - destruct (mapM f items) as [items'| |] eqn:Hm; simpl; [|done|done].
    intros [= <-]. by exists items, items'.
  - by destruct (lookup "map" ps) as [[]|].
Qed.

Lemma option_name_color_Ok o m :
  option_name_color o = Ok m ->
  exists n c, get o "name" = Ok n /\ get o "color" = Ok c /\
    m = VObj [("name", n); ("color", c)].
Proof.
  unfold option_name_color.
  destruct (get o "name") as [n| |]; simpl; [|done|done].
  destruct (get o "color") as [c| |]; simpl; [|done|done].
  intros [= <-]. by exists n, c.
Qed.

(** What one of the three conditional copies does to [out[name]]. *)
Lemma copy_options_spec key type prop name out e out' :
  lookup name out = Some (VObj e) ->
  copy_options key type prop name out = Ok out' ->
  (out' = out /\
   (type = VStr key ->
    exists cfg o, get prop key = Ok cfg /\ get_opt cfg "options" = Ok o /\
      truthy o = false)) \/
  (type = VStr key /\
   exists cfg opts mapped,
     get prop key = Ok cfg /\ get_opt cfg "options" = Ok (VArr opts) /\
     mapM option_name_color opts = Ok mapped /\
     out' = replace name
              (VObj (define e key (VObj [("options", VArr mapped)]))) out).
Proof.
  intros Hname. unfold copy_options.
  destruct (is_str type key) eqn:Htype.
  - assert (type = VStr key) as ->.
    { destruct type; try discriminate. simpl in Htype.
      by apply String.eqb_eq in Htype as ->. }
    destruct (get prop key) as [cfg| |] eqn:Hcfg; simpl; [|done|done].
    destruct (get_opt cfg "options") as [o| |] eqn:Ho; simpl; [|done|done].
    destruct (truthy o) eqn:Ht.
    + destruct (array_map option_name_color o) as [r| |] eqn:Hmap; simpl;
        [|done|done].
      apply array_map_Ok in Hmap as (opts & mapped & -> & Hm & ->).
      unfold set_member. rewrite (get_own _ _ _ Hname). simpl.
      destruct (assign e key (VObj [("options", VArr mapped)])) as [e'| |]
        eqn:He'; simpl; [|done|done].
      apply assign_Ok in He' as ->. intros [= <-].
      right. split; [done|]. by exists cfg, opts, mapped.
    + intros [= <-]. left. split; [done|]. intros _. by exists cfg, o.
  - intros [= <-]. left. split; [done|]. intros ->.
    simpl in Htype. by rewrite String.eqb_refl in Htype.
Qed.

Lemma mapped_options opts mapped :
  mapM option_name_color opts = Ok mapped ->
  Forall2 (fun o m => exists n c,
             get o "name" = Ok n /\ get o "color" = Ok c /\
             m = VObj [("name", n); ("color", c)]) opts mapped.
Proof.
  intros H. apply mapM_Forall2 in H.
  induction H as [|o m opts mapped Hom _ IH]; constructor; [|exact IH].
  by apply option_name_color_Ok.
Qed.

Lemma transform_property_spec out name prop out' :
  transform_property out (name, prop) = Ok out' ->
  (exists v, created_from prop v /\ lookup name out' = Some v) /\
  (forall k, k <> name -> lookup k out' = lookup k out).
Proof.
  unfold transform_property.
  destruct (get prop "type") as [type| |] eqn:Htype; simpl; [|done|done].
  destruct (assign out name (VObj [("type", type)])) as [out0| |] eqn:Hout0;
    simpl; [|done|done].
  apply assign_Ok in Hout0. subst out0.
  set (out0 := define out name (VObj [("type", type)])).
  assert (lookup name out0 = Some (VObj [("type", type)])) as H0
    by apply lookup_define_eq.
  assert (forall k, k <> name -> lookup k out0 = lookup k out) as H0'
    by (intros k Hk; by apply lookup_define_ne).
  destruct (copy_options "select" type prop name out0) as [out1| |] eqn:H1;
    simpl; [|done|done].
  destruct (copy_options "multi_select" type prop name out1) as [out2| |]
    eqn:H2; simpl; [|done|done].
  intros H3.
  apply (copy_options_spec "select" _ _ _ _ _ _ H0) in H1.
  destruct H1 as [[-> Hno1]|(-> & cfg & opts & mapped & Hc & Ho & Hm & ->)].
  - apply (copy_options_spec "multi_select" _ _ _ _ _ _ H0) in H2.
    destruct H2 as [[-> Hno2]|(-> & cfg & opts & mapped & Hc & Ho & Hm & ->)].
    + apply (copy_options_spec "status" _ _ _ _ _ _ H0) in H3.
      destruct H3 as [[-> Hno3]|(-> & cfg & opts & mapped & Hc & Ho & Hm & ->)].
      * split; [|exact H0'].
        exists (VObj [("type", type)]). split; [|exact H0].
        exists type. split; [exact Htype|]. left. split; [done|].
        intros key [<-|[<-|[<-|[]]]]; auto.
      * split.
        -- eexists. split; [|apply lookup_replace_eq; by rewrite H0].
           exists (VStr "status"). split; [exact Htype|]. right.
           exists "status", cfg, opts, mapped.
           split; [simpl; tauto|]. split; [done|]. split; [done|].
           split; [done|]. split; [by apply mapped_options|done].
        -- intros k Hk. rewrite lookup_replace_ne by done. by apply H0'.
    + assert (lookup name
                (replace name
                   (VObj (define [("type", VStr "multi_select")] "multi_select"
                            (VObj [("options", VArr mapped)]))) out0)
              = Some (VObj (define [("type", VStr "multi_select")]
                              "multi_select"
                              (VObj [("options", VArr mapped)])))) as H0''
        by (apply lookup_replace_eq; by rewrite H0).
      apply (copy_options_spec "status" _ _ _ _ _ _ H0'') in H3.
      destruct H3 as [[-> Hno3]|(Hbad & _)]; [|discriminate].
      split.
      * eexists. split; [|exact H0''].
        exists (VStr "multi_select"). split; [exact Htype|]. right.
        exists "multi_select", cfg, opts, mapped.
        split; [simpl; tauto|]. split; [done|]. split; [done|].
        split; [done|]. split; [by apply mapped_options|done].
      * intros k Hk. rewrite lookup_replace_ne by done. by apply H0'.
  - assert (lookup name
              (replace name
                 (VObj (define [("type", VStr "select")] "select"
                          (VObj [("options", VArr mapped)]))) out0)
            = Some (VObj (define [("type", VStr "select")] "select"
                            (VObj [("options", VArr mapped)])))) as H0''
      by (apply lookup_replace_eq; by rewrite H0).
    apply (copy_options_spec "multi_select" _ _ _ _ _ _ H0'') in H2.
    destruct H2 as [[-> Hno2]|(Hbad & _)]; [|discriminate].
    apply (copy_options_spec "status" _ _ _ _ _ _ H0'') in H3.
    destruct H3 as [[-> Hno3]|(Hbad & _)]; [|discriminate].
    split.
    + eexists. split; [|exact H0''].
      exists (VStr "select"). split; [exact Htype|]. right.
      exists "select", cfg, opts, mapped.
      split; [simpl; tauto|]. split; [done|]. split; [done|].
      split; [done|]. split; [by apply mapped_options|done].
    + intros k Hk. rewrite lookup_replace_ne by done. by apply H0'.
Qed.

(** Given properties none of which is named [__proto__] (an
    assignment to that name sets the prototype and adds no member), the
    object returned has the names of the properties it was given and no
    other; under each name stands the [type] of the property and, for a
    [select], [multi_select] or [status] with options, these options
    reduced to their [name] and [color].  Everything else a property
    holds (its id, a number format, the target of a relation, a
    formula) is left out. *)
Theorem transformPropertiesToCreate_keeps_type_and_options ps r :
  NoDup (map fst ps) ->
  lookup "__proto__" ps = None ->
  transformPropertiesToCreate (VObj ps) = Ok r ->
  exists out, r = VObj out /\
    (forall name, lookup name ps = None -> lookup name out = None) /\
    (forall name prop, lookup name ps = Some prop ->
       exists v, lookup name out = Some v /\ created_from prop v).
Proof.
  intros Hnd _. unfold transformPropertiesToCreate. simpl.
  destruct (foldM transform_property ps []) as [out| |] eqn:Hfold; simpl;
    [|done|done].
  intros [= <-]. exists out. split; [done|].
  set (I := fun (done : list (string * value)) (o : list (string * value)) =>
              NoDup (map fst done) ->
              (forall name, lookup name done = None -> lookup name o = None) /\
              (forall name prop, lookup name done = Some prop ->
                 exists v, lookup name o = Some v /\ created_from prop v)).
  assert (I ([] ++ ps)%list out) as HI.
  { apply (foldM_inv transform_property I ps [] [] out); [| |exact Hfold].
    - intros _. split; [done|]. intros name prop; simpl; done.
    - intros done [name prop] a a' Ha Hstep Hnd'.
      rewrite map_app in Hnd'. apply NoDup_app in Hnd' as (Hnd1 & Hfresh & _).
      destruct (Ha Hnd1) as [Hnone Hsome].
      apply transform_property_spec in Hstep as [(v & Hv & Hlook) Hother].
      assert (lookup name done = None) as Hnew.
      { apply lookup_None_keys. intros Hin.
        apply (Hfresh name); [by apply list_elem_of_In|]. simpl. set_solver. }
      split.
      + intros k. rewrite lookup_app. destruct (lookup k done) eqn:Hk; [done|].
        simpl. destruct (String.eqb_spec k name) as [->|Hkn]; [done|].
        intros _. rewrite Hother by done. by apply Hnone.
      + intros k p. rewrite lookup_app. destruct (lookup k done) eqn:Hk.
        * intros [= <-]. assert (k <> name) by congruence.
          rewrite Hother by done. by apply Hsome.
        * simpl. destruct (String.eqb_spec k name) as [->|Hkn]; [|done].
          intros [= <-]. by exists v. }
  by apply HI.
Qed.

Lemma copy_options_total key prop t name out e :
  database_property prop -> get prop "type" = Ok (VStr t) ->
  In key ["select"; "multi_select"; "status"] ->
  lookup name out = Some (VObj e) ->
  exists out' e', copy_options key (VStr t) prop name out = Ok out' /\
    lookup name out' = Some (VObj e').
Proof.
  intros (ps & t' & -> & Ht' & Hopts) Ht Hkey Hname.
  simpl in Ht. rewrite Ht' in Ht. injection Ht as ->.
  unfold copy_options. cbn [is_str].
  destruct (String.eqb_spec t key) as [->|Hne]; [|by exists out, e].
  destruct (Hopts Hkey) as (cfg & opts & Hcfg & Hoptions & Hobj).
  rewrite (get_own _ _ _ Hcfg). cbn [bind].
  assert (get_opt (VObj cfg) "options" = Ok (VArr opts)) as ->
    by (unfold get_opt; cbn [nullish]; by apply get_own).
  cbn [bind truthy array_map].
  destruct (mapM_total option_name_color opts) as [mapped Hm].
  { eapply Forall_impl; [exact Hobj|]. intros o (os & ->).
    unfold option_name_color. cbn [get].
    destruct (lookup "name" os), (lookup "color" os); cbn; by eexists. }
  rewrite Hm. cbn [bind ret]. unfold set_member.
  rewrite (get_own _ _ _ Hname). cbn [bind].
  rewrite assign_ok
    by (intros ->; destruct Hkey as [|[|[|[]]]]; discriminate).
  cbn [bind ret]. eexists _, _. split; [reflexivity|].
  apply lookup_replace_eq. by rewrite Hname.
Qed.

(** On the properties of a database as the API returns them, none of
    them named [__proto__], [transformPropertiesToCreate] returns an
    object: it does not throw. *)
Theorem transformPropertiesToCreate_accepts_api_properties ps :
  lookup "__proto__" ps = None ->
  Forall (fun kv => database_property (snd kv)) ps ->
  exists out, transformPropertiesToCreate (VObj ps) = Ok (VObj out).
Proof.
  intros Hproto Hall. unfold transformPropertiesToCreate. simpl.
  destruct (foldM_total transform_property (fun _ => True) ps [] I)
    as (out & -> & _); [|by exists out].
  intros a [name prop] _ Hin.
  assert (name <> "__proto__") as Hname.
  { intros ->. apply lookup_None_keys in Hproto. apply Hproto.
    change "__proto__" with (fst ("__proto__", prop)). by apply in_map. }
  assert (database_property prop) as Hprop.
  { rewrite Forall_forall in Hall. by apply (Hall (name, prop)), list_elem_of_In. }
  pose proof Hprop as (pp & t & -> & Ht & _).
  unfold transform_property.
  assert (get (VObj pp) "type" = Ok (VStr t)) as Hget by (by apply get_own).
  rewrite Hget. simpl. rewrite assign_ok by exact Hname. simpl.
  destruct (copy_options_total "select" (VObj pp) t name
              (define a name (VObj [("type", VStr t)])) _ Hprop Hget
              ltac:(simpl; tauto) (lookup_define_eq _ _ _))
    as (out1 & e1 & -> & H1).
  simpl.
  destruct (copy_options_total "multi_select" (VObj pp) t name out1 _ Hprop
              Hget ltac:(simpl; tauto) H1) as (out2 & e2 & -> & H2).
  simpl.
  destruct (copy_options_total "status" (VObj pp) t name out2 _ Hprop
              Hget ltac:(simpl; tauto) H2) as (out3 & e3 & -> & H3).
  by exists out3.
Qed.

End TransformFacts.

(** ** buildDbProperties *)

Section BuildFacts.
Import Js Schema.
Local Open Scope string_scope.
Implicit Types (v def t : value) (k name key : string)
  (ps out : list (string * value)).

Lemma existsb_is_str t l :
  existsb (is_str t) l = true -> exists key, t = VStr key /\ In key l.
Proof.
  intros H. apply existsb_exists in H as (key & Hin & Hkey).
  destruct t; try discriminate. simpl in Hkey.
  apply String.eqb_eq in Hkey as ->. by exists key.
Qed.

Lemma existsb_is_str_false key l :
  existsb (is_str (VStr key)) l = false -> ~ In key l.
Proof.
  intros H Hin. assert (existsb (is_str (VStr key)) l = true) as Ht.
  { apply existsb_exists. exists key. split; [done|]. simpl.
    apply String.eqb_refl. }
  congruence.
Qed.

Lemma option_of_blueprint_Ok o m :
  option_of_blueprint o = Ok m ->
  exists n c, m = VObj [("name", n); ("color", c)] /\ truthy c = true.
Proof.
  unfold option_of_blueprint.
  destruct (get o "name") as [n| |]; cbn [bind]; [|done|done].
  destruct (get o "color") as [c| |]; cbn [bind ret]; [|done|done].
  intros [= <-]. eexists _, _. split; [reflexivity|].
  unfold or_else. by destruct (truthy c) eqn:Hc.
Qed.

Lemma options_property_Ok key def p :
  options_property key def = Ok p ->
  exists mapped, p = VObj [(key, VObj [("options", VArr mapped)])] /\
    Forall (fun m => exists n c,
              m = VObj [("name", n); ("color", c)] /\ truthy c = true) mapped.
Proof.
  unfold options_property.
  destruct (get_opt def key) as [cfg| |]; cbn [bind]; [|done|done].
  destruct (get_opt cfg "options") as [o| |]; cbn [bind]; [|done|done].
  destruct (array_map option_of_blueprint (or_else o (VArr []))) as [r| |]
    eqn:Hmap; cbn [bind ret]; [|done|done].
  apply array_map_Ok in Hmap as (opts & mapped & _ & Hm & ->).
  intros [= <-]. exists mapped. split; [done|].
  apply mapM_Forall2 in Hm. clear -Hm.
  induction Hm as [|x y xs ys Hxy _ IH]; constructor; [|exact IH].
  by apply option_of_blueprint_Ok in Hxy.
Qed.

(** One iteration either leaves [out] as it is or defines [out[name]]. *)
Lemma build_property_spec aliasToId out name def out' :
  build_property aliasToId out (name, def) = Ok out' ->
  (out' = out /\ dropped aliasToId def) \/
  (exists v, out' = define out name v /\ written aliasToId def v).
Proof.
  unfold build_property.
  destruct (get_opt def "type") as [t| |] eqn:Ht; cbn [bind]; [|done|done].
  destruct (truthy t) eqn:Htruthy; cbn [negb];
    [|intros [= <-]; left; split; [done|]; exists t; auto].
  destruct (existsb (is_str t) plain_types) eqn:Hplain.
  { apply existsb_is_str in Hplain as (key & -> & Hkey).
    intros H. apply assign_Ok in H as ->. right.
    eexists. split; [reflexivity|]. exists key, (VObj []).
    split; [done|]. split; [done|]. left. done. }
  destruct (existsb (is_str t) option_types) eqn:Hopt.
  { apply existsb_is_str in Hopt as (key & -> & Hkey).
    destruct (options_property key def) as [p| |] eqn:Hp; cbn [bind];
      [|done|done].
    intros H. apply assign_Ok in H as ->. right.
    apply options_property_Ok in Hp as (mapped & -> & Hmapped).
    eexists. split; [reflexivity|]. eexists key, _.
    split; [done|]. split; [done|]. right. left. split; [done|].
    by exists mapped. }
  destruct (is_str t "relation") eqn:Hrel.
  { assert (t = VStr "relation") as ->.
    { destruct t; try discriminate. simpl in Hrel.
      by apply String.eqb_eq in Hrel as ->. }
    destruct (relation_target aliasToId def) as [dbId| |] eqn:Hdb; cbn [bind];
      [|done|done].
    destruct (truthy dbId) eqn:Hid; cbn [negb].
    - intros H. apply assign_Ok in H as ->. right.
      eexists. split; [reflexivity|]. eexists "relation", _.
      split; [done|]. split; [done|]. right. right. split; [done|].
      by exists dbId.
    - intros [= <-]. left. split; [done|]. exists (VStr "relation").
      split; [done|]. right. right. split; [done|]. by exists dbId. }
  intros [= <-]. left. split; [done|]. exists t. split; [done|].
  right. left. intros key Hkey ->.
  unfold supported_types in Hkey. apply in_app_or in Hkey as [Hkey|Hkey].
  - by apply existsb_is_str_false in Hplain.
  - apply in_app_or in Hkey as [Hkey|[<-|[]]].
    + by apply existsb_is_str_false in Hopt.
    + discriminate.
Qed.

Lemma build_fold aliasToId ps out :
  foldM (build_property aliasToId) ps [] = Ok out ->
  (forall name v, lookup name out = Some v ->
     exists def, In (name, def) ps /\ written aliasToId def v) /\
  (forall name def, In (name, def) ps -> lookup name out = None ->
     dropped aliasToId def).
Proof.
  intros Hfold.
  set (I := fun (done : list (string * value)) (o : list (string * value)) =>
              (forall name v, lookup name o = Some v ->
                 exists def, In (name, def) done /\ written aliasToId def v) /\
              (forall name def, In (name, def) done ->
                 lookup name o = None -> dropped aliasToId def)).
  apply (foldM_inv (build_property aliasToId) I ps [] [] out);
    [| |exact Hfold].
  - split; [intros name v; simpl; done|intros name def []].
  - intros done [name def] a a' [Hw Hd] Hstep.
    apply build_property_spec in Hstep
      as [[-> Hdrop]|(v & -> & Hwritten)]; split.
    + intros n v Hn. destruct (Hw n v Hn) as (d & Hin & Hd').
      exists d. split; [apply in_or_app; by left|done].
    + intros n d Hin Hn. apply in_app_or in Hin as [Hin|[[= -> ->]|[]]].
      * by apply (Hd n d).
      * done.
    + intros n v' Hn. destruct (String.eqb_spec n name) as [->|Hne].
      * rewrite lookup_define_eq in Hn. injection Hn as <-.
        exists def. split; [apply in_or_app; right; by left|done].
      * rewrite lookup_define_ne in Hn by done.
        destruct (Hw n v' Hn) as (d & Hin & Hd').
        exists d. split; [apply in_or_app; by left|done].
    + intros n d Hin Hn. apply in_app_or in Hin as [Hin|[[= -> ->]|[]]].
      * destruct (String.eqb_spec n name) as [->|Hne].
        -- by rewrite lookup_define_eq in Hn.
        -- rewrite lookup_define_ne in Hn by done. by apply (Hd n d).
      * by rewrite lookup_define_eq in Hn.
Qed.

Lemma buildDbProperties_Ok ps aliasToId r :
  buildDbProperties (VObj ps) aliasToId = Ok r ->
  exists out, r = VObj out /\
    foldM (build_property (default_object aliasToId)) ps [] = Ok out.
Proof.
  unfold buildDbProperties. cbn [default_object entries bind ret].
  destruct (foldM (build_property (default_object aliasToId)) ps [])
    as [out| |] eqn:Hfold; cbn [bind ret]; [|done|done].
  intros [= <-]. by exists out.
Qed.

(** Every property [buildDbProperties] writes stems from an entry of
    the schema with that name and consists of a single member, named by
    the type of the entry, which is one of the ten types the function
    knows: an empty object for the six plain types, the options with
    their [name] and a [color] that is never falsy for the three types
    with options, and for a relation the database its alias resolves
    to, which is never falsy. *)
Theorem buildDbProperties_writes_known_types ps aliasToId r :
  buildDbProperties (VObj ps) aliasToId = Ok r ->
  exists out, r = VObj out /\
    forall name v, lookup name out = Some v ->
      exists def, In (name, def) ps /\
        written (default_object aliasToId) def v.
Proof.
  intros H. apply buildDbProperties_Ok in H as (out & -> & Hfold).
  exists out. split; [done|]. by apply build_fold in Hfold as [Hw _].
Qed.

(** In a schema with no entry named [__proto__] (an assignment to that
    name sets the prototype and adds no member), an entry that
    [buildDbProperties] leaves out has no type (or a falsy one), a type
    the function does not know, or is a relation whose alias resolves
    to nothing: it is left out silently, the call does not fail for
    it. *)
Theorem buildDbProperties_drops_silently ps aliasToId out :
  lookup "__proto__" ps = None ->
  buildDbProperties (VObj ps) aliasToId = Ok (VObj out) ->
  forall name def, In (name, def) ps -> lookup name out = None ->
    dropped (default_object aliasToId) def.
Proof.
  intros _ H. apply buildDbProperties_Ok in H as (out' & [= <-] & Hfold).
  by apply build_fold in Hfold as [_ Hd].
Qed.

Lemma In_insert k v k0 v0 ps :
  In (k, v) (insert k0 v0 ps) -> (k, v) = (k0, v0) \/ In (k, v) ps.
Proof.
  induction ps as [|[k' v'] ps IH]; simpl; [intuition congruence|].
  destruct (precedes k0 k'); simpl; [intuition congruence|].
  intros [H|H]; [tauto|]. apply IH in H. tauto.
Qed.

Lemma In_replace k v k0 v0 ps :
  In (k, v) (replace k0 v0 ps) -> (k, v) = (k0, v0) \/ In (k, v) ps.
Proof.
  induction ps as [|[k' v'] ps IH]; simpl; [tauto|].
  destruct (String.eqb_spec k0 k') as [->|Hne]; simpl.
  - intros [H|H]; [left; congruence|tauto].
  - intros [H|H]; [tauto|]. apply IH in H. tauto.
Qed.

Lemma In_define k v k0 v0 ps :
  In (k, v) (define ps k0 v0) -> (k, v) = (k0, v0) \/ In (k, v) ps.
Proof.
  unfold define. destruct (lookup k0 ps); [apply In_replace|apply In_insert].
Qed.

Lemma In_fold_define k v pairs : forall acc,
  In (k, v) (fold_left (fun o kv => define o (fst kv) (snd kv)) pairs acc) ->
  In (k, v) pairs \/ In (k, v) acc.
Proof.
  induction pairs as [|[k0 v0] pairs IH]; intros acc; simpl; [tauto|].
  intros H. apply IH in H as [H|H]; [tauto|].
  apply In_define in H as [H|H]; [|tauto]. left. left. congruence.
Qed.

Lemma filterM_Ok {A} (f : A -> res bool) xs : forall ys,
  filterM f xs = Ok ys -> forall y, In y ys -> In y xs /\ f y = Ok true.
Proof.
  induction xs as [|x xs IH]; simpl; intros ys.
  - intros [= <-] y [].
  - destruct (f x) as [b| |] eqn:Hf; cbn [bind]; [|done|done].
    destruct (filterM f xs) as [ys'| |]; cbn [bind ret]; [|done|done].
    intros [= <-] y Hy. destruct b.
    + destruct Hy as [<-|Hy]; [auto|]. destruct (IH ys' eq_refl y Hy). auto.
    + destruct (IH ys' eq_refl y Hy). auto.
Qed.

(** The schema [createRelationPlaceholders] sends when it first creates
    a database holds no relation: each property it holds has a single
    member, named by one of the nine other types. *)
Theorem first_pass_schema_has_no_relation db r :
  propsNoRelation db = Ok r ->
  exists out, r = VObj out /\
    forall name v, lookup name out = Some v ->
      exists key cfg, v = VObj [(key, cfg)] /\
        In key (plain_types ++ option_types)%list.
Proof.
  unfold propsNoRelation.
  destruct (get db "properties") as [properties| |]; cbn [bind]; [|done|done].
  destruct (entries (or_else properties (VObj []))) as [es| |];
    cbn [bind]; [|done|done].
  destruct (filterM not_relation es) as [kept| |] eqn:Hkept; cbn [bind];
    [|done|done].
  unfold from_entries. intros Hbuild.
  apply buildDbProperties_Ok in Hbuild as (out & -> & Hfold).
  apply build_fold in Hfold as [Hout _].
  exists out. split; [done|]. intros name v Hv.
  destruct (Hout name v Hv) as (def & Hin & key & cfg & Htype & -> & Hkind).
  exists key, cfg. split; [done|].
  destruct Hkind as [[Hk _]|[[Hk _]|[-> _]]];
    [apply in_or_app; by left|apply in_or_app; by right|].
  exfalso. apply In_fold_define in Hin as [Hin|[]].
  destruct (filterM_Ok not_relation es kept Hkept _ Hin) as [_ Hnot].
  unfold not_relation in Hnot. cbn [snd] in Hnot.
  destruct (get def "type") as [type| |] eqn:Hget; cbn [bind ret] in Hnot;
    [|done|done].
  injection Hnot as Hnot. apply negb_true_iff in Hnot.
  unfold get_opt in Htype. destruct (nullish def) eqn:Hnull.
  - by destruct def.
  - rewrite Hget in Htype. injection Htype as ->. simpl in Hnot. done.
Qed.

End BuildFacts.

(** ** getPageTitleText *)

Section TitleFacts.
Import Js Schema.
Local Open Scope string_scope.
Implicit Types (v prop page : value) (k name : string)
  (ps es : list (string * value)).

Lemma title_of_entries_nonempty es s :
  title_of_entries es = Ok s -> s <> "".
Proof.
  induction es as [|[name prop] es IH]; cbn [title_of_entries].
  - intros [= <-]. discriminate.
  - destruct (get_opt prop "type") as [type| |]; cbn [bind]; [|done|done].
    destruct (is_str type "title"); [|exact IH].
    destruct (get prop "title") as [title| |]; cbn [bind]; [|done|done].
    destruct title; try exact IH.
    destruct (mapM title_fragment items) as [frags| |]; cbn [bind];
      [|done|done].
    destruct (join_empty frags) as [text| |]; cbn [bind]; [|done|done].
    destruct (String.eqb_spec text "") as [->|Hne]; cbn [negb]; [exact IH|].
    by intros [= <-].
Qed.

Lemma title_of_entries_untyped es :
  Forall (fun kv => exists t, get_opt (snd kv) "type" = Ok t /\
                      is_str t "title" = false) es ->
  title_of_entries es = Ok "Untitled".
Proof.
  induction 1 as [|[name prop] es (t & Ht & Hno) _ IH]; [done|].
  cbn [title_of_entries]. cbn [snd] in Ht. rewrite Ht. cbn [bind].
  by rewrite Hno.
Qed.

(** [getPageTitleText] never returns the empty string: a title that is
    empty is passed over, and a page without properties, or whose
    properties hold none of type [title], gets ["Untitled"]. *)
Theorem getPageTitleText_never_empty :
  (forall page s, getPageTitleText page = Ok s -> s <> "") /\
  (forall ps, lookup "properties" ps = None ->
     getPageTitleText (VObj ps) = Ok "Untitled") /\
  (forall ps props,
     lookup "properties" ps = Some (VObj props) ->
     Forall (fun kv => exists t, get_opt (snd kv) "type" = Ok t /\
                         is_str t "title" = false) props ->
     getPageTitleText (VObj ps) = Ok "Untitled").
Proof.
  split; [|split].
  - intros page s. unfold getPageTitleText.
    destruct (get page "properties") as [properties| |]; cbn [bind];
      [|done|done].
    destruct (entries (or_else properties (VObj []))) as [es| |]; cbn [bind];
      [|done|done].
    apply title_of_entries_nonempty.
  - intros ps Hps. unfold getPageTitleText. cbn [get]. rewrite Hps.
    reflexivity.
  - intros ps props Hps Hall. unfold getPageTitleText.
    rewrite (get_own _ _ _ Hps). cbn [bind or_else truthy entries ret].
    by apply title_of_entries_untyped.
Qed.

(** The text of the fragments [texts]. *)
Lemma join_empty_strings texts :
  join_empty (map VStr texts) = Ok (fold_right append "" texts).
Proof.
  induction texts as [|s texts IH]; [done|].
  cbn [map join_empty nullish to_string bind ret]. rewrite IH. done.
Qed.

Lemma title_fragment_plain ip s :
  lookup "plain_text" ip = Some (VStr s) -> s <> "" ->
  title_fragment (VObj ip) = Ok (VStr s).
Proof.
  intros Hp Hs. unfold title_fragment. rewrite (get_own _ _ _ Hp).
  cbn [bind truthy]. by destruct (String.eqb_spec s "").
Qed.

Lemma append_nonempty s t : s <> "" -> (s ++ t) <> "".
Proof. by destruct s. Qed.

(** For a page as the API returns it, whose title property comes after
    properties of other types only and holds at least one fragment,
    each with a non-empty [plain_text], [getPageTitleText] returns the
    fragments' [plain_text] joined in order. *)
Theorem getPageTitleText_reads_title ps before name tp after items texts :
  lookup "properties" ps = Some (VObj (before ++ (name, VObj tp) :: after)) ->
  Forall (fun kv => exists t, get_opt (snd kv) "type" = Ok t /\
                      is_str t "title" = false) before ->
  lookup "type" tp = Some (VStr "title") ->
  lookup "title" tp = Some (VArr items) ->
  Forall2 (fun item s => exists ip, item = VObj ip /\
             lookup "plain_text" ip = Some (VStr s) /\ s <> "") items texts ->
  texts <> [] ->
  getPageTitleText (VObj ps) = Ok (fold_right append "" texts).
Proof.
  intros Hps Hbefore Htype Htitle Hitems Htexts.
  unfold getPageTitleText. rewrite (get_own _ _ _ Hps).
  cbn [bind or_else truthy entries ret]. clear Hps.
  induction Hbefore as [|[n p] before (t & Ht & Hno) _ IH].
  - cbn [app title_of_entries].
    assert (get_opt (VObj tp) "type" = Ok (VStr "title")) as ->
      by (unfold get_opt; cbn [nullish]; by apply get_own).
    cbn [bind is_str]. rewrite String.eqb_refl.
    rewrite (get_own _ _ _ Htitle). cbn [bind].
    assert (mapM title_fragment items = Ok (map VStr texts)) as ->.
    { clear -Hitems.
      induction Hitems as [|item s items texts (ip & -> & Hp & Hs) _ IH];
        [done|].
      cbn [mapM map]. rewrite (title_fragment_plain ip s Hp Hs).
      cbn [bind]. rewrite IH. done. }
    cbn [bind]. rewrite join_empty_strings. cbn [bind].
    destruct (String.eqb_spec (fold_right append "" texts) "") as [He|]; [|done].
    exfalso. destruct Hitems as [|item s items texts (ip & _ & _ & Hs) _];
      [done|]. by apply (append_nonempty s (fold_right append "" texts)) in Hs.
  - cbn [app title_of_entries]. cbn [snd] in Ht. rewrite Ht. cbn [bind].
    rewrite Hno. exact IH.
Qed.

End TitleFacts.

(** ** The properties of a seed row *)

Section SeedFacts.
Import Js Schema.
Local Open Scope string_scope.
Implicit Types (v row : value) (k name : string)
  (ps es : list (string * value)).

Lemma lookup_None_In k ps : lookup k ps = None <-> forall v, ~ In (k, v) ps.
Proof.
  split.
  - intros H v Hin. apply lookup_None_keys in H. apply H.
    change k with (fst (k, v)). by apply in_map.
  - intros H. destruct (lookup k ps) as [v|] eqn:Hk; [|done].
    apply lookup_In in Hk. by apply H in Hk.
Qed.

Lemma seed_entry_key titleName titleVal k v k' v' :
  seed_entry titleName titleVal (k, v) = Ok (k', v') ->
  (k' = titleName /\ (k = titleName \/ k = "Name") /\
   exists s, to_string titleVal = Ok s /\
     v' = VObj [("title", VArr [text_item (VStr s)])]) \/
  (k' = k /\ k <> titleName /\ k <> "Name" /\ v' = seed_value v).
Proof.
  unfold seed_entry, seed_value.
  destruct (String.eqb_spec k titleName) as [->|Hk1]; cbn [orb].
  - destruct (to_string titleVal) as [s| |]; cbn [bind ret]; [|done|done].
    intros [= <- <-]. left. split; [done|]. split; [by left|]. by exists s.
  - destruct (String.eqb_spec k "Name") as [->|Hk2].
    + destruct (to_string titleVal) as [s| |]; cbn [bind ret]; [|done|done].
      intros [= <- <-]. left. split; [done|]. split; [by right|]. by exists s.
    + destruct (String.eqb (typeof v) "number");
        [|destruct (String.eqb (typeof v) "string")];
        intros [= <- <-]; right; done.
Qed.

Lemma mapM_In {A B} (f : A -> res B) xs ys :
  mapM f xs = Ok ys ->
  (forall y, In y ys -> exists x, In x xs /\ f x = Ok y) /\
  (forall x, In x xs -> exists y, In y ys /\ f x = Ok y).
Proof.
  intros H. apply mapM_Forall2 in H.
  induction H as [|x y xs ys Hxy _ [IH1 IH2]]; [split; intros ? []|].
  split.
  - intros y' [<-|Hin]; [exists x; split; [by left|done]|].
    destruct (IH1 y' Hin) as (x' & Hx' & Hf). exists x'. split; [by right|done].
  - intros x' [<-|Hin]; [exists y; split; [by left|done]|].
    destruct (IH2 x' Hin) as (y' & Hy' & Hf). exists y'. split; [by right|done].
Qed.

(** The properties of the page created for a seed row.  The title is
    written under the name of the title property of the database, and
    only when the row has a member of that name or a member [Name]: its
    text is the first truthy one of [row[titleName]], [row.Name] and
    ["Untitled"].  A member [Name] is not kept under its own name.
    Every other member keeps its name; a number is written as a
    [number], a string as [rich_text], anything else as it stands. *)
Theorem seed_properties_shape titleName ps r :
  NoDup (map fst ps) ->
  seed_properties titleName (VObj ps) = Ok r ->
  exists out titleVal s, r = VObj out /\
    seed_title titleName (VObj ps) = Ok titleVal /\
    lookup titleName out =
      (if bool_decide (is_Some (lookup titleName ps) \/
                       is_Some (lookup "Name" ps))
       then Some (VObj [("title", VArr [text_item (VStr s)])])
       else None) /\
    (is_Some (lookup titleName ps) \/ is_Some (lookup "Name" ps) ->
     to_string titleVal = Ok s) /\
    (titleName <> "Name" -> lookup "Name" out = None) /\
    (forall k, k <> titleName -> k <> "Name" ->
       lookup k out = seed_value <$> lookup k ps).
Proof.
  intros Hnd. unfold seed_properties.
  destruct (seed_title titleName (VObj ps)) as [titleVal| |] eqn:Htitle;
    cbn [bind entries ret]; [|done|done].
  destruct (mapM (seed_entry titleName titleVal) ps) as [pairs| |] eqn:Hpairs;
    cbn [bind ret]; [|done|done].
  intros [= <-]. unfold from_entries.
  set (out := fold_left _ pairs []).
  assert (forall k, lookup k out = lookup k (rev pairs)) as Hout.
  { intros k. unfold out. rewrite lookup_fold_define.
    by destruct (lookup k (rev pairs)). }
  destruct (mapM_In _ _ _ Hpairs) as [Hfrom Hto].
  assert (exists s, (is_Some (lookup titleName ps) \/
                     is_Some (lookup "Name" ps) ->
                     to_string titleVal = Ok s) /\
            forall v', In (titleName, v') pairs ->
              v' = VObj [("title", VArr [text_item (VStr s)])]) as (s & Hs & Hval).
  { destruct (to_string titleVal) as [s| |] eqn:Hts.
    - exists s. split; [done|]. intros v' Hin.
      destruct (Hfrom _ Hin) as ([k v] & _ & Hf).
      apply seed_entry_key in Hf
        as [(_ & _ & s' & Hs' & ->)|(-> & Hne & _)]; [congruence|done].
    - exists "". split.
      + intros [[v Hv]|[v Hv]]; apply lookup_In in Hv;
          destruct (Hto _ Hv) as ([k' v'] & _ & Hf);
          apply seed_entry_key in Hf
            as [(_ & _ & s' & Hs' & _)|(_ & H1 & H2 & _)]; congruence.
      + intros v' Hin. destruct (Hfrom _ Hin) as ([k v] & _ & Hf).
        apply seed_entry_key in Hf
          as [(_ & _ & s' & Hs' & ->)|(-> & Hne & _)]; [congruence|done].
    - exists "". split.
      + intros [[v Hv]|[v Hv]]; apply lookup_In in Hv;
          destruct (Hto _ Hv) as ([k' v'] & _ & Hf);
          apply seed_entry_key in Hf
            as [(_ & _ & s' & Hs' & _)|(_ & H1 & H2 & _)]; congruence.
      + intros v' Hin. destruct (Hfrom _ Hin) as ([k v] & _ & Hf).
        apply seed_entry_key in Hf
          as [(_ & _ & s' & Hs' & ->)|(-> & Hne & _)]; [congruence|done]. }
  exists out, titleVal, s. split; [done|]. split; [done|].
  split; [|split; [exact Hs|split]].
  - rewrite Hout. case_bool_decide as Hhas.
    + destruct (lookup titleName (rev pairs)) as [v'|] eqn:Hl.
      * apply lookup_In, in_rev in Hl. by rewrite (Hval v' Hl).
      * exfalso. rewrite lookup_None_In in Hl.
        destruct Hhas as [[v Hv]|[v Hv]]; apply lookup_In in Hv;
          destruct (Hto _ Hv) as ([k' v'] & Hin & Hf);
          apply seed_entry_key in Hf
            as [(-> & _)|(_ & H1 & H2 & _)]; try congruence;
          by apply (Hl v'), in_rev; rewrite rev_involutive.
    + destruct (lookup titleName (rev pairs)) as [v'|] eqn:Hl; [|done].
      exfalso. apply Hhas. apply lookup_In, in_rev in Hl.
      destruct (Hfrom _ Hl) as ([k v] & Hin & Hf).
      apply (In_lookup _ _ _ Hnd) in Hin.
      apply seed_entry_key in Hf as [(_ & [->| ->] & _)|(-> & Hne & _)];
        [left|right|done]; by rewrite Hin.
  - intros Hne. rewrite Hout.
    destruct (lookup "Name" (rev pairs)) as [v'|] eqn:Hl; [|done].
    exfalso. apply lookup_In, in_rev in Hl.
    destruct (Hfrom _ Hl) as ([k v] & _ & Hf).
    apply seed_entry_key in Hf as [(Hk & _)|(-> & _ & Hk & _)]; congruence.
  - intros k Hk1 Hk2. rewrite Hout.
    destruct (lookup k ps) as [v|] eqn:Hv; cbn [fmap option_fmap option_map].
    + apply lookup_In in Hv. destruct (Hto _ Hv) as ([k' v'] & Hin & Hf).
      apply seed_entry_key in Hf as [(_ & [?|?] & _)|(-> & _ & _ & ->)];
        [congruence|congruence|].
      destruct (lookup k (rev pairs)) as [w|] eqn:Hl.
      * apply lookup_In, in_rev in Hl.
        destruct (Hfrom _ Hl) as ([k0 v0] & Hin0 & Hf0).
        apply seed_entry_key in Hf0 as [(? & _)|(-> & _ & _ & ->)];
          [congruence|].
        apply (In_lookup _ _ _ Hnd) in Hin0, Hv. congruence.
      * exfalso. rewrite lookup_None_In in Hl.
        by apply (Hl (seed_value v)), in_rev; rewrite rev_involutive.
    + destruct (lookup k (rev pairs)) as [w|] eqn:Hl; [|done].
      exfalso. apply lookup_In, in_rev in Hl.
      destruct (Hfrom _ Hl) as ([k0 v0] & Hin0 & Hf0).
      apply seed_entry_key in Hf0 as [(? & _)|(-> & _ & _ & ->)];
        [congruence|].
      apply (In_lookup _ _ _ Hnd) in Hin0. congruence.
Qed.

End SeedFacts.

Section SchemaExamples.
Local Open Scope string_scope.

(** Lists of distinct literal keys. *)
Ltac distinct_keys :=
  repeat (apply NoDup_cons; split;
          [rewrite ?not_elem_of_cons; repeat split;
           solve [discriminate | apply not_elem_of_nil]|]);
  apply NoDup_nil; exact I.

Lemma transformPropertiesToCreate_keeps_type_and_options_witness :
  exists out v,
    demo_created = Js.Ok (Js.VObj out) /\
    Js.lookup "Price" out = Some v /\ Schema.created_from demo_price v.
Proof.
  destruct (transformPropertiesToCreate_keeps_type_and_options
              demo_database_properties
              (Js.VObj [("Name", Js.VObj [("type", Js.VStr "title")]);
                        ("Tags",
                         Js.VObj
                           [("type", Js.VStr "multi_select");
                            ("multi_select",
                             Js.VObj
                               [("options",
                                 Js.VArr [Js.VObj [("name", Js.VStr "A");
                                                   ("color", Js.VStr "red")]])])]);
                        ("Price", Js.VObj [("type", Js.VStr "number")])])
              ltac:(simpl; distinct_keys) eq_refl eq_refl)
    as (out & Hout & _ & Hsome).
  destruct (Hsome "Price"%string demo_price eq_refl) as (v & Hv & Hcreated).
  exists out, v. split; [by rewrite <- Hout|]. split; [exact Hv|exact Hcreated].
Defined.

Lemma transformPropertiesToCreate_accepts_api_properties_witness :
  exists out,
    Schema.transformPropertiesToCreate (Js.VObj demo_database_properties)
      = Js.Ok (Js.VObj out).
Proof.
  apply (transformPropertiesToCreate_accepts_api_properties
           demo_database_properties eq_refl).
  repeat constructor.
  - eexists _, "title"%string. split; [reflexivity|]. split; [reflexivity|].
    simpl. intros [H|[H|[H|[]]]]; discriminate.
  - eexists _, "multi_select"%string. split; [reflexivity|].
    split; [reflexivity|]. intros _. eexists _, _.
    split; [reflexivity|]. split; [reflexivity|]. repeat constructor.
    by eexists.
  - eexists _, "number"%string. split; [reflexivity|]. split; [reflexivity|].
    simpl. intros [H|[H|[H|[]]]]; discriminate.
Defined.

Lemma buildDbProperties_writes_known_types_witness :
  exists out def,
    demo_built = Js.Ok (Js.VObj out) /\
    In ("Project"%string, def) demo_schema /\
    Schema.written demo_aliases def
      (Js.VObj [("relation",
                 Js.VObj [("database_id", Js.VStr "db-7");
                          ("type", Js.VStr "single_property");
                          ("single_property", Js.VObj [])])]%string).
Proof.
  destruct (buildDbProperties_writes_known_types demo_schema demo_aliases _
              (eq_refl : _ = demo_built))
    as (out & Hout & Hw).
  injection Hout as <-.
  destruct (Hw "Project"%string _ eq_refl) as (def & Hin & Hdef).
  eexists _, def. split; [reflexivity|]. split; [exact Hin|exact Hdef].
Defined.

Lemma buildDbProperties_drops_silently_witness :
  Js.lookup "Owner" demo_built_unresolved = None /\
  Schema.dropped (Js.VObj []) demo_people /\
  Schema.dropped (Js.VObj []) demo_relation.
Proof.
  pose proof (buildDbProperties_drops_silently demo_schema Js.VUndef
                demo_built_unresolved eq_refl eq_refl) as H.
  split; [reflexivity|]. split.
  - apply (H "Owner"%string); [simpl; tauto|reflexivity].
  - apply (H "Project"%string); [simpl; tauto|reflexivity].
Defined.

Lemma first_pass_schema_has_no_relation_witness :
  exists out,
    demo_first_pass = Js.Ok (Js.VObj out) /\
    Js.lookup "Project" out = None /\
    forall name v, Js.lookup name out = Some v ->
      exists key cfg, v = Js.VObj [(key, cfg)] /\
        In key (Schema.plain_types ++ Schema.option_types).
Proof.
  destruct (first_pass_schema_has_no_relation demo_database _ eq_refl)
    as (out & Hout & H).
  injection Hout as <-. eexists. split; [reflexivity|].
  split; [reflexivity|exact H].
Defined.

Lemma getPageTitleText_reads_title_witness :
  Schema.getPageTitleText (Js.VObj demo_page) = Js.Ok "Hello World"%string.
Proof.
  apply (getPageTitleText_reads_title demo_page
           [("Status", Js.VObj [("type", Js.VStr "status")])]%string
           "Title"%string _ [] demo_title_items
           ["Hello "; "World"]%string eq_refl).
  - repeat constructor. eexists. split; reflexivity.
  - reflexivity.
  - reflexivity.
  - repeat constructor; eexists; (split; [reflexivity|]);
      (split; [reflexivity|discriminate]).
  - discriminate.
Defined.

Lemma seed_properties_shape_witness :
  exists out,
    demo_seed = Js.Ok (Js.VObj out) /\
    Js.lookup "Task" out =
      Some (Js.VObj [("title", Js.VArr [Schema.text_item (Js.VStr "First")])]%string) /\
    Js.lookup "Name" out = None /\
    Js.lookup "Estimate" out = Some (Js.VObj [("number", Js.VNum 3)]%string).
Proof.
  destruct (seed_properties_shape "Task" demo_row _
              ltac:(simpl; distinct_keys) (eq_refl : _ = demo_seed))
    as (out & titleVal & s & Hout & Htitle & Hl & Hs & Hname & Hrest).
  injection Hout as <-. eexists. split; [reflexivity|].
  split; [reflexivity|]. split; [by apply Hname|].
  by rewrite (Hrest "Estimate"%string).
Defined.

End SchemaExamples.

(** ** The Workers backend *)

Section WorkerFacts.
Import Js Api Worker.
Local Open Scope string_scope.
Context {E : Type}.
Variable hmacSign : string -> string -> string.
Variable parse_date : string -> option Z.
Variable nowIso : string.
Variable now : Z.

Abbreviation perform := (Worker.perform (E := E) parse_date nowIso now).
Abbreviation fetch := (Worker.fetch (E := E) hmacSign parse_date nowIso now).
Abbreviation verified := (Worker.verified hmacSign).

Lemma bind_Returned {A B} (c : async E A) (k : A -> async E B) srv tr b tr' :
  Api.bind c k srv tr = (Returned b, tr') ->
  exists a tr1, c srv tr = (Returned a, tr1) /\ k a srv tr1 = (Returned b, tr').
Proof.
  unfold Api.bind. destruct (c srv tr) as [[a|e|e|] tr1]; try discriminate.
  intros H. by exists a, tr1.
Qed.

Lemma bind_trace {A B} (c : async E A) (k : A -> async E B) srv tr o tr' :
  Api.bind c k srv tr = (o, tr') ->
  (forall tr1 o1, c srv tr = (o1, tr1) -> exists l1, tr1 = (tr ++ l1)%list) ->
  (forall a tr1 o2 tr2, k a srv tr1 = (o2, tr2) ->
     exists l2, tr2 = (tr1 ++ l2)%list) ->
  exists l, tr' = (tr ++ l)%list.
Proof.
  unfold Api.bind. intros H Hc Hk.
  destruct (c srv tr) as [o1 tr1] eqn:Hc1.
  destruct (Hc tr1 o1 eq_refl) as [l1 ->].
  destruct o1 as [a|e|e|]; try (injection H as <- <-; by exists l1).
  destruct (Hk a _ _ _ H) as [l2 ->]. exists (l1 ++ l2)%list.
  by rewrite app_assoc.
Qed.

(** Every response with status 200 comes from [perform]. *)
Lemma perform_status action taskId tasksDbId calendarDbId srv tr resp tr' :
  perform action taskId tasksDbId calendarDbId srv tr = (Returned resp, tr') ->
  (status resp = 200%Z /\ In action ["start"; "pause"; "stop"] /\
   lookup "action" match body resp with VObj b => b | _ => [] end
     = Some (VStr action)) \/
  (status resp = 404%Z /\ ~ In action ["start"; "pause"; "stop"]).
Proof.
  unfold Worker.perform. intros H.
  repeat (apply bind_Returned in H as (? & ? & _ & H)).
  destruct (String.eqb_spec action "start") as [->|Hstart].
  { repeat (apply bind_Returned in H as (? & ? & _ & H)).
    injection H as <- <-. left. simpl. tauto. }
  destruct (String.eqb_spec action "pause") as [->|Hpause].
  { repeat (apply bind_Returned in H as (? & ? & _ & H)).
    injection H as <- <-. left. simpl. tauto. }
  destruct (String.eqb_spec action "stop") as [->|Hstop].
  { repeat (apply bind_Returned in H as (? & ? & _ & H)).
    injection H as <- <-. left. simpl. tauto. }
  injection H as <- <-. right. simpl. intuition congruence.
Qed.

(** The handler calls the API, and answers 200, only for a request
    whose path starts with [/a/], with both secrets configured and a
    query whose signature verifies; every other request is answered
    without a single call.  A 200 answer reports the action named by
    the last segment of the path, which is one of [start], [pause] and
    [stop]. *)
Theorem fetch_acts_only_on_verified_requests req e srv o tr :
  fetch req e srv [] = (o, tr) ->
  (tr <> [] \/ (exists resp, o = Returned resp /\ status resp = 200%Z) ->
   verified req e) /\
  (forall resp, o = Returned resp -> status resp = 200%Z ->
     In (last_segment (pathname req)) ["start"; "pause"; "stop"] /\
     exists b, body resp = VObj b /\
       lookup "action" b = Some (VStr (last_segment (pathname req)))).
Proof.
  unfold Worker.fetch, try_catch, verified.
  destruct (starts_with "/a/" (pathname req)) eqn:Hpath; cbn [negb].
  2:{ intros [= <- <-]. split.
      - intros [H|(resp & [= <-] & H)]; [done|discriminate].
      - intros resp [= <-]. discriminate. }
  destruct (Signing.falsy (APP_SECRET e)) eqn:Hsecret; cbn [orb].
  { intros [= <- <-]. split.
    - intros [H|(resp & [= <-] & H)]; [done|discriminate].
    - intros resp [= <-]. discriminate. }
  destruct (Signing.falsy (NOTION_TOKEN e)) eqn:Htoken.
  { intros [= <- <-]. split.
    - intros [H|(resp & [= <-] & H)]; [done|discriminate].
    - intros resp [= <-]. discriminate. }
  destruct (Signing.verifySignature hmacSign _ _) eqn:Hsig; cbn [negb].
  2:{ intros [= <- <-]. split.
      - intros [H|(resp & [= <-] & H)]; [done|discriminate].
      - intros resp [= <-]. discriminate. }
  intros H. split; [done|].
  intros resp -> H200.
  destruct (perform _ _ _ _ srv []) as [[r|x|x|] tr1] eqn:Hperf;
    try (injection H as <- <-; discriminate); [|discriminate].
  injection H as -> ->.
  apply perform_status in Hperf as [(_ & Hin & Hbody)|(H404 & _)]; [|lia].
  split; [exact Hin|].
  destruct (body resp) as [| | | | | | |b]; try discriminate. by exists b.
Qed.

(** [fetch] never rejects: whatever the API does and whatever the
    handler throws, it answers, with one of the statuses 200, 401, 404
    and 500. *)
Theorem fetch_always_answers req e srv tr0 :
  fst (fetch req e srv tr0) = Outside \/
  exists resp, fst (fetch req e srv tr0) = Returned resp /\
    In (status resp) [200; 401; 404; 500]%Z.
Proof.
  destruct (fetch req e srv tr0) as [o tr] eqn:Hfetch. cbn [fst].
  revert Hfetch. unfold Worker.fetch, try_catch.
  destruct (starts_with "/a/" (pathname req)); cbn [negb];
    [|intros [= <- <-]; right; eexists; split; [done|simpl; tauto]].
  destruct (Signing.falsy (APP_SECRET e) || Signing.falsy (NOTION_TOKEN e));
    [intros [= <- <-]; right; eexists; split; [done|simpl; tauto]|].
  destruct (Signing.verifySignature hmacSign _ _); cbn [negb];
    [|intros [= <- <-]; right; eexists; split; [done|simpl; tauto]].
  destruct (perform _ _ _ _ srv tr0) as [[r|x|x|] tr1] eqn:Hperf;
    intros [= <- <-]; [|right; eexists; split; [done|simpl; tauto]..|by left].
  right. exists r. split; [done|].
  apply perform_status in Hperf as [(-> & _)|(-> & _)]; simpl; tauto.
Qed.

Lemma extends_ret {A} (a : A) : extends (E := E) (Api.ret a).
Proof. intros srv tr o tr' [= <- <-]. exists []. by rewrite app_nil_r. Qed.

Lemma extends_lift {A} (r : res A) : extends (E := E) (lift r).
Proof. intros srv tr o tr' [= <- <-]. exists []. by rewrite app_nil_r. Qed.

Lemma extends_request m arg : extends (E := E) (Api.request m arg).
Proof. intros srv tr o tr' [= <- <-]. by eexists. Qed.

Lemma extends_bind {A B} (c : async E A) (k : A -> async E B) :
  extends c -> (forall a, extends (k a)) -> extends (Api.bind c k).
Proof.
  intros Hc Hk srv tr o tr'. unfold Api.bind.
  destruct (c srv tr) as [o1 tr1] eqn:Hc1.
  destruct (Hc _ _ _ _ Hc1) as [l1 ->].
  destruct o1 as [a|x|x|]; try (intros [= <- <-]; by exists l1).
  intros H. destruct (Hk a _ _ _ _ H) as [l2 ->].
  exists (l1 ++ l2)%list. by rewrite app_assoc.
Qed.

Lemma extends_if {A} (b : bool) (c1 c2 : async E A) :
  extends c1 -> extends c2 -> extends (if b then c1 else c2).
Proof. by destruct b. Qed.

Ltac extends_tac :=
  repeat first
    [ apply extends_ret | apply extends_lift | apply extends_request
    | apply extends_if | apply extends_bind | intros ? ].

Lemma bind_request_first {A} m arg (k : value -> async E A) srv :
  (forall a, extends (k a)) ->
  exists o tr, Api.bind (Api.request m arg) k srv [] = (o, mkCall m arg :: tr).
Proof.
  intros Hk. unfold Api.bind, Api.request. cbn [app].
  destruct (srv [] _) as [v|x]; [|by eexists _, _].
  destruct (k v srv [mkCall m arg]) as [o tr'] eqn:Hrun.
  destruct (Hk v _ _ _ _ Hrun) as [l ->]. by exists o, l.
Qed.

(** After a successful check, [perform] starts by retrieving the task. *)
Lemma perform_first_call action taskId tasksDbId calendarDbId srv :
  exists o tr,
    perform action taskId tasksDbId calendarDbId srv [] =
      (o, mkCall "pages.retrieve" (VObj [("page_id", taskId)]) :: tr).
Proof.
  unfold Worker.perform. apply bind_request_first.
  intros a. unfold updateTaskProperties. extends_tac.
Qed.

Lemma split_slash_plain a :
  forallb (fun c => negb (Ascii.eqb c "/")) (list_ascii_of_string a) = true ->
  split_slash a = [a].
Proof.
  induction a as [|c a IH]; [done|]. cbn [list_ascii_of_string forallb].
  intros [Hc Ha]%andb_true_iff. cbn [split_slash]. rewrite (IH Ha).
  by destruct (Ascii.eqb c "/").
Qed.

Lemma last_segment_action a :
  forallb (fun c => negb (Ascii.eqb c "/")) (list_ascii_of_string a) = true ->
  last_segment ("/a/" ++ a) = a.
Proof.
  intros Ha. unfold last_segment.
  change ("/a/" ++ a) with (String "/" (String "a" (String "/" a))).
  assert (forall c s, split_slash (String c s) =
            match split_slash s with
            | seg :: rest =>
                if Ascii.eqb c "/" then EmptyString :: seg :: rest
                else String c seg :: rest
            | [] => []
            end) as Hcons by reflexivity.
  rewrite !Hcons, (split_slash_plain a Ha). reflexivity.
Qed.

(** The signature does not cover the path.  A query that verifies is
    acted upon under every path [/a/<a>]: the handler goes on to
    retrieve the task named by the query, and what it then runs is the
    action [a] of the path; the [action] parameter that was signed is
    not compared with it. *)
Theorem fetch_runs_the_action_of_the_path req e a srv :
  verified req e ->
  forallb (fun c => negb (Ascii.eqb c "/")) (list_ascii_of_string a) = true ->
  verified (mkRequest ("/a/" ++ a) (query req)) e /\
  fetch (mkRequest ("/a/" ++ a) (query req)) e srv [] =
    try_catch
      (perform a
         (VStr (Signing.or_else (Signing.sp_get (query req) "taskId") ""))
         (VStr (Signing.or_else (Signing.sp_get (query req) "tasksDbId") ""))
         (VStr (Signing.or_else (Signing.sp_get (query req) "calendarDbId")
                  "")))
      (Api.ret (json 500 (VObj [("error", VStr "Internal error")]))) srv [] /\
  exists o tr,
    fetch (mkRequest ("/a/" ++ a) (query req)) e srv [] =
      (o, mkCall "pages.retrieve"
            (VObj [("page_id",
                    VStr (Signing.or_else
                            (Signing.sp_get (query req) "taskId") ""))])
          :: tr).
Proof.
  intros (Hpath & Hsecret & Htoken & Hsig) Ha.
  assert (Signing.verifySignature hmacSign (Signing.or_else (APP_SECRET e) "")
            (Signing.mkUrl ("/a/" ++ a) (query req)) = true) as Hsig'
    by exact Hsig.
  split;
    [split; [reflexivity|split; [exact Hsecret|split; [exact Htoken|exact Hsig']]]|].
  assert (fetch (mkRequest ("/a/" ++ a) (query req)) e srv [] =
          try_catch
            (perform a
               (VStr (Signing.or_else (Signing.sp_get (query req) "taskId") ""))
               (VStr (Signing.or_else (Signing.sp_get (query req) "tasksDbId")
                        ""))
               (VStr (Signing.or_else (Signing.sp_get (query req)
                                         "calendarDbId") "")))
            (Api.ret (json 500 (VObj [("error", VStr "Internal error")])))
            srv []) as Hfetch.
  { unfold Worker.fetch, try_catch. cbn [pathname query].
    rewrite (last_segment_action a Ha).
    change (starts_with "/a/" ("/a/" ++ a)) with true. cbn [negb].
    rewrite Hsecret, Htoken, Hsig'. reflexivity. }
  split; [exact Hfetch|]. rewrite Hfetch. unfold try_catch.
  destruct (perform_first_call a
              (VStr (Signing.or_else (Signing.sp_get (query req) "taskId") ""))
              (VStr (Signing.or_else (Signing.sp_get (query req) "tasksDbId")
                       ""))
              (VStr (Signing.or_else (Signing.sp_get (query req)
                                        "calendarDbId") ""))
              srv) as (o & tr & ->).
  destruct o; by eexists _, _.
Qed.

End WorkerFacts.

Section MinutesFacts.
Import Js.
Local Open Scope string_scope.
Variable parse_date : string -> option Z.
Variable now : Z.

(** For a total that is an integer and a start that is missing
    (falsy) or a text that [Date] parses, [computeAccumulatedMinutes]
    returns an integer that is not below the total.  Without a start,
    or with one that lies in the future, the total is returned as it
    is; otherwise the minutes added differ from the time elapsed by
    half a minute at most.  (A start text that is no date is left
    aside: the sum is then [NaN].) *)
Theorem computeAccumulatedMinutes_adds_elapsed lastIso n :
  truthy lastIso = false \/
    (exists s from, lastIso = VStr s /\ parse_date s = Some from) ->
  exists m,
    Worker.computeAccumulatedMinutes parse_date now lastIso (VNum n)
    = Ok (VNum m) /\
    (n <= m)%Z /\
    (truthy lastIso = false -> m = n) /\
    (forall s from, lastIso = VStr s -> parse_date s = Some from ->
       s <> "" ->
       ((now <= from)%Z -> m = n) /\
       ((from <= now)%Z ->
        (60000 * (m - n) - 30000 <= now - from < 60000 * (m - n) + 30000)%Z)).
Proof.
  unfold Worker.computeAccumulatedMinutes. intros Hstart.
  destruct (truthy lastIso) eqn:Ht; cbn [negb].
  2:{ exists n. split; [done|]. split; [lia|].
      split; [done|]. intros s from -> _ Hs. simpl in Ht.
      by destruct (String.eqb_spec s ""). }
  destruct Hstart as [|(s & from & -> & Hfrom)]; [done|].
  rewrite Hfrom.
  assert (or_else (VNum n) (VNum 0) = VNum n) as ->.
  { unfold or_else. simpl. destruct (Z.eqb_spec n 0) as [->|]; done. }
  eexists. split; [reflexivity|].
  pose proof (Z.div_mod (now - from + 30000) 60000 ltac:(lia)) as Hdm.
  pose proof (Z.mod_pos_bound (now - from + 30000) 60000 ltac:(lia)) as Hmod.
  set (q := ((now - from + 30000) / 60000)%Z) in *.
  set (m := ((now - from + 30000) mod 60000)%Z) in *.
  split; [lia|]. split; [done|].
  intros s' from' [= <-] Hf _. rewrite Hfrom in Hf. injection Hf as <-.
  split; intros Hle; lia.
Qed.

End MinutesFacts.

Section WorkerExamples.
Local Open Scope string_scope.

Lemma fetch_acts_only_on_verified_requests_witness :
  Worker.verified Sha256.hmac_sha256_hex demo_stop_request demo_env /\
  Signing.sp_get (Worker.query demo_stop_request) "action" = Some "start" /\
  Worker.status demo_stop_response = 200%Z /\
  exists b, Worker.body demo_stop_response = Js.VObj b /\
    Js.lookup "action" b = Some (Js.VStr "stop").
Proof.
  destruct (fetch_acts_only_on_verified_requests Sha256.hmac_sha256_hex
              demo_parse_date "2023-11-14T22:14:50.000Z" 1700000090000%Z
              demo_stop_request demo_env demo_notion
              (Api.Returned demo_stop_response) (snd demo_stop_run))
    as [Hverified Haction]; [vm_compute; reflexivity|].
  split; [apply Hverified; left; discriminate|].
  split; [reflexivity|]. split; [reflexivity|].
  by apply (Haction demo_stop_response eq_refl eq_refl).
Defined.

Lemma fetch_runs_the_action_of_the_path_witness :
  exists o tr,
    Worker.fetch (E := nat) Sha256.hmac_sha256_hex demo_parse_date
      "2023-11-14T22:14:50.000Z" 1700000090000%Z
      (Worker.mkRequest ("/a/" ++ "stop") (Worker.query demo_start_request))
      demo_env demo_notion [] =
      (o, Api.mkCall "pages.retrieve"
            (Js.VObj
               [("page_id",
                 Js.VStr (Signing.or_else
                            (Signing.sp_get (Worker.query demo_start_request)
                               "taskId") ""))])
          :: tr).
Proof.
  apply (fetch_runs_the_action_of_the_path (E := nat)
           Sha256.hmac_sha256_hex
           demo_parse_date "2023-11-14T22:14:50.000Z" 1700000090000%Z
           demo_start_request demo_env "stop" demo_notion).
  - repeat split; vm_compute; reflexivity.
  - reflexivity.
Defined.

Lemma computeAccumulatedMinutes_adds_elapsed_witness :
  exists m,
    Worker.computeAccumulatedMinutes demo_parse_date 1700000090000%Z
      (Js.VStr "2023-11-14T22:13:20.000Z") (Js.VNum 5) = Js.Ok (Js.VNum m) /\
    (5 <= m)%Z.
Proof.
  destruct (computeAccumulatedMinutes_adds_elapsed demo_parse_date
              1700000090000%Z (Js.VStr "2023-11-14T22:13:20.000Z") 5)
    as (m & Hm & Hle & _).
  - right. by exists "2023-11-14T22:13:20.000Z", 1700000000000%Z.
  - exists m. split; [exact Hm|exact Hle].
Defined.

End WorkerExamples.

(** ** The installer *)

Section ExportFacts.
Import Js Api Installer.
Local Open Scope string_scope.
Context {E : Type}.
Variable ensureClient : settled unit exn.
Variable getAllBlocks : string -> async E value.

Abbreviation exportMaster := (Installer.exportMaster ensureClient getAllBlocks).

(** [exportMaster] begins with [ensureClient()], outside the [try]:
    when that throws, as it does in index.js, where [notion] is not
    declared, [exportMaster] rejects with that very error and has
    called nothing.  Past it, no error of the API comes through:
    [exportMaster] returns a page with its blocks or a database; and
    when it rejects, whatever went wrong (a page that was retrieved but
    whose blocks could not be listed, a rate limit, a database the
    integration cannot see), the error is the fixed message saying that
    the id is neither a page nor a database. *)
Theorem exportMaster_masks_errors id srv tr0 :
  match ensureClient with
  | Rejected e => exportMaster id srv tr0 = (Threw e, tr0)
  | Fulfilled _ =>
      match fst (exportMaster id srv tr0) with
      | Returned v =>
          (exists page blocks,
             v = VObj [("kind", VStr "page"); ("page", page);
                       ("blocks", blocks)]) \/
          (exists db, v = VObj [("kind", VStr "database"); ("database", db)])
      | Threw e => e = neither_page_nor_database
      | Failed _ => False
      | Outside => True
      end
  end.
Proof.
  unfold Installer.exportMaster, client_request, ensure_client, try_catch,
    Api.bind, Api.request, Api.ret, Api.throw.
  destruct ensureClient as [u|e]; [|reflexivity].
  destruct (srv tr0 _) as [page|x].
  - destruct (getAllBlocks id srv _) as [[blocks|x|x|] tr1]; cbn [fst].
    + left. by exists page, blocks.
    + destruct (srv tr1 _) as [db|y]; cbn [fst]; [right; by exists db|done].
    + destruct (srv tr1 _) as [db|y]; cbn [fst]; [right; by exists db|done].
    + done.
  - destruct (srv _ _) as [db|y]; cbn [fst]; [right; by exists db|done].
Qed.

End ExportFacts.

Section InstallerFacts.
Import Js Api Installer.
Local Open Scope string_scope.
Context {E : Type}.

Lemma emits_ret {A} P (a : A) : emits (E := E) P 0 0 (Api.ret a).
Proof.
  intros srv tr o tr' [= <- <-]. exists []. rewrite app_nil_r.
  repeat split; [constructor|done|done].
Qed.

Lemma emits_lift {A} P (r : res A) : emits (E := E) P 0 0 (lift r).
Proof.
  intros srv tr o tr' [= <- <-]. exists []. rewrite app_nil_r.
  repeat split; [constructor|done|done].
Qed.

Lemma emits_request P m arg :
  P (mkCall m arg) -> emits (E := E) P 1 1 (Api.request m arg).
Proof.
  intros HP srv tr o tr' [= <- <-]. exists [mkCall m arg].
  repeat split; [by repeat constructor|done|done].
Qed.

Lemma emits_bind {A B} P lo1 hi1 lo2 hi2 (c : async E A)
    (k : A -> async E B) :
  emits P lo1 hi1 c -> (forall a, emits P lo2 hi2 (k a)) ->
  emits P (lo1 + lo2) (hi1 + hi2) (Api.bind c k).
Proof.
  intros Hc Hk srv tr o tr'. unfold Api.bind.
  destruct (c srv tr) as [o1 tr1] eqn:Hc1.
  destruct (Hc _ _ _ _ Hc1) as (l1 & -> & HP1 & Hhi1 & Hlo1).
  destruct o1 as [a|x|x|];
    try (intros [= <- <-]; exists l1;
         repeat split; [done|lia|intros [? [=]]]).
  intros H. destruct (Hk a _ _ _ _ H) as (l2 & -> & HP2 & Hhi2 & Hlo2).
  exists (l1 ++ l2)%list. rewrite app_assoc, length_app.
  repeat split; [by apply Forall_app|lia|].
  intros Hret. specialize (Hlo1 ltac:(by eexists)). specialize (Hlo2 Hret).
  lia.
Qed.

Lemma emits_weaken {A} P lo hi lo' hi' (c : async E A) :
  lo' <= lo -> hi <= hi' -> emits P lo hi c -> emits P lo' hi' c.
Proof.
  intros Hlo Hhi Hc srv tr o tr' H.
  destruct (Hc _ _ _ _ H) as (l & -> & HP & H1 & H2).
  exists l. repeat split; [done|lia|]. intros Hr. specialize (H2 Hr). lia.
Qed.

Lemma emits_foldM {A B} P lo hi (f : A -> B -> async E A) xs : forall a,
  (forall a x, emits P lo hi (f a x)) ->
  emits P (length xs * lo) (length xs * hi) (Api.foldM f xs a).
Proof.
  induction xs as [|x xs IH]; intros a Hf; cbn [Api.foldM length].
  - apply emits_ret.
  - apply (emits_weaken P (lo + length xs * lo) (hi + length xs * hi));
      [lia|lia|].
    apply emits_bind; [apply Hf|]. intros a'. by apply IH.
Qed.

Lemma emits_ensure_client P ensureClient :
  emits (E := E) P 0 0 (ensure_client ensureClient).
Proof.
  intros srv tr o tr' [= <- <-]. exists []. rewrite app_nil_r.
  repeat split; [constructor|done|done].
Qed.

Lemma client_request_fulfilled u m arg :
  client_request (E := E) (Fulfilled u) m arg = Api.request m arg.
Proof. reflexivity. Qed.

Lemma client_request_rejected e m arg srv tr :
  client_request (E := E) (Rejected e) m arg srv tr = (Threw e, tr).
Proof. reflexivity. Qed.

Lemma create_database_emits ensureClient parent created db :
  emits is_create 1 1 (create_database (E := E) ensureClient parent created db).
Proof.
  unfold create_database.
  apply (emits_bind is_create 0 0 1 1); [apply emits_lift|]. intros schema.
  apply (emits_bind is_create 0 0 1 1); [apply emits_ensure_client|].
  intros _.
  apply (emits_bind is_create 0 0 1 1); [apply emits_lift|]. intros title.
  apply (emits_bind is_create 1 1 0 0); [by apply emits_request|].
  intros createdDb.
  apply (emits_bind is_create 0 0 0 0); [apply emits_lift|]. intros alias.
  apply (emits_bind is_create 0 0 0 0); [apply emits_lift|]. intros key.
  apply (emits_bind is_create 0 0 0 0); [apply emits_lift|]. intros id.
  apply emits_lift.
Qed.

Lemma update_relations_emits ensureClient created db :
  emits is_update 0 1 (update_relations (E := E) ensureClient created db).
Proof.
  unfold update_relations.
  apply (emits_bind is_update 0 0 0 1); [apply emits_lift|]. intros props.
  apply (emits_bind is_update 0 0 0 1); [apply emits_lift|]. intros es.
  apply (emits_bind is_update 0 0 0 1); [apply emits_lift|]. intros rel.
  destruct (from_entries rel) as [| | | | | | |[|kv ps]];
    try (apply (emits_weaken is_update 0 0); [lia|lia|apply emits_ret]).
  apply (emits_bind is_update 0 0 0 1); [apply emits_lift|]. intros schema.
  apply (emits_bind is_update 0 0 0 1); [apply emits_ensure_client|].
  intros _.
  apply (emits_bind is_update 0 0 0 1); [apply emits_lift|]. intros alias.
  apply (emits_bind is_update 0 0 0 1); [apply emits_lift|]. intros key.
  apply (emits_bind is_update 0 0 0 1); [apply emits_lift|]. intros id.
  apply (emits_weaken is_update 1 1); [lia|lia|].
  apply (emits_bind is_update 1 1 0 0); [by apply emits_request|].
  intros _. apply emits_ret.
Qed.

(** Without a client the first pass stops at its first database,
    before any call. *)
Lemma create_database_rejected e parent created db srv tr :
  exists o,
    create_database (E := E) (Rejected e) parent created db srv tr = (o, tr) /\
    forall a, o <> Returned a.
Proof.
  unfold create_database, Api.bind, lift, ensure_client.
  destruct (Schema.propsNoRelation db) as [schema| |]; by eexists.
Qed.

(** [createRelationPlaceholders] works in two passes.  Its calls are
    creations followed by updates: at most one creation and one update
    per database, and no update before every database of the list has
    been created.  When a creation fails nothing is updated, and the
    databases created before it stay.  When [ensureClient] throws, as
    it does in index.js, where [notion] is not declared, nothing is
    called at all, and the function rejects unless the list is
    empty. *)
Theorem createRelationPlaceholders_two_passes
    ensureClient databases parent srv o tr :
  createRelationPlaceholders (E := E) ensureClient databases parent srv []
  = (o, tr) ->
  (exists creates updates,
     tr = (creates ++ updates)%list /\
     Forall (fun c => method c = "databases.create") creates /\
     Forall (fun c => method c = "databases.update") updates /\
     length creates <= length databases /\
     length updates <= length databases /\
     (updates <> [] \/ (exists v, o = Returned v) ->
      length creates = length databases)) /\
  (forall e, ensureClient = Rejected e ->
     tr = [] /\ (databases <> [] -> forall v, o <> Returned v)).
Proof.
  intros Hrun. split.
  - revert Hrun. unfold createRelationPlaceholders, Api.bind.
    destruct (Api.foldM (create_database ensureClient parent) databases []
                srv []) as [o1 tr1] eqn:H1.
    destruct (emits_foldM is_create 1 1 (create_database ensureClient parent)
                databases [] (create_database_emits ensureClient parent)
                _ _ _ _ H1)
      as (l1 & -> & HP1 & Hhi1 & Hlo1).
    cbn [app] in *.
    destruct o1 as [created|x|x|];
      try (intros [= <- <-]; exists l1, []; rewrite app_nil_r;
           repeat split; [done|constructor|lia|simpl; lia|];
           intros [H|[v [=]]]; done).
    destruct (Api.foldM (fun _ db => update_relations ensureClient created db)
                databases tt srv l1) as [o2 tr2] eqn:H2.
    destruct (emits_foldM is_update 0 1
                (fun _ db => update_relations ensureClient created db)
                databases tt
                (fun _ db => update_relations_emits ensureClient created db)
                _ _ _ _ H2)
      as (l2 & -> & HP2 & Hhi2 & _).
    specialize (Hlo1 ltac:(by eexists)).
    intros H. exists l1, l2.
    assert (tr = (l1 ++ l2)%list) as ->
      by (destruct o2; by injection H as <- <-).
    repeat split; [done|done|lia|lia|lia].
  - intros e ->. revert Hrun. unfold createRelationPlaceholders.
    destruct databases as [|db dbs]; cbn [Api.foldM].
    + intros [= <- <-]. split; [done|]. by intros [].
    + unfold Api.bind.
      destruct (create_database_rejected e parent [] db srv [])
        as (o1 & -> & Hnot).
      destruct o1 as [a|x|x|]; [by destruct (Hnot a)|..];
        intros [= <- <-]; (split; [done|]); intros _ v; discriminate.
Qed.

(** A template that cannot be instantiated is refused before anything
    is created: a database template under a parent that is not a page,
    and a template of an unknown kind, make [createFromJsonTemplate]
    throw without a single call; what it throws is the error that says
    so or, when [ensureClient] throws at its first line, that error. *)
Theorem createFromJsonTemplate_refuses_before_any_call
    ensureClient tpl kind parent parentType srv tr0 :
  get tpl "kind" = Ok kind ->
  is_str kind "page" = false ->
  (is_str kind "database" = true -> parentType <> "page") ->
  exists message,
    createFromJsonTemplate (E := E) ensureClient tpl parent parentType srv tr0
      = (Threw (match ensureClient with
                | Fulfilled _ => Error message
                | Rejected e => e
                end), tr0).
Proof.
  intros Hkind Hpage Hdb.
  unfold createFromJsonTemplate, Api.bind, lift, ensure_client.
  destruct ensureClient as [u|e]; [|by exists ""].
  rewrite Hkind, Hpage.
  destruct (is_str kind "database") eqn:Hd; [|by eexists].
  destruct (String.eqb_spec parentType "page") as [->|Hne]; [by destruct Hdb|].
  by eexists.
Qed.

Lemma append_children_run u created id chunk srv tr :
  get created "id" = Ok id ->
  append_children (E := E) (Fulfilled u) created chunk srv tr =
    (match srv tr (append_call id chunk) with
     | Fulfilled v => Returned v
     | Rejected e => Failed e
     end, (tr ++ [append_call id chunk])%list).
Proof.
  intros Hid. unfold append_children, Api.bind, lift, ensure_client.
  by rewrite Hid.
Qed.

Lemma append_children_stuck u created chunk srv tr :
  (forall id, get created "id" <> Ok id) ->
  exists o,
    append_children (E := E) (Fulfilled u) created chunk srv tr = (o, tr) /\
    forall a, o <> Returned a.
Proof.
  intros Hid. unfold append_children, Api.bind, lift, ensure_client.
  destruct (get created "id") as [id| |]; [by destruct (Hid id)| |];
    by eexists.
Qed.

Lemma append_all_calls_id u created id bs :
  get created "id" = Ok id ->
  forall srv tr o tr',
    Api.foldM (fun _ chunk =>
                 _ <~ append_children (E := E) (Fulfilled u) created chunk ;;
                 Api.ret tt) bs tt srv tr = (o, tr') ->
    exists k, k <= length bs /\
      tr' = (tr ++ map (append_call id) (take k bs))%list /\
      ((exists a, o = Returned a) -> k = length bs).
Proof.
  intros Hid. induction bs as [|chunk bs IH]; intros srv tr o tr';
    cbn [Api.foldM].
  - intros [= <- <-]. exists 0. rewrite app_nil_r. done.
  - unfold Api.bind at 1 2. rewrite (append_children_run _ _ id) by exact Hid.
    destruct (srv tr _) as [v|x].
    + unfold Api.ret at 1. intros H.
      destruct (IH _ _ _ _ H) as (k & Hk & -> & Hret).
      exists (S k). split; [simpl; lia|]. split.
      * cbn [take map]. by rewrite <- app_assoc.
      * intros Hr. simpl. f_equal. by apply Hret.
    + intros [= <- <-]. exists 1. split; [simpl; lia|].
      split; [done|]. intros [a [=]].
Qed.

Lemma append_all_calls u created bs srv tr o tr' :
  Api.foldM (fun _ chunk =>
               _ <~ append_children (E := E) (Fulfilled u) created chunk ;;
               Api.ret tt) bs tt srv tr = (o, tr') ->
  exists k id, k <= length bs /\
    tr' = (tr ++ map (append_call id) (take k bs))%list /\
    ((exists a, o = Returned a) -> k = length bs).
Proof.
  destruct (get created "id") as [id| |] eqn:Hid.
  - intros H. destruct (append_all_calls_id u created id bs Hid _ _ _ _ H)
      as (k & Hk). by exists k, id.
  - destruct bs as [|chunk bs]; cbn [Api.foldM].
    + intros [= <- <-]. exists 0, VUndef. rewrite app_nil_r. done.
    + unfold Api.bind at 1 2.
      destruct (append_children_stuck u created chunk srv tr)
        as (o1 & -> & Ho1); [intros id; congruence|].
      destruct o1 as [a|x|x|]; [by destruct (Ho1 a)|..];
        intros [= <- <-]; exists 0, VUndef; rewrite app_nil_r;
        (split; [simpl; lia|]); (split; [done|]); intros [a [=]].
  - destruct bs as [|chunk bs]; cbn [Api.foldM].
    + intros [= <- <-]. exists 0, VUndef. rewrite app_nil_r. done.
    + unfold Api.bind at 1 2.
      destruct (append_children_stuck u created chunk srv tr)
        as (o1 & -> & Ho1); [intros id; congruence|].
      destruct o1 as [a|x|x|]; [by destruct (Ho1 a)|..];
        intros [= <- <-]; exists 0, VUndef; rewrite app_nil_r;
        (split; [simpl; lia|]); (split; [done|]); intros [a [=]].
Qed.

(** [createFromJsonTemplate] on a page template whose children are an
    array.  When [ensureClient] throws, as it does in index.js, where
    [notion] is not declared, the function rejects with that error at
    its first line and calls nothing.  With a client, the page is
    created first, then its children are appended in the batches
    [Replicator.batches] describes (slices of 50 at most, in order),
    each awaited before the next.  When it returns, all batches were
    sent and the value returned is the page the API created; when a
    batch fails, the page and the batches before it stay. *)
Theorem createFromJsonTemplate_appends_children_in_batches
    ensureClient tpl items parent parentType srv o tr :
  get tpl "kind" = Ok (VStr "page") ->
  get tpl "children" = Ok (VArr items) ->
  createFromJsonTemplate (E := E) ensureClient tpl parent parentType srv []
  = (o, tr) ->
  (tr = [] \/
   exists payload k id,
     k <= length (Replicator.batches items) /\
     tr = mkCall "pages.create" payload
            :: map (append_call id) (take k (Replicator.batches items)) /\
     (forall v, o = Returned v ->
        k = length (Replicator.batches items) /\
        srv [] (mkCall "pages.create" payload) = Fulfilled v)) /\
  (forall e, ensureClient = Rejected e -> o = Threw e /\ tr = []).
Proof.
  intros Hkind Hchildren. unfold createFromJsonTemplate.
  unfold Api.bind at 1. unfold ensure_client at 1.
  destruct ensureClient as [u|e].
  2:{ intros [= <- <-]. split; [by left|]. by intros e' [= <-]. }
  intros H. split; [|intros e' [=]]. revert H.
  unfold Api.bind at 1. unfold lift at 1. rewrite Hkind.
  cbn [is_str]. rewrite String.eqb_refl.
  do 4 (unfold Api.bind at 1; unfold lift at 1;
        match goal with
        | |- context [get tpl ?k] =>
            destruct (get tpl k) as [?| |];
              [|intros [= <- <-]; by left..]
        end).
  unfold Api.bind at 1. unfold lift at 1. rewrite Hchildren.
  cbn [default_to].
  unfold Api.bind at 1.
  match goal with
  | |- context [(if String.eqb parentType "page" then ?c1 else ?c2) srv []] =>
      assert (exists op, (if String.eqb parentType "page" then c1 else c2)
                           srv [] = (op, [])) as [op ->]
  end.
  { destruct (String.eqb parentType "page"); [|by eexists].
    unfold Api.bind, lift, Api.ret.
    destruct (get _ "title") as [own| |]; [|by eexists..].
    destruct (get _ "title") as [inner| |]; by eexists. }
  destruct op as [payload|x|x|]; try (intros [= <- <-]; by left).
  unfold Api.bind at 1. rewrite client_request_fulfilled.
  unfold Api.request at 1. cbn [app].
  destruct (srv [] (mkCall "pages.create" payload)) as [created|x] eqn:Hcreate.
  2:{ intros [= <- <-]. right. exists payload, 0, VUndef.
      split; [lia|]. split; [done|]. intros v [=]. }
  unfold Api.bind at 1. unfold lift at 1.
  assert (get (VArr items) "length" = Ok (VNum (Z.of_nat (length items))))
    as -> by reflexivity.
  unfold Api.bind at 1.
  destruct (truthy (VNum (Z.of_nat (length items)))) eqn:Hlen.
  - unfold append_all.
    match goal with
    | |- context [Api.foldM ?f ?bs tt srv ?t] =>
        destruct (Api.foldM f bs tt srv t) as [o1 tr1] eqn:Hloop
    end.
    destruct (append_all_calls u created _ _ _ _ _ Hloop)
      as (k & id & Hk & -> & Hret).
    intros H. right. exists payload, k, id. split; [done|].
    destruct o1 as [[]|x|x|]; injection H as <- <-; (split; [done|]);
      [|intros v; discriminate..].
    intros v [= <-]. split; [|done]. apply Hret. by eexists.
  - unfold Api.ret. intros [= <- <-]. right. exists payload, 0, VUndef.
    assert (items = []) as ->.
    { simpl in Hlen. apply negb_false_iff, Z.eqb_eq in Hlen.
      destruct items; [done|simpl in Hlen; lia]. }
    split; [lia|]. split; [done|]. intros v [= <-].
    split; [by rewrite batches_nil|done].
Qed.

End InstallerFacts.

(** ** The Vercel backend *)

Section VercelFacts.
Import Js Api Vercel.
Local Open Scope string_scope.
Context {E : Type}.
Variable hmacSign : string -> string -> string.
Variable parse_date : string -> option Z.
Variable nowIso : string.
Variable now : Z.

Abbreviation handler :=
  (Vercel.handler (E := E) hmacSign parse_date nowIso now).
Abbreviation handleAction :=
  (Vercel.handleAction (E := E) hmacSign parse_date nowIso now).

Lemma action_of_Some pathname action :
  action_of pathname = Some action -> In action ["start"; "pause"; "stop"].
Proof.
  unfold action_of.
  repeat match goal with |- context [if ?b then _ else _] => destruct b end;
    intros [= <-]; simpl; tauto.
Qed.

(** What [handleAction] does for an action of the three. *)
Lemma handleAction_char action q e srv tr0 o tr :
  In action ["start"; "pause"; "stop"] ->
  handleAction action q e srv tr0 = (o, tr) ->
  (tr = tr0 /\ exists r, o = Returned r /\ In (statusCode r) [401; 500]%Z) \/
  (Signing.falsy (Worker.APP_SECRET e) = false /\
   Signing.falsy (Worker.NOTION_TOKEN e) = false /\
   verifySignature hmacSign (Signing.or_else (Worker.APP_SECRET e) "") q
     = true /\
   Worker.perform parse_date nowIso now action
     (member (Signing.get q "taskId")) (member (Signing.get q "tasksDbId"))
     (member (Signing.get q "calendarDbId")) srv tr0 =
     (match o with
      | Returned r => Returned (Worker.mkResponse (statusCode r)
                                  match sent r with Json v => v | Text _ => VUndef end)
      | Threw x => Threw x
      | Failed x => Failed x
      | Outside => Outside
      end, tr) /\
   forall r, o = Returned r ->
     statusCode r = 200%Z /\
     exists b, sent r = Json (VObj b) /\
       lookup "action" b = Some (VStr action)).
Proof.
  intros Hin. unfold Vercel.handleAction.
  destruct (Signing.falsy (Worker.APP_SECRET e)) eqn:Hsecret.
  { intros [= <- <-]. left. split; [done|]. eexists. split; [done|].
    simpl. tauto. }
  destruct (Signing.falsy (Worker.NOTION_TOKEN e)) eqn:Htoken.
  { intros [= <- <-]. left. split; [done|]. eexists. split; [done|].
    simpl. tauto. }
  destruct (verifySignature hmacSign _ q) eqn:Hsig; cbn [negb].
  2:{ intros [= <- <-]. left. split; [done|]. eexists. split; [done|].
      simpl. tauto. }
  unfold Api.bind.
  destruct (Worker.perform _ _ _ _ _ _ _ srv tr0) as [[r|x|x|] tr1] eqn:Hperf;
    intros [= <- <-]; right; (do 3 (split; [done|])).
  2-4: split; [done|]; intros r; discriminate.
  split; [by destruct r|].
  intros r' [= <-]. cbn [statusCode sent json].
  apply (perform_status hmacSign) in Hperf
    as [(H200 & _ & Hbody)|(_ & Hnot)]; [|done].
  split; [done|].
  destruct (Worker.body r) as [| | | | | | |b]; try discriminate.
  by exists b.
Qed.

(** The handler calls the API only on an action route under [/api],
    with both secrets configured and a query whose signature verifies.
    It then starts by retrieving the task the query names, and what it
    runs and reports is the action of the path: the [action] member
    that was signed is not compared with it. *)
Theorem handler_calls_only_for_signed_queries req e srv o tr :
  handler req e srv [] = (o, tr) ->
  tr <> [] ->
  Worker.starts_with "/api" (pathname req) = true /\
  Signing.falsy (Worker.APP_SECRET e) = false /\
  Signing.falsy (Worker.NOTION_TOKEN e) = false /\
  verifySignature hmacSign (Signing.or_else (Worker.APP_SECRET e) "")
    (query_of req) = true /\
  (exists rest,
     tr = mkCall "pages.retrieve"
            (VObj [("page_id",
                    member (Signing.get (query_of req) "taskId"))])
          :: rest) /\
  exists action,
    action_of (pathname req) = Some action /\
    forall r, o = Returned r -> statusCode r = 200%Z ->
      exists b, sent r = Json (VObj b) /\
        lookup "action" b = Some (VStr action).
Proof.
  unfold Vercel.handler, try_catch.
  destruct (Worker.starts_with "/api" (pathname req)) eqn:Hpath; cbn [negb];
    [|by intros [= <- <-]].
  destruct (action_of (pathname req)) as [action|] eqn:Haction.
  2:{ destruct (webhook_of (pathname req)) as [name|];
        [|by intros [= <- <-]].
      destruct (String.eqb (method req) "POST"); cbn [negb];
        [|by intros [= <- <-]].
      destruct (Signing.falsy (Worker.APP_SECRET e)); [by intros [= <- <-]|].
      destruct (_ || _); [by intros [= <- <-]|].
      unfold Api.bind, lift. destruct (read req); by intros [= <- <-]. }
  destruct (handleAction action (query_of req) e srv []) as [o1 tr1] eqn:Hrun.
  pose proof (action_of_Some _ _ Haction) as Hin.
  destruct (handleAction_char _ _ _ _ _ _ _ Hin Hrun)
    as [(-> & r & -> & _)|(Hs & Ht & Hsig & Hperf & Hret)].
  { by intros [= <- <-]. }
  intros H Htr.
  assert (tr = tr1) as -> by (destruct o1; by injection H as _ <-).
  split; [done|]. do 3 (split; [done|]).
  split.
  { destruct (perform_first_call (E := E) parse_date nowIso now action
                (member (Signing.get (query_of req) "taskId"))
                (member (Signing.get (query_of req) "tasksDbId"))
                (member (Signing.get (query_of req) "calendarDbId")) srv)
      as (o' & rest & Hfirst).
    rewrite Hfirst in Hperf. injection Hperf as _ <-. by exists rest. }
  exists action. split; [done|].
  intros r -> H200.
  destruct o1 as [r1|x|x|]; cbn in H.
  - injection H as ->. by destruct (Hret r eq_refl) as (_ & Hb).
  - injection H as <-. discriminate.
  - injection H as <-. discriminate.
  - discriminate.
Qed.

(** Away from the action routes the handler never calls the API, and
    it answers 200 only on a webhook route, to a POST whose query
    carries the configured [APP_SECRET] itself. *)
Theorem handler_webhook_needs_the_secret req e srv tr0 o tr :
  action_of (pathname req) = None ->
  handler req e srv tr0 = (o, tr) ->
  tr = tr0 /\
  forall r, o = Returned r -> statusCode r = 200%Z ->
    method req = "POST" /\
    exists name secret,
      webhook_of (pathname req) = Some name /\
      Worker.APP_SECRET e = Some secret /\ secret <> "" /\
      Signing.sp_get (searchParams req) "secret" = Some secret /\
      exists body,
        read req = Ok body /\
        sent r = Json (VObj [("ok", VBool true); ("webhook", VStr name);
                             ("received", VBool (truthy body))]).
Proof.
  intros Haction. unfold Vercel.handler, try_catch. rewrite Haction.
  destruct (Worker.starts_with "/api" (pathname req)); cbn [negb].
  2:{ intros [= <- <-]. split; [done|]. intros r [= <-]. discriminate. }
  destruct (webhook_of (pathname req)) as [name|].
  2:{ intros [= <- <-]. split; [done|]. intros r [= <-]. discriminate. }
  destruct (String.eqb_spec (method req) "POST") as [Hpost|_]; cbn [negb].
  2:{ intros [= <- <-]. split; [done|]. intros r [= <-]. discriminate. }
  destruct (Signing.falsy (Worker.APP_SECRET e)) eqn:Hsecret.
  { intros [= <- <-]. split; [done|]. intros r [= <-]. discriminate. }
  destruct (Signing.falsy (Signing.sp_get (searchParams req) "secret"))
    eqn:Hprovided; cbn [orb].
  { intros [= <- <-]. split; [done|]. intros r [= <-]. discriminate. }
  destruct (String.eqb_spec
              (Signing.or_else (Signing.sp_get (searchParams req) "secret") "")
              (Signing.or_else (Worker.APP_SECRET e) "")) as [Heq|_];
    cbn [negb].
  2:{ intros [= <- <-]. split; [done|]. intros r [= <-]. discriminate. }
  unfold Api.bind, lift.
  destruct (read req) as [body|x|]; intros [= <- <-]; (split; [done|]);
    intros r [= <-]; [|discriminate]. intros _.
  split; [done|].
  destruct (Worker.APP_SECRET e) as [secret|]; [|discriminate].
  destruct (Signing.sp_get (searchParams req) "secret") as [provided|];
    [|discriminate].
  exists name, secret. split; [done|]. split; [done|].
  assert (secret <> "") as Hne by (intros ->; discriminate).
  split; [done|].
  assert (provided <> "") as Hne' by (intros ->; discriminate).
  split.
  { f_equal. revert Heq. unfold Signing.or_else.
    destruct provided; [done|]. by destruct secret. }
  by exists body.
Qed.

(** The handler never rejects: whatever the API does, it writes an
    answer, with one of the statuses 200, 401, 404, 405 and 500, and an
    answer other than 200 and 500 is written before any call. *)
Theorem handler_always_answers req e srv tr0 :
  fst (handler req e srv tr0) = Outside \/
  exists r, fst (handler req e srv tr0) = Returned r /\
    In (statusCode r) [200; 401; 404; 405; 500]%Z /\
    (In (statusCode r) [401; 404; 405]%Z ->
     snd (handler req e srv tr0) = tr0).
Proof.
  destruct (handler req e srv tr0) as [o tr] eqn:Hrun. cbn [fst snd].
  revert Hrun. unfold Vercel.handler, try_catch.
  destruct (Worker.starts_with "/api" (pathname req)); cbn [negb];
    [|intros [= <- <-]; right; eexists; split; [done|]; simpl; tauto].
  destruct (action_of (pathname req)) as [action|] eqn:Haction.
  2:{ destruct (webhook_of (pathname req)) as [name|];
        [|intros [= <- <-]; right; eexists; split; [done|]; simpl; tauto].
      destruct (String.eqb (method req) "POST"); cbn [negb];
        [|intros [= <- <-]; right; eexists; split; [done|]; simpl; tauto].
      destruct (Signing.falsy (Worker.APP_SECRET e));
        [intros [= <- <-]; right; eexists; split; [done|]; simpl; tauto|].
      destruct (_ || _);
        [intros [= <- <-]; right; eexists; split; [done|]; simpl; tauto|].
      unfold Api.bind, lift.
      destruct (read req); intros [= <- <-]; [| |by left];
        right; eexists; (split; [done|]); simpl; tauto. }
  destruct (handleAction action (query_of req) e srv tr0) as [o1 tr1] eqn:Hrun.
  pose proof (action_of_Some _ _ Haction) as Hin.
  destruct (handleAction_char _ _ _ _ _ _ _ Hin Hrun)
    as [(-> & r & -> & Hst)|(_ & _ & _ & _ & Hret)].
  { intros [= <- <-]. right. exists r. split; [done|].
    split; [|done]. simpl in *. tauto. }
  destruct o1 as [r|x|x|]; intros [= <- <-]; [| | |by left].
  - right. exists r. split; [done|].
    destruct (Hret r eq_refl) as [-> _]. simpl. split; [tauto|].
    intros [H|[H|[H|[]]]]; discriminate.
  - right. eexists. split; [done|]. simpl. split; [tauto|].
    intros [H|[H|[H|[]]]]; discriminate.
  - right. eexists. split; [done|]. simpl. split; [tauto|].
    intros [H|[H|[H|[]]]]; discriminate.
Qed.

End VercelFacts.
Section InstallerExamples.
Local Open Scope string_scope.

Lemma createRelationPlaceholders_two_passes_witness :
  (snd script_blueprint_run = [] /\
   forall v, fst script_blueprint_run <> Api.Returned v) /\
  exists creates updates,
    snd demo_blueprint_run = (creates ++ updates)%list /\
    Forall (fun c => Api.method c = "databases.create") creates /\
    Forall (fun c => Api.method c = "databases.update") updates /\
    length creates = length [demo_projects; demo_database].
Proof.
  split.
  - destruct (createRelationPlaceholders_two_passes (E := nat) script_ensure
                [demo_projects; demo_database] "parent-1" demo_workspace
                (fst script_blueprint_run) (snd script_blueprint_run))
      as (_ & Hscript); [vm_compute; reflexivity|].
    destruct (Hscript Js.ReferenceError eq_refl) as [Hnone Hnot].
    split; [exact Hnone|]. apply Hnot. discriminate.
  - destruct (createRelationPlaceholders_two_passes (E := nat) (Fulfilled tt)
                [demo_projects; demo_database] "parent-1" demo_workspace
                (fst demo_blueprint_run) (snd demo_blueprint_run))
      as ((creates & updates & Htr & Hc & Hu & _ & _ & Hall) & _);
      [vm_compute; reflexivity|].
    exists creates, updates. split; [exact Htr|]. split; [exact Hc|].
    split; [exact Hu|]. apply Hall. right. by eexists.
Defined.

Lemma createFromJsonTemplate_refuses_before_any_call_witness :
  (exists message,
     Installer.createFromJsonTemplate (E := nat) (Fulfilled tt)
       demo_database_template "parent-1" "database" demo_workspace []
     = (Api.Threw (Js.Error message), [])) /\
  Installer.createFromJsonTemplate (E := nat) script_ensure
    demo_database_template "parent-1" "database" demo_workspace []
  = (Api.Threw Js.ReferenceError, []).
Proof.
  split.
  - apply (createFromJsonTemplate_refuses_before_any_call (E := nat)
             (Fulfilled tt) demo_database_template (Js.VStr "database")
             "parent-1" "database" demo_workspace [] eq_refl eq_refl).
    intros _. discriminate.
  - destruct (createFromJsonTemplate_refuses_before_any_call (E := nat)
                script_ensure demo_database_template (Js.VStr "database")
                "parent-1" "database" demo_workspace [] eq_refl eq_refl)
      as [message Hscript]; [intros _; discriminate|].
    exact Hscript.
Defined.

Lemma createFromJsonTemplate_appends_children_in_batches_witness :
  (fst script_template_run = Api.Threw Js.ReferenceError /\
   snd script_template_run = []) /\
  (snd demo_template_run = [] \/
   exists payload k id,
     k <= length (Replicator.batches demo_children) /\
     snd demo_template_run =
       Api.mkCall "pages.create" payload
         :: map (Installer.append_call id)
              (take k (Replicator.batches demo_children)) /\
     (forall v, fst demo_template_run = Api.Returned v ->
        k = length (Replicator.batches demo_children) /\
        demo_workspace [] (Api.mkCall "pages.create" payload) = Fulfilled v)).
Proof.
  split.
  - destruct (createFromJsonTemplate_appends_children_in_batches (E := nat)
                script_ensure demo_template demo_children "parent-1" "page"
                demo_workspace (fst script_template_run)
                (snd script_template_run) eq_refl eq_refl)
      as (_ & Hscript); [vm_compute; reflexivity|].
    exact (Hscript Js.ReferenceError eq_refl).
  - destruct (createFromJsonTemplate_appends_children_in_batches (E := nat)
                (Fulfilled tt) demo_template demo_children "parent-1" "page"
                demo_workspace (fst demo_template_run)
                (snd demo_template_run) eq_refl eq_refl)
      as (Hcalls & _); [vm_compute; reflexivity|].
    exact Hcalls.
Defined.

End InstallerExamples.

Section VercelExamples.
Local Open Scope string_scope.

Lemma handler_calls_only_for_signed_queries_witness :
  Vercel.verifySignature Sha256.hmac_sha256_hex
    (Signing.or_else (Worker.APP_SECRET demo_env) "")
    (Vercel.query_of demo_vercel_request) = true /\
  Signing.get (Vercel.query_of demo_vercel_request) "action" = Some "start" /\
  Vercel.action_of (Vercel.pathname demo_vercel_request) = Some "stop".
Proof.
  destruct (handler_calls_only_for_signed_queries (E := nat)
              Sha256.hmac_sha256_hex demo_parse_date
              "2023-11-14T22:14:50.000Z" 1700000090000%Z
              demo_vercel_request demo_env demo_notion
              (fst demo_vercel_run) (snd demo_vercel_run))
    as (_ & _ & _ & Hsig & _ & _); [vm_compute; reflexivity|discriminate|].
  split; [exact Hsig|]. split; reflexivity.
Defined.

Lemma handler_webhook_needs_the_secret_witness :
  snd demo_webhook_run = [] /\
  Vercel.method demo_webhook_request = "POST".
Proof.
  destruct (handler_webhook_needs_the_secret (E := nat)
              Sha256.hmac_sha256_hex demo_parse_date
              "2023-11-14T22:14:50.000Z" 1700000090000%Z
              demo_webhook_request demo_env demo_notion []
              (fst demo_webhook_run) (snd demo_webhook_run))
    as (Htr & Hok); [reflexivity|vm_compute; reflexivity|].
  split; [exact Htr|].
  destruct (Hok {| Vercel.statusCode := 200;
                   Vercel.sent :=
                     Vercel.Json
                       (Js.VObj [("ok", Js.VBool true);
                                 ("webhook", Js.VStr "notion");
                                 ("received", Js.VBool true)]) |}
              eq_refl eq_refl) as (Hpost & _).
  exact Hpost.
Defined.

End VercelExamples.

(** ** cloneFromMaster *)

Section CloneFacts.
Import Js Api Installer.
Local Open Scope string_scope.
Context {E : Type}.
Variable getAllBlocks : string -> async E value.
Variable cloneBlocksRecursive : value -> value -> async E unit.

Abbreviation exportMaster c := (Installer.exportMaster c getAllBlocks).
Abbreviation cloneFromMaster c :=
  (Installer.cloneFromMaster c getAllBlocks cloneBlocksRecursive).

(** [cloneFromMaster] begins with [ensureClient()]: when that throws,
    it rejects with that error before any call. *)
Lemma cloneFromMaster_rejected e masterId target mode srv tr0 :
  cloneFromMaster (Rejected e) masterId target mode srv tr0 = (Threw e, tr0).
Proof. reflexivity. Qed.

(** When [ensureClient] throws, as it does in index.js, where [notion]
    is not declared, [cloneFromMaster] rejects with that error before
    any call.  With a client, [cloneFromMaster] takes the title of the
    new page only from a property that is itself named [title]: for a
    master page without such a property, as is a row of a database
    whose title property bears another name, the new page is created
    under the target page with the title ['Cloned Page'], whatever the
    title of the master is. *)
Theorem cloneFromMaster_reads_only_the_member_title
    ensureClient masterId target mode srv tr0 page blocks props tr1 :
  (forall a b, extends (cloneBlocksRecursive a b)) ->
  (forall e, ensureClient = Rejected e ->
     cloneFromMaster ensureClient masterId target mode srv tr0
     = (Threw e, tr0)) /\
  (exportMaster ensureClient masterId srv tr0 =
     (Returned (VObj [("kind", VStr "page"); ("page", page);
                      ("blocks", blocks)]), tr1) ->
   get page "properties" = Ok (VObj props) ->
   lookup "title" props = None ->
   mode <> "into_database" ->
   exists o rest,
     cloneFromMaster ensureClient masterId target mode srv tr0 =
       (o, (tr1 ++
            mkCall "pages.create"
              (VObj [("parent", VObj [("page_id", VStr target)]);
                     ("properties",
                      VObj [("title",
                             VObj [("title",
                                    title_text (VStr "Cloned Page"))])])])
            :: rest)%list)).
Proof.
  intros Hext. split; [intros e ->; apply cloneFromMaster_rejected|].
  destruct ensureClient as [u|e]; [|discriminate].
  intros Hmaster Hprops Htitle Hmode.
  unfold Installer.cloneFromMaster.
  unfold Api.bind at 1. unfold ensure_client at 1.
  unfold Api.bind at 1. rewrite Hmaster.
  unfold Api.bind at 1. unfold lift at 1.
  assert (get (VObj [("kind", VStr "page"); ("page", page);
                     ("blocks", blocks)]) "kind" = Ok (VStr "page"))
    as -> by reflexivity.
  cbn [is_str]. rewrite String.eqb_refl.
  unfold Api.bind at 1. unfold lift at 1.
  assert (get (VObj [("kind", VStr "page"); ("page", page);
                     ("blocks", blocks)]) "page" = Ok page)
    as -> by reflexivity.
  unfold Api.bind at 1. unfold lift at 1. rewrite Hprops.
  unfold Api.bind at 1. unfold lift at 1.
  assert (get_opt (VObj props) "title" = Ok VUndef) as ->.
  { unfold get_opt, get. cbn [nullish]. rewrite Htitle. reflexivity. }
  unfold Api.bind at 1. unfold lift at 1.
  assert (cloned_page_title VUndef = Ok (VStr "Cloned Page")) as ->
    by reflexivity.
  destruct (String.eqb_spec mode "into_database") as [->|_]; [done|].
  unfold Api.bind at 1.
  change (client_request (E := E) (Fulfilled u)) with (Api.request (E := E)).
  unfold Api.request at 1.
  match goal with
  | |- context [srv tr1 ?c] => destruct (srv tr1 c) as [newPage|x]
  end; [|by eexists _, []].
  match goal with
  | |- context [clone_blocks_into ?f ?p ?n ?s ?t] =>
      destruct (clone_blocks_into f p n s t) as [o tr] eqn:Hrun
  end.
  assert (extends (clone_blocks_into cloneBlocksRecursive page newPage))
    as Hclone.
  { unfold clone_blocks_into.
    apply extends_bind; [apply extends_lift|]. intros source.
    apply extends_bind; [apply extends_lift|]. intros dst.
    apply extends_bind; [apply Hext|]. intros _. apply extends_ret. }
  destruct (Hclone _ _ _ _ Hrun) as [l ->].
  exists o, l. by rewrite <- app_assoc.
Qed.

(** When [ensureClient] throws, as it does in index.js, where [notion]
    is not declared, [cloneFromMaster] rejects with that error before
    any call.  With a client, cloning a database copies its schema and
    nothing else.  After the export, [cloneFromMaster] first retrieves
    the target as a page and then creates the database: it makes no
    other call.  When the retrieval is rejected, for whatever reason,
    it creates nothing and throws the fixed message that the target
    must be a page; when it returns, the database was created with the
    properties [transformPropertiesToCreate] makes of those of the
    master. *)
Theorem cloneFromMaster_database_copies_schema_only
    ensureClient masterId target mode srv tr0 db tr1 o tr :
  cloneFromMaster ensureClient masterId target mode srv tr0 = (o, tr) ->
  (forall e, ensureClient = Rejected e -> o = Threw e /\ tr = tr0) /\
  (exportMaster ensureClient masterId srv tr0 =
     (Returned (VObj [("kind", VStr "database"); ("database", db)]), tr1) ->
   (tr = (tr1 ++ [mkCall "pages.retrieve"
                    (VObj [("page_id", VStr target)])])%list \/
    exists payload,
      tr = (tr1 ++ [mkCall "pages.retrieve" (VObj [("page_id", VStr target)]);
                    mkCall "databases.create" payload])%list) /\
   (forall e,
      srv tr1 (mkCall "pages.retrieve" (VObj [("page_id", VStr target)]))
        = Rejected e ->
      o = Threw target_must_be_page /\
      tr = (tr1 ++ [mkCall "pages.retrieve"
                      (VObj [("page_id", VStr target)])])%list) /\
   (forall v, o = Returned v ->
      exists properties schema title,
        get db "properties" = Ok properties /\
        Schema.transformPropertiesToCreate properties = Ok schema /\
        tr = (tr1 ++ [mkCall "pages.retrieve"
                        (VObj [("page_id", VStr target)]);
                      mkCall "databases.create"
                        (VObj [("parent", VObj [("page_id", VStr target)]);
                               ("title", title_text title);
                               ("properties", schema)])])%list)).
Proof.
  intros Hrun. split.
  { intros e ->. rewrite cloneFromMaster_rejected in Hrun.
    by injection Hrun as <- <-. }
  destruct ensureClient as [u|e]; [|discriminate].
  intros Hmaster. revert Hrun. unfold Installer.cloneFromMaster.
  unfold Api.bind at 1. unfold ensure_client at 1.
  unfold Api.bind at 1. rewrite Hmaster.
  unfold Api.bind at 1. unfold lift at 1.
  assert (get (VObj [("kind", VStr "database"); ("database", db)]) "kind"
          = Ok (VStr "database")) as -> by reflexivity.
  assert (is_str (VStr "database") "page" = false) as -> by reflexivity.
  assert (is_str (VStr "database") "database" = true) as -> by reflexivity.
  change (client_request (E := E) (Fulfilled u)) with (Api.request (E := E)).
  unfold Api.bind at 1. unfold try_catch, Api.request at 1, Api.throw.
  destruct (srv tr1 _) as [found|x] eqn:Hcheck.
  2:{ intros [= <- <-]. split; [by left|]. split; [done|].
      intros v [=]. }
  unfold Api.bind at 1. unfold lift at 1.
  assert (get (VObj [("kind", VStr "database"); ("database", db)]) "database"
          = Ok db) as -> by reflexivity.
  unfold Api.bind at 1. unfold lift at 1.
  destruct (get db "properties") as [properties| |] eqn:Hprops;
    [|intros [= <- <-]; (split; [by left|]); (split; [done|]);
      intros v [=]..].
  unfold Api.bind at 1. unfold lift at 1.
  destruct (Schema.transformPropertiesToCreate properties)
    as [schema| |] eqn:Hschema;
    [|intros [= <- <-]; (split; [by left|]); (split; [done|]);
      intros v [=]..].
  unfold Api.bind at 1. unfold lift at 1.
  destruct (get db "title") as [t| |];
    [|intros [= <- <-]; (split; [by left|]); (split; [done|]);
      intros v [=]..].
  unfold Api.bind at 1. unfold lift at 1.
  destruct (cloned_database_title t) as [title| |];
    [|intros [= <- <-]; (split; [by left|]); (split; [done|]);
      intros v [=]..].
  unfold Api.request. rewrite <- app_assoc. cbn [app].
  intros [= <- <-]. split; [right; by eexists|]. split; [done|].
  intros v _. by exists properties, schema, title.
Qed.

End CloneFacts.

Section CloneExamples.
Local Open Scope string_scope.

Lemma cloneFromMaster_reads_only_the_member_title_witness :
  Installer.cloneFromMaster script_ensure demo_get_blocks demo_clone_blocks
    "page-1" "parent-1" "under_page" demo_master_server []
  = (Api.Threw Js.ReferenceError, []) /\
  Schema.getPageTitleText (Js.VObj demo_page) = Js.Ok "Hello World" /\
  exists o rest,
    Installer.cloneFromMaster (Fulfilled tt) demo_get_blocks
      demo_clone_blocks "page-1" "parent-1" "under_page"
      demo_master_server [] =
      (o, ([Api.mkCall "pages.retrieve"
              (Js.VObj [("page_id", Js.VStr "page-1")])] ++
           Api.mkCall "pages.create"
             (Js.VObj
                [("parent", Js.VObj [("page_id", Js.VStr "parent-1")]);
                 ("properties",
                  Js.VObj
                    [("title",
                      Js.VObj
                        [("title",
                          Installer.title_text (Js.VStr "Cloned Page"))])])])
           :: rest)%list).
Proof.
  split; [|split; [reflexivity|]].
  - destruct (cloneFromMaster_reads_only_the_member_title (E := nat)
                demo_get_blocks demo_clone_blocks script_ensure "page-1"
                "parent-1" "under_page" demo_master_server []
                Js.VUndef Js.VUndef [] [])
      as [Hscript _]; [intros a b; apply extends_ret|].
    exact (Hscript Js.ReferenceError eq_refl).
  - destruct (cloneFromMaster_reads_only_the_member_title (E := nat)
                demo_get_blocks demo_clone_blocks (Fulfilled tt) "page-1"
                "parent-1" "under_page" demo_master_server []
                (Js.VObj demo_page) (Js.VArr [])
                [("Status", Js.VObj [("type", Js.VStr "status")]);
                 ("Title", Js.VObj [("type", Js.VStr "title");
                                    ("title", Js.VArr demo_title_items)])]
                [Api.mkCall "pages.retrieve"
                   (Js.VObj [("page_id", Js.VStr "page-1")])])
      as [_ Hclient]; [intros a b; apply extends_ret|].
    apply Hclient; [reflexivity|reflexivity|reflexivity|discriminate].
Defined.

Lemma cloneFromMaster_database_copies_schema_only_witness :
  (fst script_clone_database_run = Api.Threw Js.ReferenceError /\
   snd script_clone_database_run = []) /\
  fst demo_clone_database_run = Api.Threw Installer.target_must_be_page /\
  snd demo_clone_database_run =
    ([Api.mkCall "pages.retrieve" (Js.VObj [("page_id", Js.VStr "db-1")]);
      Api.mkCall "databases.retrieve"
        (Js.VObj [("database_id", Js.VStr "db-1")])] ++
     [Api.mkCall "pages.retrieve"
        (Js.VObj [("page_id", Js.VStr "parent-1")])])%list.
Proof.
  split.
  - destruct (cloneFromMaster_database_copies_schema_only (E := nat)
                demo_get_blocks demo_clone_blocks script_ensure "db-1"
                "parent-1" "under_page" demo_database_server []
                Js.VUndef [] (fst script_clone_database_run)
                (snd script_clone_database_run))
      as (Hscript & _); [reflexivity|].
    exact (Hscript Js.ReferenceError eq_refl).
  - destruct (cloneFromMaster_database_copies_schema_only (E := nat)
                demo_get_blocks demo_clone_blocks (Fulfilled tt) "db-1"
                "parent-1" "under_page" demo_database_server []
                (Js.VObj [("id", Js.VStr "db-1");
                          ("properties", Js.VObj demo_database_properties)])
                [Api.mkCall "pages.retrieve"
                   (Js.VObj [("page_id", Js.VStr "db-1")]);
                 Api.mkCall "databases.retrieve"
                   (Js.VObj [("database_id", Js.VStr "db-1")])]
                (fst demo_clone_database_run) (snd demo_clone_database_run))
      as (_ & Hclient); [reflexivity|].
    destruct (Hclient eq_refl) as (_ & Hrejected & _).
    exact (Hrejected 404 eq_refl).
Defined.

End CloneExamples.

(** ** createSeeds *)

Section SeedsFacts.
Import Js Api Installer.
Local Open Scope string_scope.
Context {E : Type}.

Lemma only_ret {A} P (a : A) : only (E := E) P (Api.ret a).
Proof.
  intros srv tr o tr' [= <- <-]. exists []. by rewrite app_nil_r.
Qed.

Lemma only_lift {A} P (r : res A) : only (E := E) P (lift r).
Proof.
  intros srv tr o tr' [= <- <-]. exists []. by rewrite app_nil_r.
Qed.

Lemma only_request P m arg :
  P (mkCall m arg) -> only (E := E) P (Api.request m arg).
Proof.
  intros HP srv tr o tr' [= <- <-]. exists [mkCall m arg].
  split; [done|]. by repeat constructor.
Qed.

Lemma only_bind {A B} P (c : async E A) (k : A -> async E B) :
  only P c -> (forall a, only P (k a)) -> only P (Api.bind c k).
Proof.
  intros Hc Hk srv tr o tr'. unfold Api.bind.
  destruct (c srv tr) as [o1 tr1] eqn:Hc1.
  destruct (Hc _ _ _ _ Hc1) as (l1 & -> & HP1).
  destruct o1 as [a|x|x|]; try (intros [= <- <-]; by exists l1).
  intros H. destruct (Hk a _ _ _ _ H) as (l2 & -> & HP2).
  exists (l1 ++ l2)%list. rewrite app_assoc. split; [done|].
  by apply Forall_app.
Qed.

Lemma only_foldM {A B} P (f : A -> B -> async E A) xs : forall a,
  (forall a x, In x xs -> only P (f a x)) -> only P (Api.foldM f xs a).
Proof.
  induction xs as [|x xs IH]; intros a Hf; cbn [Api.foldM].
  - apply only_ret.
  - apply only_bind; [apply Hf; by left|]. intros a'. apply IH.
    intros a'' y Hy. apply Hf. by right.
Qed.

Lemma only_ensure_client P ensureClient :
  only (E := E) P (ensure_client ensureClient).
Proof.
  intros srv tr o tr' [= <- <-]. exists []. by rewrite app_nil_r.
Qed.

Lemma only_client_request P ensureClient m arg :
  P (mkCall m arg) -> only (E := E) P (client_request ensureClient m arg).
Proof.
  intros HP. apply only_bind; [apply only_ensure_client|].
  intros _. by apply only_request.
Qed.

Lemma seed_database_only ensureClient es aliasToId created entry :
  In entry es ->
  only (E := E) (seeds_call es aliasToId)
    (seed_database ensureClient aliasToId created entry).
Proof.
  intros Hin srv tr o tr'. unfold seed_database.
  unfold Api.bind at 1. unfold lift at 1.
  destruct (get aliasToId (fst entry)) as [id| |] eqn:Hget;
    [|intros [= <- <-]; exists []; by rewrite app_nil_r..].
  destruct (truthy id) eqn:Hid; cbn [negb];
    [|intros [= <- <-]; exists []; by rewrite app_nil_r].
  assert (forall c,
            c = mkCall "databases.retrieve" (VObj [("database_id", id)]) \/
            (exists properties,
               c = mkCall "pages.create"
                     (VObj [("parent", VObj [("database_id", id)]);
                            ("properties", properties)])) ->
            seeds_call es aliasToId c) as Hcall.
  { intros c Hc. exists (fst entry), (snd entry), id.
    split; [by destruct entry|]. done. }
  revert srv tr o tr'.
  change (only (E := E) (seeds_call es aliasToId)
            (titleName <~ getDatabaseTitlePropName ensureClient id ;;
             items <~ lift (iterate (snd entry)) ;;
             Api.foldM (seed_row ensureClient id titleName (fst entry))
               items created)).
  apply only_bind.
  { unfold getDatabaseTitlePropName.
    apply only_bind; [apply only_ensure_client|]. intros _.
    apply only_bind; [apply only_client_request; apply Hcall; by left|].
    intros db. apply only_lift. }
  intros titleName. apply only_bind; [apply only_lift|]. intros items.
  apply only_foldM. intros rows row _. unfold seed_row.
  apply only_bind; [apply only_lift|]. intros properties.
  apply only_bind; [|intros page; apply only_lift].
  apply only_client_request. apply Hcall. right. by eexists.
Qed.

(** An alias that [aliasToId] does not resolve costs nothing. *)
Lemma seed_database_skips ensureClient aliasToId created entry id :
  get aliasToId (fst entry) = Ok id -> truthy id = false ->
  seed_database (E := E) ensureClient aliasToId created entry
  = Api.ret created.
Proof.
  intros Hget Hid. unfold seed_database, Api.bind, lift.
  rewrite Hget, Hid. reflexivity.
Qed.

(** Every call of [createSeeds] is the retrieval of a database that
    [aliasToId] gives for an alias of the seeds, or the creation of a
    page in such a database.  Rows listed under an alias that
    [aliasToId] does not know, or maps to something falsy, are dropped
    without a call and without an error: when this holds of every
    alias, [createSeeds] calls nothing and returns empty-handed. *)
Theorem createSeeds_creates_only_in_known_databases
    ensureClient es ids srv o tr :
  createSeeds (E := E) ensureClient (VObj es) (VObj ids) srv [] = (o, tr) ->
  Forall (seeds_call es (VObj ids)) tr /\
  ((forall alias rows, In (alias, rows) es ->
      exists id, get (VObj ids) alias = Ok id /\ truthy id = false) ->
   tr = [] /\
   o = Returned (VObj [("pages", VObj []); ("rows", VObj [])])).
Proof.
  unfold createSeeds. cbn [default_to or_else truthy entries].
  unfold Api.bind at 1. unfold lift at 1. cbn [Js.ret].
  intros H. split.
  - assert (only (E := E) (seeds_call es (VObj ids))
              (rows <~ Api.foldM (seed_database ensureClient (VObj ids))
                         es [] ;;
               Api.ret (VObj [("pages", VObj []); ("rows", VObj rows)])))
      as Honly.
    { apply only_bind; [|intros rows; apply only_ret].
      apply only_foldM. intros created entry Hin.
      by apply seed_database_only. }
    destruct (Honly _ _ _ _ H) as (l & -> & Hl). exact Hl.
  - intros Hunknown.
    assert (forall created srv tr,
              Api.foldM (E := E) (seed_database ensureClient (VObj ids))
                es created srv tr
              = (Returned created, tr)) as Hskip.
    { clear H. induction es as [|[alias rows] es' IH]; intros created srv' tr';
        cbn [Api.foldM]; [done|].
      destruct (Hunknown alias rows ltac:(by left)) as (id & Hget & Hid).
      rewrite (seed_database_skips ensureClient (VObj ids) created
                 (alias, rows) id) by done.
      unfold Api.bind, Api.ret. apply IH.
      intros alias' rows' Hin. apply (Hunknown alias' rows'). by right. }
    unfold Api.bind in H. rewrite Hskip in H. by injection H as <- <-.
Qed.

End SeedsFacts.

Lemma createSeeds_creates_only_in_known_databases_witness :
  Forall (Installer.seeds_call demo_seeds (Js.VObj demo_alias_ids))
    (snd demo_seeds_run) /\
  length (snd demo_seeds_run) = 2 /\
  Forall (Installer.seeds_call demo_seeds (Js.VObj demo_alias_ids))
    (snd script_seeds_run) /\
  script_seeds_run = (Api.Threw Js.ReferenceError, []).
Proof.
  destruct (createSeeds_creates_only_in_known_databases (E := nat)
              (Fulfilled tt) demo_seeds demo_alias_ids demo_notion
              (fst demo_seeds_run) (snd demo_seeds_run))
    as [Hall _]; [reflexivity|].
  destruct (createSeeds_creates_only_in_known_databases (E := nat)
              script_ensure demo_seeds demo_alias_ids demo_notion
              (fst script_seeds_run) (snd script_seeds_run))
    as [Hscript _]; [reflexivity|].
  split; [exact Hall|]. split; [reflexivity|].
  split; [exact Hscript|reflexivity].
Defined.
